(* ===== verification/_CoqProject ===== *)
-Q . S2P
Prelude.v
OrderedSet.v
Float64.v
Text.v
BrokerTypes.v
TimeFrame.v
InsightTypes.v
Commands.v
ExecutionData.v
Insight.v
InsightInvariant.v
Operations.v
Scripted.v
Submission.v
OrderReducer.v
RecoveryViews.v
Collection.v
CollectionInvariant.v
CollectionReaders.v
AccountLane.v
BrokerLimit.v
LaneSchedule.v
Checkpoint.v
Journal.v
JournalFacts.v
CommandWorker.v
CommandWorkerFacts.v
CommandDriver.v
CommandDriverFacts.v
CommandLife.v
DriverOwnership.v
GraphRecovery.v
GraphRecoveryFacts.v
RecoveryRoundTrip.v
SnapshotDependencies.v
Pipeline.v
PipelineFacts.v
WorkQueue.v
StrategyOwner.v
StrategyOwnerFacts.v
ExecutionPersistence.v
OwnerTurns.v
EntryGate.v
PersistenceFacts.v
PipelineRun.v
PipelineRunFacts.v
PipelineSweep.v
ExecutionRuntime.v
QuantitySizing.v
Reservations.v
TradingClock.v
BuiltinPipes.v
DcaLevels.v
BuiltinPipeFacts.v
