(* ===== verification/Prelude.v ===== *)
(** * A verified model of the AlgoQuant Engine's order core

    The AlgoQuant Engine (crate [aq-engine], sources under [src/]) runs trading
    strategies.  A strategy produces insights; an insight is a trading intent
    with a life cycle (new, executed, filled, closed, cancelled, rejected).
    Operations on an insight queue broker commands, the broker's answers and
    trade events are reduced into the insight, and a collection owns all
    insights of a strategy together with the indexes the engine reads in
    bounded pages.  Commands pass from the strategy's driver through a durable
    journal to a worker task that alone talks to the broker, in turn with the
    other workers of the account; results return the same way.  This
    development models that core and proves it correct: an entry is submitted
    at most once, also across crashes; exits stay within the open quantity;
    evidence moves insights only along allowed transitions; the indexes agree
    with the insights; nothing is sent or reported before it is durable; and
    broker limits hold for all workers of an account together.

    ** Files and what they model

    - [Prelude]: record update, [Result], options, tactics, counting in maps.
    - [OrderedSet]: the standard library's [BTreeSet<Uuid>], cursor pages and
      sweeps ([range(..).take(limit)]).
    - [Float64]: [f64] as Rocq's primitive IEEE binary64 with the comparisons
      and rounding functions the code uses.
    - [Text]: [str] methods, formatted messages as lists of pieces, UUID text.
    - [BrokerTypes]: orders, legs, assets, fees, accounts, lifecycle snapshots
      and close accounting ([core/broker/types/mod.rs], [core/broker/features.rs],
      [core/utils/tools.rs], [live-sync-protocol/src/position_accounting.rs]).
    - [TimeFrame]: [core/utils/timeframe.rs].
    - [InsightTypes]: [core/insight/types/mod.rs].
    - [Commands]: broker commands and their validation ([core/broker/commands.rs]).
    - [ExecutionData]: bounded custom data ([core/insight/execution_data.rs]).
    - [Insight]: the record and its own operations ([core/insight/insight.rs],
      [core/insight/position_accounting.rs]); [InsightInvariant] holds its
      well-formedness and reachability.
    - [Operations]: submit, cancel, close, amendments, expiry and polling
      ([core/insight/operations.rs]) against the interface [StrategyContext];
      [Scripted] is a concrete context, [Submission] the theorems about what
      reaches the broker.
    - [OrderReducer]: [core/strategy/order_reducer.rs], the order helpers of
      [core/strategy/mod.rs] and [terminal_order] of
      [core/strategy/lifecycle_reconciliation.rs].
    - [RecoveryViews]: [core/insight/recovery_views.rs].
    - [Collection]: [InsightCollection] of [core/insight/mod.rs];
      [CollectionInvariant] and [CollectionReaders] hold its theorems.
    - [AccountLane]: the mutation slot of a broker account and its capacity
      reservations ([core/broker/command_worker/account_lane.rs]);
      [BrokerLimit] puts it against a broker, [LaneSchedule] is its schedule.
    - [Checkpoint]: the durable form of an insight
      ([core/insight/execution_checkpoint.rs]).
    - [Journal]: the tables of the command journal and every operation on them
      ([core/broker/command_journal.rs] with [checkpoints.rs],
      [reconciliation.rs], [cancellation_recovery.rs], [lifecycle.rs]), as a
      state and error monad with transactions; [JournalFacts] holds its
      theorems.
    - [CommandWorker]: the worker task ([core/broker/command_worker.rs],
      [stop.rs]), every wait of its loop a stage of a state machine;
      [CommandWorkerFacts] runs it with crashes and restarts.
    - [CommandDriver]: the strategy's side ([core/strategy/command_driver.rs]);
      [CommandDriverFacts] is its invariant, [CommandLife] its contract and the
      composition of driver, worker and journal, [DriverOwnership] which of its
      operations keep every command with its owner.
    - [GraphRecovery]: rebuilding the insights from their rows
      ([core/strategy/execution_recovery.rs], [ExecutionRecovery] of
      [core/broker/command_journal/recovery.rs]); [GraphRecoveryFacts] and
      [RecoveryRoundTrip] hold its theorems.
    - [SnapshotDependencies]: which suspended insight waits for which snapshot
      ([core/strategy/snapshot_dependencies.rs]), with its theorems.
    - [Pipeline]: results, filters, scopes and the wrapper of a pipe
      ([core/pipeline/mod.rs]), the composites [and_pipe.rs] and [or_pipe.rs]
      over an interface of leaf pipes, and the pipeline of a strategy with its
      saved continuations ([core/strategy/types/mod.rs]); [PipelineFacts] holds
      its theorems.
    - [WorkQueue]: the queue of entries, cleanups and child cursors
      ([InsightWorkQueue] of [core/strategy/insight_work.rs]).
    - [StrategyOwner]: the state that owns all of these and the parts of its
      turn: order evidence and trade events ([core/strategy/mod.rs]), command
      results ([core/strategy/command_driver.rs]) and the work loop
      ([insight_work.rs]); it is an instance of [StrategyContext].
      [StrategyOwnerFacts] shows what each part keeps.
    - [ExecutionPersistence]: the checkpoint scheduler
      ([core/strategy/execution_persistence.rs], the byte budget of
      [command_driver.rs]) and the whole turn [on_trade_update].
    - [OwnerTurns], [EntryGate], [PersistenceFacts]: the theorems about turns.
    - [PipelineRun]: running the pipeline over the insights
      ([run_insight_pipeline_budgeted] of [core/strategy/mod.rs]);
      [PipelineRunFacts] holds its theorems, over the laws [PipeLaws] of leaf
      pipes.
    - [PipelineSweep]: the live sweep ([core/strategy/pipeline_sweep.rs]).
    - [ExecutionRuntime]: resuming suspended stages and the barrier of the
      backtest ([core/strategy/execution_runtime.rs]).

    - [QuantitySizing]: how much an insight may order and how it is split
      ([core/utils/quantity_sizing.rs], [core/insight/quantity.rs]);
      [Reservations] shows what its walks count.
    - [TradingClock]: times of day and windows of pipe configurations
      ([core/pipeline/allow_trading_window.rs], [end_of_day_close.rs]).
    - [BuiltinPipes]: every leaf pipe the engine ships, a constructor and a run
      function per file of [core/pipeline/], over the interface
      [MarketContext]; [DcaLevels] and [BuiltinPipeFacts] hold the theorems, and
      the latter the strategy as their context.

    ** How code becomes definitions

    A method that takes [&mut self] is a function from the old to the new
    record; the strategy context is threaded beside it.  [Result] is [result],
    a panic is [None], [?] is [let?].  Hash maps and sets are [gmap] and
    [gset]; a result that depends on the iteration order of a hash table takes
    that order as an argument.  A [Uuid] is its 128-bit value, a
    [DateTime<Utc>] nanoseconds, integers are [Z] with their range checks
    written out.  The clock read by a method is the argument [now].

    Code outside [src/] is an interface: [Chrono] (calendar arithmetic, with
    the Gregorian instance [Civil]), [Json] (serde_json), [UuidText] (the uuid
    crate), [CommandIds] (SHA-based command identities), [JournalJson] (the
    texts the journal stores), [Fingerprint] (the snapshot hash) and
    [StrategyContext] (the trait of [core/strategy/traits.rs] that a runtime
    implements).  The broker's answers, the clock and the scheduler's choices
    are arguments of the steps.  Their
    laws are documented behaviour, and each has a concrete instance with which
    the witnesses compute.

    ** What the theorems show

    - [Submission]: at most one entry submission in any interleaving, retained
      unresolved submissions, gated entries after cancellation, valid requests,
      closes within the remainder.
    - [OrderReducer]: allowed transitions, idempotent redelivery, preserved
      exposure, bounded partial exits, closing history, well-formedness.
    - [InsightInvariant], [Operations]: the invariants of one insight.
    - [RecoveryViews], [CollectionInvariant], [CollectionReaders]: exact
      reference counts, consistent indexes without panics, exact order routing,
      safe pruning, complete sweeps and page equivalences, descendants.
    - [BrokerLimit], [LaneSchedule]: an account limit holds although answers
      and reports are late; one slot holder at a time; waiters in order.
    - [JournalFacts]: rows follow one life cycle, batches are all or nothing,
      an epoch ends settled.
    - [CommandWorkerFacts]: one broker call per command over all interleavings,
      crashes and restarts; no entry after a stop; durable completions.
    - [CommandDriverFacts], [CommandLife]: the driver never panics, refines the
      life of its commands and hands over saved commands only.
    - [GraphRecoveryFacts], [RecoveryRoundTrip]: reconstruction terminates,
      accepts the valid acyclic graphs, builds what the rows describe and
      inverts saving; recovered entries need a live stack.
    - [OwnerTurns]: from its start on no turn of a strategy panics, and its
      components stay consistent with each other whatever broker, worker and
      journal report in between.  [EntryGate]: the work queue creates entry
      commands only for insights whose whole stack may enter.
      [PersistenceFacts]: the walk saves in post-order and terminates; nothing
      is forgotten before it is durable.
    - [PipelineRunFacts]: a run of the pipeline keeps the strategy consistent,
      marks whatever it changes and does not replay completed stages.
      [PipelineSweep]: a sweep returns, advances and reaches every insight that
      stays active.  [ExecutionRuntime]: an unchanged wait is not retried, and
      a drained backtest is quiescent.
    - [QuantitySizing], [Reservations]: split orders stay within the limits of
      the asset and the budget other insights leave; reservations are counted
      once.
    - [BuiltinPipeFacts], [DcaLevels], [TradingClock]: the shipped pipes keep the
      laws of leaves, so that runs of any pipeline built from them are safe;
      entries come from the submit pipe alone; sized orders stay in the budget
      of the account and of the risk; a DCA stack has its levels and keeps the
      limits; windows work across midnight.
    - [SnapshotDependencies], [PipelineFacts]: no suspended insight starves,
      composites resume where they stopped, continuations survive a restart,
      alpha filters accept exactly the family of the listed names.
    - [TimeFrame], [Commands], [ExecutionData]: round trips, exact or refused
      arithmetic, validated payloads, bounded data.

    ** Bounds and fuel

    [Text.trim_with] and [RecoveryViews.retain_children] recurse on a bound
    computed from the input (its length, the size of the child trees), which
    each step decreases.  [Collection.generations] runs at most one turn more
    than there are rows; [descendants_deepest_first] shows that this suffices.
    [OrderedSet.sweep] takes the number of pages; [sweep_complete] shows that
    one more than the number of ids is enough.  [CommandDriver.chain_saved] has
    the source's own bound of 64 parents, and its loops take the source's
    budgets of events as fuel.  [GraphRecovery.assemble] has the number of rows
    as fuel, which [rebuild_terminates] shows to be enough.
    [SnapshotIndex.next_loop] runs at most three rounds ([NEXT_ROUNDS]), after
    which its group is inactive, as [next_ok] shows; the walk over ancestors
    ([permission_walk]) and the stack of the checkpoint walk have the source's
    own bound of 64, and the loops of a turn its budget of at most 256 steps.
    The time a turn may use is an argument that may end a loop at any step.
    A call of the sweep takes at most 258 rounds ([SWEEP_ROUNDS]: one per
    insight, one to end the pruning, one to see that time is up), and a topic
    of [resume_snapshot_pipes] at most 256 ([RESUME_ROUNDS]); that both are
    enough is part of [sweep_call_returns] and [resume_topic_serves].

    The walks of [QuantitySizing] have the size of the trees on their stack as
    fuel, the closure of the excluded ids the number of ids; [Reservations]
    shows that they are enough.

    ** Not modelled

    Log lines, snapshots and fingerprints of insights, the analytics and broker
    context a new child is bound to ([bind_insight_context]), the asynchronous
    run loop over market data and timers, pipes of users (an interface of
    [Pipeline]), the database behind the journal
    (schema, migration, recovery pages, fills, marks and cloud history), the
    registry of lanes and the host lock file, live sync, the MT5 bridge, the
    paper broker, indicators, storage and user interface. *)

From Stdlib Require Export Lia ZifyBool ZifyN ZifyNat.
From stdpp Require Export sorting base gmap sets strings numbers option list.

(** ** Record update

    [r <| f := v |>] is [r] with field [f] replaced by [v], the functional
    reading of the assignment [r.f = v].  A field has a [Setter] instance,
    built from the eta expansion of its record by [solve_setter]. *)
Class Setter {R T : Type} (proj : R -> T) := set_field : T -> R -> R.
Global Arguments set_field {R T} proj {_} v r : assert.

Declare Scope aqe_scope.
Delimit Scope aqe_scope with aqe.

Notation "r <| f := v |>" := (set_field f v r)
  (at level 1, left associativity, f constr at level 8, v constr at level 99,
   format "r  <|  f  :=  v  |>") : aqe_scope.
Global Open Scope aqe_scope.

Ltac solve_setter eta :=
  let v := fresh "v" in
  let r := fresh "r" in
  match goal with
  | |- @Setter ?R ?T ?p =>
      change (T -> R -> R); intros v r;
      let e := eval cbv beta delta [eta] in (eta r) in
      let e' := eval pattern (p r) in e in
      lazymatch e' with
      | ?F _ => let x := eval cbv beta in (F v) in exact x
      end
  end.

(** Evaluate the projections of updated records in the goal or in a
    hypothesis: a field of [r <| g := v |>] is [v] or the field of [r]. *)
Ltac field_eq p q inst H :=
  lazymatch q with
  | p => assert (H : forall v r, p (@set_field _ _ q inst v r) = v) by (intros; reflexivity)
  | _ => assert (H : forall v r, p (@set_field _ _ q inst v r) = p r) by (intros; reflexivity)
  end.
Ltac fields :=
  repeat match goal with
  | |- context [?p (@set_field _ _ ?q ?inst ?v ?r)] =>
      let H := fresh "H" in field_eq p q inst H; rewrite (H v r); clear H
  end.
Ltac fields_in E :=
  repeat match type of E with
  | context [?p (@set_field _ _ ?q ?inst ?v ?r)] =>
      let H := fresh "H" in field_eq p q inst H; rewrite (H v r) in E; clear H
  end.

(** ** Fallible code

    [Result<A, E>] of the source, with [let? x := e in k] for its [?]. *)
Inductive result (A E : Type) : Type :=
| Ok (a : A)
| Err (e : E).
Global Arguments Ok {A E} a.
Global Arguments Err {A E} e.

Definition is_ok {A E} (r : result A E) : bool :=
  match r with Ok _ => true | Err _ => false end.

Definition is_err {A E} (r : result A E) : bool := negb (is_ok r).

Notation "'let?' x := e 'in' k" :=
  (match e with Ok x => k | Err err => Err err end)
  (at level 10, x pattern, e at level 100, k at level 200) : aqe_scope.

(** The rest of a turn after a step that may panic ([None]). *)
Notation "'let*' x := e 'in' k" :=
  (match e with Some x => k | None => None end)
  (at level 10, x pattern, e at level 100, k at level 200) : aqe_scope.

(** [Option::is_some_and] and [Option::is_none_or] of the standard library. *)
Definition is_some_and {A} (p : A -> bool) (o : option A) : bool :=
  match o with Some a => p a | None => false end.
Definition is_none_or {A} (p : A -> bool) (o : option A) : bool :=
  match o with Some a => p a | None => true end.

(** [Option::or]. *)
Definition opt_or {A} (a b : option A) : option A :=
  match a with Some _ => a | None => b end.

(** [Option::is_some] and [Option::is_none]. *)
Definition is_some {A} (o : option A) : bool :=
  match o with Some _ => true | None => false end.
Definition is_none {A} (o : option A) : bool := negb (is_some o).

(** [Option::unwrap_or]. *)
Definition unwrap_or {A} (o : option A) (d : A) : A := default d o.

(** ** Identities and instants

    A [Uuid] is its 128-bit big-endian value, so that the derived [Ord] of the
    source is the order of [N].  A [DateTime<Utc>] is the number of nanoseconds
    since the epoch. *)
Abbreviation Uuid := N (only parsing).
Abbreviation DateTime := Z (only parsing).

(** ** Automation *)
Create HintDb aqe discriminated.

(** Case analysis on every [match] of the goal or of a hypothesis. *)
Ltac split_match :=
  match goal with
  | |- context [match ?x with _ => _ end] => destruct x eqn:?
  end.
Ltac split_match_in H :=
  match type of H with
  | context [match ?x with _ => _ end] => destruct x eqn:?
  end.
Ltac split_all := repeat (split_match; simplify_eq/=).

(** Turn boolean connectives of the hypotheses into propositions. *)
Ltac break_bool :=
  repeat match goal with
  | H : _ && _ = true |- _ => apply andb_true_iff in H; destruct H
  | H : _ || _ = false |- _ => apply orb_false_iff in H; destruct H
  | H : negb _ = true |- _ => apply negb_true_iff in H
  | H : negb _ = false |- _ => apply negb_false_iff in H
  end.

Lemma is_some_and_true {A} (p : A -> bool) o :
  is_some_and p o = true <-> exists a, o = Some a /\ p a = true.
Proof. destruct o; simpl; naive_solver. Qed.

Lemma is_none_or_true {A} (p : A -> bool) o :
  is_none_or p o = true <-> forall a, o = Some a -> p a = true.
Proof. destruct o; simpl; naive_solver. Qed.

(** ** Counting the entries of a map *)
Section CountWhere.
Context {K V : Type} `{Countable K}.

(** How many values of [m] satisfy [p]. *)
Definition count_where (p : V -> bool) (m : gmap K V) : nat :=
  length (filter (fun kv : K * V => p kv.2 = true) (map_to_list m)).

(** The contribution of one entry. *)
Definition counts_one (p : V -> bool) (o : option V) : nat :=
  if is_some_and p o then 1 else 0.

Lemma count_where_empty p : count_where p ∅ = 0.
Proof. unfold count_where. by rewrite map_to_list_empty. Qed.

Lemma count_where_fresh p m k v :
  m !! k = None -> count_where p (<[k := v]> m) = counts_one p (Some v) + count_where p m.
Proof.
  intros Hn. unfold count_where, counts_one. rewrite map_to_list_insert by done.
  rewrite filter_cons. simpl. by destruct (p v).
Qed.

Lemma count_where_split p m k :
  count_where p m = counts_one p (m !! k) + count_where p (delete k m).
Proof.
  destruct (m !! k) as [v|] eqn:E; simpl.
  - rewrite <- (count_where_fresh p (delete k m) k v) by apply lookup_delete_eq.
    by rewrite insert_delete_id.
  - by rewrite delete_id.
Qed.

Lemma count_where_insert p m k v :
  count_where p (<[k := v]> m) = counts_one p (Some v) + count_where p (delete k m).
Proof. by rewrite (count_where_split p _ k), lookup_insert_eq, delete_insert_eq. Qed.
End CountWhere.
