(* ===== verification/OrderedSet.v ===== *)
(** * OrderedSet: the standard library's [BTreeSet<Uuid>] and cursor paging

    The collection keeps several [BTreeSet<Uuid>] indexes and reads them in
    bounded pages: [range((Excluded(after), Included(upper))).take(limit)].
    A set is stdpp's [gset N]; its ascending iteration is [btree_elements].
    [cursor_page] is the shape all the page readers of the engine share, and
    [sweep_complete] is the theorem they are written for: following the cursor
    from page to page visits every identifier up to the captured upper bound
    exactly once, in order. *)
From S2P Require Import Prelude.

(** ** Iteration *)

(** Ascending iteration of a [BTreeSet]. *)
Definition btree_elements (X : gset N) : list N := merge_sort N.le (elements X).

(** [BTreeSet::first], and the key of [BTreeMap::first_key_value]. *)
Definition btree_first (X : gset N) : option N := head (btree_elements X).

(** [BTreeSet::last]. *)
Definition btree_last (X : gset N) : option N := last (btree_elements X).

(** [id] lies in [(after.map_or(Unbounded, Excluded), Included(upper))]. *)
Definition in_bounds (after : option N) (upper : N) (id : N) : bool :=
  match after with Some a => (a <? id)%N | None => true end && (id <=? upper)%N.

(** [BTreeSet::range] over those bounds. *)
Definition btree_range (after : option N) (upper : N) (X : gset N) : list N :=
  filter (fun id => in_bounds after upper id = true) (btree_elements X).

(** One page: nothing once the cursor reached the upper bound or for a zero
    limit, otherwise at most [limit.min(cap)] identifiers. *)
Definition cursor_page (cap : nat) (X : gset N) (after : option N) (upper : N)
    (limit : nat) : list N :=
  if match after with Some a => (upper <=? a)%N | None => false end || (limit =? 0)
  then []
  else take (Nat.min limit cap) (btree_range after upper X).

(** Reading pages until an empty one, moving the cursor to the last identifier
    of each page. *)
Fixpoint sweep (fuel : nat) (page : option N -> list N) (after : option N)
    : list (list N) :=
  match fuel with
  | O => []
  | S fuel' =>
      match last (page after) with
      | None => []
      | Some l => page after :: sweep fuel' page (Some l)
      end
  end.

(** ** Facts *)

#[local] Instance N_le_total : Total N.le.
Proof. intros x y. lia. Qed.

Lemma btree_elements_perm X : btree_elements X ≡ₚ elements X.
Proof. apply merge_sort_Permutation. Qed.

Lemma elem_of_btree_elements X x : x ∈ btree_elements X <-> x ∈ X.
Proof. by rewrite btree_elements_perm, elem_of_elements. Qed.

Lemma NoDup_btree_elements X : NoDup (btree_elements X).
Proof. rewrite btree_elements_perm. apply NoDup_elements. Qed.

Lemma length_btree_elements X : length (btree_elements X) = size X.
Proof. by rewrite btree_elements_perm. Qed.

Lemma StronglySorted_strict (l : list N) :
  StronglySorted N.le l -> NoDup l -> StronglySorted N.lt l.
Proof.
  induction 1 as [|x l Hl IH Hx]; [constructor|].
  intros [Hn Hnd]%NoDup_cons. constructor; [by apply IH|].
  rewrite Forall_forall in Hx |- *. intros y Hy.
  specialize (Hx y Hy). assert (x <> y) by congruence. lia.
Qed.

Lemma btree_elements_sorted X : StronglySorted N.lt (btree_elements X).
Proof.
  apply StronglySorted_strict; [|apply NoDup_btree_elements].
  apply (StronglySorted_merge_sort N.le).
Qed.

Lemma StronglySorted_filter {A} (R : relation A) (P : A -> Prop)
    `{!forall x, Decision (P x)} l :
  StronglySorted R l -> StronglySorted R (filter P l).
Proof.
  induction 1 as [|x l Hl IH Hx]; [constructor|].
  rewrite filter_cons. case_decide; [|done].
  constructor; [done|]. rewrite Forall_forall in Hx |- *.
  intros y [_ Hy]%list_elem_of_filter. auto.
Qed.

Lemma sorted_NoDup (l : list N) : StronglySorted N.lt l -> NoDup l.
Proof.
  induction 1 as [|x l Hl IH Hx]; [constructor|]. constructor; [|done].
  rewrite Forall_forall in Hx. intros Hin. specialize (Hx x Hin). lia.
Qed.

(** Two strictly ascending lists with the same members are equal. *)
Lemma sorted_ext (l k : list N) :
  StronglySorted N.lt l -> StronglySorted N.lt k ->
  (forall x, x ∈ l <-> x ∈ k) -> l = k.
Proof.
  intros Hl Hk Hx. apply (StronglySorted_unique_strong N.lt); [|done|done|].
  - intros x y _ _ ??. lia.
  - apply NoDup_Permutation; auto using sorted_NoDup.
Qed.

Lemma elem_of_btree_range after upper X x :
  x ∈ btree_range after upper X <-> in_bounds after upper x = true /\ x ∈ X.
Proof. unfold btree_range. by rewrite list_elem_of_filter, elem_of_btree_elements. Qed.

Lemma btree_range_sorted after upper X : StronglySorted N.lt (btree_range after upper X).
Proof. apply StronglySorted_filter, btree_elements_sorted. Qed.

Lemma length_btree_range after upper X : length (btree_range after upper X) <= size X.
Proof. rewrite <- length_btree_elements. apply length_filter. Qed.

Lemma last_Some_max (l : list N) m :
  StronglySorted N.lt l -> last l = Some m -> forall x, x ∈ l -> (x <= m)%N.
Proof.
  intros Hs (l' & ->)%last_Some x [Hx|Hx]%elem_of_app.
  - apply (StronglySorted_app_1_elem_of N.lt _ _ x m) in Hs; [lia|done|set_solver].
  - apply list_elem_of_singleton in Hx. lia.
Qed.

Lemma btree_last_max X m :
  btree_last X = Some m <-> m ∈ X /\ forall x, x ∈ X -> (x <= m)%N.
Proof.
  split.
  - intros Hm. split.
    + apply elem_of_btree_elements. by apply last_Some_elem_of.
    + intros x Hx. eapply last_Some_max; [apply btree_elements_sorted|exact Hm|].
      by apply elem_of_btree_elements.
  - intros [Hin Hmax]. unfold btree_last.
    destruct (last (btree_elements X)) as [k|] eqn:E.
    + f_equal. assert (k ∈ X).
      { apply elem_of_btree_elements. by apply last_Some_elem_of. }
      assert (m <= k)%N.
      { eapply last_Some_max; [apply btree_elements_sorted|exact E|].
        by apply elem_of_btree_elements. }
      specialize (Hmax k ltac:(done)). lia.
    + apply last_None in E. apply elem_of_btree_elements in Hin.
      rewrite E in Hin. set_solver.
Qed.

Lemma btree_last_None X : btree_last X = None <-> X = ∅.
Proof.
  unfold btree_last. rewrite last_None. split; [|intros ->; done].
  intros H. apply set_eq. intros x. rewrite <- elem_of_btree_elements, H. set_solver.
Qed.

Lemma btree_first_elem X id : btree_first X = Some id -> id ∈ X.
Proof.
  unfold btree_first. intros Hf. apply elem_of_btree_elements.
  destruct (btree_elements X); simplify_eq/=. left.
Qed.

Lemma btree_first_least X id : btree_first X = Some id -> forall x, x ∈ X -> (id <= x)%N.
Proof.
  unfold btree_first. intros Hf x Hx. pose proof (btree_elements_sorted X) as Hs.
  apply elem_of_btree_elements in Hx. destruct (btree_elements X) as [|y l]; [done|]. simplify_eq/=.
  apply elem_of_cons in Hx as [->|Hx]; [lia|]. inversion Hs as [|? ? _ Hall]; subst.
  rewrite Forall_forall in Hall. specialize (Hall x Hx). lia.
Qed.

Lemma btree_first_None X : btree_first X = None -> X = ∅.
Proof.
  unfold btree_first. intros Hf. apply set_eq. intros x. rewrite <- elem_of_btree_elements.
  destruct (btree_elements X); [set_solver|done].
Qed.

(** ** Paging *)

Lemma btree_range_all upper X :
  btree_last X = Some upper -> btree_range None upper X = btree_elements X.
Proof.
  intros [_ Hmax]%btree_last_max. apply sorted_ext; [apply btree_range_sorted|apply btree_elements_sorted|].
  intros x. rewrite elem_of_btree_range, elem_of_btree_elements. split; [by intros []|].
  intros Hx. split; [|done]. unfold in_bounds. simpl. specialize (Hmax x Hx). lia.
Qed.

Lemma btree_range_exhausted a upper X :
  (upper <= a)%N -> btree_range (Some a) upper X = [].
Proof.
  intros Ha. apply elem_of_nil_inv. intros x [Hb _]%elem_of_btree_range.
  unfold in_bounds in Hb; simpl in Hb; lia.
Qed.

Lemma cursor_page_take cap X after upper limit :
  0 < limit ->
  cursor_page cap X after upper limit =
    take (Nat.min limit cap) (btree_range after upper X).
Proof.
  intros Hl. unfold cursor_page. destruct (limit =? 0) eqn:E; [lia|].
  destruct after as [a|]; simpl; [|done].
  destruct (upper <=? a)%N eqn:Ha; simpl; [|done].
  rewrite btree_range_exhausted by lia. by rewrite take_nil.
Qed.

(** What follows a page is exactly what the moved cursor still has to read. *)
Lemma btree_range_after_page n after upper X l :
  last (take n (btree_range after upper X)) = Some l ->
  drop n (btree_range after upper X) = btree_range (Some l) upper X.
Proof.
  intros Hl. set (R := btree_range after upper X) in *.
  assert (HR : StronglySorted N.lt (take n R ++ drop n R)).
  { rewrite take_drop. apply btree_range_sorted. }
  assert (Hsp : forall x, x ∈ R <-> x ∈ take n R \/ x ∈ drop n R).
  { intros x. by rewrite <- elem_of_app, take_drop. }
  assert (Hlin : l ∈ take n R) by (by apply last_Some_elem_of).
  assert (Hab : in_bounds after upper l = true).
  { apply (elem_of_btree_range after upper X), Hsp. by left. }
  apply sorted_ext.
  - by apply StronglySorted_app_1_r in HR.
  - apply btree_range_sorted.
  - intros x. rewrite elem_of_btree_range. split.
    + intros Hx. assert (l < x)%N by (by eapply (StronglySorted_app_1_elem_of N.lt); eauto).
      assert (HxR : x ∈ R) by (apply Hsp; by right).
      apply elem_of_btree_range in HxR as [Hb ?]. split; [|done].
      unfold in_bounds in *; simpl in *; destruct after; lia.
    + intros [Hb Hx]. assert (HxR : x ∈ R).
      { apply elem_of_btree_range. split; [|done].
        unfold in_bounds in *; simpl in *; destruct after; lia. }
      apply Hsp in HxR as [HxR|]; [|done].
      exfalso. apply StronglySorted_app_1_l in HR.
      pose proof (last_Some_max _ _ HR Hl x HxR). unfold in_bounds in Hb; simpl in Hb; lia.
Qed.

Lemma sweep_complete cap X upper limit fuel after :
  0 < limit -> 0 < cap -> length (btree_range after upper X) < fuel ->
  concat (sweep fuel (fun a => cursor_page cap X a upper limit) after) =
    btree_range after upper X.
Proof.
  intros Hl Hc. revert after. induction fuel as [|fuel IH]; intros after Hf; [lia|].
  simpl. rewrite cursor_page_take by done. set (n := Nat.min limit cap).
  destruct (last (take n _)) as [l|] eqn:E.
  - simpl. rewrite IH.
    + rewrite <- (btree_range_after_page _ _ _ _ _ E). apply take_drop.
    + rewrite <- (btree_range_after_page _ _ _ _ _ E), length_drop.
      assert (btree_range after upper X <> []).
      { intros Hn. rewrite Hn, take_nil in E. done. }
      destruct (btree_range after upper X); simpl in *; [done|]. unfold n. lia.
  - apply last_None in E. simpl. destruct (btree_range after upper X); [done|].
    exfalso. destruct n eqn:En; [unfold n in En; lia|done].
Qed.

Lemma cursor_page_bound cap X after upper limit :
  length (cursor_page cap X after upper limit) <= Nat.min limit cap.
Proof. unfold cursor_page. case_match; simpl; [lia|]. rewrite length_take. lia. Qed.
