(* ===== verification/Float64.v ===== *)
(** * Float64: the [f64] of the source

    An [f64] is Rocq's primitive binary64 float: the kernel computes the IEEE
    754 operations the Rust code compiles to, NaN and signed zeros included.
    This file defines the [f64] methods the engine calls and the order facts
    the components use.  The order is proved through [fkey], a monotone code of
    a float as a lexicographic triple of integers, from the standard library's
    specification of the primitive comparisons. *)
From Stdlib Require Export PrimFloat FloatOps FloatAxioms SpecFloat.
From S2P Require Import Prelude.

Abbreviation f64 := PrimFloat.float (only parsing).

Declare Scope f64_scope.
Delimit Scope f64_scope with f64.

(** ** Operations *)

(** [<], [<=], [>], [>=] and [==] of [f64]; all false on NaN. *)
Definition flt (x y : f64) : bool := PrimFloat.ltb x y.
Definition fle (x y : f64) : bool := PrimFloat.leb x y.
Definition feq (x y : f64) : bool := PrimFloat.eqb x y.

Notation "x <. y" :=  (flt x y) (at level 65) : f64_scope.
Notation "x <=. y" :=  (fle x y) (at level 65) : f64_scope.
Notation "x ==. y" :=  (feq x y) (at level 65) : f64_scope.
Notation "x ⊕ y" := (PrimFloat.add x y) (at level 50, left associativity) : f64_scope.
Notation "x ⊖ y" := (PrimFloat.sub x y) (at level 50, left associativity) : f64_scope.
Notation "x ⊗ y" := (PrimFloat.mul x y) (at level 40, left associativity) : f64_scope.
Notation "x ⊘ y" := (PrimFloat.div x y) (at level 40, left associativity) : f64_scope.
Global Open Scope f64_scope.

Definition f0 : f64 := PrimFloat.zero.
Definition f1 : f64 := PrimFloat.one.
Definition f100 : f64 := 100%float.

(** [f64::EPSILON], the distance from one to the next float. *)
Definition EPSILON : f64 := 0x1p-52%float.

(** [f64::is_finite], [f64::is_nan], [f64::abs]. *)
Definition is_finite (x : f64) : bool := PrimFloat.is_finite x.
Definition is_nan (x : f64) : bool := PrimFloat.is_nan x.
Definition fabs (x : f64) : f64 := PrimFloat.abs x.

(** [f64::max] and [f64::min]: a NaN argument is ignored. *)
Definition fmax (x y : f64) : f64 :=
  if is_nan x then y else if is_nan y then x else if x <. y then y else x.
Definition fmin (x y : f64) : f64 :=
  if is_nan x then y else if is_nan y then x else if y <. x then y else x.

(** The float of an integer of magnitude below [2^53] (exact there). *)
Definition f64_of_Z (z : Z) : f64 :=
  SF2Prim (binary_normalize FloatOps.prec FloatOps.emax z 0 false).

(** The value [m * 2^e] of a finite float rounded to an integer by [rnd], which
    receives the sign, the magnitude [m] and the denominator [d = 2^(-e)];
    infinities, NaN, zeros and already integral floats are unchanged. *)
Definition round_with (rnd : bool -> Z -> Z -> Z) (x : f64) : f64 :=
  match Prim2SF x with
  | S754_finite s m e =>
      if (0 <=? e)%Z then x
      else
        let d := (2 ^ (- e))%Z in
        let n := rnd s (Z.pos m) d in
        let v := f64_of_Z n in
        if s then PrimFloat.opp v else v
  | _ => x
  end.

(** [f64::round]: half away from zero. *)
Definition round_half_away (x : f64) : f64 :=
  round_with (fun _ m d => (2 * m + d) / (2 * d))%Z x.

(** [f64::floor] and [f64::ceil], on magnitudes. *)
Definition floor (x : f64) : f64 :=
  round_with (fun s m d => if s then ((m + d - 1) / d) else (m / d))%Z x.
Definition ceil (x : f64) : f64 :=
  round_with (fun s m d => if s then (m / d) else ((m + d - 1) / d))%Z x.

(** [f64::fract] is [x - x.trunc()]. *)
Definition trunc (x : f64) : f64 := round_with (fun _ m d => m / d)%Z x.
Definition fract (x : f64) : f64 := x ⊖ trunc x.

(** [f64::powi] on the exponents the engine uses: the binary powering of the
    compiler runtime, with one reciprocal for a negative exponent. *)
Fixpoint powi_pos (a : f64) (p : positive) (r : f64) : f64 :=
  match p with
  | xH => r ⊗ a
  | xO p' => powi_pos (a ⊗ a) p' r
  | xI p' => powi_pos (a ⊗ a) p' (r ⊗ a)
  end.
Definition powi (a : f64) (n : Z) : f64 :=
  match n with
  | Z0 => f1
  | Zpos p => powi_pos a p f1
  | Zneg p => f1 ⊘ powi_pos a p f1
  end.

(** [Option<f64> == Option<f64>]. *)
Definition opt_feq (a b : option f64) : bool :=
  match a, b with
  | None, None => true
  | Some x, Some y => x ==. y
  | _, _ => false
  end.

(** [Vec<f64> == Vec<f64>] and [Option<Vec<f64>> == Option<Vec<f64>>]. *)
Fixpoint list_feq (a b : list f64) : bool :=
  match a, b with
  | [], [] => true
  | x :: a', y :: b' => (x ==. y) && list_feq a' b'
  | _, _ => false
  end.
Definition opt_list_feq (a b : option (list f64)) : bool :=
  match a, b with
  | None, None => true
  | Some x, Some y => list_feq x y
  | _, _ => false
  end.

(** ** The order *)

Definition fkey (x : spec_float) : option (Z * Z * Z) :=
  match x with
  | S754_nan => None
  | S754_infinity s => Some ((if s then -2 else 2)%Z, 0%Z, 0%Z)
  | S754_zero _ => Some (0, 0, 0)%Z
  | S754_finite true m e => Some ((-1)%Z, (- e)%Z, (- Z.pos m)%Z)
  | S754_finite false m e => Some (1%Z, e, Z.pos m)
  end.

Definition lex_compare (a b : Z * Z * Z) : comparison :=
  let '(a1, a2, a3) := a in
  let '(b1, b2, b3) := b in
  match (a1 ?= b1)%Z with
  | Eq => match (a2 ?= b2)%Z with Eq => (a3 ?= b3)%Z | c => c end
  | c => c
  end.

Lemma SFcompare_key x y :
  SFcompare x y =
    match fkey x, fkey y with
    | Some a, Some b => Some (lex_compare a b)
    | _, _ => None
    end.
Proof.
  destruct x as [[]|[]| |[] m e], y as [[]|[]| |[] n k]; try reflexivity; simpl.
  f_equal. rewrite Z.compare_opp, (Z.compare_antisym e k).
  by destruct (e ?= k)%Z.
Qed.

(** The order of two floats as the order of their keys. *)
Definition key_of (x : f64) : option (Z * Z * Z) := fkey (Prim2SF x).

Lemma lex_compare_lt a b :
  lex_compare a b = Lt <->
  (let '(a1, a2, a3) := a in let '(b1, b2, b3) := b in
   a1 < b1 \/ a1 = b1 /\ (a2 < b2 \/ a2 = b2 /\ a3 < b3))%Z.
Proof.
  destruct a as [[a1 a2] a3], b as [[b1 b2] b3]; simpl.
  destruct (Z.compare_spec a1 b1); [|naive_solver lia|naive_solver lia].
  destruct (Z.compare_spec a2 b2); [|naive_solver lia|naive_solver lia].
  rewrite Z.compare_lt_iff. lia.
Qed.

Lemma lex_compare_eq a b : lex_compare a b = Eq <-> a = b.
Proof.
  destruct a as [[a1 a2] a3], b as [[b1 b2] b3]; simpl.
  destruct (Z.compare_spec a1 b1); [|naive_solver lia|naive_solver lia].
  destruct (Z.compare_spec a2 b2); [|naive_solver lia|naive_solver lia].
  rewrite Z.compare_eq_iff. naive_solver.
Qed.

Lemma flt_key x y :
  x <. y = true <->
  exists a b, key_of x = Some a /\ key_of y = Some b /\ lex_compare a b = Lt.
Proof.
  unfold flt, key_of. rewrite ltb_spec. unfold SFltb. rewrite SFcompare_key.
  destruct (fkey (Prim2SF x)) as [a|], (fkey (Prim2SF y)) as [b|];
    try (split; [discriminate|intros (?&?&?&?&?); discriminate]).
  destruct (lex_compare a b) eqn:E; split; try done;
    intros H; [| |]; try (destruct H as (?&?&?&?&?); simplify_eq; congruence).
  by exists a, b.
Qed.

Lemma feq_key x y :
  x ==. y = true <-> exists a, key_of x = Some a /\ key_of y = Some a.
Proof.
  unfold feq, key_of. rewrite FloatAxioms.eqb_spec. unfold SFeqb. rewrite SFcompare_key.
  destruct (fkey (Prim2SF x)) as [a|], (fkey (Prim2SF y)) as [b|];
    try (split; [discriminate|naive_solver]).
  destruct (lex_compare a b) eqn:E.
  - apply lex_compare_eq in E. naive_solver.
  - split; [done|]. intros (c & ? & ?); simplify_eq.
    by rewrite (proj2 (lex_compare_eq c c) eq_refl) in E.
  - split; [done|]. intros (c & ? & ?); simplify_eq.
    by rewrite (proj2 (lex_compare_eq c c) eq_refl) in E.
Qed.

Lemma fle_lt_or_eq x y : x <=. y = (x <. y) || (x ==. y).
Proof.
  unfold fle, flt, feq. rewrite leb_spec, ltb_spec, FloatAxioms.eqb_spec.
  unfold SFleb, SFltb, SFeqb. destruct (SFcompare _ _) as [[]|]; done.
Qed.

Lemma is_nan_key x : is_nan x = true <-> key_of x = None.
Proof.
  unfold is_nan, PrimFloat.is_nan. rewrite negb_true_iff. fold (feq x x).
  destruct (key_of x) eqn:E; split; try done; intros H.
  - assert (x ==. x = true) by (apply feq_key; eauto). congruence.
  - destruct (x ==. x) eqn:Ex; [|done]. apply feq_key in Ex. naive_solver.
Qed.

Ltac fkey_cases :=
  repeat match goal with
  | H : _ <. _ = true |- _ => apply flt_key in H as (?&?&?&?&?)
  | H : _ ==. _ = true |- _ => apply feq_key in H as (?&?&?)
  | H : lex_compare _ _ = Lt |- _ => apply lex_compare_lt in H
  | a : (Z * Z * Z)%type |- _ => destruct a as [[? ?] ?]
  end; simplify_eq/=.

Lemma flt_irrefl x : x <. x = false.
Proof. destruct (x <. x) eqn:E; [|done]. fkey_cases. lia. Qed.

Lemma flt_trans x y z : x <. y = true -> y <. z = true -> x <. z = true.
Proof.
  intros H1 H2. apply flt_key. fkey_cases. eexists _, _. split_and!; eauto.
  apply lex_compare_lt. simpl in *. lia.
Qed.

Lemma flt_asym x y : x <. y = true -> y <. x = false.
Proof.
  intros H. destruct (y <. x) eqn:E; [|done].
  pose proof (flt_trans _ _ _ H E) as Hc. by rewrite flt_irrefl in Hc.
Qed.

Lemma flt_fle x y : x <. y = true -> x <=. y = true.
Proof. intros H. rewrite fle_lt_or_eq, H. done. Qed.

Lemma fle_refl x : is_nan x = false -> x <=. x = true.
Proof.
  intros H. rewrite fle_lt_or_eq. apply orb_true_iff. right. apply feq_key.
  destruct (key_of x) eqn:E; eauto. apply is_nan_key in E. congruence.
Qed.

Lemma flt_not_nan x y : x <. y = true -> is_nan x = false /\ is_nan y = false.
Proof.
  intros (a & b & Ha & Hb & _)%flt_key.
  split; apply not_true_iff_false; rewrite is_nan_key; congruence.
Qed.

(** Trichotomy away from NaN. *)
Lemma flt_total x y :
  is_nan x = false -> is_nan y = false -> x <. y = false -> y <=. x = true.
Proof.
  intros Hx Hy Hxy. rewrite <- not_true_iff_false, is_nan_key in Hx; rewrite <- not_true_iff_false, is_nan_key in Hy.
  destruct (key_of x) as [a|] eqn:Ea, (key_of y) as [b|] eqn:Eb; try done.
  rewrite fle_lt_or_eq. apply orb_true_iff.
  rewrite flt_key, feq_key. rewrite <- not_true_iff_false, flt_key in Hxy.
  destruct (lex_compare a b) eqn:E.
  - apply lex_compare_eq in E as ->. naive_solver.
  - naive_solver.
  - left. exists b, a. split_and!; [done|done|]. apply lex_compare_lt.
    destruct a as [[a1 a2] a3], b as [[b1 b2] b3]; simpl in *.
    destruct (Z.compare_spec a1 b1); try done; [|lia].
    destruct (Z.compare_spec a2 b2); try done; [|lia].
    apply Z.compare_gt_iff in E. lia.
Qed.

Lemma flt_fle_trans x y z : x <. y = true -> y <=. z = true -> x <. z = true.
Proof.
  intros H1. rewrite fle_lt_or_eq, orb_true_iff. intros [H2|H2].
  - by eapply flt_trans.
  - apply flt_key. fkey_cases. eexists _, _. split_and!; eauto.
    by apply lex_compare_lt.
Qed.

Lemma fle_flt_trans x y z : x <=. y = true -> y <. z = true -> x <. z = true.
Proof.
  rewrite fle_lt_or_eq, orb_true_iff. intros [H2|H2] H1.
  - by eapply flt_trans.
  - apply flt_key. fkey_cases. eexists _, _. split_and!; eauto.
    by apply lex_compare_lt.
Qed.

Lemma fle_trans x y z : x <=. y = true -> y <=. z = true -> x <=. z = true.
Proof.
  intros H1. rewrite (fle_lt_or_eq y z), orb_true_iff. intros [H2|H2].
  - by eapply flt_fle, fle_flt_trans.
  - rewrite fle_lt_or_eq, orb_true_iff in H1 |- *. destruct H1 as [H1|H1].
    + left. eapply flt_fle_trans; [done|]. by rewrite fle_lt_or_eq, H2, orb_true_r.
    + right. apply feq_key. fkey_cases. eauto.
Qed.

Lemma not_fle_flt x y :
  is_nan x = false -> is_nan y = false -> x <=. y = false -> y <. x = true.
Proof.
  intros Hx Hy H. destruct (y <. x) eqn:E; [done|].
  apply flt_total in E; [|done|done]. by rewrite E in H.
Qed.

Lemma fle_not_flt x y : x <=. y = true -> y <. x = false.
Proof.
  intros H. destruct (y <. x) eqn:E; [|done].
  pose proof (flt_fle_trans _ _ _ E H) as Hc. by rewrite flt_irrefl in Hc.
Qed.

Lemma is_finite_not_nan x : is_finite x = true -> is_nan x = false.
Proof.
  unfold is_finite, PrimFloat.is_finite. intros H. break_bool. done.
Qed.

Lemma feq_refl x : is_nan x = false -> x ==. x = true.
Proof. unfold is_nan, PrimFloat.is_nan. intros H. by apply negb_false_iff in H. Qed.

(** [x.max(0.0)] is never negative nor NaN. *)
Lemma fmax_ge_r x y : is_nan y = false -> y <=. fmax x y = true.
Proof.
  intros Hy. unfold fmax. rewrite Hy. destruct (is_nan x) eqn:Hx; [by apply fle_refl|].
  destruct (x <. y) eqn:E; [by apply fle_refl|]. by apply flt_total.
Qed.

Lemma fmin_le_r x y : is_nan y = false -> fmin x y <=. y = true.
Proof.
  intros Hy. unfold fmin. rewrite Hy. destruct (is_nan x) eqn:Hx; [by apply fle_refl|].
  destruct (y <. x) eqn:E; [by apply fle_refl|]. by apply flt_total.
Qed.

Lemma fmin_le_l x y : is_nan x = false -> fmin x y <=. x = true.
Proof.
  intros Hx. unfold fmin. rewrite Hx. destruct (is_nan y) eqn:Hy; [by apply fle_refl|].
  destruct (y <. x) eqn:E; [by apply flt_fle|]. by apply fle_refl.
Qed.

#[export] Hint Resolve flt_fle flt_trans flt_irrefl is_finite_not_nan : aqe.

(** The rounding operations on concrete values. *)
Example round_half_away_ex :
  map round_half_away [2.5; -2.5; 2.4999; 0.5; 1e300]%float = [3; -3; 2; 1; 1e300]%float.
Proof. vm_compute. reflexivity. Qed.
Example floor_ceil_ex :
  map floor [2.7; -2.2; 3]%float = [2; -3; 3]%float /\ map ceil [2.2; -2.7]%float = [3; -2]%float.
Proof. vm_compute. done. Qed.
Example powi_ex : map (powi 10%float) [0; 3; -2]%Z = [1; 1000; 0.01]%float.
Proof. vm_compute. reflexivity. Qed.
