(* ===== verification/Text.v ===== *)
(** * Text: strings of the source

    A [String] or [&str] is stdpp's byte string, read as UTF-8.  The standard
    library functions the engine calls on strings are defined here, and [text]
    is the result of a [format!] call: the list of its literal pieces and of
    the values shown between them, with the precision of each number.  The
    engine never parses such a string back, so the pieces are kept as data
    instead of being rendered to characters. *)
From S2P Require Import Prelude.
From S2P Require Import Float64.

(** ** Formatted text *)
Inductive piece :=
| Lit (s : string)
| ShowF64 (decimals : option nat) (x : f64)
| ShowUuid (id : Uuid)
| ShowZ (n : Z)
| ShowF64s (xs : list f64)      (** [{:?}] of a slice *)
| ShowDebugStr (s : string)     (** [{:?}] of a string, quoted and escaped *)
| ShowDebugText (t : list piece). (** the same of a formatted string *)
Abbreviation text := (list piece) (only parsing).

(** [Vec::join] of rendered elements. *)
Fixpoint join_text (sep : text) (l : list text) : text :=
  match l with
  | [] => []
  | [x] => x
  | x :: rest => x ++ sep ++ join_text sep rest
  end.

(** [{:?}] of a list of strings. *)
Definition debug_texts (l : list text) : text :=
  [Lit "["] ++ join_text [Lit ", "] ((fun t => [ShowDebugText t]) <$> l) ++ [Lit "]"].

(** ** UUID text

    [Uuid::to_string] and [Uuid::parse_str] of the [uuid] crate: parsing what
    was printed gives the identity back. *)
Class UuidText := {
  uuid_to_string : Uuid -> string;
  uuid_parse : string -> option Uuid;
  uuid_roundtrip u : uuid_parse (uuid_to_string u) = Some u
}.

Lemma uuid_to_string_inj `{UuidText} u v : uuid_to_string u = uuid_to_string v -> u = v.
Proof. intros E. apply (f_equal uuid_parse) in E. rewrite !uuid_roundtrip in E. by simplify_eq. Qed.

(** ** The [str] methods *)

(** [str::len]. *)
Definition str_len (s : string) : nat := String.length s.

(** [str::is_empty]. *)
Definition str_is_empty (s : string) : bool :=
  match s with EmptyString => true | _ => false end.

(** [str::strip_prefix], on reversed strings also [str::strip_suffix]. *)
Fixpoint strip_prefix (p s : string) : option string :=
  match p, s with
  | EmptyString, _ => Some s
  | String a p', String b s' => if Ascii.eqb a b then strip_prefix p' s' else None
  | _, EmptyString => None
  end.
Definition str_rev (s : string) : string :=
  String.string_of_list_ascii (reverse (String.list_ascii_of_string s)).
Definition strip_suffix (p s : string) : option string :=
  str_rev <$> strip_prefix (str_rev p) (str_rev s).

(** The UTF-8 encodings of the characters with the White_Space property, which
    [str::trim] removes at both ends. *)
Definition bytes (l : list nat) : string :=
  String.string_of_list_ascii (Ascii.ascii_of_nat <$> l).
Definition white_space : list string :=
  bytes <$>
    ([[9]; [10]; [11]; [12]; [13]; [32]; [194; 133]; [194; 160]; [225; 154; 128];
      [226; 128; 168]; [226; 128; 169]; [226; 128; 175]; [226; 129; 159]; [227; 128; 128]]
     ++ ((fun k => [226; 128; 128 + k]) <$> seq 0 11)).

(** Remove any of [ws] from the front, as often as possible; [fuel] bounds the
    number of removals and each removal shortens the string. *)
Fixpoint trim_with (ws : list string) (fuel : nat) (s : string) : string :=
  match fuel with
  | O => s
  | S fuel' =>
      match list_find (fun w => is_Some (strip_prefix w s)) ws with
      | Some (_, w) => trim_with ws fuel' (default s (strip_prefix w s))
      | None => s
      end
  end.
Definition trim_start (s : string) : string := trim_with white_space (str_len s) s.
Definition trim_end (s : string) : string :=
  str_rev (trim_with (str_rev <$> white_space) (str_len s) (str_rev s)).
Definition trim (s : string) : string := trim_end (trim_start s).

(** [s.trim().is_empty()]. *)
Definition is_blank (s : string) : bool := str_is_empty (trim s).

(** [str::to_ascii_lowercase]. *)
Definition ascii_lower (a : Ascii.ascii) : Ascii.ascii :=
  let n := Ascii.nat_of_ascii a in
  if (65 <=? n) && (n <=? 90) then Ascii.ascii_of_nat (n + 32) else a.
Fixpoint to_ascii_lowercase (s : string) : string :=
  match s with
  | EmptyString => EmptyString
  | String a s' => String (ascii_lower a) (to_ascii_lowercase s')
  end.

Example trim_ex : trim "  a b
 "%string = "a b"%string.
Proof. reflexivity. Qed.
Example trim_nbsp_ex : is_blank (bytes [32; 194; 160; 226; 128; 138; 9]) = true.
Proof. reflexivity. Qed.
Example strip_suffix_ex :
  strip_suffix "-CHILD" "RSI-CHILD" = Some "RSI"%string /\ strip_suffix "-CHILD" "RSI" = None.
Proof. split; reflexivity. Qed.

Lemma strip_prefix_app p s r : strip_prefix p s = Some r <-> s = (p +:+ r)%string.
Proof.
  revert s. induction p as [|a p IH]; intros s; simpl.
  - split; [intros; by simplify_eq|intros ->; done].
  - destruct s as [|b s]; simpl; [split; intros; discriminate|].
    destruct (Ascii.eqb_spec a b) as [->|Hne].
    + rewrite IH. split; [intros ->; done|intros H; by injection H].
    + split; [discriminate|]. intros H. by injection H.
Qed.

Lemma strip_prefix_length p s r :
  strip_prefix p s = Some r -> str_len s = str_len p + str_len r.
Proof.
  intros ->%strip_prefix_app. induction p as [|a p IH]; simpl; [done|]. by rewrite IH.
Qed.

Lemma list_ascii_app s t :
  String.list_ascii_of_string (s +:+ t) =
    String.list_ascii_of_string s ++ String.list_ascii_of_string t.
Proof. induction s as [|a s IH]; simpl; [done|]. by rewrite IH. Qed.

Lemma str_rev_involutive s : str_rev (str_rev s) = s.
Proof.
  unfold str_rev. rewrite String.list_ascii_of_string_of_list_ascii, reverse_involutive.
  apply String.string_of_list_ascii_of_string.
Qed.

Lemma str_rev_app s t : str_rev (s +:+ t) = (str_rev t +:+ str_rev s)%string.
Proof.
  unfold str_rev. rewrite list_ascii_app, reverse_app.
  generalize (reverse (String.list_ascii_of_string s)) as k.
  induction (reverse (String.list_ascii_of_string t)) as [|a l IH]; intros k; simpl; [done|].
  by rewrite IH.
Qed.

Lemma str_rev_length s : str_len (str_rev s) = str_len s.
Proof.
  unfold str_len, str_rev.
  assert (Hl : forall l, String.length (String.string_of_list_ascii l) = length l).
  { induction l as [|a l IH]; simpl; [done|]. by rewrite IH. }
  rewrite Hl, length_reverse. clear Hl.
  induction s as [|a s IH]; simpl; [done|]. by rewrite IH.
Qed.

(** [strip_suffix p s] is [Some r] exactly when [s] is [r] followed by [p]. *)
Lemma strip_suffix_app p s r : strip_suffix p s = Some r <-> s = (r +:+ p)%string.
Proof.
  unfold strip_suffix. rewrite fmap_Some. split.
  - intros (q & Hq%strip_prefix_app & ->).
    rewrite <- (str_rev_involutive s), Hq, str_rev_app, str_rev_involutive. done.
  - intros ->. exists (str_rev r). rewrite strip_prefix_app, str_rev_app, str_rev_involutive.
    done.
Qed.

Lemma str_app_cons a s t : (String a s +:+ t)%string = String a (s +:+ t)%string.
Proof. reflexivity. Qed.

Lemma str_app_nil s : (s +:+ "")%string = s.
Proof. induction s as [|a s IH]; [done|]. by rewrite str_app_cons, IH. Qed.

Lemma str_app_assoc s t u : (s +:+ (t +:+ u) = (s +:+ t) +:+ u)%string.
Proof. induction s as [|a s IH]; [done|]. by rewrite !str_app_cons, IH. Qed.

Lemma str_len_app s t : str_len (s +:+ t)%string = str_len s + str_len t.
Proof.
  unfold str_len. induction s as [|a s IH]; [done|]. rewrite str_app_cons. simpl. by rewrite IH.
Qed.
