(* ===== verification/BrokerTypes.v ===== *)
(** * BrokerTypes: the broker-neutral data of [src/core/broker/types/mod.rs]

    Accounts, assets with their fee schedules, orders with their protective
    legs, trade events and lifecycle snapshots, the closed-position accounting
    record of the wire protocol, and the price rounding of
    [src/core/utils/tools.rs] every order value goes through. *)
From S2P Require Import Prelude.
From S2P Require Import Float64.
From S2P Require Import Text.

(** ** Enumerations *)
Inductive OrderSide := Buy | Sell.
Inductive OrderType := Market | Limit | Stop | StopLimit | TrailingStop.
Inductive TimeInForce := Day | GTC | OPG | IOC | FOK.
Inductive OrderClass := Simple | Bracket | OCO | OTO | TRO.
Inductive TradeUpdateEvent :=
| EvAccepted | EvNew | EvPendingNew | EvPending | EvPartialFilled | EvFilled
| EvCancelled | EvRejected | EvExpired | EvClosed | EvReplaced.
Inductive OrderLifecycleStatus :=
| LcPending | LcFilled | LcPositionOpen | LcClosed | LcCancelled | LcRejected
| LcExpired | LcUnknown.
Inductive AccountType := Paper | Live.
Inductive AssetType :=
| Stock | Crypto | Forex | Commodity | Index | ETF | MutualFund | AtUnknown (s : string).
Inductive AssetStatus := AssetActive | AssetInactive.
Inductive AssetExchange :=
| NYSE | NASDAQ | AMEX | CME | CBOE | ICE | LSE | SSE | BSE | TSE | ExUnknown (s : string).
Inductive BrokerFeature :=
| FMarketOrder | FLimitOrder | FStopOrder | FStopLimitOrder | FOcoOrder | FTrailingOrder
| FPartialClose | FAmendLimitPrice | FAmendStopPrice | FBuyingPowerLeveraged
| FMaxTotalOrders | FMaxTotalSize | FAuthoritativeMarginEstimate | FTradeEventStream
| FAccountStream | FOrderLifecycleSnapshot | FBrokerManagedOco.

#[export] Instance OrderSide_eq_dec : EqDecision OrderSide.
Proof. solve_decision. Defined.
#[export] Instance OrderType_eq_dec : EqDecision OrderType.
Proof. solve_decision. Defined.
#[export] Instance OrderClass_eq_dec : EqDecision OrderClass.
Proof. solve_decision. Defined.
#[export] Instance TradeUpdateEvent_eq_dec : EqDecision TradeUpdateEvent.
Proof. solve_decision. Defined.
#[export] Instance OrderLifecycleStatus_eq_dec : EqDecision OrderLifecycleStatus.
Proof. solve_decision. Defined.
#[export] Instance BrokerFeature_eq_dec : EqDecision BrokerFeature.
Proof. solve_decision. Defined.

(** ** Fees *)
Inductive AssetFee :=
| FeeNone
| FeePoints (points : f64)
| PercentageFee (rate : f64)
| FixedFee (value : f64)
| PerContractFee (value : f64)
| PercentagePerContractFee (rate : f64).

(** [AssetFee: PartialEq] against [AssetFee::None], the only comparison used. *)
Definition fee_is_none (f : AssetFee) : bool :=
  match f with FeeNone => true | _ => false end.

(** [contract_size.unwrap_or(1).max(1) as f64]. *)
Definition contract_multiplier (contract_size : option Z) : f64 :=
  f64_of_Z (Z.max (unwrap_or contract_size 1%Z) 1).

Definition valid_rate (rate : f64) : bool :=
  is_finite rate && (f0 <. rate) && (rate <. f1).
Definition positive (v : f64) : bool := is_finite v && (f0 <. v).

Definition calculate_with_contract (fee : AssetFee) (price quantity : f64)
    (contract_size : option Z) : f64 :=
  if negb (is_finite price) || negb (is_finite quantity) then f0
  else
    let quantity := fabs quantity in
    let cs := contract_multiplier contract_size in
    match fee with
    | FeeNone => f0
    | FeePoints _ => f0
    | PercentageFee rate =>
        if valid_rate rate then fabs price ⊗ quantity ⊗ rate else f0
    | FixedFee value => if positive value then value else f0
    | PerContractFee value => if positive value then value ⊗ quantity else f0
    | PercentagePerContractFee rate =>
        if valid_rate rate then fabs price ⊗ cs ⊗ quantity ⊗ rate else f0
    end.

Definition calculate (fee : AssetFee) (price quantity : f64) : f64 :=
  calculate_with_contract fee price quantity None.

Definition calculate_swap (fee : AssetFee) (price quantity : f64)
    (contract_size : option Z) (point : option f64) (days : f64) : f64 :=
  if negb (is_finite price) || negb (is_finite quantity) || negb (is_finite days)
     || (days <=. f0)
  then f0
  else
    let quantity := fabs quantity in
    let cs := contract_multiplier contract_size in
    match fee with
    | FeeNone => f0
    | FeePoints points =>
        if is_finite points then
          let point := match point with
                       | Some v => if positive v then Some v else None
                       | None => None
                       end in
          points ⊗ unwrap_or point f0 ⊗ cs ⊗ quantity ⊗ days
        else f0
    | PercentageFee rate =>
        if is_finite rate then fabs price ⊗ quantity ⊗ rate ⊗ days else f0
    | FixedFee value => if is_finite value then value ⊗ days else f0
    | PerContractFee value => if is_finite value then value ⊗ quantity ⊗ days else f0
    | PercentagePerContractFee rate =>
        if is_finite rate then fabs price ⊗ cs ⊗ quantity ⊗ rate ⊗ days else f0
    end.

Record AssetSideFees := mkAssetSideFees { sf_long : AssetFee; sf_short : AssetFee }.
Record AssetCommissionFees :=
  mkAssetCommissionFees { cf_entry : AssetSideFees; cf_exit : AssetSideFees }.
Record AssetSwapFees := mkAssetSwapFees { sw_long : AssetFee; sw_short : AssetFee }.
Record AssetFees := mkAssetFees {
  fees_commission : AssetCommissionFees;
  fees_swap : AssetSwapFees;
  fees_entry : AssetFee;
  fees_exit : AssetFee
}.

Definition for_side (fees : AssetSideFees) (side : OrderSide) : AssetFee :=
  match side with Buy => sf_long fees | Sell => sf_short fees end.
Definition swap_for (fees : AssetSwapFees) (side : OrderSide) : AssetFee :=
  match side with Buy => sw_long fees | Sell => sw_short fees end.

Definition entry_commission (fees : AssetFees) (price quantity : f64) (cs : option Z) : f64 :=
  calculate_with_contract (fees_entry fees) price quantity cs.
Definition exit_commission (fees : AssetFees) (price quantity : f64) (cs : option Z) : f64 :=
  calculate_with_contract (fees_exit fees) price quantity cs.

Definition entry_commission_for_side (fees : AssetFees) (side : OrderSide)
    (price quantity : f64) (cs : option Z) : f64 :=
  let entry := cf_entry (fees_commission fees) in
  let side_fee := for_side entry side in
  if fee_is_none side_fee && fee_is_none (sf_long entry) && fee_is_none (sf_short entry)
  then entry_commission fees price quantity cs
  else calculate_with_contract side_fee price quantity cs.

Definition exit_commission_for_side (fees : AssetFees) (side : OrderSide)
    (price quantity : f64) (cs : option Z) : f64 :=
  let exit := cf_exit (fees_commission fees) in
  let side_fee := for_side exit side in
  if fee_is_none side_fee && fee_is_none (sf_long exit) && fee_is_none (sf_short exit)
  then exit_commission fees price quantity cs
  else calculate_with_contract side_fee price quantity cs.

Definition swap_for_side (fees : AssetFees) (side : OrderSide) (price quantity : f64)
    (cs : option Z) (point : option f64) (days : f64) : f64 :=
  calculate_swap (swap_for (fees_swap fees) side) price quantity cs point days.

(** ** Assets and accounts *)
Record Asset := mkAsset {
  a_id : string;
  a_symbol : string;
  a_name : string;
  a_asset_type : AssetType;
  a_status : AssetStatus;
  a_exchange : AssetExchange;
  a_tradable : bool;
  a_marginable : bool;
  a_shortable : bool;
  a_fractional : bool;
  a_min_order_size : option f64;
  a_quantity_base : option Z;
  a_max_order_size : option f64;
  a_max_total_size : option f64;
  a_min_price_increment : option f64;
  a_price_base : option Z;
  a_contract_size : option Z;
  a_trading_calendar : option string;
  a_fees : AssetFees
}.

Record Account := mkAccount {
  ac_account_id : string;
  ac_account_type : AccountType;
  ac_equity : f64;
  ac_cash : f64;
  ac_currency : string;
  ac_buying_power : f64;
  ac_accrued_commission : f64;
  ac_shorting_enabled : bool;
  ac_leverage : Z;
  ac_max_total_orders : option nat
}.

(** ** Closed-position accounting of the wire protocol *)
Definition POSITION_CLOSE_ACCOUNTING_VERSION : Z := 1.

Record PositionCloseAccounting := mkPositionCloseAccounting {
  pa_version : Z;
  pa_provider : string;
  pa_position_id : string;
  pa_entry_order_id : string;
  pa_currency : string;
  pa_opened_at_us : Z;
  pa_closed_at_us : Z;
  pa_as_of_us : Z;
  pa_net_pnl : f64;
  pa_commission : f64;
  pa_swap : f64
}.

Definition gross_from_net (net commission swap : f64) : option f64 :=
  let gross := net ⊕ commission ⊖ swap in
  if forallb is_finite [net; commission; swap; gross] then Some gross else None.

Definition validate_accounting (a : PositionCloseAccounting) : result unit string :=
  if negb (pa_version a =? POSITION_CLOSE_ACCOUNTING_VERSION)%Z
  then Err "unsupported position accounting version"
  else if existsb (fun v => is_blank v || (128 <? str_len v))
            [pa_provider a; pa_position_id a; pa_entry_order_id a]
          || is_blank (pa_currency a) || (32 <? str_len (pa_currency a))
  then Err "invalid position accounting identity/currency"
  else if (pa_opened_at_us a <=? 0)%Z || (pa_closed_at_us a <? pa_opened_at_us a)%Z
          || (pa_as_of_us a <? pa_closed_at_us a)%Z
  then Err "invalid position accounting chronology"
  else if is_none (gross_from_net (pa_net_pnl a) (pa_commission a) (pa_swap a))
  then Err "invalid position accounting values"
  else Ok ().

Definition owns_order (a : PositionCloseAccounting) (order_id : string) : bool :=
  String.eqb (pa_entry_order_id a) order_id || String.eqb (pa_position_id a) order_id.

(** ** Orders *)
Record OrderLeg := mkOrderLeg {
  leg_order_id : option string;
  leg_limit_price : option f64;
  leg_trail_price : option f64;
  leg_side : OrderSide;
  leg_filled_price : option f64;
  leg_order_type : OrderType;
  leg_status : TradeUpdateEvent;
  leg_order_class : OrderClass;
  leg_created_at : Z;
  leg_updated_at : Z;
  leg_submitted_at : Z;
  leg_filled_at : option Z
}.

Record OrderLegs := mkOrderLegs {
  take_profit : option OrderLeg;
  stop_loss : option OrderLeg;
  trailing_stop : option OrderLeg
}.
Definition default_legs : OrderLegs := mkOrderLegs None None None.

Record Order := mkOrder {
  o_order_id : string;
  o_insight_id : option string;
  o_strategy_type : option string;
  o_asset : Asset;
  o_qty : f64;
  o_filled_qty : f64;
  o_limit_price : option f64;
  o_filled_price : option f64;
  o_stop_price : option f64;
  o_side : OrderSide;
  o_order_type : OrderType;
  o_time_in_force : TimeInForce;
  o_status : TradeUpdateEvent;
  o_order_class : OrderClass;
  o_created_at : Z;
  o_updated_at : Z;
  o_submitted_at : Z;
  o_filled_at : option Z;
  o_realized_pnl : option f64;
  o_position_accounting : option PositionCloseAccounting;
  o_commission : option f64;
  o_swap : option f64;
  o_rejection_reason : option string;
  o_legs : option OrderLegs
}.

Record OrderLifecycleCloseDetails := mkCloseDetails {
  cd_close_price : f64;
  cd_closed_at : DateTime;
  cd_realized_pnl : f64;
  cd_commission : f64;
  cd_swap : f64;
  cd_position_accounting : option PositionCloseAccounting
}.

Record OrderLifecycleSnapshot := mkLifecycleSnapshot {
  ls_order_id : string;
  ls_status : OrderLifecycleStatus;
  ls_position_id : option string;
  ls_position_qty : option f64;
  ls_symbol : option string;
  ls_detail : option string;
  ls_close_details : option OrderLifecycleCloseDetails
}.

(** [DateTime::timestamp_micros]: whole microseconds, rounded down. *)
Definition timestamp_micros (t : DateTime) : Z := (t / 1000)%Z.
(** [DateTime::timestamp]: whole seconds, rounded down. *)
Definition timestamp (t : DateTime) : Z := (t / 1000000000)%Z.

Definition validated_position_accounting (d : OrderLifecycleCloseDetails)
    (order_id : string) : option PositionCloseAccounting :=
  match cd_position_accounting d with
  | Some v =>
      if is_ok (validate_accounting v) && owns_order v order_id
         && (pa_closed_at_us v =? timestamp_micros (cd_closed_at d))%Z
         && (pa_net_pnl v ==. cd_realized_pnl d) && (pa_commission v ==. cd_commission d)
         && (pa_swap v ==. cd_swap d)
      then Some v else None
  | None => None
  end.

(** ** Price rounding ([src/core/utils/tools.rs]) *)

(** [digits as i32] wraps a 64-bit integer to 32 bits. *)
Definition as_i32 (z : Z) : Z := ((z + 2 ^ 31) mod 2 ^ 32 - 2 ^ 31)%Z.

Definition round_to_increment (value increment : f64) : f64 :=
  if increment <=. f0 then value
  else round_half_away (value ⊘ increment) ⊗ increment.

Definition round_to_digits (value : f64) (digits : Z) : f64 :=
  let factor := powi 10%float (as_i32 digits) in
  round_half_away (value ⊗ factor) ⊘ factor.

Definition dynamic_round_for_asset (value : f64) (asset : Asset) : f64 :=
  match a_price_base asset with
  | Some base => round_to_digits value base
  | None => round_to_increment value (unwrap_or (a_min_price_increment asset) 0x1.47ae147ae147bp-7%float)
  end.

Definition quantity_round_for_asset (value : f64) (asset : Asset) : f64 :=
  match a_quantity_base asset with
  | Some base => round_to_digits value base
  | None => round_to_increment value (unwrap_or (a_min_order_size asset) f1)
  end.
