(* ===== verification/TimeFrame.v ===== *)
(** * TimeFrame: bar intervals ([src/core/utils/timeframe.rs])

    Labels, validation and calendar arithmetic of bar intervals.  The calendar
    itself is the [chrono] crate: class [Chrono] names the operations the code
    calls with the behaviour its documentation states, and [civil_chrono] is a
    concrete proleptic Gregorian instance of it.  An instant is a number of
    nanoseconds since the epoch, a [TimeDelta] a number of nanoseconds. *)
From S2P Require Import Prelude.
From S2P Require Import Text.
From stdpp Require Import pretty.
Local Open Scope Z_scope.

(** ** Data *)
Inductive TimeFrameUnit := TfSecond | TfMinute | TfHour | TfDay | TfMonth.
#[export] Instance TimeFrameUnit_eq_dec : EqDecision TimeFrameUnit.
Proof. solve_decision. Defined.

Record TimeFrame := mkTimeFrame { tf_amount : Z; tf_unit : TimeFrameUnit }.
#[export] Instance TimeFrame_eq_dec : EqDecision TimeFrame.
Proof. solve_decision. Defined.

Inductive TimeFrameError :=
| InvalidTimeFrameUnit | InvalidTimeFrameAmount | InvalidTimeFramePeriod.

(** ** Labels *)
Definition validate_time_frame (amount : Z) (unit : TimeFrameUnit)
    : result TimeFrame TimeFrameError :=
  if amount =? 0 then Err InvalidTimeFrameAmount
  else
    let is_valid := match unit with
                    | TfSecond | TfMinute => amount <=? 59
                    | TfHour => amount <=? 23
                    | TfDay | TfMonth => amount =? 1
                    end in
    if negb is_valid then Err InvalidTimeFrameAmount
    else Ok (mkTimeFrame amount unit).

Definition is_ascii_digit (a : Ascii.ascii) : bool :=
  let n := Ascii.nat_of_ascii a in (48 <=? n)%nat && (n <=? 57)%nat.

(** [value.find(|c| !c.is_ascii_digit())] and the two slices around it. *)
Fixpoint split_digits (s : string) : string * string :=
  match s with
  | EmptyString => (EmptyString, EmptyString)
  | String a s' =>
      if is_ascii_digit a
      then let '(d, r) := split_digits s' in (String a d, r)
      else (EmptyString, s)
  end.

(** [str::parse::<u8>] on a digit string: empty and overflow are errors. *)
Fixpoint parse_digits (acc : Z) (s : string) : option Z :=
  match s with
  | EmptyString => Some acc
  | String a s' =>
      let acc' := acc * 10 + (Z.of_nat (Ascii.nat_of_ascii a) - 48) in
      if acc' <=? 255 then parse_digits acc' s' else None
  end.
Definition parse_u8 (s : string) : option Z :=
  match s with EmptyString => None | _ => parse_digits 0 s end.

Definition parse_timeframe (raw : string) : result TimeFrame TimeFrameError :=
  let value := to_ascii_lowercase (trim raw) in
  let '(digits, rest) := split_digits value in
  match parse_u8 digits with
  | None => Err InvalidTimeFrameAmount
  | Some amount =>
      let unit :=
        if String.eqb rest "s" then Some TfSecond
        else if String.eqb rest "m" then Some TfMinute
        else if String.eqb rest "h" then Some TfHour
        else if String.eqb rest "d" then Some TfDay
        else if String.eqb rest "mo" then Some TfMonth
        else None in
      match unit with
      | None => Err InvalidTimeFrameUnit
      | Some unit => validate_time_frame amount unit
      end
  end.

Definition compact_label (tf : TimeFrame) : string :=
  let suffix := match tf_unit tf with
                | TfSecond => "s" | TfMinute => "m" | TfHour => "h" | TfDay => "d"
                | TfMonth => "mo"
                end in
  (pretty (Z.to_N (tf_amount tf)) +:+ suffix)%string.

(** [TimeFrame::default()]. *)
Definition default_timeframe : TimeFrame := mkTimeFrame 1 TfMinute.

(** The values a [TimeFrame] can hold: every constructor of the type validates. *)
Definition timeframe_valid (tf : TimeFrame) : bool :=
  is_ok (validate_time_frame (tf_amount tf) (tf_unit tf)) && (0 <=? tf_amount tf).

(** ** The calendar *)
Definition ns_second : Z := 1000000000.
Definition ns_minute : Z := 60 * ns_second.
Definition ns_hour : Z := 60 * ns_minute.
Definition ns_day : Z := 24 * ns_hour.
Definition i64_max : Z := 2 ^ 63 - 1.
Definition i64_min : Z := - 2 ^ 63.
Definition u32_max : Z := 2 ^ 32 - 1.

(** The [chrono] operations used, as documented: field accessors of a UTC
    instant, [TimeDelta::try_*] (out of range beyond [i64::MAX] milliseconds),
    checked addition of a delta and of months. *)
Class Chrono := {
  dt_nanosecond : DateTime -> Z;
  dt_second : DateTime -> Z;
  dt_minute : DateTime -> Z;
  dt_hour : DateTime -> Z;
  dt_day : DateTime -> Z;
  dt_month : DateTime -> Z;
  try_delta : Z -> Z -> option Z;  (** unit in nanoseconds, count *)
  checked_add_signed : DateTime -> Z -> option DateTime;
  checked_add_months : DateTime -> Z -> option DateTime;
  checked_sub_months : DateTime -> Z -> option DateTime;
  dt_nanosecond_spec t : dt_nanosecond t = t mod ns_second;
  dt_second_spec t : dt_second t = (t / ns_second) mod 60;
  dt_minute_spec t : dt_minute t = (t / ns_minute) mod 60;
  dt_hour_spec t : dt_hour t = (t / ns_hour) mod 24;
  dt_day_range t : 1 <= dt_day t <= 31;
  dt_month_range t : 1 <= dt_month t <= 12;
  dt_day_pred t : 1 < dt_day t -> dt_day (t - ns_day) = dt_day t - 1;
  dt_day_same_day t : dt_day (t - t mod ns_day) = dt_day t;
  try_delta_spec unit n d :
    try_delta unit n = Some d <-> d = n * unit /\ Z.abs d <= i64_max * 1000000;
  checked_add_signed_spec t d t' : checked_add_signed t d = Some t' -> t' = t + d
}.

Section Calendar.
Context `{Chrono}.

(** [time - delta] and [time + delta] panic on overflow: [None]. *)
Definition dt_minus (t : DateTime) (d : Z) : option DateTime := checked_add_signed t (- d).
Definition dt_plus (t : DateTime) (d : Z) : option DateTime := checked_add_signed t d.

Definition is_interval_valid (tf : TimeFrame) (time : DateTime) : bool :=
  let a := tf_amount tf in
  match tf_unit tf with
  | TfSecond => dt_second time mod a =? 0
  | TfMinute => (dt_minute time mod a =? 0) && (dt_second time =? 0)
  | TfHour => (dt_hour time mod a =? 0) && (dt_minute time =? 0) && (dt_second time =? 0)
  | TfDay =>
      (dt_day time mod a =? 0) && (dt_hour time =? 0) && (dt_minute time =? 0)
      && (dt_second time =? 0)
  | TfMonth =>
      (dt_month time mod a =? 0) && (dt_day time =? 1) && (dt_hour time =? 0)
      && (dt_minute time =? 0) && (dt_second time =? 0)
  end.

Definition add_time_increment (tf : TimeFrame) (time : DateTime) (periods : Z)
    : result DateTime TimeFrameError :=
  let count := tf_amount tf * periods in
  if negb ((i64_min <=? count) && (count <=? i64_max)) then Err InvalidTimeFramePeriod
  else
    let by_delta (unit : Z) :=
      match try_delta unit count with
      | None => Err InvalidTimeFramePeriod
      | Some duration =>
          match checked_add_signed time duration with
          | Some t => Ok t
          | None => Err InvalidTimeFramePeriod
          end
      end in
    match tf_unit tf with
    | TfSecond => by_delta ns_second
    | TfMinute => by_delta ns_minute
    | TfHour => by_delta ns_hour
    | TfDay => by_delta ns_day
    | TfMonth =>
        let months := Z.abs count in
        if u32_max <? months then Err InvalidTimeFramePeriod
        else
          match (if 0 <=? count then checked_add_months time months
                 else checked_sub_months time months) with
          | Some t => Ok t
          | None => Err InvalidTimeFramePeriod
          end
    end.

Definition get_current_time_increment (tf : TimeFrame) (time : DateTime) : option DateTime :=
  let a := tf_amount tf in
  let sub_minute t := dt_second t * ns_second + dt_nanosecond t in
  match tf_unit tf with
  | TfSecond => dt_minus time ((dt_second time mod a) * ns_second + dt_nanosecond time)
  | TfMinute => dt_minus time ((dt_minute time mod a) * ns_minute + sub_minute time)
  | TfHour =>
      dt_minus time ((dt_hour time mod a) * ns_hour + dt_minute time * ns_minute
                     + sub_minute time)
  | TfDay =>
      dt_minus time ((dt_day time mod a) * ns_day + dt_hour time * ns_hour
                     + dt_minute time * ns_minute + sub_minute time)
  | TfMonth =>
      match checked_sub_months time (dt_month time mod a) with
      | None => None
      | Some time =>
          dt_minus time ((dt_day time - 1) * ns_day + dt_hour time * ns_hour
                         + dt_minute time * ns_minute + sub_minute time)
      end
  end.

Definition get_next_time_increment (tf : TimeFrame) (time : DateTime) : option DateTime :=
  let a := tf_amount tf in
  let back t (d : Z) := match t with Some t => dt_minus t d | None => None end in
  match tf_unit tf with
  | TfSecond =>
      back (dt_plus time ((a - dt_second time mod a) * ns_second)) (dt_nanosecond time)
  | TfMinute =>
      back (back (dt_plus time ((a - dt_minute time mod a) * ns_minute))
              (dt_second time * ns_second)) (dt_nanosecond time)
  | TfHour =>
      back (back (back (dt_plus time ((a - dt_hour time mod a) * ns_hour))
              (dt_minute time * ns_minute)) (dt_second time * ns_second))
        (dt_nanosecond time)
  | TfDay =>
      back (back (back (back (dt_plus time ((a - dt_day time mod a) * ns_day))
              (dt_hour time * ns_hour)) (dt_minute time * ns_minute))
              (dt_second time * ns_second)) (dt_nanosecond time)
  | TfMonth =>
      match checked_add_months time (a - dt_month time mod a) with
      | None => None
      | Some time =>
          back (back (back (back (dt_minus time ((dt_day time - 1) * ns_day))
              (dt_hour time * ns_hour)) (dt_minute time * ns_minute))
              (dt_second time * ns_second)) (dt_nanosecond time)
      end
  end.
End Calendar.

(** ** A concrete calendar

    Days since 1970-01-01 to a civil date by eras of 400 years, starting each
    year on the first of March. *)
Module Civil.
Definition day_of_era (days : Z) : Z := (days + 719468) mod 146097.
Definition era_of (days : Z) : Z := (days + 719468) / 146097.
Definition century (doe : Z) : Z := Z.min (doe / 36524) 3.
Definition quad (doe : Z) : Z := (doe - century doe * 36524) / 1461.
Definition quad_day (doe : Z) : Z := doe - century doe * 36524 - quad doe * 1461.
Definition quad_year (doe : Z) : Z := Z.min (quad_day doe / 365) 3.
Definition year_of_era (doe : Z) : Z := century doe * 100 + quad doe * 4 + quad_year doe.
Definition day_of_year (doe : Z) : Z := quad_day doe - quad_year doe * 365.
Definition month_index (doy : Z) : Z := (5 * doy + 2) / 153.
Definition day_in_month (doy : Z) : Z := doy - (153 * month_index doy + 2) / 5 + 1.
Definition month_of_doy (doy : Z) : Z :=
  let mp := month_index doy in if mp <? 10 then mp + 3 else mp - 9.
Definition day_of (doe : Z) : Z := day_in_month (day_of_year doe).
Definition month_of (doe : Z) : Z := month_of_doy (day_of_year doe).
Definition year_of (days : Z) : Z :=
  let doe := day_of_era days in
  year_of_era doe + era_of days * 400 + (if month_of doe <=? 2 then 1 else 0).

Definition days_from_civil (y m d : Z) : Z :=
  let y := if m <=? 2 then y - 1 else y in
  let era := y / 400 in
  let yoe := y mod 400 in
  let mp := (m + 9) mod 12 in
  let doy := (153 * mp + 2) / 5 + d - 1 in
  era * 146097 + (yoe * 365 + yoe / 4 - yoe / 100 + doy) - 719468.

Definition is_leap (y : Z) : bool :=
  (y mod 4 =? 0) && (negb (y mod 100 =? 0) || (y mod 400 =? 0)).
Definition days_in_month (y m : Z) : Z :=
  if m =? 2 then (if is_leap y then 29 else 28)
  else if (m =? 4) || (m =? 6) || (m =? 9) || (m =? 11) then 30 else 31.

Definition days (t : DateTime) : Z := t / ns_day.
Definition max_abs : Z := 262142 * 366 * ns_day.
Definition in_range (t : DateTime) : option DateTime :=
  if Z.abs t <=? max_abs then Some t else None.

Definition shift_months (t : DateTime) (k : Z) : option DateTime :=
  let n := days t in
  let doe := day_of_era n in
  let idx := year_of n * 12 + (month_of doe - 1) + k in
  let y := idx / 12 in
  let m := idx mod 12 + 1 in
  let d := Z.min (day_of doe) (days_in_month y m) in
  in_range (days_from_civil y m d * ns_day + t mod ns_day).

(** Checked once on every day of a year. *)
Definition year_day_ok (doy : Z) : bool :=
  (1 <=? day_in_month doy) && (day_in_month doy <=? 31) && (1 <=? month_of_doy doy)
  && (month_of_doy doy <=? 12)
  && ((day_in_month doy =? 1)
      || ((0 <? doy) && (day_in_month (doy - 1) =? day_in_month doy - 1))).

Lemma year_days_ok doy : 0 <= doy <= 365 -> year_day_ok doy = true.
Proof.
  intros Hd. assert (Hin : In doy (map Z.of_nat (seq 0 366))).
  { apply in_map_iff. exists (Z.to_nat doy). rewrite in_seq. lia. }
  assert (Hall : forallb year_day_ok (map Z.of_nat (seq 0 366)) = true) by reflexivity.
  rewrite forallb_forall in Hall. auto.
Qed.

Lemma day_of_year_range doe : 0 <= doe < 146097 -> 0 <= day_of_year doe <= 365.
Proof.
  intros. unfold day_of_year, quad_year, quad_day, quad, century. lia.
Qed.

Lemma day_of_year_pred doe :
  0 <= doe < 146097 -> 0 < day_of_year doe ->
  0 < doe /\ day_of_year (doe - 1) = day_of_year doe - 1.
Proof.
  intros. unfold day_of_year, quad_year, quad_day, quad, century in *. lia.
Qed.

Lemma day_of_era_range n : 0 <= day_of_era n < 146097.
Proof. apply Z.mod_pos_bound. lia. Qed.

Lemma day_of_era_ok n : year_day_ok (day_of_year (day_of_era n)) = true.
Proof. apply year_days_ok, day_of_year_range, day_of_era_range. Qed.

Lemma day_pred n :
  1 < day_of (day_of_era n) -> day_of (day_of_era (n - 1)) = day_of (day_of_era n) - 1.
Proof.
  intros Hd. pose proof (day_of_era_ok n) as Hok. unfold year_day_ok, day_of in *.
  assert (0 < day_of_year (day_of_era n)) as Hy by lia.
  destruct (day_of_year_pred _ (day_of_era_range n) Hy) as [Hpos Heq].
  assert (day_of_era (n - 1) = day_of_era n - 1) as ->; [|rewrite Heq; lia].
  unfold day_of_era in *.
  pose proof (Z.div_mod (n + 719468) 146097 ltac:(lia)).
  pose proof (Z.mod_pos_bound (n + 719468) 146097 ltac:(lia)).
  symmetry. apply (Z.mod_unique _ _ ((n + 719468) / 146097)); lia.
Qed.
End Civil.

#[export] Program Instance civil_chrono : Chrono := {|
  dt_nanosecond t := t mod ns_second;
  dt_second t := (t / ns_second) mod 60;
  dt_minute t := (t / ns_minute) mod 60;
  dt_hour t := (t / ns_hour) mod 24;
  dt_day t := Civil.day_of (Civil.day_of_era (Civil.days t));
  dt_month t := Civil.month_of (Civil.day_of_era (Civil.days t));
  try_delta unit n :=
    if Z.abs (n * unit) <=? i64_max * 1000000 then Some (n * unit) else None;
  checked_add_signed t d := Civil.in_range (t + d);
  checked_add_months t k := Civil.shift_months t k;
  checked_sub_months t k := Civil.shift_months t (- k)
|}.
Solve Obligations with (intros; first [reflexivity | idtac]).
Next Obligation.
  intros t; simpl. pose proof (Civil.day_of_era_ok (Civil.days t)) as H.
  unfold Civil.year_day_ok, Civil.day_of, Civil.month_of in *. lia.
Qed.
Next Obligation.
  intros t; simpl. pose proof (Civil.day_of_era_ok (Civil.days t)) as H.
  unfold Civil.year_day_ok, Civil.day_of, Civil.month_of in *. lia.
Qed.
Next Obligation.
  intros t; simpl. intros Hd.
  assert (Civil.days (t - ns_day) = Civil.days t - 1) as ->.
  { unfold Civil.days, ns_day. replace (t - 24 * ns_hour) with (t + (-1) * (24 * ns_hour)) by lia.
    rewrite Z.div_add by (unfold ns_hour, ns_minute, ns_second; lia). lia. }
  by apply Civil.day_pred.
Qed.
Next Obligation.
  intros t; simpl. do 2 f_equal. unfold Civil.days.
  assert (0 < ns_day) by (unfold ns_day, ns_hour, ns_minute, ns_second; lia).
  pose proof (Z.div_mod t ns_day ltac:(lia)).
  replace (t - t mod ns_day) with ((t / ns_day) * ns_day) by lia.
  by rewrite Z.div_mul by lia.
Qed.
Next Obligation.
  intros unit n d; simpl. destruct (Z.abs (n * unit) <=? i64_max * 1000000) eqn:E.
  - split; [intros; simplify_eq; lia|]. intros [-> _]. done.
  - split; [done|]. intros [-> ?]. lia.
Qed.
Next Obligation.
  intros t d t'; simpl. unfold Civil.in_range. by case_match; intros; simplify_eq.
Qed.

(** ** Properties *)

(** Every value a [TimeFrame] can hold. *)
Definition all_timeframes : list TimeFrame :=
  map (fun n => mkTimeFrame (Z.of_nat n) TfSecond) (seq 1 59)
  ++ map (fun n => mkTimeFrame (Z.of_nat n) TfMinute) (seq 1 59)
  ++ map (fun n => mkTimeFrame (Z.of_nat n) TfHour) (seq 1 23)
  ++ [mkTimeFrame 1 TfDay; mkTimeFrame 1 TfMonth].

Lemma timeframe_valid_spec tf :
  timeframe_valid tf = true <->
  1 <= tf_amount tf /\
  match tf_unit tf with
  | TfSecond | TfMinute => tf_amount tf <= 59
  | TfHour => tf_amount tf <= 23
  | TfDay | TfMonth => tf_amount tf = 1
  end.
Proof.
  unfold timeframe_valid, validate_time_frame.
  destruct tf as [a []]; simpl; destruct (Z.eqb_spec a 0); simpl; try lia;
    match goal with |- context [negb ?b] => destruct b eqn:E end; simpl; lia.
Qed.

Lemma all_timeframes_complete tf : timeframe_valid tf = true -> In tf all_timeframes.
Proof.
  rewrite timeframe_valid_spec. intros [H1 H2]. unfold all_timeframes.
  rewrite !in_app_iff, !in_map_iff. destruct tf as [a []]; cbn [tf_amount tf_unit] in *.
  - left. exists (Z.to_nat a). rewrite in_seq, Z2Nat.id by lia. split; [done|lia].
  - right; left. exists (Z.to_nat a). rewrite in_seq, Z2Nat.id by lia. split; [done|lia].
  - right; right; left. exists (Z.to_nat a). rewrite in_seq, Z2Nat.id by lia. split; [done|lia].
  - subst. naive_solver.
  - subst. naive_solver.
Qed.

(** Label round trip: the compact label of any representable timeframe
    ([15m], [1mo], ...) parses back to exactly that timeframe. *)
Theorem parse_compact_label tf :
  timeframe_valid tf = true -> parse_timeframe (compact_label tf) = Ok tf.
Proof.
  intros Hv. apply all_timeframes_complete in Hv.
  assert (Hall : forallb (fun tf => match parse_timeframe (compact_label tf) with
                                    | Ok tf' => bool_decide (tf' = tf)
                                    | Err _ => false
                                    end) all_timeframes = true) by (vm_compute; reflexivity).
  rewrite forallb_forall in Hall. specialize (Hall tf Hv).
  destruct (parse_timeframe _); [|done]. by apply bool_decide_eq_true in Hall as ->.
Qed.

Lemma parse_compact_label_witness :
  parse_timeframe (compact_label (mkTimeFrame 45 TfMinute)) = Ok (mkTimeFrame 45 TfMinute).
Proof. apply parse_compact_label. reflexivity. Defined.

Lemma parse_digits_nonneg acc s n :
  0 <= acc -> fst (split_digits s) = s -> parse_digits acc s = Some n -> 0 <= n.
Proof.
  revert acc. induction s as [|a s IH]; intros acc Hacc Hd; simpl in *; [intros; simplify_eq; lia|].
  destruct (is_ascii_digit a) eqn:Ha; [|discriminate].
  destruct (split_digits s) as [d r] eqn:Es. simpl in Hd.
  case_match; [|done]. unfold is_ascii_digit in Ha.
  apply IH; [lia|]. by injection Hd.
Qed.

Lemma split_digits_idem s d r : split_digits s = (d, r) -> fst (split_digits d) = d.
Proof.
  revert d r. induction s as [|a s IH]; intros d r; simpl; [intros; by simplify_eq|].
  destruct (is_ascii_digit a) eqn:Ha; [|intros; by simplify_eq].
  destruct (split_digits s) as [d' r'] eqn:Es. intros; simplify_eq. simpl. rewrite Ha.
  specialize (IH _ _ eq_refl). destruct (split_digits d'). simpl in *. by rewrite IH.
Qed.

(** Parsing is total and only ever yields representable timeframes: whatever
    the input, a success is a value [TimeFrame::new] would accept. *)
Theorem parse_timeframe_valid s tf :
  parse_timeframe s = Ok tf -> timeframe_valid tf = true.
Proof.
  unfold parse_timeframe. destruct (split_digits _) as [d r] eqn:Es.
  destruct (parse_u8 d) as [n|] eqn:En; [|done]. intros Hp.
  assert (Hn : 0 <= n).
  { unfold parse_u8 in En. destruct d; [done|].
    eapply parse_digits_nonneg; [|by eapply split_digits_idem|exact En]. lia. }
  destruct (if String.eqb r "s" then _ else _) as [u|]; [|done].
  assert (tf = mkTimeFrame n u) as ->.
  { revert Hp. unfold validate_time_frame. case_match; [done|].
    match goal with |- context [negb ?b] => destruct b end; simpl; congruence. }
  unfold timeframe_valid. simpl. rewrite Hp. simpl. lia.
Qed.

Lemma parse_timeframe_valid_witness :
  parse_timeframe " 05M " = Ok (mkTimeFrame 5 TfMinute) /\
  timeframe_valid (mkTimeFrame 5 TfMinute) = true.
Proof.
  split; [reflexivity|]. apply (parse_timeframe_valid " 05M "). reflexivity.
Defined.

Section CalendarFacts.
Context `{Chrono}.

Lemma dt_minus_Some t d t' : dt_minus t d = Some t' -> t' = t - d.
Proof. unfold dt_minus. intros ->%checked_add_signed_spec. lia. Qed.
Lemma dt_plus_Some t d t' : dt_plus t d = Some t' -> t' = t + d.
Proof. apply checked_add_signed_spec. Qed.

Ltac chrono_values :=
  repeat match goal with
  | H : dt_minus ?t ?d = Some _ |- _ => apply dt_minus_Some in H
  | H : dt_plus ?t ?d = Some _ |- _ => apply dt_plus_Some in H
  end;
  rewrite ?dt_nanosecond_spec, ?dt_second_spec, ?dt_minute_spec, ?dt_hour_spec in *.

(** The span of a timeframe whose unit has a fixed length. *)
Definition fixed_span (tf : TimeFrame) : option Z :=
  match tf_unit tf with
  | TfSecond => Some (tf_amount tf * ns_second)
  | TfMinute => Some (tf_amount tf * ns_minute)
  | TfHour => Some (tf_amount tf * ns_hour)
  | TfDay => Some (tf_amount tf * ns_day)
  | TfMonth => None
  end.

(** Adding periods never wraps: the result of [add_time_increment] on a
    fixed-length unit is the exact instant [periods] spans away (in either
    direction), and a count, delta or instant outside its range is the error
    [InvalidTimeFramePeriod]. *)
Theorem add_time_increment_exact tf span t periods :
  fixed_span tf = Some span ->
  match add_time_increment tf t periods with
  | Ok t' => t' = t + periods * span
  | Err e => e = InvalidTimeFramePeriod
  end.
Proof.
  unfold fixed_span, add_time_increment. intros Hs.
  destruct (_ && _); simpl; [|done].
  destruct (tf_unit tf); simplify_eq;
    (destruct (try_delta _ _) as [d|] eqn:Ed; [|done]; apply try_delta_spec in Ed as [-> _];
     destruct (checked_add_signed _ _) eqn:Ea; [|done];
     apply checked_add_signed_spec in Ea as ->; lia).
Qed.

(** *** Alignment *)

Lemma sub_minute_mod t :
  (t / ns_second) mod 60 * ns_second + t mod ns_second = t mod ns_minute.
Proof.
  unfold ns_minute. rewrite (Z.mul_comm 60), Z.rem_mul_r by (unfold ns_second; lia). lia.
Qed.

Lemma sub_hour_mod t : (t / ns_minute) mod 60 * ns_minute + t mod ns_minute = t mod ns_hour.
Proof.
  unfold ns_hour. rewrite (Z.mul_comm 60), Z.rem_mul_r by (unfold ns_minute, ns_second; lia). lia.
Qed.

Lemma sub_day_mod t : (t / ns_hour) mod 24 * ns_hour + t mod ns_hour = t mod ns_day.
Proof.
  unfold ns_day. rewrite (Z.mul_comm 24), Z.rem_mul_r
    by (unfold ns_hour, ns_minute, ns_second; lia). lia.
Qed.

Lemma units_pos : 0 < ns_second /\ 0 < ns_minute /\ 0 < ns_hour /\ 0 < ns_day.
Proof. unfold ns_day, ns_hour, ns_minute, ns_second. lia. Qed.

(** Cutting an instant down to a multiple of [a] units inside a field of
    [base] units. *)
Lemma align_down u base a t (c := t - ((t / u) mod base mod a * u + t mod u)) :
  0 < u -> 0 < base -> 0 < a ->
  c <= t < c + a * u /\ c mod u = 0 /\
  (c / u) mod base = (t / u) mod base - (t / u) mod base mod a.
Proof.
  intros Hu Hb Ha. set (f := (t / u) mod base) in *.
  pose proof (Z.mod_pos_bound f a Ha). pose proof (Z.mod_pos_bound t u Hu).
  pose proof (Z.mod_pos_bound (t / u) base Hb). pose proof (Z.div_mod t u ltac:(lia)).
  pose proof (Z.mod_le f a ltac:(lia) Ha).
  assert (Hc : c = (t / u - f mod a) * u) by (unfold c; lia).
  split; [unfold c; nia|]. rewrite Hc. split; [apply Z.mod_mul; lia|].
  rewrite Z.div_mul by lia. symmetry.
  apply (Z.mod_unique _ _ (t / u / base)); [lia|].
  pose proof (Z.div_mod (t / u) base ltac:(lia)). lia.
Qed.

Lemma sub_mod_0 f a : 0 < a -> (f - f mod a) mod a = 0.
Proof.
  intros Ha. pose proof (Z.div_mod f a ltac:(lia)).
  replace (f - f mod a) with (f / a * a) by lia. apply Z.mod_mul. lia.
Qed.

Lemma minute_start t : t mod ns_minute = 0 -> (t / ns_second) mod 60 = 0.
Proof.
  pose proof units_pos. pose proof (sub_minute_mod t).
  pose proof (Z.mod_pos_bound (t / ns_second) 60 ltac:(lia)).
  pose proof (Z.mod_pos_bound t ns_second ltac:(lia)). nia.
Qed.

Lemma hour_start t : t mod ns_hour = 0 -> (t / ns_minute) mod 60 = 0 /\ t mod ns_minute = 0.
Proof.
  pose proof units_pos. pose proof (sub_hour_mod t).
  pose proof (Z.mod_pos_bound (t / ns_minute) 60 ltac:(lia)).
  pose proof (Z.mod_pos_bound t ns_minute ltac:(lia)). nia.
Qed.

Lemma day_start t : t mod ns_day = 0 -> (t / ns_hour) mod 24 = 0 /\ t mod ns_hour = 0.
Proof.
  pose proof units_pos. pose proof (sub_day_mod t).
  pose proof (Z.mod_pos_bound (t / ns_hour) 24 ltac:(lia)).
  pose proof (Z.mod_pos_bound t ns_hour ltac:(lia)). nia.
Qed.

(** A midnight has zero hour, minute and second. *)
Lemma midnight_fields t :
  t mod ns_day = 0 -> (dt_hour t =? 0) && (dt_minute t =? 0) && (dt_second t =? 0) = true.
Proof.
  intros [Hh Hm]%day_start. apply hour_start in Hm as [Hm Hs]. apply minute_start in Hs.
  rewrite dt_hour_spec, dt_minute_spec, dt_second_spec. lia.
Qed.

Lemma dt_day_first t k :
  Z.of_nat k < dt_day t -> dt_day (t - Z.of_nat k * ns_day) = dt_day t - Z.of_nat k.
Proof.
  induction k as [|k IH]; intros Hk; [simpl; rewrite !Z.sub_0_r; done|].
  rewrite Nat2Z.inj_succ in *.
  replace (t - Z.succ (Z.of_nat k) * ns_day) with (t - Z.of_nat k * ns_day - ns_day) by lia.
  rewrite dt_day_pred; rewrite IH; lia.
Qed.

Lemma month_start t :
  dt_day (t - ((dt_day t - 1) * ns_day + t mod ns_day)) = 1.
Proof.
  pose proof (dt_day_range t). pose proof units_pos.
  destruct (Z_of_nat_complete (dt_day t - 1)) as [k Hk]; [lia|]. rewrite Hk.
  replace (t - (Z.of_nat k * ns_day + t mod ns_day))
    with (t - t mod ns_day - Z.of_nat k * ns_day) by lia.
  rewrite dt_day_first; rewrite dt_day_same_day; lia.
Qed.

(** What [get_current_time_increment] subtracts, per unit. *)
Lemma get_current_value tf t c :
  get_current_time_increment tf t = Some c ->
  let a := tf_amount tf in
  match tf_unit tf with
  | TfSecond => c = t - ((t / ns_second) mod 60 mod a * ns_second + t mod ns_second)
  | TfMinute => c = t - ((t / ns_minute) mod 60 mod a * ns_minute + t mod ns_minute)
  | TfHour => c = t - ((t / ns_hour) mod 24 mod a * ns_hour + t mod ns_hour)
  | TfDay => c = t - (dt_day t mod a * ns_day + t mod ns_day)
  | TfMonth => exists t', checked_sub_months t (dt_month t mod a) = Some t' /\
                          c = t' - ((dt_day t' - 1) * ns_day + t' mod ns_day)
  end.
Proof.
  unfold get_current_time_increment. intros Hc.
  rewrite <- ?(sub_day_mod t), <- ?(sub_hour_mod t), <- ?(sub_minute_mod t).
  destruct (tf_unit tf); cbv zeta in *; chrono_values; try (rewrite Hc; ring).
  destruct (checked_sub_months _ _) as [t'|] eqn:E; [|done].
  exists t'. split; [done|]. chrono_values.
  rewrite <- (sub_day_mod t'), <- (sub_hour_mod t'), <- (sub_minute_mod t').
  rewrite Hc. ring.
Qed.

(** Flooring to the current bar: for every representable timeframe of a
    fixed-length unit, [get_current_time_increment] returns the start of the
    bar holding the instant, [c <= t < c + span], and that start is a boundary
    of the timeframe in the sense of [is_interval_valid]. *)
Theorem current_increment_floor tf span t c :
  timeframe_valid tf = true -> fixed_span tf = Some span ->
  get_current_time_increment tf t = Some c ->
  c <= t < c + span /\ is_interval_valid tf c = true.
Proof.
  intros [Ha Hu]%timeframe_valid_spec Hs Hc%get_current_value.
  pose proof units_pos as (H1 & H2 & H3 & H4).
  unfold fixed_span, is_interval_valid in *.
  destruct (tf_unit tf); cbv zeta in Hc; simplify_eq;
    rewrite ?dt_second_spec, ?dt_minute_spec, ?dt_hour_spec.
  - destruct (align_down ns_second 60 (tf_amount tf) t) as (? & _ & ->); try lia.
    split; [done|]. rewrite sub_mod_0 by lia. done.
  - destruct (align_down ns_minute 60 (tf_amount tf) t) as (? & Hm & ->); try lia.
    split; [done|]. rewrite sub_mod_0 by lia. apply minute_start in Hm. rewrite Hm. done.
  - destruct (align_down ns_hour 24 (tf_amount tf) t) as (? & Hm & ->); try lia.
    split; [done|]. rewrite sub_mod_0 by lia. apply hour_start in Hm as [Hm Hs].
    apply minute_start in Hs. rewrite Hm, Hs. done.
  - rewrite Hu, !Z.mod_1_r. pose proof (Z.mod_pos_bound t ns_day ltac:(lia)).
    pose proof (Z.div_mod t ns_day ltac:(lia)).
    replace (t - (0 * ns_day + t mod ns_day)) with (t / ns_day * ns_day) by lia.
    split; [lia|]. rewrite <- !dt_hour_spec, <- dt_minute_spec, <- dt_second_spec.
    rewrite <- !andb_assoc. rewrite andb_true_l, andb_assoc.
    apply midnight_fields, Z.mod_mul. lia.
Qed.

(** The next bar starts one span after the current one: the two
    computations agree although the code derives them separately. *)
Theorem next_increment_follows_current tf span t c n :
  fixed_span tf = Some span ->
  get_current_time_increment tf t = Some c -> get_next_time_increment tf t = Some n ->
  n = c + span.
Proof.
  intros Hs Hc%get_current_value. unfold fixed_span, get_next_time_increment in *.
  rewrite <- ?(sub_day_mod t), <- ?(sub_hour_mod t), <- ?(sub_minute_mod t) in Hc.
  destruct (tf_unit tf); cbv zeta in *; simplify_eq; intros Hn;
    repeat match goal with
      | Hm : match ?x with Some _ => _ | None => None end = Some _ |- _ =>
          destruct x eqn:?; [|done]
      end; chrono_values; subst; ring.
Qed.

(** A monthly bar starts at midnight on the first of a month, whatever
    day the calendar clamps the shifted instant to. *)
Theorem current_month_boundary t c :
  get_current_time_increment (mkTimeFrame 1 TfMonth) t = Some c ->
  is_interval_valid (mkTimeFrame 1 TfMonth) c = true.
Proof.
  intros Hc%get_current_value. simpl in Hc. destruct Hc as (t' & _ & ->).
  unfold is_interval_valid. simpl. rewrite Z.mod_1_r, month_start. simpl.
  apply midnight_fields. pose proof units_pos. pose proof (Z.div_mod t' ns_day ltac:(lia)).
  replace (t' - ((dt_day t' - 1) * ns_day + t' mod ns_day))
    with ((t' / ns_day - (dt_day t' - 1)) * ns_day) by lia.
  apply Z.mod_mul. lia.
Qed.
End CalendarFacts.


Lemma add_time_increment_exact_witness :
  add_time_increment (mkTimeFrame 15 TfMinute) 0 (-4) = Ok (- 3600 * 1000000000) /\
  match add_time_increment (mkTimeFrame 15 TfMinute) 0 (-4) with
  | Ok t' => t' = 0 + (-4) * (15 * ns_minute)
  | Err e => e = InvalidTimeFramePeriod
  end.
Proof.
  split; [vm_compute; reflexivity|]. apply add_time_increment_exact. reflexivity.
Defined.

Lemma current_increment_floor_witness :
  get_current_time_increment (mkTimeFrame 15 TfMinute) 1000000000000 = Some 900000000000 /\
  900000000000 <= 1000000000000 < 900000000000 + 15 * ns_minute /\
  is_interval_valid (mkTimeFrame 15 TfMinute) 900000000000 = true.
Proof.
  split; [vm_compute; reflexivity|].
  apply (current_increment_floor (mkTimeFrame 15 TfMinute) (15 * ns_minute)); vm_compute; reflexivity.
Defined.

Lemma next_increment_follows_current_witness :
  1800000000000 = 900000000000 + 15 * ns_minute.
Proof.
  apply (next_increment_follows_current (mkTimeFrame 15 TfMinute) (15 * ns_minute) 1000000000000);
    vm_compute; reflexivity.
Defined.

Lemma current_month_boundary_witness :
  get_current_time_increment (mkTimeFrame 1 TfMonth) (45 * ns_day + 7) = Some (31 * ns_day) /\
  is_interval_valid (mkTimeFrame 1 TfMonth) (31 * ns_day) = true.
Proof.
  split; [vm_compute; reflexivity|].
  apply (current_month_boundary (45 * ns_day + 7)). vm_compute. reflexivity.
Defined.

