(* ===== verification/InsightTypes.v ===== *)
(** * InsightTypes: the enumerations and small records of [src/core/insight/types/mod.rs] *)
From S2P Require Import Prelude.
From S2P Require Import Float64.
From S2P Require Import Text.
From S2P Require Import BrokerTypes.

Inductive InsightHistoryKind := StateTransition | Configuration | Execution | Diagnostic.
#[export] Instance InsightHistoryKind_eq_dec : EqDecision InsightHistoryKind.
Proof. solve_decision. Defined.

Inductive InsightState := New | Executed | Filled | Closed | Cancelled | Rejected.
#[export] Instance InsightState_eq_dec : EqDecision InsightState.
Proof. solve_decision. Defined.
#[export] Instance InsightState_countable : Countable InsightState.
Proof.
  refine (inj_countable'
    (fun s => match s with
              | New => 0 | Executed => 1 | Filled => 2 | Closed => 3 | Cancelled => 4
              | Rejected => 5
              end)
    (fun n => match n with
              | 0 => New | 1 => Executed | 2 => Filled | 3 => Closed | 4 => Cancelled
              | _ => Rejected
              end) _).
  by intros [].
Defined.

Definition is_active (s : InsightState) : bool :=
  match s with New | Executed | Filled => true | _ => false end.
Definition is_inactive (s : InsightState) : bool :=
  match s with Closed | Cancelled | Rejected => true | _ => false end.

Lemma is_active_inactive s : is_active s = negb (is_inactive s).
Proof. by destruct s. Qed.

Inductive StrategyType := Manual | Testing | Portfolio | CustomStrategy (name : string).
Definition strategy_type_to_string (s : StrategyType) : string :=
  match s with
  | Manual => "Manual"
  | Testing => "Testing"
  | Portfolio => "Portfolio"
  | CustomStrategy n => n
  end.

Inductive StrategyDependentConfirmation :=
| DepNone
| HighRelativeVolumeConfirmationModel
| LowRelativeVolumeConfirmationModel
| HighTimeFrameConfirmationModel
| LowTimeFrameConfirmationModel
| HighConfidenceConfirmationModel
| LowConfidenceConfirmationModel
| UpStateConfirmationModel
| DownStateConfirmationModel
| FlatStateConfirmationModel
| DepCustom (name : string).
#[export] Instance StrategyDependentConfirmation_eq_dec : EqDecision StrategyDependentConfirmation.
Proof. solve_decision. Defined.

Inductive InsightValidation := Valid | InvalidBecause (reason : text).

Record PartialCloseResult := mkPartialClose {
  pc_order_id : string;
  pc_side : OrderSide;
  pc_quantity : f64;
  pc_entry_price : f64;
  pc_filled_price : option f64
}.

Definition partial_close_new (order_id : string) (side : OrderSide) (quantity entry_price : f64)
    : PartialCloseResult :=
  mkPartialClose order_id side quantity entry_price None.

Definition set_filled_price (p : PartialCloseResult) (filled_price : f64) : PartialCloseResult :=
  mkPartialClose (pc_order_id p) (pc_side p) (pc_quantity p) (pc_entry_price p)
    (Some filled_price).

Definition partial_get_pl (p : PartialCloseResult) : f64 :=
  let fp := unwrap_or (pc_filled_price p) (pc_entry_price p) in
  if decide (pc_side p = Buy)
  then (fp ⊖ pc_entry_price p) ⊗ pc_quantity p
  else (pc_entry_price p ⊖ fp) ⊗ pc_quantity p.
