(* ===== verification/Commands.v ===== *)
(** * Commands: immutable broker-bound data ([src/core/broker/commands.rs])

    The command a strategy queues, its receipt and the outcome a broker worker
    reports.  The identity of an entry command is a name-based UUID over a JSON
    encoding, code of the [uuid] and [serde_json] crates: class [CommandIds]
    takes it as a parameter, with the stability of the identity as the only
    behaviour relied on (it is a function of its three arguments). *)
From S2P Require Import Prelude.
From S2P Require Import Float64.
From S2P Require Import Text.
From S2P Require Import BrokerTypes.
From S2P Require Import InsightTypes.

Record BrokerOrderRequest := mkOrderRequest {
  rq_client_order_id : string;
  rq_insight_id : string;
  rq_strategy_type : string;
  rq_symbol : string;
  rq_quantity : option f64;
  rq_side : OrderSide;
  rq_order_type : OrderType;
  rq_order_class : OrderClass;
  rq_limit_price : option f64;
  rq_stop_price : option f64;
  rq_take_profit_levels : option (list f64);
  rq_stop_loss_levels : option (list f64);
  rq_trailing_stop_price : option f64
}.

Definition BROKER_COMMAND_VERSION : Z := 1.

Record BrokerDispatchConstraints := mkConstraints {
  max_total_symbol_quantity : option f64
}.
Definition default_constraints : BrokerDispatchConstraints := mkConstraints None.
Definition constraints_is_empty (c : BrokerDispatchConstraints) : bool :=
  is_none (max_total_symbol_quantity c).

Record BrokerOperationGroup := mkGroup { grp_id : string; grp_version : Z }.
#[export] Instance BrokerOperationGroup_eq_dec : EqDecision BrokerOperationGroup.
Proof. solve_decision. Defined.

Inductive BrokerCommandAction :=
| ActAmendEntry (order_id : string) (limit_price stop_price : option f64)
| ActSubmit (request : BrokerOrderRequest)
| ActCancel (order_id : string)
| ActClose (order_id : string) (quantity : f64) (price : option f64)
| ActReplace (order_id : string) (price quantity : f64)
| ActTakeProfit (order_id : string) (price quantity : f64)
| ActStopLoss (order_id : string) (price quantity : f64).

Definition is_entry (a : BrokerCommandAction) : bool :=
  match a with ActSubmit _ => true | _ => false end.
Definition is_teardown (a : BrokerCommandAction) : bool :=
  match a with ActCancel _ | ActClose _ _ _ => true | _ => false end.
Definition action_order_id (a : BrokerCommandAction) : option string :=
  match a with
  | ActSubmit _ => None
  | ActCancel id | ActClose id _ _ | ActReplace id _ _ | ActAmendEntry id _ _
  | ActTakeProfit id _ _ | ActStopLoss id _ _ => Some id
  end.

(** Only terminal evidence for the exact targeted order settles an uncertain
    cleanup or an obsolete protection update. *)
Definition settled_by_terminal (a : BrokerCommandAction) (order_id : option string)
    (state : InsightState) : bool :=
  is_some_and (fun id => bool_decide (Some id = order_id)) (action_order_id a)
  && match a with
     | ActClose _ _ _ => bool_decide (state = Closed)
     | ActCancel _ => match state with Cancelled | Rejected | Closed => true | _ => false end
     | ActTakeProfit _ _ _ | ActStopLoss _ _ _ =>
         match state with Closed | Cancelled => true | _ => false end
     | _ => false
     end.

Record BrokerCommandReceipt := mkReceipt {
  rcpt_id : string;
  rcpt_insight_id : string;
  rcpt_group : option BrokerOperationGroup
}.
#[export] Instance BrokerCommandReceipt_eq_dec : EqDecision BrokerCommandReceipt.
Proof. solve_decision. Defined.

Inductive BrokerCommandOutcome :=
| OrderResponse (order : Order)
| Acknowledged
| DeclinedOutcome (reason : string)
| Ambiguous (reason : string)
| CancelledBeforeDispatch.

Record BrokerCommandCompletion := mkCompletion {
  cmp_receipt : BrokerCommandReceipt;
  cmp_queued_at_us : Z;
  cmp_dispatched_at_us : option Z;
  cmp_completed_at_us : Z;
  cmp_outcome : BrokerCommandOutcome
}.

Inductive BrokerCommandError :=
| DeclinedError (reason : string)
| InvalidCommand (reason : text)
| TooLarge
| QueueFull
| AnalyticsBusy
| AnalyticsQueueFull
| CapturePaused
| ClosedError
| Stopping
| IdentityConflict
| JournalError (reason : string).

Record BrokerCommand := mkCommand {
  cmd_version : Z;
  cmd_id : string;
  cmd_strategy_id : string;
  cmd_account_id : string;
  cmd_insight_id : string;
  cmd_group : option BrokerOperationGroup;
  cmd_dispatch_constraints : BrokerDispatchConstraints;
  cmd_action : BrokerCommandAction
}.

Definition receipt (c : BrokerCommand) : BrokerCommandReceipt :=
  mkReceipt (cmd_id c) (cmd_insight_id c) (cmd_group c).

Class CommandIds := {
  entry_id : string -> string -> string -> string
}.

Section Command.
Context `{CommandIds}.

(** [fresh] is the rendered [Uuid::new_v4()] a command other than an entry
    takes as its identity. *)
Definition command_new_with_constraints (strategy_id account_id insight_id : string)
    (action : BrokerCommandAction) (group : option BrokerOperationGroup)
    (constraints : BrokerDispatchConstraints) (fresh : string) : BrokerCommand :=
  let strategy_id := trim strategy_id in
  let account_id := trim account_id in
  let id := match action with
            | ActSubmit request =>
                entry_id strategy_id account_id (rq_client_order_id request)
            | _ => fresh
            end in
  mkCommand BROKER_COMMAND_VERSION id strategy_id account_id insight_id group constraints
    action.

Definition command_new (strategy_id account_id insight_id : string)
    (action : BrokerCommandAction) (group : option BrokerOperationGroup) (fresh : string)
    : BrokerCommand :=
  command_new_with_constraints strategy_id account_id insight_id action group
    default_constraints fresh.

Definition invalid (reason : string) : BrokerCommandError := InvalidCommand [Lit reason].

Definition invalid_identity (value : string) : bool :=
  str_is_empty value || negb (String.eqb (trim value) value) || (512 <? str_len value).

(** The payload checks of one action; [Err] is the early [TooLarge] or
    unstable-identity return of a submission. *)
Definition valid_payload (c : BrokerCommand) : result bool BrokerCommandError :=
  match cmd_action c with
  | ActSubmit request =>
      if (512 <? str_len (rq_client_order_id request))
         || (512 <? str_len (rq_strategy_type request))
         || (128 <? str_len (rq_symbol request))
         || is_some_and (fun v => 256 <? length v) (rq_take_profit_levels request)
         || is_some_and (fun v => 256 <? length v) (rq_stop_loss_levels request)
      then Err TooLarge
      else if negb (String.eqb (cmd_id c)
                      (entry_id (cmd_strategy_id c) (cmd_account_id c)
                         (rq_client_order_id request)))
      then Err (invalid "submit command identity must be stable")
      else
        Ok (String.eqb (rq_insight_id request) (cmd_insight_id c)
            && negb (is_blank (rq_client_order_id request))
            && negb (is_blank (rq_symbol request))
            && is_some_and positive (rq_quantity request)
            && is_none_or positive (rq_limit_price request)
            && is_none_or positive (rq_stop_price request)
            && is_none_or positive (rq_trailing_stop_price request)
            && forallb positive (unwrap_or (rq_take_profit_levels request) [])
            && forallb positive (unwrap_or (rq_stop_loss_levels request) []))
  | ActCancel _ => Ok true
  | ActAmendEntry _ limit_price stop_price =>
      Ok ((is_some limit_price || is_some stop_price)
          && is_none_or positive limit_price && is_none_or positive stop_price)
  | ActClose _ quantity price => Ok (positive quantity && is_none_or positive price)
  | ActReplace _ price quantity | ActTakeProfit _ price quantity
  | ActStopLoss _ price quantity => Ok (positive quantity && positive price)
  end.

Definition command_validate (c : BrokerCommand) : result unit BrokerCommandError :=
  if negb (cmd_version c =? BROKER_COMMAND_VERSION)%Z
  then Err (invalid "unsupported command version")
  else if existsb invalid_identity
            [cmd_id c; cmd_strategy_id c; cmd_account_id c; cmd_insight_id c]
  then Err (invalid "invalid command identity")
  else if is_some_and (fun g => is_blank (grp_id g) || (512 <? str_len (grp_id g)))
            (cmd_group c)
  then Err (invalid "invalid operation group")
  else if is_some_and (fun v => negb (positive v))
            (max_total_symbol_quantity (cmd_dispatch_constraints c))
          || (negb (constraints_is_empty (cmd_dispatch_constraints c))
              && negb (is_entry (cmd_action c)))
  then Err (invalid "invalid dispatch quantity constraint")
  else
    let? valid := valid_payload c in
    if negb valid
       || is_some_and (fun id => is_blank id || (512 <? str_len id))
            (action_order_id (cmd_action c))
    then Err (invalid "invalid broker command payload")
    else Ok ().
(** The quantities and prices an action carries. *)
Definition action_numbers (a : BrokerCommandAction) : list f64 :=
  match a with
  | ActSubmit rq =>
      option_list (rq_quantity rq) ++ option_list (rq_limit_price rq)
      ++ option_list (rq_stop_price rq) ++ option_list (rq_trailing_stop_price rq)
      ++ unwrap_or (rq_take_profit_levels rq) [] ++ unwrap_or (rq_stop_loss_levels rq) []
  | ActCancel _ => []
  | ActAmendEntry _ l s => option_list l ++ option_list s
  | ActClose _ q p => q :: option_list p
  | ActReplace _ p q | ActTakeProfit _ p q | ActStopLoss _ p q => [p; q]
  end.

Lemma option_list_positive (o : option f64) :
  is_none_or positive o = true -> Forall (fun x => positive x = true) (option_list o).
Proof. destruct o; simpl; repeat constructor; auto. Qed.
Lemma option_list_some_positive (o : option f64) :
  is_some_and positive o = true -> Forall (fun x => positive x = true) (option_list o).
Proof. destruct o; simpl; repeat constructor; auto. Qed.
Lemma forallb_positive l :
  forallb positive l = true -> Forall (fun x => positive x = true) l.
Proof. intros Hf. apply Forall_forall. intros x Hx%list_elem_of_In. by eapply forallb_forall in Hf. Qed.
Hint Resolve option_list_positive option_list_some_positive forallb_positive : aqe.

Lemma valid_payload_true c :
  valid_payload c = Ok true ->
  Forall (fun x => positive x = true) (action_numbers (cmd_action c)) /\
  (forall rq, cmd_action c = ActSubmit rq ->
     cmd_id c = entry_id (cmd_strategy_id c) (cmd_account_id c) (rq_client_order_id rq) /\
     rq_insight_id rq = cmd_insight_id c /\ is_Some (rq_quantity rq)) /\
  (forall id l s, cmd_action c = ActAmendEntry id l s -> is_some l || is_some s = true).
Proof.
  unfold valid_payload. intros Hv.
  destruct (cmd_action c) as [id l s|rq|id|id q p|id p q|id p q|id p q];
    [| |split; [constructor|done]|..]; cbn [action_numbers].
  2: { do 2 (split_match_in Hv; [done|]). injection Hv as Hv. break_bool.
    split; [repeat apply Forall_app_2; auto with aqe|].
    split; [|done]. intros rq' [= <-].
    repeat match goal with Hs : String.eqb _ _ = true |- _ => apply String.eqb_eq in Hs end.
    repeat split; try done. by destruct (rq_quantity rq). }
  all: injection Hv as Hv; break_bool;
    (split; [repeat (apply Forall_app_2 || constructor); auto with aqe|]);
    split; intros; simplify_eq; done.
Qed.

(** C39 A command that passes validation carries only finite positive quantities and prices,
    targets a non-blank order, and a submission has the identity derived from its strategy,
    account and client order (so that a retry is the same command), a quantity, and the
    insight the command belongs to. *)
Theorem validated_command_payload c :
  command_validate c = Ok () ->
  Forall (fun x => positive x = true) (action_numbers (cmd_action c)) /\
  (forall id, action_order_id (cmd_action c) = Some id -> is_blank id = false) /\
  (forall rq, cmd_action c = ActSubmit rq ->
     cmd_id c = entry_id (cmd_strategy_id c) (cmd_account_id c) (rq_client_order_id rq) /\
     rq_insight_id rq = cmd_insight_id c /\ is_Some (rq_quantity rq)) /\
  (forall id l s, cmd_action c = ActAmendEntry id l s -> is_some l || is_some s = true).
Proof.
  unfold command_validate. intros Hv. do 4 (split_match_in Hv; [done|]).
  destruct (valid_payload c) as [[|]|] eqn:Hp; simpl in Hv; [|done|done].
  destruct (valid_payload_true c Hp) as (Hn & Hs & Ha).
  split; [done|]. split; [|done]. intros id Hid. rewrite Hid in Hv. simpl in Hv.
  by destruct (is_blank id).
Qed.
End Command.

(** [Display] of [BrokerCommandError]. *)
Definition MAX_BROKER_COMMAND_BYTES : Z := 16 * 1024.
Definition error_text (e : BrokerCommandError) : text :=
  match e with
  | DeclinedError reason => [Lit "Broker declined command: "; Lit reason]
  | InvalidCommand reason => [Lit "Invalid broker command: "] ++ reason
  | TooLarge => [Lit "Broker command exceeds "; ShowZ MAX_BROKER_COMMAND_BYTES; Lit " bytes"]
  | QueueFull => [Lit "Broker command queue is full; defer and retry admission"]
  | AnalyticsBusy => [Lit "Analytics reader is busy; defer and retry"]
  | AnalyticsQueueFull => [Lit "Analytics journal request queue is full; defer and retry"]
  | CapturePaused =>
      [Lit "New optional analytics capture is paused; no journal receipt was issued"]
  | ClosedError => [Lit "Broker command worker is closed"]
  | Stopping => [Lit "Broker entry admission is stopped"]
  | IdentityConflict => [Lit "Broker command identity conflicts with its durable intent"]
  | JournalError reason => [Lit "Broker command journal: "; Lit reason]
  end.

(** A command with the identity its client order determines. *)
#[export] Instance concat_ids : CommandIds := {
  entry_id s a c := (s +:+ "/" +:+ a +:+ "/" +:+ c)%string
}.
Definition demo_command : BrokerCommand :=
  command_new "strategy" "account" "insight"
    (ActSubmit (mkOrderRequest "insight" "insight" "Manual" "BTCUSD" (Some 2%float) Buy Limit
                  Bracket (Some 100%float) None (Some [110%float]) None None)) None "fresh".
Lemma validated_command_payload_witness :
  Forall (fun x => positive x = true) (action_numbers (cmd_action demo_command)).
Proof. apply (validated_command_payload demo_command). vm_compute. reflexivity. Defined.
