(* ===== verification/ExecutionData.v ===== *)
(** * ExecutionData: bounded component state of an insight
    ([src/core/insight/execution_data.rs])

    A small ordered map of JSON strings journaled with an insight.  JSON is the
    [serde_json] crate: class [Json] takes its encoder (the chunks it writes),
    its parsers and the UUID-array encoding as parameters, with the round trips
    its documentation promises as laws. *)
From S2P Require Import Prelude.
From S2P Require Import OrderedSet.
From S2P Require Import Float64.
From S2P Require Import Text.
From S2P Require Import BrokerTypes.
From S2P Require Import InsightTypes.
From S2P Require Import Commands.

Definition RECOVERY_DEPENDENCIES : string := "aqe:recovery-dependencies:v1".
Definition MAX_RECOVERY_DEPENDENCIES : nat := 16.
Definition MAX_BYTES : nat := 16 * 1024.
Definition MAX_KEYS : nat := 16.
Definition MAX_KEY_BYTES : nat := 128.

Class Json := {
  Value : Type;
  json_chunks : Value -> list string;         (** what [to_writer] writes *)
  json_parse : string -> option Value;        (** [from_str::<Value>] *)
  json_parse_uuids : string -> option (list Uuid);  (** [from_str::<Vec<Uuid>>] *)
  json_uuids : list Uuid -> Value;            (** [json!(ids)] *)
  json_roundtrip v : json_parse (foldr String.append "" (json_chunks v))%string = Some v;
  json_uuids_roundtrip ids :
    json_parse_uuids (foldr String.append "" (json_chunks (json_uuids ids)))%string = Some ids
}.

(** [ExecutionData(BTreeMap<String, String>)]. *)
Abbreviation ExecutionData := (gmap string string) (only parsing).

Section Data.
Context `{Json}.

Definition data_read (d : ExecutionData) (key : string)
    : result (option Value) BrokerCommandError :=
  match d !! key with
  | None => Ok None
  | Some encoded =>
      match json_parse encoded with
      | Some v => Ok (Some v)
      | None => Err (invalid "JSON")
      end
  end.

(** [ids.windows(2).any(|pair| pair[0] >= pair[1])]. *)
Fixpoint out_of_order (ids : list Uuid) : bool :=
  match ids with
  | a :: ((b :: _) as rest) => (b <=? a)%N || out_of_order rest
  | _ => false
  end.

Definition decode_dependencies (encoded : string) : result (list Uuid) BrokerCommandError :=
  match json_parse_uuids encoded with
  | None => Err (invalid "JSON")
  | Some ids =>
      if (MAX_RECOVERY_DEPENDENCIES <? length ids) || out_of_order ids
      then Err (invalid "recovery dependencies must be at most 16 sorted unique UUIDs")
      else Ok ids
  end.

Definition recovery_dependencies (d : ExecutionData)
    : result (list Uuid) BrokerCommandError :=
  match d !! RECOVERY_DEPENDENCIES with
  | None => Ok []
  | Some value => decode_dependencies value
  end.

Definition validate_key (key : string) : result unit BrokerCommandError :=
  if is_blank key || (MAX_KEY_BYTES <? str_len key)
  then Err (invalid "custom execution data key must contain 1..=128 bytes")
  else Ok ().

(** [self.0.iter().map(|(k, v)| k.len() + v.len()).sum()]. *)
Definition data_bytes (d : ExecutionData) : nat :=
  map_fold (fun k v acc => str_len k + str_len v + acc) 0 d.

(** [ExecutionData::validate]; the loop stops at the first bad entry, so only
    whether there is one is kept. *)
Definition data_validate (d : ExecutionData) : result unit BrokerCommandError :=
  if (MAX_KEYS <? size d) || (MAX_BYTES <? data_bytes d)
  then Err (invalid "custom execution data exceeds its per-insight bound")
  else if existsb (fun kv => is_err (validate_key kv.1) || is_none (json_parse kv.2))
            (map_to_list d)
  then Err (invalid "custom execution data entry")
  else
    let? _ := recovery_dependencies d in
    Ok ().

(** [BoundedJson::write] over the chunks of one [to_writer] call. *)
Fixpoint bounded_write (buffer : string) (chunks : list string)
    : result string BrokerCommandError :=
  match chunks with
  | [] => Ok buffer
  | chunk :: rest =>
      if MAX_BYTES - str_len buffer <? str_len chunk
      then Err (invalid "custom execution data exceeds 16 KiB")
      else bounded_write (buffer +:+ chunk)%string rest
  end.

Definition set_execution_data (d : ExecutionData) (key : string) (value : Value)
    : result ExecutionData BrokerCommandError :=
  let? _ := validate_key key in
  if is_none (d !! key) && (size d =? MAX_KEYS)
  then Err (invalid "custom execution data exceeds 16 component keys")
  else
    let? encoded := bounded_write "" (json_chunks value) in
    let? _ := (if String.eqb key RECOVERY_DEPENDENCIES
               then decode_dependencies encoded else Ok []) in
    let retained := data_bytes (delete key d) in
    if MAX_BYTES <? retained + str_len key + str_len encoded
    then Err (invalid "custom execution data exceeds 16 KiB")
    else Ok (<[key := encoded]> d).

(** [sort_unstable] then [dedup] on the owners is their ascending set. *)
Definition set_recovery_dependencies (d : ExecutionData) (owners : list Uuid)
    : result ExecutionData BrokerCommandError :=
  if MAX_RECOVERY_DEPENDENCIES <? length owners
  then Err (invalid "at most 16 recovery dependencies are supported")
  else set_execution_data d RECOVERY_DEPENDENCIES
         (json_uuids (btree_elements (list_to_set owners))).

(** ** The bounds *)

Record data_ok (d : ExecutionData) : Prop := {
  ok_size : size d <= MAX_KEYS;
  ok_bytes : data_bytes d <= MAX_BYTES;
  ok_entries k v : d !! k = Some v -> validate_key k = Ok () /\ is_Some (json_parse v);
  ok_deps : is_ok (recovery_dependencies d) = true
}.

Lemma bounded_write_spec buf chunks s :
  str_len buf <= MAX_BYTES ->
  (bounded_write buf chunks = Ok s <->
   s = (buf +:+ foldr String.append "" chunks)%string /\ str_len s <= MAX_BYTES).
Proof.
  revert buf. induction chunks as [|c cs IH]; intros buf Hb; cbn [bounded_write fold_right].
  - rewrite str_app_nil. naive_solver.
  - rewrite str_app_assoc.
    destruct (MAX_BYTES - str_len buf <? str_len c) eqn:E.
    + split; [done|]. intros [-> Hl]. rewrite !str_len_app in Hl. lia.
    + apply IH. rewrite str_len_app. lia.
Qed.

Lemma data_bytes_insert d k v :
  d !! k = None -> data_bytes (<[k := v]> d) = str_len k + str_len v + data_bytes d.
Proof.
  intros Hn. unfold data_bytes. rewrite map_fold_insert_L; [done| |done].
  intros. lia.
Qed.

Lemma data_bytes_set d k v :
  data_bytes (<[k := v]> d) = data_bytes (delete k d) + str_len k + str_len v.
Proof.
  rewrite <- insert_delete_eq, data_bytes_insert by apply lookup_delete_eq. lia.
Qed.

(** What a successful [set_execution_data] has checked and written. *)
Lemma set_execution_data_inv d k v d' :
  set_execution_data d k v = Ok d' ->
  let encoded := foldr String.append "" (json_chunks v) in
  d' = <[k := encoded]> d /\ validate_key k = Ok () /\
  (is_Some (d !! k) \/ size d <> MAX_KEYS) /\
  (k = RECOVERY_DEPENDENCIES -> is_ok (decode_dependencies encoded) = true) /\
  data_bytes (delete k d) + str_len k + str_len encoded <= MAX_BYTES.
Proof.
  intros Hset encoded. unfold set_execution_data in Hset.
  destruct (validate_key k) as [[]|] eqn:Hk; [|done].
  destruct (is_none (d !! k) && (size d =? MAX_KEYS)) eqn:Hfull; [done|].
  destruct (bounded_write "" (json_chunks v)) as [s|] eqn:Hw; [|done].
  apply bounded_write_spec in Hw as [Hs _]; [|cbn; lia].
  change (s = encoded) in Hs. subst s.
  destruct (if String.eqb k RECOVERY_DEPENDENCIES then decode_dependencies encoded else Ok [])
    as [ids|] eqn:Hd; [|done].
  destruct (MAX_BYTES <? _) eqn:Hb; [done|]. simplify_eq/=.
  repeat split; [| |lia].
  - destruct (d !! k); simpl in Hfull; [left; eauto|right; lia].
  - intros ->. rewrite String.eqb_refl in Hd. by rewrite Hd.
Qed.

Lemma out_of_order_sorted ids : StronglySorted N.lt ids -> out_of_order ids = false.
Proof.
  induction 1 as [|a l Hs IH Hall]; [done|].
  destruct l as [|b l]; [done|]. simpl in *. inversion Hall; subst.
  apply orb_false_iff. split; [lia|done].
Qed.

(** An insight's custom execution data keeps its bounds under every accepted write: at
    most 16 keys and 16 KiB in all, every key non-blank and at most 128 bytes, every value
    readable JSON, and the recovery dependencies at most 16 ascending UUIDs. *)
Theorem set_execution_data_ok d k v d' :
  data_ok d -> set_execution_data d k v = Ok d' -> data_ok d'.
Proof.
  intros [Hsz Hby Hen Hdep] (-> & Hk & Hroom & Hdec & Hb)%set_execution_data_inv.
  split.
  - destruct (d !! k) eqn:E.
    + rewrite map_size_insert_Some by eauto. done.
    + rewrite map_size_insert_None by done. destruct Hroom as [[? [=]]|]. lia.
  - rewrite data_bytes_set. lia.
  - intros k' v' [[<- <-]|[Hne Hl]]%lookup_insert_Some; [|eauto].
    split; [done|]. rewrite json_roundtrip. eauto.
  - unfold recovery_dependencies in *.
    destruct (decide (k = RECOVERY_DEPENDENCIES)) as [->|Hne].
    + rewrite lookup_insert_eq. auto.
    + rewrite lookup_insert_ne by done. done.
Qed.

(** Data within the bounds passes the validation recovery runs on it, so a journaled
    insight written only through [set_execution_data] is never refused on reload. *)
Theorem data_ok_validates d : data_ok d -> data_validate d = Ok ().
Proof.
  intros [Hsz Hby Hen Hdep]. unfold data_validate.
  destruct (_ || _) eqn:E1; [apply orb_true_iff in E1; lia|].
  destruct (existsb _ _) eqn:E2.
  - apply existsb_exists in E2 as ([k v] & Hin & Hbad).
    apply list_elem_of_In, elem_of_map_to_list in Hin.
    destruct (Hen _ _ Hin) as [Hk [w Hw]]. simpl in Hbad. by rewrite Hk, Hw in Hbad.
  - unfold is_ok in Hdep. by destruct (recovery_dependencies d).
Qed.

(** A stored value is read back exactly, and no other component's key is touched. *)
Theorem execution_data_read_back d k v d' :
  set_execution_data d k v = Ok d' ->
  data_read d' k = Ok (Some v) /\ (forall k', k' <> k -> data_read d' k' = data_read d k').
Proof.
  intros (-> & _)%set_execution_data_inv. unfold data_read. split.
  - by rewrite lookup_insert_eq, json_roundtrip.
  - intros k' Hne. by rewrite lookup_insert_ne by done.
Qed.

(** Registered recovery owners are read back as their ascending set, without duplicates. *)
Theorem recovery_dependencies_read_back d owners d' :
  set_recovery_dependencies d owners = Ok d' ->
  recovery_dependencies d' = Ok (btree_elements (list_to_set owners)).
Proof.
  unfold set_recovery_dependencies. destruct (_ <? _) eqn:Hl; [done|].
  intros (-> & _ & _ & Hdec & _)%set_execution_data_inv. specialize (Hdec eq_refl).
  unfold recovery_dependencies. rewrite lookup_insert_eq.
  unfold decode_dependencies in *. rewrite json_uuids_roundtrip in *.
  by destruct (_ || _).
Qed.
End Data.

(** ** A concrete encoding

    An instance of [Json] that shows its laws can hold: a value is a list of
    identities and its text the binary digits of its code. *)
Fixpoint bits (p : BinNums.positive) : string :=
  match p with
  | xH => ""
  | xO q => String (Ascii.ascii_of_nat 48) (bits q)
  | xI q => String (Ascii.ascii_of_nat 49) (bits q)
  end.
Fixpoint of_bits (s : string) : BinNums.positive :=
  match s with
  | EmptyString => xH
  | String a s' => if Ascii.eqb a (Ascii.ascii_of_nat 48) then xO (of_bits s') else xI (of_bits s')
  end.

Lemma of_bits_bits p : of_bits (bits p) = p.
Proof. induction p as [p IH|p IH|]; simpl; by rewrite ?IH. Qed.

#[refine] Instance ids_json : Json := {
  Value := list Uuid;
  json_chunks ids := [bits (encode ids)];
  json_parse s := decode (of_bits s);
  json_parse_uuids s := decode (of_bits s);
  json_uuids ids := ids
}.
Proof.
  - abstract (intros v; cbn [fold_right]; by rewrite str_app_nil, of_bits_bits, decode_encode).
  - abstract (intros v; cbn [fold_right]; by rewrite str_app_nil, of_bits_bits, decode_encode).
Defined.

Lemma data_ok_empty `{Json} : data_ok ∅.
Proof.
  split; [rewrite map_size_empty; unfold MAX_KEYS; lia | vm_compute; lia | | done].
  intros k v. by rewrite lookup_empty.
Qed.

Definition set_trail : result ExecutionData BrokerCommandError :=
  set_execution_data ∅ "trail:v1" [3%N].

Lemma set_execution_data_ok_witness :
  exists d', set_trail = Ok d' /\ data_ok d'.
Proof.
  eexists. split; [vm_compute; reflexivity|].
  eapply (set_execution_data_ok (H:=ids_json) ∅ "trail:v1" [3%N]); [apply data_ok_empty|].
  vm_compute. reflexivity.
Defined.

Lemma data_ok_validates_witness : data_validate ∅ = Ok ().
Proof. apply data_ok_validates. apply data_ok_empty. Defined.

Lemma execution_data_read_back_witness :
  exists d', set_trail = Ok d' /\ data_read d' "trail:v1" = Ok (Some [3%N]).
Proof.
  eexists. split; [vm_compute; reflexivity|].
  eapply (execution_data_read_back (H:=ids_json) ∅ "trail:v1" [3%N]). vm_compute. reflexivity.
Defined.

Lemma recovery_dependencies_read_back_witness :
  exists d', set_recovery_dependencies ∅ [7%N; 2%N; 7%N] = Ok d' /\
             recovery_dependencies d' = Ok [2%N; 7%N].
Proof.
  eexists. split; [vm_compute; reflexivity|].
  etransitivity; [eapply (recovery_dependencies_read_back (H:=ids_json) ∅ [7%N; 2%N; 7%N])|];
    vm_compute; reflexivity.
Defined.
