(* ===== verification/Insight.v ===== *)
(** * Insight: one trading decision and its life cycle
    ([src/core/insight/insight.rs], [position_accounting.rs])

    The record has the fields of the source's struct, less [context]: the clock
    it holds is the argument [now] of every operation that stamps a time, the
    instant at which the operation runs.  Log lines ([info!], [warn!]) are not
    modelled; the messages appended to the state history are.  Operations that
    also talk to the broker are in [Operations]. *)
From S2P Require Import Prelude.
From S2P Require Import Float64.
From S2P Require Import Text.
From S2P Require Import BrokerTypes.
From S2P Require Import TimeFrame.
From S2P Require Import InsightTypes.
From S2P Require Import Commands.
From S2P Require Import ExecutionData.

(** ** Pending broker mutations ([operations.rs]) *)
Inductive MutationKind :=
| KSubmit | KCancel | KClose | KTakeProfit | KStopLoss | KReplace | KAmendEntry.
#[export] Instance MutationKind_eq_dec : EqDecision MutationKind.
Proof. solve_decision. Defined.

Inductive MutationEffect :=
| EffSubmit
| EffCancel
| EffClose (price : option f64)
| EffTakeProfit (levels : option (list f64))
| EffStopLoss (levels : option (list f64))
| EffReplace (price quantity : f64)
| EffAmendEntry (limit_price stop_price : option f64).

Record PendingInsightMutation := mkPending {
  pm_kind : MutationKind;
  pm_receipt : BrokerCommandReceipt;
  pm_effect : MutationEffect
}.

(** ** The record *)
Inductive Insight := mkInsight {
  i_insight_id : Uuid;
  i_parent_id : option Uuid;
  i_is_split_insight : bool;
  i_state : InsightState;
  i_children : list Insight;
  i_order_id : option string;
  i_side : OrderSide;
  i_symbol : string;
  i_quantity : option f64;
  i_contracts : option f64;
  i_order_type : OrderType;
  i_order_class : OrderClass;
  i_limit_price : option f64;
  i_stop_price : option f64;
  i_take_profit_levels : option (list f64);
  i_stop_loss_levels : option (list f64);
  i_trailing_stop_price : option f64;
  i_strategy_type : StrategyType;
  i_confidence : Z;
  i_timeframe : TimeFrame;
  i_period_unfilled : option Z;
  i_period_till_tp : option Z;
  i_execution_depends : list StrategyDependentConfirmation;
  i_filled_price : option f64;
  i_close_order_id : option string;
  i_close_price : option f64;
  i_broker_realized_pnl : option f64;
  i_position_accounting : option PositionCloseAccounting;
  i_commission : option f64;
  i_swap : option f64;
  i_partial_closes : list PartialCloseResult;
  i_created_at : DateTime;
  i_updated_at : DateTime;
  i_filled_at : option DateTime;
  i_closed_at : option DateTime;
  i_legs : OrderLegs;
  i_market_changed : bool;
  i_submitted : bool;
  i_pending_mutations : list PendingInsightMutation;
  i_execution_data : ExecutionData;
  i_suppress_child_entries : bool;
  i_cancelling : bool;
  i_closing : bool;
  i_first_on_fill : bool;
  i_entry_filled_quantity : option f64;
  i_partial_filled_quantity : option f64;
  i_state_history : list (DateTime * InsightState * option text);
  i_state_history_kinds : list InsightHistoryKind
}.

Definition eta_Insight (i : Insight) : Insight :=
  mkInsight
    (i_insight_id i) (i_parent_id i) (i_is_split_insight i) (i_state i) (i_children i)
    (i_order_id i) (i_side i) (i_symbol i) (i_quantity i) (i_contracts i) (i_order_type i)
    (i_order_class i) (i_limit_price i) (i_stop_price i) (i_take_profit_levels i)
    (i_stop_loss_levels i) (i_trailing_stop_price i) (i_strategy_type i) (i_confidence i)
    (i_timeframe i) (i_period_unfilled i) (i_period_till_tp i) (i_execution_depends i)
    (i_filled_price i) (i_close_order_id i) (i_close_price i) (i_broker_realized_pnl i)
    (i_position_accounting i) (i_commission i) (i_swap i) (i_partial_closes i) (i_created_at i)
    (i_updated_at i) (i_filled_at i) (i_closed_at i) (i_legs i) (i_market_changed i)
    (i_submitted i) (i_pending_mutations i) (i_execution_data i) (i_suppress_child_entries i)
    (i_cancelling i) (i_closing i) (i_first_on_fill i) (i_entry_filled_quantity i)
    (i_partial_filled_quantity i) (i_state_history i) (i_state_history_kinds i).
#[export] Instance set_i_insight_id : Setter i_insight_id := ltac:(solve_setter eta_Insight).
#[export] Instance set_i_parent_id : Setter i_parent_id := ltac:(solve_setter eta_Insight).
#[export] Instance set_i_is_split_insight : Setter i_is_split_insight := ltac:(solve_setter eta_Insight).
#[export] Instance set_i_state : Setter i_state := ltac:(solve_setter eta_Insight).
#[export] Instance set_i_children : Setter i_children := ltac:(solve_setter eta_Insight).
#[export] Instance set_i_order_id : Setter i_order_id := ltac:(solve_setter eta_Insight).
#[export] Instance set_i_side : Setter i_side := ltac:(solve_setter eta_Insight).
#[export] Instance set_i_symbol : Setter i_symbol := ltac:(solve_setter eta_Insight).
#[export] Instance set_i_quantity : Setter i_quantity := ltac:(solve_setter eta_Insight).
#[export] Instance set_i_contracts : Setter i_contracts := ltac:(solve_setter eta_Insight).
#[export] Instance set_i_order_type : Setter i_order_type := ltac:(solve_setter eta_Insight).
#[export] Instance set_i_order_class : Setter i_order_class := ltac:(solve_setter eta_Insight).
#[export] Instance set_i_limit_price : Setter i_limit_price := ltac:(solve_setter eta_Insight).
#[export] Instance set_i_stop_price : Setter i_stop_price := ltac:(solve_setter eta_Insight).
#[export] Instance set_i_take_profit_levels : Setter i_take_profit_levels := ltac:(solve_setter eta_Insight).
#[export] Instance set_i_stop_loss_levels : Setter i_stop_loss_levels := ltac:(solve_setter eta_Insight).
#[export] Instance set_i_trailing_stop_price : Setter i_trailing_stop_price := ltac:(solve_setter eta_Insight).
#[export] Instance set_i_strategy_type : Setter i_strategy_type := ltac:(solve_setter eta_Insight).
#[export] Instance set_i_confidence : Setter i_confidence := ltac:(solve_setter eta_Insight).
#[export] Instance set_i_timeframe : Setter i_timeframe := ltac:(solve_setter eta_Insight).
#[export] Instance set_i_period_unfilled : Setter i_period_unfilled := ltac:(solve_setter eta_Insight).
#[export] Instance set_i_period_till_tp : Setter i_period_till_tp := ltac:(solve_setter eta_Insight).
#[export] Instance set_i_execution_depends : Setter i_execution_depends := ltac:(solve_setter eta_Insight).
#[export] Instance set_i_filled_price : Setter i_filled_price := ltac:(solve_setter eta_Insight).
#[export] Instance set_i_close_order_id : Setter i_close_order_id := ltac:(solve_setter eta_Insight).
#[export] Instance set_i_close_price : Setter i_close_price := ltac:(solve_setter eta_Insight).
#[export] Instance set_i_broker_realized_pnl : Setter i_broker_realized_pnl := ltac:(solve_setter eta_Insight).
#[export] Instance set_i_position_accounting : Setter i_position_accounting := ltac:(solve_setter eta_Insight).
#[export] Instance set_i_commission : Setter i_commission := ltac:(solve_setter eta_Insight).
#[export] Instance set_i_swap : Setter i_swap := ltac:(solve_setter eta_Insight).
#[export] Instance set_i_partial_closes : Setter i_partial_closes := ltac:(solve_setter eta_Insight).
#[export] Instance set_i_created_at : Setter i_created_at := ltac:(solve_setter eta_Insight).
#[export] Instance set_i_updated_at : Setter i_updated_at := ltac:(solve_setter eta_Insight).
#[export] Instance set_i_filled_at : Setter i_filled_at := ltac:(solve_setter eta_Insight).
#[export] Instance set_i_closed_at : Setter i_closed_at := ltac:(solve_setter eta_Insight).
#[export] Instance set_i_legs : Setter i_legs := ltac:(solve_setter eta_Insight).
#[export] Instance set_i_market_changed : Setter i_market_changed := ltac:(solve_setter eta_Insight).
#[export] Instance set_i_submitted : Setter i_submitted := ltac:(solve_setter eta_Insight).
#[export] Instance set_i_pending_mutations : Setter i_pending_mutations := ltac:(solve_setter eta_Insight).
#[export] Instance set_i_execution_data : Setter i_execution_data := ltac:(solve_setter eta_Insight).
#[export] Instance set_i_suppress_child_entries : Setter i_suppress_child_entries := ltac:(solve_setter eta_Insight).
#[export] Instance set_i_cancelling : Setter i_cancelling := ltac:(solve_setter eta_Insight).
#[export] Instance set_i_closing : Setter i_closing := ltac:(solve_setter eta_Insight).
#[export] Instance set_i_first_on_fill : Setter i_first_on_fill := ltac:(solve_setter eta_Insight).
#[export] Instance set_i_entry_filled_quantity : Setter i_entry_filled_quantity := ltac:(solve_setter eta_Insight).
#[export] Instance set_i_partial_filled_quantity : Setter i_partial_filled_quantity := ltac:(solve_setter eta_Insight).
#[export] Instance set_i_state_history : Setter i_state_history := ltac:(solve_setter eta_Insight).
#[export] Instance set_i_state_history_kinds : Setter i_state_history_kinds := ltac:(solve_setter eta_Insight).

(** [Insight::default()]; [id] is the fresh [Uuid::new_v4()]. *)
Definition default_insight (id : Uuid) (now : DateTime) : Insight := {|
  i_insight_id := id; i_parent_id := None; i_is_split_insight := false; i_state := New;
  i_children := []; i_order_id := None; i_side := Buy; i_symbol := ""; i_quantity := None;
  i_contracts := None; i_order_type := Market; i_order_class := Simple; i_limit_price := None;
  i_stop_price := None; i_take_profit_levels := None; i_stop_loss_levels := None;
  i_trailing_stop_price := None; i_strategy_type := Manual; i_confidence := 0%Z;
  i_timeframe := default_timeframe; i_period_unfilled := None; i_period_till_tp := None;
  i_execution_depends := []; i_filled_price := None; i_close_order_id := None;
  i_close_price := None; i_broker_realized_pnl := None; i_position_accounting := None;
  i_commission := None; i_swap := None; i_partial_closes := []; i_created_at := now;
  i_updated_at := now; i_filled_at := None; i_closed_at := None; i_legs := default_legs;
  i_market_changed := false; i_submitted := false; i_pending_mutations := [];
  i_execution_data := ∅; i_suppress_child_entries := false; i_cancelling := false;
  i_closing := false; i_first_on_fill := false; i_entry_filled_quantity := None;
  i_partial_filled_quantity := None; i_state_history := []; i_state_history_kinds := []
|}.

(** [Insight::new]. *)
Definition insight_new (id : Uuid) (now : DateTime) (side : OrderSide) (symbol : string)
    (strategy_type : StrategyType) (timeframe : TimeFrame) (confidence : Z)
    (parent_id : option Uuid) : Insight :=
  (default_insight id now)
    <| i_side := side |> <| i_symbol := symbol |> <| i_strategy_type := strategy_type |>
    <| i_timeframe := timeframe |> <| i_confidence := confidence |>
    <| i_parent_id := parent_id |>.

(** ** State history *)

(** [{:?}] of the enumerations. *)
Definition debug_state (s : InsightState) : string :=
  match s with
  | New => "New" | Executed => "Executed" | Filled => "Filled" | Closed => "Closed"
  | Cancelled => "Cancelled" | Rejected => "Rejected"
  end.
Definition debug_side (s : OrderSide) : string :=
  match s with Buy => "Buy" | Sell => "Sell" end.
Definition debug_class (c : OrderClass) : string :=
  match c with
  | Simple => "Simple" | Bracket => "Bracket" | OCO => "OCO" | OTO => "OTO" | TRO => "TRO"
  end.
Definition debug_type (t : OrderType) : string :=
  match t with
  | Market => "Market" | Limit => "Limit" | Stop => "Stop" | StopLimit => "StopLimit"
  | TrailingStop => "TrailingStop"
  end.
Definition debug_dependency (d : StrategyDependentConfirmation) : text :=
  match d with
  | DepNone => [Lit "None"]
  | HighRelativeVolumeConfirmationModel => [Lit "HighRelativeVolumeConfirmationModel"]
  | LowRelativeVolumeConfirmationModel => [Lit "LowRelativeVolumeConfirmationModel"]
  | HighTimeFrameConfirmationModel => [Lit "HighTimeFrameConfirmationModel"]
  | LowTimeFrameConfirmationModel => [Lit "LowTimeFrameConfirmationModel"]
  | HighConfidenceConfirmationModel => [Lit "HighConfidenceConfirmationModel"]
  | LowConfidenceConfirmationModel => [Lit "LowConfidenceConfirmationModel"]
  | UpStateConfirmationModel => [Lit "UpStateConfirmationModel"]
  | DownStateConfirmationModel => [Lit "DownStateConfirmationModel"]
  | FlatStateConfirmationModel => [Lit "FlatStateConfirmationModel"]
  | DepCustom name => [Lit "Custom("; ShowDebugStr name; Lit ")"]
  end.

Definition push_state_history (i : Insight) (at_ : DateTime) (state : InsightState)
    (message : option text) (kind : InsightHistoryKind) : Insight :=
  i <| i_state_history := i_state_history i ++ [(at_, state, message)] |>
    <| i_state_history_kinds := i_state_history_kinds i ++ [kind] |>.

Definition is_cancel_or_reject (s : InsightState) : bool :=
  match s with Cancelled | Rejected => true | _ => false end.

Definition update_state_typed (now : DateTime) (i : Insight) (new_state : InsightState)
    (message : option text) (message_kind : InsightHistoryKind) : Insight :=
  let i := i <| i_updated_at := now |> in
  if bool_decide (i_state i = Filled) && is_cancel_or_reject new_state then
    let detail := unwrap_or message [Lit "No transition reason was provided"] in
    push_state_history i now Filled
      (Some ([Lit "Ignored invalid Filled -> "; Lit (debug_state new_state);
              Lit " transition: "] ++ detail))
      Diagnostic
  else
    let i := if bool_decide (new_state = Filled) then i <| i_cancelling := false |> else i in
    let i := if is_inactive new_state
             then i <| i_cancelling := false |> <| i_closing := false |> else i in
    let i := if bool_decide (i_state i <> new_state)
             then (push_state_history i now new_state
                     (Some [Lit "State changed from "; Lit (debug_state (i_state i));
                            Lit " to "; Lit (debug_state new_state)])
                     StateTransition) <| i_state := new_state |>
             else i in
    push_state_history i now new_state message message_kind.

Definition update_state (now : DateTime) (i : Insight) (new_state : InsightState)
    (message : option text) : Insight :=
  update_state_typed now i new_state message Diagnostic.

Definition state_log (now : DateTime) (i : Insight) (message : option text) : Insight :=
  update_state_typed now i (i_state i) (Some (unwrap_or message [Lit "State log entry"]))
    Diagnostic.

Definition state_log_typed (now : DateTime) (i : Insight) (message : option text)
    (kind : InsightHistoryKind) : Insight :=
  update_state_typed now i (i_state i) (Some (unwrap_or message [Lit "State log entry"])) kind.

Definition align_time_to (i : Insight) (at_ : DateTime) : Insight :=
  i <| i_created_at := at_ |> <| i_updated_at := at_ |>
    <| i_state_history := (fun h => (at_, h.1.2, h.2)) <$> i_state_history i |>.

(** ** Derived values *)

Definition entry_price (i : Insight) : option f64 :=
  opt_or (opt_or (i_filled_price i) (i_limit_price i)) (i_stop_price i).

Definition remaining_quantity (i : Insight) : f64 :=
  let quantity := match i_state i with
                  | Filled | Closed => opt_or (i_entry_filled_quantity i) (i_quantity i)
                  | _ => i_quantity i
                  end in
  fmax (unwrap_or quantity f0 ⊖ unwrap_or (i_partial_filled_quantity i) f0) f0.

(** The loop of [normalize_levels] with its accumulator [unique]. *)
Definition level_seen (unique : list f64) (level : f64) : bool :=
  existsb (fun existing => fabs (existing ⊖ level) <=. EPSILON) unique.
Fixpoint normalize_loop (unique levels : list f64) : list f64 :=
  match levels with
  | [] => unique
  | level :: rest =>
      if negb (is_finite level) then normalize_loop unique rest
      else if negb (level_seen unique level) then normalize_loop (unique ++ [level]) rest
      else normalize_loop unique rest
  end.
Definition normalize_levels (levels : option (list f64)) : option (list f64) :=
  match normalize_loop [] (unwrap_or levels []) with
  | [] => None
  | unique => Some unique
  end.

(** [(x * 100.0).round() / 100.0]. *)
Definition round2 (x : f64) : f64 := round_half_away (x ⊗ f100) ⊘ f100.

Definition get_pl (i : Insight) (current_price : option f64) (include_partial_closes : bool)
    : f64 :=
  let price := unwrap_or (opt_or (i_close_price i) current_price) f0 in
  let partial_pl := if include_partial_closes
                    then foldl (fun acc p => acc ⊕ partial_get_pl p) f0 (i_partial_closes i)
                    else f0 in
  let entry := unwrap_or (entry_price i) f0 in
  let remaining_qty := remaining_quantity i in
  match i_close_price i, i_broker_realized_pnl i with
  | Some _, Some realized_pnl => round2 (realized_pnl ⊕ partial_pl)
  | _, _ =>
      let remaining_pl := match i_side i with
                          | Buy => (price ⊖ entry) ⊗ remaining_qty
                          | Sell => (entry ⊖ price) ⊗ remaining_qty
                          end in
      round2 (remaining_pl ⊕ partial_pl ⊕ unwrap_or (i_swap i) f0
              ⊖ unwrap_or (i_commission i) f0)
  end.

Definition get_pl_pct (i : Insight) : f64 :=
  match entry_price i with
  | None => f0
  | Some entry =>
      let qty := unwrap_or (i_quantity i) f0 in
      if (fabs entry <=. EPSILON) || (qty <=. EPSILON) then f0
      else
        match i_broker_realized_pnl i with
        | Some realized_pnl =>
            let notional := entry ⊗ qty in
            if fabs notional <=. EPSILON then f0
            else round2 ((realized_pnl ⊘ notional) ⊗ f100)
        | None =>
            match i_close_price i with
            | None => f0
            | Some close =>
                let gross_pnl := match i_side i with
                                 | Buy => (close ⊖ entry) ⊗ qty
                                 | Sell => (entry ⊖ close) ⊗ qty
                                 end in
                round2 (((gross_pnl ⊕ unwrap_or (i_swap i) f0 ⊖ unwrap_or (i_commission i) f0)
                         ⊘ (entry ⊗ qty)) ⊗ f100)
            end
        end
  end.

Definition get_pl_ratio (i : Insight) : f64 :=
  match i_take_profit_levels i, i_stop_loss_levels i, i_limit_price i with
  | Some tp_levels, Some sl_levels, Some limit =>
      match last sl_levels with
      | None => f0
      | Some sl =>
          match last tp_levels with
          | Some max_tp =>
              let risk := fabs (limit ⊖ sl) in
              if f0 <. risk
              then round_half_away (fabs (max_tp ⊖ limit) ⊘ risk ⊗ f100) ⊘ f100
              else f0
          | None => f0
          end
      end
  | _, _, _ => f0
  end.

Definition has_valid_entry_conditions (i : Insight) : bool :=
  match opt_or (i_limit_price i) (i_stop_price i) with
  | None => true
  | Some entry =>
      let all p levels := match levels with Some l => forallb p l | None => true end in
      match i_side i with
      | Buy => all (fun tp => entry <. tp) (i_take_profit_levels i)
               && all (fun sl => sl <. entry) (i_stop_loss_levels i)
      | Sell => all (fun tp => tp <. entry) (i_take_profit_levels i)
                && all (fun sl => entry <. sl) (i_stop_loss_levels i)
      end
  end.

Definition opposite_side (i : Insight) : OrderSide :=
  match i_side i with Buy => Sell | Sell => Buy end.

Definition can_expire (i : Insight) : bool :=
  match i_state i with
  | New | Executed => is_some (i_period_unfilled i)
  | Filled => is_some (i_period_till_tp i)
  | _ => false
  end.

(** ** Configuration *)

(** The class [update_order_class] computes. *)
Definition computed_order_class (i : Insight) : OrderClass :=
  let non_empty levels := match levels with Some (_ :: _) => true | _ => false end in
  match non_empty (i_take_profit_levels i), non_empty (i_stop_loss_levels i),
        is_some (i_trailing_stop_price i) with
  | true, true, _ => Bracket
  | true, false, _ => Bracket
  | false, true, _ => Bracket
  | false, false, true => Bracket
  | false, false, false => Simple
  end.

Definition update_order_class (now : DateTime) (i : Insight) : Insight :=
  let order_class := computed_order_class i in
  if decide (i_order_class i = order_class) then i
  else
    let i := i <| i_order_class := order_class |> in
    update_state now i (i_state i)
      (Some [Lit "Order class set to "; Lit (debug_class order_class)]).

(** The type [update_order_type] computes. *)
Definition computed_order_type (limit_price stop_price : option f64) : OrderType :=
  match limit_price, stop_price with
  | Some _, Some _ => StopLimit
  | Some _, None => Limit
  | None, Some _ => Stop
  | None, None => Market
  end.

Definition update_order_type (now : DateTime) (i : Insight) : Insight :=
  let order_type := computed_order_type (i_limit_price i) (i_stop_price i) in
  if decide (i_order_type i = order_type) then i
  else
    let i := i <| i_order_type := order_type |> in
    update_state now i (i_state i)
      (Some [Lit "Order type set to "; Lit (debug_type order_type)]).

Definition set_quantity (now : DateTime) (i : Insight) (quantity : option f64) : Insight :=
  if opt_feq (i_quantity i) quantity then i
  else
    let i := i <| i_quantity := quantity |> in
    update_state now i (i_state i)
      (Some [Lit "Quantity set to "; ShowF64 None (unwrap_or quantity f0)]).

Definition set_limit_price (now : DateTime) (i : Insight) (limit_price : option f64) : Insight :=
  if bool_decide (i_state i = Filled) || is_inactive (i_state i)
  then state_log now i
         (Some [Lit "Cannot set entry limit price: order has already filled or is inactive"])
  else if opt_feq (i_limit_price i) limit_price then i
  else
    let i := i <| i_limit_price := limit_price |> in
    let i := update_order_type now i in
    update_state now i (i_state i)
      (Some [Lit "Limit price set to "; ShowF64 None (unwrap_or limit_price f0)]).

Definition set_stop_price (now : DateTime) (i : Insight) (stop_price : option f64) : Insight :=
  if bool_decide (i_state i = Filled) || is_inactive (i_state i)
  then state_log now i
         (Some [Lit "Cannot set entry stop price: order has already filled or is inactive"])
  else if opt_feq (i_stop_price i) stop_price then i
  else
    let i := i <| i_stop_price := stop_price |> in
    let i := update_order_type now i in
    update_state now i (i_state i)
      (Some [Lit "Stop price set to "; ShowF64 None (unwrap_or stop_price f0)]).

Definition set_take_profit_levels (now : DateTime) (i : Insight)
    (take_profit_levels : option (list f64)) : Insight :=
  let normalized_levels := normalize_levels take_profit_levels in
  if opt_list_feq (i_take_profit_levels i) normalized_levels then i
  else
    let i := i <| i_take_profit_levels := normalized_levels |> in
    let i := update_order_class now i in
    update_state now i (i_state i)
      (Some [Lit "Take profit levels set to "; ShowF64s (unwrap_or (i_take_profit_levels i) [])]).

Definition add_take_profit_levels (now : DateTime) (i : Insight) (levels : list f64) : Insight :=
  set_take_profit_levels now i (Some (unwrap_or (i_take_profit_levels i) [] ++ levels)).

Definition set_stop_loss_levels (now : DateTime) (i : Insight)
    (stop_loss_levels : option (list f64)) : Insight :=
  let normalized_levels := normalize_levels stop_loss_levels in
  if opt_list_feq (i_stop_loss_levels i) normalized_levels then i
  else
    let i := i <| i_stop_loss_levels := normalized_levels |> in
    let i := update_order_class now i in
    update_state now i (i_state i)
      (Some [Lit "Stop loss levels set to "; ShowF64s (unwrap_or (i_stop_loss_levels i) [])]).

Definition add_stop_loss_levels (now : DateTime) (i : Insight) (levels : list f64) : Insight :=
  set_stop_loss_levels now i (Some (unwrap_or (i_stop_loss_levels i) [] ++ levels)).

Definition set_stop_loss (now : DateTime) (i : Insight) (stop_loss : option f64) : Insight :=
  set_stop_loss_levels now i ((fun value => [value]) <$> stop_loss).

Definition set_trailing_stop_price (now : DateTime) (i : Insight)
    (trailing_stop_price : option f64) : Insight :=
  if opt_feq (i_trailing_stop_price i) trailing_stop_price then i
  else
    let i := i <| i_trailing_stop_price := trailing_stop_price |> in
    let i := update_order_class now i in
    update_state now i (i_state i)
      (Some [Lit "Trailing stop set to ";
             match trailing_stop_price with Some v => ShowF64 None v | None => Lit "-" end]).

Definition set_parent_id (now : DateTime) (i : Insight) (parent_id : Uuid) : Insight :=
  if decide (i_parent_id i = Some parent_id) then i
  else
    let i := i <| i_parent_id := Some parent_id |> in
    update_state now i (i_state i) (Some [Lit "Parent ID set to "; ShowUuid parent_id]).

Definition set_side (now : DateTime) (i : Insight) (side : OrderSide) : Insight :=
  if (bool_decide (i_side i = side) && bool_decide (i_state i <> New))
     || bool_decide (i_state i = Filled) || bool_decide (i_state i = Executed)
  then i
  else
    let i := i <| i_side := side |> in
    update_state now i (i_state i) (Some [Lit "Order side set to "; Lit (debug_side side)]).

Definition show_period (p : option Z) : piece :=
  match p with Some v => ShowZ v | None => Lit "-" end.

Definition set_period_unfilled (now : DateTime) (i : Insight) (period : option Z) : Insight :=
  if decide (i_period_unfilled i = period) then i
  else
    let i := i <| i_period_unfilled := period |> in
    update_state now i (i_state i) (Some [Lit "Unfilled TTL set to "; show_period period]).

Definition set_period_till_tp (now : DateTime) (i : Insight) (period : option Z) : Insight :=
  if decide (i_period_till_tp i = period) then i
  else
    let i := i <| i_period_till_tp := period |> in
    update_state now i (i_state i) (Some [Lit "Take-profit TTL set to "; show_period period]).

Definition set_execution_depends (now : DateTime) (i : Insight)
    (depends : list StrategyDependentConfirmation) : Insight :=
  if decide (i_execution_depends i = depends) then i
  else
    let i := i <| i_execution_depends := depends |> in
    update_state now i (i_state i)
      (Some ([Lit "Execution depends set to ["]
             ++ join_text [Lit ", "] (debug_dependency <$> depends) ++ [Lit "]"])).

Definition set_first_on_fill (now : DateTime) (i : Insight) (first_on_fill : bool) : Insight :=
  if bool_decide (i_first_on_fill i = first_on_fill) then i
  else
    let i := i <| i_first_on_fill := first_on_fill |> in
    update_state now i (i_state i)
      (Some [Lit "first_on_fill set to "; Lit (if first_on_fill then "true" else "false")]).

(** [add_child_insight]; the context argument is unused. *)
Definition add_child_insight (i : Insight) (child : Insight) (is_split_order : option bool)
    : Insight :=
  let child :=
    child <| i_strategy_type :=
               CustomStrategy (strategy_type_to_string (i_strategy_type i) +:+ "-CHILD") |>
          <| i_parent_id := Some (i_insight_id i) |>
          <| i_is_split_insight := unwrap_or is_split_order false |> in
  let child := if is_none (i_quantity child)
               then child <| i_quantity := i_quantity i |> else child in
  i <| i_children := i_children i ++ [child] |>.

(** ** Trade events *)

Definition order_accepted (now : DateTime) (i : Insight) (order_id : string) : Insight :=
  let i := i <| i_order_id := Some order_id |> <| i_submitted := true |> in
  update_state now i Executed (Some [Lit "Order accepted: "; Lit order_id]).

Definition position_filled (now : DateTime) (i : Insight) (filled_price filled_qty : f64)
    (order_id : string) (commission : option f64) : Insight :=
  let i := i <| i_order_id := Some order_id |> <| i_submitted := true |>
             <| i_filled_price := Some filled_price |>
             <| i_entry_filled_quantity := Some filled_qty |>
             <| i_commission := commission |>
             <| i_filled_at := Some now |> in
  let i := update_state now i Filled
             (Some [Lit "Filled @ "; ShowF64 (Some 4) filled_price; Lit " qty ";
                    ShowF64 (Some 2) filled_qty; Lit " order "; Lit order_id]) in
  set_first_on_fill now i true.

Definition partial_filled (now : DateTime) (i : Insight) (filled_qty filled_price : f64)
    (order_id : string) (commission : option f64) : Insight :=
  if negb (is_finite filled_qty)
     || (filled_qty <=. unwrap_or (i_entry_filled_quantity i) f0)
     || negb (is_finite filled_price) || (filled_price <=. f0)
  then i
  else
    let i := i <| i_filled_price := Some filled_price |>
               <| i_entry_filled_quantity := Some filled_qty |> in
    let i := if is_some commission then i <| i_commission := commission |> else i in
    update_state now i Executed
      (Some [Lit "Partial fill: "; ShowF64 (Some 2) filled_qty; Lit " @ ";
             ShowF64 (Some 4) filled_price]).

Definition partial_closed (now : DateTime) (i : Insight) (close_qty close_price : f64)
    (close_order_id : string) (commission : option f64) : Insight :=
  let i := i <| i_closing := false |>
             <| i_partial_filled_quantity :=
                  Some (unwrap_or (i_partial_filled_quantity i) f0 ⊕ close_qty) |> in
  let i := if is_some commission then i <| i_commission := commission |> else i in
  let partial := partial_close_new close_order_id (i_side i) close_qty
                   (unwrap_or (entry_price i) f0) in
  let partial := set_filled_price partial close_price in
  let i := i <| i_partial_closes := i_partial_closes i ++ [partial] |> in
  update_state now i Filled
    (Some [Lit "Partial close: "; ShowF64 (Some 2) close_qty; Lit " @ ";
           ShowF64 (Some 4) close_price]).

Definition position_closed (now : DateTime) (i : Insight) (close_price : f64)
    (close_order_id : string) (close_qty : f64)
    (broker_realized_pnl commission swap : option f64) : Insight :=
  let i := i <| i_close_price := Some close_price |>
             <| i_close_order_id := Some close_order_id |>
             <| i_broker_realized_pnl := broker_realized_pnl |> in
  let i := if is_some commission then i <| i_commission := commission |> else i in
  let i := if is_some swap then i <| i_swap := swap |> else i in
  let i := i <| i_closed_at := Some now |> in
  update_state now i Closed
    (Some [Lit "Closed @ "; ShowF64 (Some 4) close_price; Lit " order "; Lit close_order_id]).

Definition order_rejected (now : DateTime) (i : Insight) (reason : text) : Insight :=
  update_state now i Rejected (Some ([Lit "Rejected: "] ++ reason)).

Definition order_cancelled (now : DateTime) (i : Insight) (reason : text) : Insight :=
  update_state now i Cancelled (Some ([Lit "Cancelled: "] ++ reason)).

(** ** Closed-position accounting ([position_accounting.rs]); [now_us] is the
    wall clock in microseconds, at most [i64::MAX - 5_000_000]. *)
Definition observe_position_accounting (now_us : Z) (i : Insight)
    (accounting : PositionCloseAccounting) : Insight * bool :=
  if bool_decide (i_state i <> Closed) || is_err (validate_accounting accounting)
     || (Z.min i64_max (now_us + 5000000) <? pa_as_of_us accounting)%Z
     || negb (is_some_and (owns_order accounting) (i_order_id i))
  then (i, false)
  else
    let stale := match i_position_accounting i with
                 | Some previous =>
                     negb (String.eqb (pa_provider previous) (pa_provider accounting))
                     || negb (String.eqb (pa_position_id previous) (pa_position_id accounting))
                     || negb (String.eqb (pa_entry_order_id previous)
                                (pa_entry_order_id accounting))
                     || negb (String.eqb (pa_currency previous) (pa_currency accounting))
                     || negb (pa_opened_at_us previous =? pa_opened_at_us accounting)%Z
                     || negb (pa_closed_at_us previous =? pa_closed_at_us accounting)%Z
                     || (pa_as_of_us accounting <=? pa_as_of_us previous)%Z
                 | None => false
                 end in
    if stale then (i, false)
    else (i <| i_position_accounting := Some accounting |>, true).
