(* ===== verification/InsightInvariant.v ===== *)
(** * InsightInvariant: what every operation on an insight keeps

    The operations of [src/core/insight/insight.rs] as a step relation, the
    well-formedness of an insight (its history explains its state, its order
    type and class agree with its prices and levels, its levels are
    normalised), and that every step preserves it. *)
From S2P Require Import Prelude.
From S2P Require Import Float64.
From S2P Require Import Text.
From S2P Require Import BrokerTypes.
From S2P Require Import TimeFrame.
From S2P Require Import InsightTypes.
From S2P Require Import Commands.
From S2P Require Import ExecutionData.
From S2P Require Import Insight.

(** ** [update_state_typed] as one record update *)

Definition refused (i : Insight) (s : InsightState) : bool :=
  bool_decide (i_state i = Filled) && is_cancel_or_reject s.
Definition us_state (i : Insight) (s : InsightState) : InsightState :=
  if refused i s then Filled else s.
Definition us_cancelling (i : Insight) (s : InsightState) : bool :=
  if refused i s then i_cancelling i
  else if bool_decide (s = Filled) || is_inactive s then false else i_cancelling i.
Definition us_closing (i : Insight) (s : InsightState) : bool :=
  if refused i s then i_closing i else if is_inactive s then false else i_closing i.
Definition us_entries (now : DateTime) (i : Insight) (s : InsightState) (m : option text)
    (k : InsightHistoryKind)
    : list ((DateTime * InsightState * option text) * InsightHistoryKind) :=
  if refused i s then
    [((now, Filled,
       Some ([Lit "Ignored invalid Filled -> "; Lit (debug_state s); Lit " transition: "]
             ++ unwrap_or m [Lit "No transition reason was provided"])), Diagnostic)]
  else
    (if bool_decide (i_state i <> s)
     then [((now, s, Some [Lit "State changed from "; Lit (debug_state (i_state i));
                           Lit " to "; Lit (debug_state s)]), StateTransition)]
     else []) ++ [((now, s, m), k)].

Lemma eta_Insight_eq i : eta_Insight i = i.
Proof. by destruct i. Qed.

Lemma set_same_cancelling i : i <| i_cancelling := i_cancelling i |> = i.
Proof. apply eta_Insight_eq. Qed.

Lemma update_state_typed_form now i s m k :
  update_state_typed now i s m k =
    i <| i_updated_at := now |>
      <| i_cancelling := us_cancelling i s |>
      <| i_closing := us_closing i s |>
      <| i_state := us_state i s |>
      <| i_state_history := i_state_history i ++ (us_entries now i s m k).*1 |>
      <| i_state_history_kinds := i_state_history_kinds i ++ (us_entries now i s m k).*2 |>.
Proof.
  unfold update_state_typed, us_cancelling, us_closing, us_state, us_entries.
  unfold refused. fields.
  destruct i. destruct i_state, s; lazy -[app]; rewrite <- ?app_assoc; reflexivity.
Qed.

(** ** The history explains the state *)

(** One recorded entry after an entry in state [prev]: a change of state is
    recorded as a transition, and a filled insight is never recorded as
    cancelled or rejected. *)
Definition entry_explained (prev s : InsightState) (k : InsightHistoryKind) : Prop :=
  (s = prev \/ k = StateTransition) /\ (prev = Filled -> is_cancel_or_reject s = false).

Fixpoint explains (prev : InsightState) (h : list (DateTime * InsightState * option text))
    (ks : list InsightHistoryKind) (now_ : InsightState) : Prop :=
  match h, ks with
  | [], [] => now_ = prev
  | (_, s, _) :: h', k :: ks' => entry_explained prev s k /\ explains s h' ks' now_
  | _, _ => False
  end.

Lemma explains_app p h ks q h' ks' r :
  explains p h ks q -> explains q h' ks' r -> explains p (h ++ h') (ks ++ ks') r.
Proof.
  revert p ks. induction h as [|[[t s] m] h IH]; intros p [|k ks]; simpl; try done.
  - by intros ->.
  - intros [He Hh] Hr. split; [done|]. eauto.
Qed.

Lemma explains_length p h ks q : explains p h ks q -> length h = length ks.
Proof.
  revert p ks. induction h as [|[[t s] m] h IH]; intros p [|k ks]; simpl; try done.
  intros [_ Hh]. f_equal. eauto.
Qed.

Lemma explains_realign at_ p h ks q :
  explains p h ks q ->
  explains p ((fun e : DateTime * InsightState * option text => (at_, e.1.2, e.2)) <$> h) ks q.
Proof.
  revert p ks. induction h as [|[[t s] m] h IH]; intros p [|k ks]; simpl; try done.
  intros [He Hh]. split; [done|]. eauto.
Qed.

Lemma explains_entries now i s m k :
  explains (i_state i) (us_entries now i s m k).*1 (us_entries now i s m k).*2 (us_state i s).
Proof.
  unfold us_entries, us_state, refused, entry_explained.
  destruct (i_state i), s; lazy; repeat split; auto; discriminate.
Qed.

(** ** Normalised price levels *)

Definition distinct_levels (a b : f64) : Prop := (fabs (a ⊖ b) <=. EPSILON) = false.
Definition normal_list (l : list f64) : Prop :=
  Forall (fun x => is_finite x = true) l /\ StronglySorted distinct_levels l.
Definition levels_normal (o : option (list f64)) : Prop :=
  match o with None => True | Some l => l <> [] /\ normal_list l end.

Lemma StronglySorted_snoc {A} (R : A -> A -> Prop) l x :
  StronglySorted R (l ++ [x]) <-> StronglySorted R l /\ Forall (fun y => R y x) l.
Proof.
  induction l as [|y l IH]; simpl.
  - split; [repeat constructor|]. intros _. repeat constructor.
  - split.
    + inversion 1; subst. apply IH in H2 as [Hs Hf]. apply Forall_app in H3 as [Hl Hx].
      inversion Hx; subst. split; constructor; done.
    + intros [Hs Hf]. inversion Hs; subst. inversion Hf; subst. constructor.
      * apply IH. done.
      * apply Forall_app. split; [done|]. by constructor.
Qed.

Lemma level_seen_false unique level :
  level_seen unique level = false <-> Forall (fun y => distinct_levels y level) unique.
Proof.
  unfold level_seen, distinct_levels. induction unique as [|y u IH]; simpl.
  - split; [constructor|done].
  - rewrite orb_false_iff, Forall_cons, IH. done.
Qed.

Lemma normal_snoc unique level :
  normal_list (unique ++ [level]) <->
  normal_list unique /\ is_finite level = true /\ level_seen unique level = false.
Proof.
  unfold normal_list. rewrite Forall_app, Forall_singleton, StronglySorted_snoc, level_seen_false.
  naive_solver.
Qed.

Lemma normalize_loop_normal unique levels :
  normal_list unique -> normal_list (normalize_loop unique levels).
Proof.
  revert unique. induction levels as [|x l IH]; intros u Hu; simpl; [done|].
  destruct (is_finite x) eqn:Hf; simpl; [|auto].
  destruct (level_seen u x) eqn:Hs; simpl; [auto|].
  apply IH, normal_snoc. done.
Qed.

(** A list that is already normal is a fixed point. *)
Lemma normalize_loop_fixed unique levels :
  normal_list (unique ++ levels) -> normalize_loop unique levels = unique ++ levels.
Proof.
  revert unique. induction levels as [|x l IH]; intros u Hu; simpl; [by rewrite app_nil_r|].
  rewrite cons_middle, app_assoc in Hu.
  assert (Hx : normal_list (u ++ [x])).
  { destruct Hu as [Hf Hs]. split.
    - apply Forall_app in Hf as [? _]. done.
    - clear -Hs. induction (u ++ [x]) as [|y w IHw]; [constructor|].
      simpl in Hs. inversion Hs; subst. constructor; [auto|].
      by apply Forall_app in H2 as [? _]. }
  apply normal_snoc in Hx as (_ & -> & ->). simpl. rewrite IH by done. by rewrite <- app_assoc.
Qed.

Lemma normalize_loop_sublist unique levels :
  exists kept, normalize_loop unique levels = unique ++ kept /\ sublist kept levels.
Proof.
  revert unique. induction levels as [|x l IH]; intros u; simpl.
  - exists []. rewrite app_nil_r. split; constructor.
  - destruct (is_finite x); simpl; [destruct (level_seen u x); simpl|];
      [destruct (IH u) as (k & -> & Hk); exists k; split; [done|by constructor]
      |destruct (IH (u ++ [x])) as (k & -> & Hk); exists (x :: k)
      |destruct (IH u) as (k & -> & Hk); exists k; split; [done|by constructor]].
    rewrite <- app_assoc. split; [done|by constructor].
Qed.

Lemma normalize_loop_covers unique levels x :
  x ∈ levels -> is_finite x = true ->
  exists y, y ∈ normalize_loop unique levels /\ (y = x \/ (fabs (y ⊖ x) <=. EPSILON) = true).
Proof.
  revert unique. induction levels as [|z l IH]; intros u Hin Hf; [by apply not_elem_of_nil in Hin|].
  assert (Hkeep : forall u' y, y ∈ u' -> y ∈ normalize_loop u' l).
  { intros u' y Hy. destruct (normalize_loop_sublist u' l) as (k & -> & _). set_solver. }
  apply elem_of_cons in Hin as [->|Hin]; simpl.
  - rewrite Hf. simpl. destruct (level_seen u z) eqn:Hs; simpl.
    + apply existsb_exists in Hs as (y & Hy%list_elem_of_In & Hd). exists y. auto.
    + exists z. split; [apply Hkeep; set_solver|by left].
  - destruct (is_finite z); simpl; [destruct (level_seen u z); simpl|]; auto.
Qed.

Lemma normalize_levels_normal o : levels_normal (normalize_levels o).
Proof.
  unfold normalize_levels.
  pose proof (normalize_loop_normal [] (unwrap_or o [])) as Hn.
  destruct (normalize_loop [] _); simpl; [done|]. split; [done|].
  apply Hn. split; constructor.
Qed.

(** ** Well-formed insights *)

Definition expected_class (i : Insight) : OrderClass :=
  if is_some (i_take_profit_levels i) || is_some (i_stop_loss_levels i)
     || is_some (i_trailing_stop_price i)
  then Bracket else Simple.

Record insight_wf (i : Insight) : Prop := {
  wf_history : explains New (i_state_history i) (i_state_history_kinds i) (i_state i);
  wf_type : i_order_type i = computed_order_type (i_limit_price i) (i_stop_price i);
  wf_class : i_order_class i = expected_class i;
  wf_tp : levels_normal (i_take_profit_levels i);
  wf_sl : levels_normal (i_stop_loss_levels i)
}.

(** The fields well-formedness reads. *)
Definition wf_view (i : Insight) :=
  (i_state_history i, i_state_history_kinds i, i_state i, i_order_type i, i_order_class i,
   (i_limit_price i, i_stop_price i, i_take_profit_levels i, i_stop_loss_levels i,
    i_trailing_stop_price i)).

Lemma wf_ext i j : wf_view i = wf_view j -> insight_wf i -> insight_wf j.
Proof.
  unfold wf_view. intros [= Eh Ek Es Et Ec El Ep Etp Esl Etr] [Hh Hty Hc Htp Hsl].
  split; unfold expected_class in *; by rewrite <- ?Eh, <- ?Ek, <- ?Es, <- ?Et, <- ?Ec,
    <- ?El, <- ?Ep, <- ?Etp, <- ?Esl, <- ?Etr.
Qed.

Lemma wf_update_state_typed now i s m k :
  insight_wf i -> insight_wf (update_state_typed now i s m k).
Proof.
  intros [Hh Hty Hc Htp Hsl]. rewrite update_state_typed_form.
  split; unfold expected_class; fields; try done.
  eapply explains_app; [done|]. apply explains_entries.
Qed.

Lemma wf_update_state now i s m : insight_wf i -> insight_wf (update_state now i s m).
Proof. apply wf_update_state_typed. Qed.
Lemma wf_state_log now i m : insight_wf i -> insight_wf (state_log now i m).
Proof. apply wf_update_state_typed. Qed.

#[export] Hint Resolve wf_update_state_typed wf_update_state wf_state_log : aqe.

(** An insight whose type (class) may lag behind its prices (levels) is
    repaired by [update_order_type] ([update_order_class]). *)
Lemma wf_update_order_type now i :
  explains New (i_state_history i) (i_state_history_kinds i) (i_state i) ->
  i_order_class i = expected_class i ->
  levels_normal (i_take_profit_levels i) -> levels_normal (i_stop_loss_levels i) ->
  insight_wf (update_order_type now i).
Proof.
  intros Hh Hc Htp Hsl. unfold update_order_type.
  case_decide as E; [by split|].
  apply wf_update_state. split; unfold expected_class; fields; done.
Qed.

Lemma wf_update_order_class now i :
  explains New (i_state_history i) (i_state_history_kinds i) (i_state i) ->
  i_order_type i = computed_order_type (i_limit_price i) (i_stop_price i) ->
  levels_normal (i_take_profit_levels i) -> levels_normal (i_stop_loss_levels i) ->
  insight_wf (update_order_class now i).
Proof.
  intros Hh Hty Htp Hsl. unfold update_order_class.
  assert (computed_order_class i = expected_class i) as ->.
  { unfold computed_order_class, expected_class.
    destruct (i_take_profit_levels i) as [[|??]|], (i_stop_loss_levels i) as [[|??]|],
      (i_trailing_stop_price i); simpl in *; tauto. }
  case_decide as E; [by split|].
  apply wf_update_state. split; unfold expected_class; fields; done.
Qed.

(** ** The operations of the API *)

Inductive InsightOp :=
| OpAccepted (order_id : string)
| OpFilled (price qty : f64) (order_id : string) (commission : option f64)
| OpPartialFilled (qty price : f64) (order_id : string) (commission : option f64)
| OpPartialClosed (qty price : f64) (order_id : string) (commission : option f64)
| OpClosed (price : f64) (order_id : string) (qty : f64) (pnl commission swap : option f64)
| OpRejected (reason : text)
| OpCancelled (reason : text)
| OpSetQuantity (q : option f64)
| OpSetLimitPrice (p : option f64)
| OpSetStopPrice (p : option f64)
| OpSetTakeProfit (levels : option (list f64))
| OpAddTakeProfit (levels : list f64)
| OpSetStopLosses (levels : option (list f64))
| OpAddStopLosses (levels : list f64)
| OpSetStopLoss (p : option f64)
| OpSetTrailingStop (p : option f64)
| OpSetParent (id : Uuid)
| OpSetSide (s : OrderSide)
| OpSetPeriodUnfilled (p : option Z)
| OpSetPeriodTillTp (p : option Z)
| OpSetDepends (d : list StrategyDependentConfirmation)
| OpSetFirstOnFill (b : bool)
| OpLog (m : option text)
| OpLogTyped (m : option text) (k : InsightHistoryKind)
| OpAlign (t : DateTime)
| OpAddChild (c : Insight) (split : option bool)
| OpAccounting (now_us : Z) (a : PositionCloseAccounting).

Definition run_op (now : DateTime) (i : Insight) (op : InsightOp) : Insight :=
  match op with
  | OpAccepted id => order_accepted now i id
  | OpFilled p q id c => position_filled now i p q id c
  | OpPartialFilled q p id c => partial_filled now i q p id c
  | OpPartialClosed q p id c => partial_closed now i q p id c
  | OpClosed p id q pnl c s => position_closed now i p id q pnl c s
  | OpRejected r => order_rejected now i r
  | OpCancelled r => order_cancelled now i r
  | OpSetQuantity q => set_quantity now i q
  | OpSetLimitPrice p => set_limit_price now i p
  | OpSetStopPrice p => set_stop_price now i p
  | OpSetTakeProfit l => set_take_profit_levels now i l
  | OpAddTakeProfit l => add_take_profit_levels now i l
  | OpSetStopLosses l => set_stop_loss_levels now i l
  | OpAddStopLosses l => add_stop_loss_levels now i l
  | OpSetStopLoss p => set_stop_loss now i p
  | OpSetTrailingStop p => set_trailing_stop_price now i p
  | OpSetParent id => set_parent_id now i id
  | OpSetSide s => set_side now i s
  | OpSetPeriodUnfilled p => set_period_unfilled now i p
  | OpSetPeriodTillTp p => set_period_till_tp now i p
  | OpSetDepends d => set_execution_depends now i d
  | OpSetFirstOnFill b => set_first_on_fill now i b
  | OpLog m => state_log now i m
  | OpLogTyped m k => state_log_typed now i m k
  | OpAlign t => align_time_to i t
  | OpAddChild c s => add_child_insight i c s
  | OpAccounting now_us a => (observe_position_accounting now_us i a).1
  end.

Lemma wf_set_take_profit_levels now i l :
  insight_wf i -> insight_wf (set_take_profit_levels now i l).
Proof.
  intros Hi. unfold set_take_profit_levels. split_match; [done|]. cbv zeta.
  apply wf_update_state, wf_update_order_class; fields;
    auto using normalize_levels_normal, wf_history, wf_type, wf_sl.
Qed.

Lemma wf_set_stop_loss_levels now i l :
  insight_wf i -> insight_wf (set_stop_loss_levels now i l).
Proof.
  intros Hi. unfold set_stop_loss_levels. split_match; [done|]. cbv zeta.
  apply wf_update_state, wf_update_order_class; fields;
    auto using normalize_levels_normal, wf_history, wf_type, wf_tp.
Qed.

Lemma wf_set_trailing_stop_price now i p :
  insight_wf i -> insight_wf (set_trailing_stop_price now i p).
Proof.
  intros Hi. unfold set_trailing_stop_price. split_match; [done|]. cbv zeta.
  apply wf_update_state, wf_update_order_class; fields;
    auto using wf_history, wf_type, wf_tp, wf_sl.
Qed.

Lemma wf_set_limit_price now i p : insight_wf i -> insight_wf (set_limit_price now i p).
Proof.
  intros Hi. unfold set_limit_price. repeat split_match; auto with aqe. cbv zeta.
  apply wf_update_state, wf_update_order_type; unfold expected_class; fields;
    destruct Hi; done.
Qed.

Lemma wf_set_stop_price now i p : insight_wf i -> insight_wf (set_stop_price now i p).
Proof.
  intros Hi. unfold set_stop_price. repeat split_match; auto with aqe. cbv zeta.
  apply wf_update_state, wf_update_order_type; unfold expected_class; fields;
    destruct Hi; done.
Qed.

Lemma wf_set_quantity now i q : insight_wf i -> insight_wf (set_quantity now i q).
Proof.
  intros Hi. unfold set_quantity. split_match; [done|]. cbv zeta.
  apply wf_update_state. by apply (wf_ext i).
Qed.

Lemma wf_set_first_on_fill now i b : insight_wf i -> insight_wf (set_first_on_fill now i b).
Proof.
  intros Hi. unfold set_first_on_fill. split_match; [done|]. cbv zeta.
  apply wf_update_state. by apply (wf_ext i).
Qed.

#[export] Hint Resolve wf_set_take_profit_levels wf_set_stop_loss_levels
  wf_set_trailing_stop_price wf_set_limit_price wf_set_stop_price wf_set_quantity
  wf_set_first_on_fill : aqe.

Lemma wf_align_time_to i t : insight_wf i -> insight_wf (align_time_to i t).
Proof.
  intros [Hh Hty Hc Htp Hsl]. unfold align_time_to.
  split; unfold expected_class; fields; auto using explains_realign.
Qed.

(** Close a goal [insight_wf] by updates outside [wf_view] and state changes. *)
Ltac solve_wf :=
  cbv zeta; repeat split_match; auto 3 with aqe;
  repeat first
    [ eassumption
    | apply wf_update_state | apply wf_set_first_on_fill
    | match goal with |- insight_wf (@set_field _ _ ?p ?inst ?v ?i) =>
        apply (wf_ext i); [reflexivity|] end ].

Lemma wf_order_accepted now i id : insight_wf i -> insight_wf (order_accepted now i id).
Proof. intros Hi. unfold order_accepted. solve_wf. Qed.
Lemma wf_position_filled now i p q id c : insight_wf i -> insight_wf (position_filled now i p q id c).
Proof. intros Hi. unfold position_filled. solve_wf. Qed.
Lemma wf_partial_filled now i q p id c : insight_wf i -> insight_wf (partial_filled now i q p id c).
Proof. intros Hi. unfold partial_filled. solve_wf. Qed.
Lemma wf_partial_closed now i q p id c : insight_wf i -> insight_wf (partial_closed now i q p id c).
Proof. intros Hi. unfold partial_closed. solve_wf. Qed.
Lemma wf_position_closed now i p id q pnl c s :
  insight_wf i -> insight_wf (position_closed now i p id q pnl c s).
Proof. intros Hi. unfold position_closed. solve_wf. Qed.
Lemma wf_observe_accounting now_us i a :
  insight_wf i -> insight_wf (observe_position_accounting now_us i a).1.
Proof.
  intros Hi. unfold observe_position_accounting. repeat split_match; cbn [fst]; solve_wf.
Qed.
#[export] Hint Resolve wf_order_accepted wf_position_filled wf_partial_filled wf_partial_closed
  wf_position_closed wf_observe_accounting : aqe.

Lemma wf_run_op now i op : insight_wf i -> insight_wf (run_op now i op).
Proof.
  intros Hi. destruct op; simpl; auto with aqe.
  - unfold order_rejected. solve_wf.
  - unfold order_cancelled. solve_wf.
  - unfold add_take_profit_levels. solve_wf.
  - unfold add_stop_loss_levels. solve_wf.
  - unfold set_stop_loss. solve_wf.
  - unfold set_parent_id. solve_wf.
  - unfold set_side. solve_wf.
  - unfold set_period_unfilled. solve_wf.
  - unfold set_period_till_tp. solve_wf.
  - unfold set_execution_depends. solve_wf.
  - unfold state_log_typed. solve_wf.
  - by apply wf_align_time_to.
  - unfold add_child_insight. solve_wf.
Qed.

Lemma wf_insight_new id now side symbol st tf conf parent :
  insight_wf (insight_new id now side symbol st tf conf parent).
Proof. by split. Qed.

Definition run_ops (i : Insight) (ops : list (DateTime * InsightOp)) : Insight :=
  foldl (fun i op => run_op op.1 i op.2) i ops.

(** C22 From a new insight, after any sequence of trade events and configuration calls, the
    recorded history explains the current state entry by entry (a change of state is always
    recorded as a transition, and a filled position is never recorded as cancelled or
    rejected), the order type agrees with the entry prices, the order class with the exit
    levels, and the levels are finite and pairwise distinct. *)
Theorem insight_reachable_wf id now side symbol st tf conf parent ops :
  insight_wf (run_ops (insight_new id now side symbol st tf conf parent) ops).
Proof.
  unfold run_ops.
  generalize (wf_insight_new id now side symbol st tf conf parent).
  generalize (insight_new id now side symbol st tf conf parent).
  induction ops as [|op ops IH]; intros i Hi; simpl; [done|].
  apply IH, wf_run_op, Hi.
Qed.

(** Normalising price levels keeps a subsequence of the input in which every level is
    finite and no two are within machine epsilon, in which every finite input level is
    represented, and which a second normalisation leaves unchanged. *)
Theorem normalize_levels_spec levels :
  let out := unwrap_or (normalize_levels levels) [] in
  sublist out (unwrap_or levels []) /\ normal_list out /\
  (forall x, x ∈ unwrap_or levels [] -> is_finite x = true ->
     exists y, y ∈ out /\ (y = x \/ (fabs (y ⊖ x) <=. EPSILON) = true)) /\
  normalize_levels (normalize_levels levels) = normalize_levels levels.
Proof.
  assert (Hout : unwrap_or (normalize_levels levels) [] = normalize_loop [] (unwrap_or levels [])).
  { unfold normalize_levels. by destruct (normalize_loop [] _). }
  assert (Hn : normal_list (normalize_loop [] (unwrap_or levels []))).
  { apply normalize_loop_normal. split; constructor. }
  cbv zeta. rewrite Hout. repeat split; try apply Hn.
  - destruct (normalize_loop_sublist [] (unwrap_or levels [])) as (k & -> & Hk). done.
  - intros x. apply normalize_loop_covers.
  - unfold normalize_levels at 1. rewrite Hout, normalize_loop_fixed by done.
    unfold normalize_levels. simpl. by destruct (normalize_loop [] _).
Qed.

(** ** State changes *)

(** A filled insight ignores a cancellation or rejection: only the time of the last update
    and one diagnostic entry change.  In every other case the requested state is entered,
    entering a terminal state clears both in-flight flags and entering Filled clears the
    cancelling flag. *)
Theorem update_state_spec now i s m k :
  (i_state i = Filled /\ is_cancel_or_reject s = true ->
     i_state (update_state_typed now i s m k) = Filled /\
     i_cancelling (update_state_typed now i s m k) = i_cancelling i /\
     i_closing (update_state_typed now i s m k) = i_closing i) /\
  (~ (i_state i = Filled /\ is_cancel_or_reject s = true) ->
     i_state (update_state_typed now i s m k) = s /\
     (is_inactive s = true ->
        i_cancelling (update_state_typed now i s m k) = false /\
        i_closing (update_state_typed now i s m k) = false) /\
     (s = Filled -> i_cancelling (update_state_typed now i s m k) = false)).
Proof.
  rewrite update_state_typed_form. fields.
  unfold us_state, us_cancelling, us_closing, refused. split.
  - intros [-> ->]. done.
  - intros Hn. destruct (bool_decide_reflect (i_state i = Filled)) as [E|E]; simpl;
      [destruct (is_cancel_or_reject s) eqn:Ec; [tauto|]|]; (split; [done|]); split;
      try (intros ->; rewrite ?orb_true_r; done); intros Hs; rewrite Hs; done.
Qed.

(** Cumulative entry fills only grow: a partial-fill report is either ignored, leaving
    the insight untouched, or raises the filled quantity to a finite larger value at a
    positive price. *)
Theorem partial_filled_monotone now i qty price id c :
  is_nan (unwrap_or (i_entry_filled_quantity i) f0) = false ->
  let i' := partial_filled now i qty price id c in
  i' = i \/
  (i_entry_filled_quantity i' = Some qty /\ i_filled_price i' = Some price /\
   is_finite qty = true /\ (unwrap_or (i_entry_filled_quantity i) f0 <. qty) = true /\
   positive price = true).
Proof.
  intros Hnan. unfold partial_filled. split_match; [by left|right]. break_bool.
  cbv zeta. unfold update_state. rewrite update_state_typed_form.
  fields. split_match; fields; unfold positive;
    (repeat split; try done; [|apply andb_true_iff; split; [done|]];
     apply not_fle_flt; eauto using is_finite_not_nan).
Qed.

(** Broker accounting for a closed position is replaced only by a strictly newer
    observation of the same position, changes no other field, and is accepted only for a
    closed insight, from valid evidence for the insight's own order. *)
Theorem observe_accounting_watermark now_us i a :
  let r := observe_position_accounting now_us i a in
  (r = (i, false)) \/
  (r = (i <| i_position_accounting := Some a |>, true) /\
   i_state i = Closed /\ validate_accounting a = Ok () /\
   (exists id, i_order_id i = Some id /\ owns_order a id = true) /\
   (forall p, i_position_accounting i = Some p ->
      (pa_as_of_us p < pa_as_of_us a)%Z /\ pa_position_id p = pa_position_id a /\
      pa_entry_order_id p = pa_entry_order_id a /\ pa_currency p = pa_currency a)).
Proof.
  unfold observe_position_accounting. cbv zeta.
  destruct (_ || _) eqn:E1; [by left|]. break_bool.
  match goal with |- context [if ?s then _ else _] => destruct s eqn:E2 end; [by left|right].
  split; [done|].
  assert (i_state i = Closed) by (by destruct (bool_decide_reflect (i_state i <> Closed)) as [|?%dec_stable]).
  split; [done|]. split; [|split].
  - unfold is_err, is_ok in *. by destruct (validate_accounting a) as [[]|].
  - by apply is_some_and_true.
  - intros p Hp. rewrite Hp in E2. break_bool.
    repeat match goal with H : String.eqb _ _ = true |- _ => apply String.eqb_eq in H end.
    repeat split; try done. lia.
Qed.

(** The quantity an insight can still close is never negative and never NaN, whatever the
    broker reported. *)
Theorem remaining_quantity_nonneg i : (f0 <=. remaining_quantity i) = true.
Proof. unfold remaining_quantity. apply fmax_ge_r. reflexivity. Qed.

(** ** Concrete inputs *)

Definition demo_insight : Insight :=
  insight_new 7%N 0%Z Buy "BTCUSD" Manual default_timeframe 90%Z None.
Definition demo_closed : Insight :=
  run_ops demo_insight
    [(1%Z, OpSetQuantity (Some 2%float)); (2%Z, OpAccepted "entry-a");
     (3%Z, OpFilled 100%float 2%float "entry-a" None);
     (4%Z, OpClosed 110%float "exit-a" 2%float None None None)].

(** The life of a filled position: a late cancellation is recorded, not obeyed. *)
Example demo_filled_ignores_cancel :
  i_state (run_ops demo_insight
    [(2%Z, OpAccepted "entry-a"); (3%Z, OpFilled 100%float 2%float "entry-a" None);
     (4%Z, OpCancelled [Lit "late"])]) = Filled.
Proof. reflexivity. Qed.
Example demo_pnl : get_pl demo_closed None true = 20%float /\ get_pl_pct demo_closed = 10%float.
Proof. split; vm_compute; reflexivity. Qed.

Lemma partial_filled_monotone_witness :
  let i' := partial_filled 1%Z demo_insight 1%float 100%float "entry-a" None in
  i' = demo_insight \/
  (i_entry_filled_quantity i' = Some 1%float /\ i_filled_price i' = Some 100%float /\
   is_finite 1%float = true /\ (f0 <. 1%float) = true /\ positive 100%float = true).
Proof. apply (partial_filled_monotone 1%Z demo_insight). reflexivity. Defined.
