(* ===== verification/Operations.v ===== *)
(** * Operations: receipt-based insight mutations ([src/core/insight/operations.rs])

    An insight asks its strategy context to queue a broker command, keeps the
    receipt and polls it until the outcome arrives.  The context is the trait
    [StrategyContext] of [src/core/strategy/traits.rs]: class [StrategyContext]
    lists the methods these operations call, so that every theorem here holds
    for every context.  An operation takes the context and the insight and
    returns both, with its result; [now] is the insight's own clock. *)
From S2P Require Import Prelude.
From S2P Require Import Float64.
From S2P Require Import Text.
From S2P Require Import BrokerTypes.
From S2P Require Import TimeFrame.
From S2P Require Import InsightTypes.
From S2P Require Import Commands.
From S2P Require Import ExecutionData.
From S2P Require Import Insight.
From S2P Require Import InsightInvariant.

Inductive BrokerCommandProgress :=
| ProgressQueued
| ProgressCompleted (c : BrokerCommandCompletion)
| ProgressFailed (e : BrokerCommandError).

Class StrategyContext (C : Type) := {
  enqueue_broker_command :
    C -> Uuid -> BrokerCommandAction -> option BrokerOperationGroup ->
    C * result BrokerCommandReceipt BrokerCommandError;
  broker_command_progress : C -> BrokerCommandReceipt -> option BrokerCommandProgress;
  broker_command_reduced : C -> BrokerCommandReceipt -> C;
  cancel_pending_entry : C -> BrokerCommandReceipt -> C * result unit BrokerCommandError;
  ctx_current_time : C -> DateTime;
  ctx_universe : C -> gmap string Asset;
  ctx_broker_features : C -> list BrokerFeature
}.

Inductive InsightMutationState :=
| Applied
| Pending (r : BrokerCommandReceipt).
Definition InsightMutationResult : Type := result InsightMutationState BrokerCommandError.

(** ** Receipts *)

Definition has_pending (kind : MutationKind) (i : Insight) : bool :=
  existsb (fun p => bool_decide (pm_kind p = kind)) (i_pending_mutations i).
Definition has_pending_submit (i : Insight) : bool := has_pending KSubmit i.
Definition has_pending_close (i : Insight) : bool := has_pending KClose i.
Definition pending_broker_command (i : Insight) : option BrokerCommandReceipt :=
  pm_receipt <$> head (i_pending_mutations i).

(** [find_map] stops at the first close effect that has a price. *)
Fixpoint find_close_price (l : list PendingInsightMutation) : option f64 :=
  match l with
  | [] => None
  | p :: rest =>
      match pm_effect p with
      | EffClose (Some price) => Some price
      | _ => find_close_price rest
      end
  end.
Definition pending_close_price (i : Insight) : option f64 :=
  find_close_price (i_pending_mutations i).

(** [iter().position(|p| p.kind == kind)]. *)
Fixpoint position_of (kind : MutationKind) (l : list PendingInsightMutation) : option nat :=
  match l with
  | [] => None
  | p :: rest =>
      if decide (pm_kind p = kind) then Some 0 else S <$> position_of kind rest
  end.

(** [Vec::remove]. *)
Definition remove_pending (i : Insight) (index : nat) : Insight :=
  i <| i_pending_mutations := delete index (i_pending_mutations i) |>.

Definition leg_set_price (leg : OrderLeg) (price : option f64) (updated_at : Z) : OrderLeg :=
  mkOrderLeg (leg_order_id leg) price (leg_trail_price leg) (leg_side leg)
    (leg_filled_price leg) (leg_order_type leg) (leg_status leg) (leg_order_class leg)
    (leg_created_at leg) updated_at (leg_submitted_at leg) (leg_filled_at leg).

(** The request a submission carries ([From<&Insight> for BrokerOrderRequest]). *)
Definition order_request `{UuidText} (i : Insight) : BrokerOrderRequest := {|
  rq_client_order_id := uuid_to_string (i_insight_id i);
  rq_insight_id := uuid_to_string (i_insight_id i);
  rq_strategy_type := strategy_type_to_string (i_strategy_type i);
  rq_symbol := i_symbol i;
  rq_quantity := i_quantity i;
  rq_side := i_side i;
  rq_order_type := i_order_type i;
  rq_order_class := i_order_class i;
  rq_limit_price := i_limit_price i;
  rq_stop_price := i_stop_price i;
  rq_take_profit_levels := i_take_profit_levels i;
  rq_stop_loss_levels := i_stop_loss_levels i;
  rq_trailing_stop_price := i_trailing_stop_price i
|}.

Section Operations.
Context {C : Type} `{StrategyContext C} `{UuidText} `{Chrono}.

(** An ambiguous cleanup is settled by the terminal state it asked for. *)
Definition terminal_cleanup (i : Insight) (kind : MutationKind) : bool :=
  is_some (i_order_id i)
  && match kind with
     | KClose => bool_decide (i_state i = Closed)
     | KCancel => match i_state i with Cancelled | Rejected | Closed => true | _ => false end
     | KTakeProfit | KStopLoss =>
         match i_state i with Closed | Cancelled => true | _ => false end
     | _ => false
     end.

(** Whether an order response is the evidence the reducer has already bound to
    this insight; otherwise the receipt stays pending. *)
Definition rejected_submit (i : Insight) (kind : MutationKind) (receipt : BrokerCommandReceipt)
    (completion : BrokerCommandCompletion) (order : Order) : bool :=
  bool_decide (kind = KSubmit) && bool_decide (i_state i = Rejected)
  && is_none (i_order_id i) && bool_decide (o_status order = EvRejected)
  && bool_decide (cmp_receipt completion = receipt)
  && String.eqb (rcpt_insight_id receipt) (uuid_to_string (i_insight_id i)).
Definition response_unbound (i : Insight) (kind : MutationKind) (receipt : BrokerCommandReceipt)
    (completion : BrokerCommandCompletion) (order : Order) : bool :=
  (negb (bool_decide (i_order_id i = Some (o_order_id order)))
   && negb (match i_state i with Filled | Closed => true | _ => false end)
   && negb (rejected_submit i kind receipt completion order))
  || negb (String.eqb (i_symbol i) (a_symbol (o_asset order)))
  || negb (bool_decide (i_side i = o_side order))
  || is_some_and (fun id => negb (String.eqb id (uuid_to_string (i_insight_id i))))
       (o_insight_id order).

(** What an acknowledgement does to a still active insight. *)
Definition apply_effect (now : DateTime) (ctx : C) (i : Insight) (effect : MutationEffect)
    : Insight :=
  let leg_time := Z.max (timestamp (ctx_current_time ctx)) 0 in
  match effect with
  | EffSubmit =>
      if negb (has_pending KCancel i) then i <| i_cancelling := false |> else i
  | EffTakeProfit levels =>
      let price := match levels with Some l => head l | None => None end in
      let i := set_take_profit_levels now i levels in
      match take_profit (i_legs i) with
      | Some leg =>
          i <| i_legs := mkOrderLegs (Some (leg_set_price leg price leg_time))
                           (stop_loss (i_legs i)) (trailing_stop (i_legs i)) |>
      | None => i
      end
  | EffStopLoss levels =>
      let price := match levels with Some l => head l | None => None end in
      let i := set_stop_loss_levels now i levels in
      match stop_loss (i_legs i) with
      | Some leg =>
          i <| i_legs := mkOrderLegs (take_profit (i_legs i))
                           (Some (leg_set_price leg price leg_time)) (trailing_stop (i_legs i)) |>
      | None => i
      end
  | EffAmendEntry limit_price stop_price =>
      if bool_decide (i_state i = Executed)
         && (unwrap_or (i_entry_filled_quantity i) f0 ==. f0)
      then
        let i := match limit_price with
                 | Some price => set_limit_price now i (Some price)
                 | None => i
                 end in
        match stop_price with
        | Some price => set_stop_price now i (Some price)
        | None => i
        end
      else i
  | EffReplace price quantity =>
      set_quantity now (set_limit_price now i (Some price)) (Some quantity)
  | EffCancel | EffClose _ => i
  end.

Definition acknowledged_text (r : BrokerCommandReceipt) : option text :=
  Some [Lit "Broker command acknowledged: "; Lit (rcpt_id r)].

Definition poll_mutation (now : DateTime) (ctx : C) (i : Insight) (kind : MutationKind)
    : C * Insight * option InsightMutationResult :=
  match position_of kind (i_pending_mutations i) with
  | None => (ctx, i, None)
  | Some index =>
  match i_pending_mutations i !! index with
  | None => (ctx, i, None)
  | Some pending =>
  let receipt := pm_receipt pending in
  match broker_command_progress ctx receipt with
  | None | Some ProgressQueued => (ctx, i, Some (Ok (Pending receipt)))
  | Some (ProgressFailed error) => (ctx, i, Some (Err error))
  | Some (ProgressCompleted completion) =>
  match cmp_outcome completion with
  | Ambiguous _ =>
      if terminal_cleanup i kind
      then (broker_command_reduced ctx receipt, remove_pending i index, Some (Ok Applied))
      else (ctx, i, Some (Ok (Pending receipt)))
  | outcome =>
      let unbound := match outcome with
                     | OrderResponse order => response_unbound i kind receipt completion order
                     | _ => false
                     end in
      if unbound then (ctx, i, Some (Ok (Pending receipt)))
      else
        let i := remove_pending i index in
        let '(i, r) :=
          match outcome with
          | DeclinedOutcome reason =>
              let i := match kind with
                       | KCancel => i <| i_cancelling := false |>
                       | KClose => i <| i_closing := false |>
                       | KSubmit =>
                           if bool_decide (i_state i = New)
                           then order_rejected now i [Lit reason] else i
                       | _ => i
                       end in
              (i, Err (DeclinedError reason))
          | CancelledBeforeDispatch =>
              let i := if bool_decide (kind = KSubmit) && bool_decide (i_state i = New)
                       then order_cancelled now i
                              [Lit "Entry intent cancelled before broker dispatch"]
                       else i in
              (i, Ok Applied)
          | _ =>
              let i := if negb (is_inactive (i_state i))
                       then apply_effect now ctx i (pm_effect pending) else i in
              (state_log now i (acknowledged_text receipt), Ok Applied)
          end in
        (broker_command_reduced ctx receipt, i, Some r)
  end end end end.

Definition poll_pending_submission (now : DateTime) (ctx : C) (i : Insight)
    : C * Insight * InsightMutationResult :=
  let '(ctx, i, r) := poll_mutation now ctx i KSubmit in
  (ctx, i, unwrap_or r (Ok Applied)).

Definition all_kinds : list MutationKind :=
  [KSubmit; KCancel; KClose; KTakeProfit; KStopLoss; KReplace; KAmendEntry].

Definition poll_terminal_mutations (now : DateTime) (ctx : C) (i : Insight) : C * Insight :=
  if negb (is_inactive (i_state i)) then (ctx, i)
  else foldl (fun '(ctx, i) kind => (poll_mutation now ctx i kind).1) (ctx, i) all_kinds.

Definition queue_mutation (now : DateTime) (ctx : C) (i : Insight) (kind : MutationKind)
    (action : BrokerCommandAction) (effect : MutationEffect)
    (group : option BrokerOperationGroup) : C * Insight * InsightMutationResult :=
  match enqueue_broker_command ctx (i_insight_id i) action group with
  | (ctx, Err e) => (ctx, i, Err e)
  | (ctx, Ok receipt) =>
      let i := i <| i_pending_mutations :=
                      i_pending_mutations i ++ [mkPending kind receipt effect] |> in
      let i := state_log now i (Some [Lit "Broker command queued: "; Lit (rcpt_id receipt)]) in
      (ctx, i, Ok (Pending receipt))
  end.

(** ** Cancel and close *)

(** The part of [cancel] after the pending submission was dealt with. *)
Definition cancel_order (now : DateTime) (ctx : C) (i : Insight)
    : C * Insight * InsightMutationResult :=
  match poll_mutation now ctx i KCancel with
  | (ctx, i, Some r) => (ctx, i, r)
  | (ctx, i, None) =>
      if is_inactive (i_state i) || i_cancelling i then (ctx, i, Ok Applied)
      else
        match i_order_id i with
        | None => (ctx, i, Err (invalid "cancel requires a broker order ID"))
        | Some order_id =>
            match queue_mutation now ctx i KCancel (ActCancel order_id) EffCancel None with
            | (ctx, i, Err e) => (ctx, i, Err e)
            | (ctx, i, Ok r) =>
                (ctx, i <| i_cancelling := true |> <| i_suppress_child_entries := true |>, Ok r)
            end
        end
  end.

Definition cancel (now : DateTime) (ctx : C) (i : Insight)
    : C * Insight * InsightMutationResult :=
  match poll_mutation now ctx i KSubmit with
  | (ctx, i, Some (Ok (Pending receipt))) =>
      match cancel_pending_entry ctx receipt with
      | (ctx, Err e) => (ctx, i, Err e)
      | (ctx, Ok _) =>
          (ctx, i <| i_suppress_child_entries := true |> <| i_cancelling := true |>,
           Ok (Pending receipt))
      end
  | (ctx, i, Some (Ok Applied)) => cancel_order now ctx (i <| i_cancelling := false |>)
  | (ctx, i, Some (Err e)) => (ctx, i, Err e)
  | (ctx, i, None) => cancel_order now ctx i
  end.

Definition cancel_order_by_id (now : DateTime) (ctx : C) (i : Insight) (order_id : string)
    : C * Insight * InsightMutationResult :=
  match poll_mutation now ctx i KCancel with
  | (ctx, i, Some r) => (ctx, i, r)
  | (ctx, i, None) => queue_mutation now ctx i KCancel (ActCancel order_id) EffCancel None
  end.

Definition try_close_partial (now : DateTime) (ctx : C) (i : Insight) (quantity : f64)
    (price : option f64) : C * Insight * InsightMutationResult :=
  match poll_mutation now ctx i KClose with
  | (ctx, i, Some r) => (ctx, i, r)
  | (ctx, i, None) =>
      if is_inactive (i_state i) || i_closing i then (ctx, i, Ok Applied)
      else if bool_decide (i_state i <> Filled) || negb (is_finite quantity)
              || (quantity <=. f0) || (remaining_quantity i <. quantity)
      then (ctx, i, Err (invalid "close requires a positive quantity within the filled remainder"))
      else
        match i_order_id i with
        | None => (ctx, i, Err (invalid "close requires a broker order ID"))
        | Some order_id =>
            match queue_mutation now ctx i KClose (ActClose order_id quantity price)
                    (EffClose price) None with
            | (ctx, i, Err e) => (ctx, i, Err e)
            | (ctx, i, Ok r) => (ctx, i <| i_closing := true |>, Ok r)
            end
        end
  end.

Definition close_partial := try_close_partial.

Definition close (now : DateTime) (ctx : C) (i : Insight) : C * Insight * InsightMutationResult :=
  try_close_partial now ctx i (remaining_quantity i) None.

(** ** Expiry and submission *)

(** The [match self.state] of [expire_if_due] that picks the cleanup. *)
Definition expire_cleanup (now : DateTime) (ctx : C) (i : Insight)
    : C * Insight * InsightMutationResult :=
  match i_state i with
  | Filled => close now ctx i
  | New =>
      if negb (has_pending_submit i) && is_none (i_order_id i)
      then (ctx, order_rejected now i [Lit "Expired before submission fill window elapsed"],
            Ok Applied)
      else cancel now ctx i
  | _ => cancel now ctx i
  end.

Definition expire_if_due (now : DateTime) (ctx : C) (i : Insight)
    : C * Insight * option InsightMutationResult :=
  let window := match i_state i with
                | New | Executed =>
                    match i_period_unfilled i with
                    | Some p => Some (i_created_at i, p)
                    | None => None
                    end
                | Filled =>
                    match i_period_till_tp i with
                    | Some p => Some (unwrap_or (i_filled_at i) (i_created_at i), p)
                    | None => None
                    end
                | _ => None
                end in
  match window with
  | None => (ctx, i, None)
  | Some (anchor, periods) =>
      let expiry := match add_time_increment (i_timeframe i) anchor periods with
                    | Ok t => t
                    | Err _ => anchor
                    end in
      if (ctx_current_time ctx <? expiry)%Z then (ctx, i, None)
      else
        let was_cancelling := i_cancelling i in
        let was_closing := i_closing i in
        let '(ctx, i, result) := expire_cleanup now ctx i in
        let i := if negb was_cancelling && i_cancelling i
                 then state_log now i
                        (Some [Lit "Expired before fill window elapsed; cancel requested"])
                 else i in
        let i := if negb was_closing && i_closing i
                 then state_log now i
                        (Some [Lit "Take-profit time window expired; closing position"])
                 else i in
        (ctx, i, Some result)
  end.

Definition has_expired (now : DateTime) (ctx : C) (i : Insight) : C * Insight * bool :=
  let '(ctx, i, r) := expire_if_due now ctx i in (ctx, i, is_some r).

Definition validate (now : DateTime) (ctx : C) (i : Insight)
    : C * Insight * result bool InsightValidation :=
  let sym := Lit (i_symbol i) in
  let bad ctx i reason := (ctx, i, Err (InvalidBecause reason)) in
  match ctx_universe ctx !! i_symbol i with
  | None => bad ctx i [Lit "Symbol "; sym; Lit " not in universe"]
  | Some asset =>
  if negb (a_tradable asset) then bad ctx i [Lit "Asset "; sym; Lit " is not tradable"]
  else if bool_decide (i_side i = Sell) && negb (a_shortable asset)
  then bad ctx i [Lit "Asset "; sym; Lit " does not allow shorting"]
  else if i_market_changed i then bad ctx i [Lit "Market changed for "; sym]
  else
  match i_quantity i with
  | None => bad ctx i [Lit "Missing quantity for "; sym]
  | Some quantity =>
  if negb (is_finite quantity) || (quantity <=. f0)
  then bad ctx i [Lit "Invalid quantity "; ShowF64 None quantity; Lit " for "; sym]
  else
  if is_some_and (fun m => quantity <. m) (a_min_order_size asset)
  then bad ctx i [Lit "Quantity "; ShowF64 None quantity; Lit " is below minimum order size ";
                  ShowF64 None (unwrap_or (a_min_order_size asset) f0); Lit " for "; sym]
  else if is_some_and (fun m => m <. quantity) (a_max_order_size asset)
  then bad ctx i [Lit "Quantity "; ShowF64 None quantity; Lit " exceeds maximum order size ";
                  ShowF64 None (unwrap_or (a_max_order_size asset) f0); Lit " for "; sym]
  else
  let '(ctx, i, expired) := has_expired now ctx i in
  if expired then bad ctx i [Lit "Insight "; ShowUuid (i_insight_id i); Lit " has expired"]
  else if negb (has_valid_entry_conditions i)
  then bad ctx i [Lit "Invalid entry conditions for "; sym]
  else if negb (is_some (ctx_universe ctx !! i_symbol i))
  then bad ctx i [Lit "Symbol "; sym; Lit " not in universe"]
  else (ctx, i, Ok true)
  end end.

Definition submit (now : DateTime) (ctx : C) (i : Insight)
    : C * Insight * InsightMutationResult :=
  match poll_mutation now ctx i KSubmit with
  | (ctx, i, Some r) => (ctx, i, r)
  | (ctx, i, None) =>
      if i_submitted i || is_some (i_order_id i) || bool_decide (i_state i <> New)
      then (ctx, i, Ok Applied)
      else if i_suppress_child_entries i || i_cancelling i || i_closing i
      then (ctx, i, Err (invalid "Entry is gated for cancellation/cleanup"))
      else
        match validate now ctx i with
        | (ctx, i, Err validation) =>
            let reason := match validation with
                          | InvalidBecause reason => reason
                          | Valid => [Lit "Insight validation failed"]
                          end in
            (ctx, order_rejected now i reason, Err (InvalidCommand reason))
        | (ctx, i, Ok _) =>
            queue_mutation now ctx i KSubmit (ActSubmit (order_request i)) EffSubmit None
        end
  end.

Definition update_market_changed (now : DateTime) (ctx : C) (i : Insight)
    (market_changed should_close_or_cancel : bool) : C * Insight :=
  let i := i <| i_market_changed := market_changed |> in
  let i := update_state now i (i_state i) (Some [Lit "Market changed"]) in
  if should_close_or_cancel then
    match i_state i with
    | Filled =>
        match close now ctx i with
        | (ctx, i, Err e) =>
            (ctx, state_log now i (Some ([Lit "Market-change close pending: "] ++ error_text e)))
        | (ctx, i, Ok _) => (ctx, i)
        end
    | _ =>
        match cancel now ctx i with
        | (ctx, i, Err e) =>
            (ctx, state_log now i
                    (Some ([Lit "Market-change cancellation pending: "] ++ error_text e)))
        | (ctx, i, Ok _) => (ctx, i)
        end
    end
  else (ctx, i).

(** ** Amendments *)

Definition is_live (s : InsightState) : bool :=
  match s with Executed | Filled => true | _ => false end.

Definition leg_or_entry_id (leg : option OrderLeg) (i : Insight) : option string :=
  opt_or (match leg with Some l => leg_order_id l | None => None end) (i_order_id i).

Definition update_take_profit_in_group (now : DateTime) (ctx : C) (i : Insight)
    (levels : option (list f64)) (group : option BrokerOperationGroup)
    : C * Insight * InsightMutationResult :=
  let levels := normalize_levels levels in
  match poll_mutation now ctx i KTakeProfit with
  | (ctx, i, Some (Ok (Pending r))) => (ctx, i, Ok (Pending r))
  | (ctx, i, Some (Err e)) => (ctx, i, Err e)
  | (ctx, i, _) =>
      if opt_list_feq (i_take_profit_levels i) levels then (ctx, i, Ok Applied)
      else if negb (is_live (i_state i))
      then (ctx, set_take_profit_levels now i levels, Ok Applied)
      else
        match match levels with Some l => head l | None => None end with
        | None =>
            (ctx, i, Err (invalid
               "clearing live TP requires an explicit broker clear-protection operation"))
        | Some price =>
            match leg_or_entry_id (take_profit (i_legs i)) i with
            | None => (ctx, i, Err (invalid "TP update requires a broker order ID"))
            | Some order_id =>
                queue_mutation now ctx i KTakeProfit
                  (ActTakeProfit order_id price (remaining_quantity i))
                  (EffTakeProfit levels) group
            end
        end
  end.

Definition update_take_profit (now : DateTime) (ctx : C) (i : Insight)
    (levels : option (list f64)) : C * Insight * InsightMutationResult :=
  update_take_profit_in_group now ctx i levels None.

Definition update_stop_loss (now : DateTime) (ctx : C) (i : Insight)
    (levels : option (list f64)) : C * Insight * InsightMutationResult :=
  let levels := normalize_levels levels in
  match poll_mutation now ctx i KStopLoss with
  | (ctx, i, Some (Ok (Pending r))) => (ctx, i, Ok (Pending r))
  | (ctx, i, Some (Err e)) => (ctx, i, Err e)
  | (ctx, i, _) =>
      if opt_list_feq (i_stop_loss_levels i) levels then (ctx, i, Ok Applied)
      else if negb (is_live (i_state i))
      then (ctx, set_stop_loss_levels now i levels, Ok Applied)
      else
        match match levels with Some l => head l | None => None end with
        | None =>
            (ctx, i, Err (invalid
               "clearing live SL requires an explicit broker clear-protection operation"))
        | Some price =>
            match leg_or_entry_id (stop_loss (i_legs i)) i with
            | None => (ctx, i, Err (invalid "SL update requires a broker order ID"))
            | Some order_id =>
                queue_mutation now ctx i KStopLoss
                  (ActStopLoss order_id price (remaining_quantity i))
                  (EffStopLoss levels) None
            end
        end
  end.

(** [update_entry_price] once no amendment and no submission is pending. *)
Definition amend_entry (now : DateTime) (ctx : C) (i : Insight) (price : f64) (stop : bool)
    : C * Insight * InsightMutationResult :=
  if negb (is_finite price) || (price <=. f0)
  then (ctx, i, Err (invalid "Entry price must be finite and positive"))
  else if bool_decide (i_state i = New) && is_none (i_order_id i)
  then (ctx, (if stop then set_stop_price now i (Some price)
              else set_limit_price now i (Some price)), Ok Applied)
  else
    let valid_type := if stop
                      then match i_order_type i with Stop | StopLimit => true | _ => false end
                      else match i_order_type i with Limit | StopLimit => true | _ => false end in
    if bool_decide (i_state i <> Executed) || negb valid_type || i_closing i || i_cancelling i
    then (ctx, i, Err (invalid "Entry amendment requires a matching, active pending order"))
    else
      let current := if stop then i_stop_price i else i_limit_price i in
      if opt_feq current (Some price) then (ctx, i, Ok Applied)
      else
        let feature := if stop then FAmendStopPrice else FAmendLimitPrice in
        if negb (bool_decide (feature ∈ ctx_broker_features ctx))
        then (ctx, i, Err (invalid "Broker does not support this entry price amendment"))
        else
          match i_order_id i with
          | None => (ctx, i, Err (invalid "Entry amendment requires a broker order ID"))
          | Some order_id =>
              let limit_price := if stop then None else Some price in
              let stop_price := if stop then Some price else None in
              queue_mutation now ctx i KAmendEntry (ActAmendEntry order_id limit_price stop_price)
                (EffAmendEntry limit_price stop_price) None
          end.

(** [update_entry_price] once no amendment is pending. *)
Definition amend_after_submission (now : DateTime) (ctx : C) (i : Insight) (price : f64)
    (stop : bool) : C * Insight * InsightMutationResult :=
  if has_pending_submit i then
    match poll_pending_submission now ctx i with
    | (ctx, i, Err e) => (ctx, i, Err e)
    | (ctx, i, Ok (Pending receipt)) => (ctx, i, Ok (Pending receipt))
    | (ctx, i, Ok Applied) => amend_entry now ctx i price stop
    end
  else amend_entry now ctx i price stop.

Definition update_entry_price (now : DateTime) (ctx : C) (i : Insight) (price : f64) (stop : bool)
    : C * Insight * InsightMutationResult :=
  if bool_decide (i_state i = Filled) || is_inactive (i_state i)
     || (f0 <. unwrap_or (i_entry_filled_quantity i) f0)
  then
    let '(ctx, i, _) := poll_mutation now ctx i KAmendEntry in
    (ctx, state_log now i
       (Some [Lit "Cannot update entry limit/stop price: order has already filled or is inactive"]),
     Ok Applied)
  else
    match poll_mutation now ctx i KAmendEntry with
    | (ctx, i, Some (Ok (Pending r))) => (ctx, i, Ok (Pending r))
    | (ctx, i, Some (Err e)) => (ctx, i, Err e)
    | (ctx, i, _) => amend_after_submission now ctx i price stop
    end.

Definition update_limit (now : DateTime) (ctx : C) (i : Insight) (price : f64)
    : C * Insight * InsightMutationResult := update_entry_price now ctx i price false.
Definition update_stop_limit (now : DateTime) (ctx : C) (i : Insight) (price : f64)
    : C * Insight * InsightMutationResult := update_entry_price now ctx i price true.

Definition replace_pending_order (now : DateTime) (ctx : C) (i : Insight) (price quantity : f64)
    : C * Insight * InsightMutationResult :=
  match poll_mutation now ctx i KReplace with
  | (ctx, i, Some r) => (ctx, i, r)
  | (ctx, i, None) =>
      if bool_decide (i_state i <> Executed)
      then (ctx, i, Err (invalid "replacement requires an Executed entry"))
      else
        match i_order_id i with
        | None => (ctx, i, Err (invalid "replacement requires a broker order ID"))
        | Some order_id =>
            queue_mutation now ctx i KReplace (ActReplace order_id price quantity)
              (EffReplace price quantity) None
        end
  end.

(** ** The operations as one family *)

Inductive MutationOp :=
| MoSubmit
| MoCancel
| MoCancelById (order_id : string)
| MoClose
| MoClosePartial (quantity : f64) (price : option f64)
| MoTakeProfit (levels : option (list f64)) (group : option BrokerOperationGroup)
| MoStopLoss (levels : option (list f64))
| MoUpdateLimit (price : f64)
| MoUpdateStop (price : f64)
| MoReplace (price quantity : f64)
| MoExpire
| MoPollTerminal
| MoPollSubmission
| MoMarketChanged (changed should_close : bool).

Definition run_mutation (now : DateTime) (s : C * Insight) (op : MutationOp) : C * Insight :=
  let '(ctx, i) := s in
  match op with
  | MoSubmit => (submit now ctx i).1
  | MoCancel => (cancel now ctx i).1
  | MoCancelById id => (cancel_order_by_id now ctx i id).1
  | MoClose => (close now ctx i).1
  | MoClosePartial q p => (close_partial now ctx i q p).1
  | MoTakeProfit l g => (update_take_profit_in_group now ctx i l g).1
  | MoStopLoss l => (update_stop_loss now ctx i l).1
  | MoUpdateLimit p => (update_limit now ctx i p).1
  | MoUpdateStop p => (update_stop_limit now ctx i p).1
  | MoReplace p q => (replace_pending_order now ctx i p q).1
  | MoExpire => (expire_if_due now ctx i).1
  | MoPollTerminal => poll_terminal_mutations now ctx i
  | MoPollSubmission => (poll_pending_submission now ctx i).1
  | MoMarketChanged c b => update_market_changed now ctx i c b
  end.
End Operations.

(** ** What state changes leave alone *)

Definition core_view (i : Insight) :=
  (i_insight_id i, i_symbol i, i_side i, i_pending_mutations i, i_order_id i, i_submitted i,
   (i_suppress_child_entries i, i_entry_filled_quantity i, i_partial_filled_quantity i,
    i_children i, i_filled_price i, i_partial_closes i, i_execution_data i)).

Lemma core_update_state_typed now i s m k :
  core_view (update_state_typed now i s m k) = core_view i.
Proof. rewrite update_state_typed_form. unfold core_view. fields. reflexivity. Qed.

(** A record update outside [core_view], and the state changes built from it. *)
Ltac solve_core :=
  repeat first
    [ reflexivity
    | progress cbv zeta
    | rewrite core_update_state_typed
    | progress unfold update_state, state_log, order_rejected, order_cancelled,
        update_order_class, update_order_type
    | case_decide
    | split_match
    | match goal with |- core_view (@set_field _ _ ?p ?inst ?v ?i) = _ =>
        transitivity (core_view i); [reflexivity|] end ].

Lemma core_set_take_profit now i l : core_view (set_take_profit_levels now i l) = core_view i.
Proof. unfold set_take_profit_levels. solve_core. Qed.
Lemma core_set_stop_loss now i l : core_view (set_stop_loss_levels now i l) = core_view i.
Proof. unfold set_stop_loss_levels. solve_core. Qed.
Lemma core_set_limit_price now i p : core_view (set_limit_price now i p) = core_view i.
Proof. unfold set_limit_price. solve_core. Qed.
Lemma core_set_stop_price now i p : core_view (set_stop_price now i p) = core_view i.
Proof. unfold set_stop_price. solve_core. Qed.
Lemma core_set_quantity now i q : core_view (set_quantity now i q) = core_view i.
Proof. unfold set_quantity. solve_core. Qed.
Lemma core_set_trailing now i p : core_view (set_trailing_stop_price now i p) = core_view i.
Proof. unfold set_trailing_stop_price. solve_core. Qed.
Lemma core_state_log now i m : core_view (state_log now i m) = core_view i.
Proof. solve_core. Qed.
Lemma core_order_rejected now i m : core_view (order_rejected now i m) = core_view i.
Proof. solve_core. Qed.
Lemma core_order_cancelled now i m : core_view (order_cancelled now i m) = core_view i.
Proof. solve_core. Qed.
Create Rewrite HintDb core_frame.
#[export] Hint Rewrite core_update_state_typed core_set_take_profit core_set_stop_loss
  core_set_limit_price core_set_stop_price core_set_quantity core_set_trailing
  core_state_log core_order_rejected core_order_cancelled : core_frame.

Lemma core_pending i j : core_view i = core_view j -> i_pending_mutations i = i_pending_mutations j.
Proof. unfold core_view. by intros [=]. Qed.

(** ** A log entry keeps the state *)

Lemma state_update_same now i m k : i_state (update_state_typed now i (i_state i) m k) = i_state i.
Proof.
  rewrite update_state_typed_form. fields. unfold us_state, refused.
  by destruct (i_state i).
Qed.

Lemma state_order_class now i : i_state (update_order_class now i) = i_state i.
Proof.
  unfold update_order_class, update_state. case_decide; [done|].
  rewrite state_update_same. by fields.
Qed.
Lemma state_order_type now i : i_state (update_order_type now i) = i_state i.
Proof.
  unfold update_order_type, update_state. case_decide; [done|].
  rewrite state_update_same. by fields.
Qed.

Ltac solve_state :=
  repeat split_match; cbv zeta; unfold update_state, state_log; rewrite ?state_update_same,
    ?state_order_class, ?state_order_type; fields; reflexivity.

Lemma state_set_take_profit now i l : i_state (set_take_profit_levels now i l) = i_state i.
Proof. unfold set_take_profit_levels. solve_state. Qed.
Lemma state_set_stop_loss now i l : i_state (set_stop_loss_levels now i l) = i_state i.
Proof. unfold set_stop_loss_levels. solve_state. Qed.
Lemma state_set_trailing now i p : i_state (set_trailing_stop_price now i p) = i_state i.
Proof. unfold set_trailing_stop_price. solve_state. Qed.
Lemma state_set_limit_price now i p : i_state (set_limit_price now i p) = i_state i.
Proof. unfold set_limit_price. solve_state. Qed.
Lemma state_set_stop_price now i p : i_state (set_stop_price now i p) = i_state i.
Proof. unfold set_stop_price. solve_state. Qed.
Lemma state_set_quantity now i q : i_state (set_quantity now i q) = i_state i.
Proof. unfold set_quantity. solve_state. Qed.
Lemma state_state_log now i m : i_state (state_log now i m) = i_state i.
Proof. solve_state. Qed.
Create Rewrite HintDb state_frame.
#[export] Hint Rewrite state_set_take_profit state_set_stop_loss state_set_trailing
  state_set_limit_price state_set_stop_price state_set_quantity state_state_log : state_frame.

Section Invariant.
Context {C : Type} `{StrategyContext C} `{UuidText} `{Chrono}.

Definition pending_kinds (i : Insight) : list MutationKind :=
  pm_kind <$> i_pending_mutations i.

(** At most one command of each kind is in flight. *)
Record mutation_inv (i : Insight) : Prop := {
  inv_wf : insight_wf i;
  inv_unique : NoDup (pending_kinds i)
}.

Definition settled (r : option InsightMutationResult) : Prop :=
  r = None \/ r = Some (Ok Applied).

Lemma position_of_lookup kind l idx :
  position_of kind l = Some idx -> exists p, l !! idx = Some p /\ pm_kind p = kind.
Proof.
  revert idx. induction l as [|p l IH]; intros idx; simpl; [done|].
  case_decide as E; [intros [= <-]; eauto|].
  intros (n & Hn & ->)%fmap_Some. simpl. auto.
Qed.

Lemma position_of_None kind l : position_of kind l = None <-> kind ∉ (pm_kind <$> l).
Proof.
  induction l as [|p l IH]; simpl; [split; [intros _; apply not_elem_of_nil|done]|].
  rewrite not_elem_of_cons, <- IH.
  case_decide; [naive_solver|]. rewrite fmap_None. naive_solver.
Qed.

Lemma NoDup_delete_kind {A B} (f : A -> B) l idx p :
  NoDup (f <$> l) -> l !! idx = Some p ->
  NoDup (f <$> delete idx l) /\ (f p ∉ (f <$> delete idx l)) /\
  (forall b, b ∈ (f <$> delete idx l) -> b ∈ (f <$> l)).
Proof.
  intros Hnd Hl. pose proof (delete_Permutation l idx p Hl) as Hp.
  apply (Permutation_map f) in Hp.
  change (f <$> l ≡ₚ f p :: (f <$> delete idx l)) in Hp.
  rewrite Hp in Hnd. apply NoDup_cons in Hnd as [Hn Hnd]. repeat split; try done.
  intros b Hb. rewrite Hp. set_solver.
Qed.

Lemma apply_effect_frame now (ctx : C) i e :
  core_view (apply_effect now ctx i e) = core_view i /\
  i_state (apply_effect now ctx i e) = i_state i /\
  (insight_wf i -> insight_wf (apply_effect now ctx i e)).
Proof.
  unfold apply_effect. cbv zeta. split; [|split; [|intros Hi]];
    repeat (split_match || (progress fields)); autorewrite with state_frame; try reflexivity;
    try (match goal with |- core_view (set_field _ _ ?j) = _ => change (core_view j = core_view i) end);
    autorewrite with core_frame; try reflexivity;
    try (match goal with |- insight_wf (set_field _ _ ?j) => apply (wf_ext j); [reflexivity|] end);
    auto 6 with aqe.
Qed.

(** What polling does: nothing of its kind is pending; or the receipt is kept
    and nothing changes; or the first receipt of its kind is consumed. *)
Definition acked (ctx : C) (r : BrokerCommandReceipt) : Prop :=
  exists c, broker_command_progress ctx r = Some (ProgressCompleted c) /\
    cmp_outcome c = Acknowledged.
Definition resolved_entry (ctx : C) (i i' : Insight) (r : BrokerCommandReceipt) : Prop :=
  acked ctx r \/ is_Some (i_order_id i) \/ i_state i' <> New.

Inductive polled (now : DateTime) (ctx : C) (i : Insight) (kind : MutationKind)
    : C -> Insight -> option InsightMutationResult -> Prop :=
| polled_none :
    kind ∉ pending_kinds i -> polled now ctx i kind ctx i None
| polled_kept p r :
    p ∈ i_pending_mutations i -> pm_kind p = kind ->
    (r = Ok (Pending (pm_receipt p)) \/ is_err r = true) ->
    polled now ctx i kind ctx i (Some r)
| polled_consumed idx p i' r :
    position_of kind (i_pending_mutations i) = Some idx ->
    i_pending_mutations i !! idx = Some p -> pm_kind p = kind ->
    core_view i' = core_view (remove_pending i idx) ->
    (i_state i' = i_state i \/
     kind = KSubmit /\ i_state i = New /\ is_cancel_or_reject (i_state i') = true) ->
    (insight_wf i -> insight_wf i') ->
    (r = Ok Applied \/ exists reason, r = Err (DeclinedError reason)) ->
    (kind = KSubmit -> resolved_entry ctx i i' (pm_receipt p)) ->
    polled now ctx i kind (broker_command_reduced ctx (pm_receipt p)) i' (Some r).

Lemma wf_remove_pending i idx : insight_wf i -> insight_wf (remove_pending i idx).
Proof. by apply wf_ext. Qed.
Lemma wf_order_rejected now i m : insight_wf i -> insight_wf (order_rejected now i m).
Proof. apply wf_update_state. Qed.
Lemma wf_order_cancelled now i m : insight_wf i -> insight_wf (order_cancelled now i m).
Proof. apply wf_update_state. Qed.
Hint Resolve wf_remove_pending wf_order_rejected wf_order_cancelled : aqe.

Lemma state_rejected_new now i m : i_state i = New -> i_state (order_rejected now i m) = Rejected.
Proof.
  intros Hs. unfold order_rejected, update_state. rewrite update_state_typed_form. fields.
  unfold us_state, refused. by rewrite Hs.
Qed.
Lemma state_cancelled_new now i m : i_state i = New -> i_state (order_cancelled now i m) = Cancelled.
Proof.
  intros Hs. unfold order_cancelled, update_state. rewrite update_state_typed_form. fields.
  unfold us_state, refused. by rewrite Hs.
Qed.

(** An order response is consumed only once the reducer has bound it. *)
Lemma response_bound i kind r c order :
  response_unbound i kind r c order = false -> is_Some (i_order_id i) \/ i_state i <> New.
Proof.
  unfold response_unbound, rejected_submit. intros Hu. break_bool.
  destruct (i_order_id i); [left; eauto|right].
  destruct (i_state i); try done. simpl in *.
  by rewrite andb_false_r in *.
Qed.

Lemma poll_mutation_polled now ctx i kind ctx' i' r :
  poll_mutation now ctx i kind = (ctx', i', r) -> polled now ctx i kind ctx' i' r.
Proof.
  unfold poll_mutation. intros Hp.
  destruct (position_of kind (i_pending_mutations i)) as [idx|] eqn:Hpos;
    [|simplify_eq; constructor; by apply position_of_None].
  destruct (position_of_lookup _ _ _ Hpos) as (p & Hl & Hk). rewrite Hl in Hp.
  assert (Hin : p ∈ i_pending_mutations i) by (by eapply list_elem_of_lookup_2).
  assert (Hkept : forall r, r = Ok (Pending (pm_receipt p)) \/ is_err r = true ->
            polled now ctx i kind ctx i (Some r)) by (intros; by eapply polled_kept).
  assert (Hack : forall j, core_view j = core_view (remove_pending i idx) ->
            i_state j = i_state i -> (insight_wf i -> insight_wf j) ->
            (kind = KSubmit -> resolved_entry ctx i i (pm_receipt p)) ->
            polled now ctx i kind (broker_command_reduced ctx (pm_receipt p)) j
              (Some (Ok Applied))).
  { intros j Hc Hs Hw Hr. eapply polled_consumed; eauto.
    intros Hks. destruct (Hr Hks) as [?|[?|?]]; [by left|by right; left|].
    right; right. by rewrite Hs. }
  assert (Heff : (kind = KSubmit -> resolved_entry ctx i i (pm_receipt p)) ->
            polled now ctx i kind (broker_command_reduced ctx (pm_receipt p))
            (state_log now
               (if negb (is_inactive (i_state (remove_pending i idx)))
                then apply_effect now ctx (remove_pending i idx) (pm_effect p)
                else remove_pending i idx) (acknowledged_text (pm_receipt p)))
            (Some (Ok Applied))).
  { destruct (apply_effect_frame now ctx (remove_pending i idx) (pm_effect p)) as (Hc & Hs & Hw).
    apply Hack; [rewrite core_state_log|rewrite state_state_log|intros; apply wf_state_log];
      split_match; auto with aqe. }
  destruct (broker_command_progress ctx (pm_receipt p)) as [[|c|e]|] eqn:Hprog; [| | |];
    try (simplify_eq; apply Hkept; auto; fail).
  destruct (cmp_outcome c) as [order| |reason|reason|] eqn:Hout.
  - destruct (response_unbound i kind (pm_receipt p) c order) eqn:Hun; simplify_eq; [auto|].
    apply Heff. intros _. right. eapply response_bound, Hun.
  - simplify_eq. apply Heff. intros _. left. exists c. done.
  - simplify_eq. eapply polled_consumed; try eassumption; try done.
    + destruct (pm_kind p); autorewrite with core_frame; try done.
      split_match; autorewrite with core_frame; done.
    + destruct (pm_kind p) eqn:Hkd; auto.
      case_bool_decide as E; [right|left; reflexivity].
      rewrite state_rejected_new by done. done.
    + intros Hw. apply (wf_remove_pending _ idx) in Hw.
      destruct (pm_kind p); try done; try (by apply (wf_ext (remove_pending i idx)));
        split_match; auto with aqe.
    + right. eauto.
    + intros Hks. right; right. rewrite Hks.
      case_bool_decide as E; [|done].
      by rewrite state_rejected_new.
  - destruct (terminal_cleanup i kind) eqn:Ht; simplify_eq; [|auto].
    apply Hack; auto with aqe. intros Hks. unfold terminal_cleanup in Ht. rewrite Hks in Ht.
    by rewrite andb_false_r in Ht.
  - simplify_eq. destruct (bool_decide_reflect (pm_kind p = KSubmit)) as [Hks|Hks]; simpl.
    + case_bool_decide as E.
      * eapply polled_consumed; eauto; autorewrite with core_frame; auto with aqe.
        -- right. rewrite state_cancelled_new by done. done.
        -- intros _. right; right. by rewrite state_cancelled_new.
      * apply Hack; auto with aqe. intros _. right; right. done.
    + apply Hack; auto with aqe. done.
Qed.

(** Polling and queueing keep the invariant, and a settled poll frees its kind. *)
Lemma poll_inv now ctx i kind ctx' i' r :
  poll_mutation now ctx i kind = (ctx', i', r) -> mutation_inv i ->
  mutation_inv i' /\ (settled r -> kind ∉ pending_kinds i') /\
  (forall k, k ∈ pending_kinds i' -> k ∈ pending_kinds i).
Proof.
  intros Hp%poll_mutation_polled [Hw Hu].
  destruct Hp as [Hn|p r Hin Hk Hr|idx p i' r Hpos Hl Hk Hc Hs Hw' Hr _].
  - split; [done|]. auto.
  - split; [done|]. split; [|auto]. intros [|[= ->]]; [done|]. by destruct Hr.
  - destruct (NoDup_delete_kind pm_kind _ _ _ Hu Hl) as (Hnd & Hni & Hsub).
    apply core_pending in Hc. unfold pending_kinds. rewrite Hc. unfold remove_pending. fields.
    split; [split; [auto|]|].
    + unfold pending_kinds. rewrite Hc. unfold remove_pending. by fields.
    + subst kind. auto.
Qed.

Lemma queue_inv now (ctx : C) i kind action effect group ctx' i' r :
  queue_mutation now ctx i kind action effect group = (ctx', i', r) ->
  mutation_inv i -> kind ∉ pending_kinds i -> mutation_inv i'.
Proof.
  unfold queue_mutation. intros Hq [Hw Hu] Hk.
  destruct (enqueue_broker_command _ _ _ _) as [ctx1 [rc|e]]; simplify_eq; [|done].
  split.
  - apply wf_state_log. by apply (wf_ext i).
  - unfold pending_kinds. erewrite core_pending by apply core_state_log. fields.
    rewrite fmap_app. apply NoDup_app. split; [done|]. split; [|apply NoDup_singleton].
    intros k Hin Hkk. apply list_elem_of_singleton in Hkk. by subst k.
Qed.

Lemma inv_ext i j :
  wf_view i = wf_view j -> i_pending_mutations i = i_pending_mutations j ->
  mutation_inv i -> mutation_inv j.
Proof.
  intros Hv Hp [Hw Hu]. split; [by apply (wf_ext i)|]. unfold pending_kinds in *. by rewrite <- Hp.
Qed.

Lemma inv_update i j :
  (insight_wf i -> insight_wf j) -> core_view j = core_view i -> mutation_inv i -> mutation_inv j.
Proof.
  intros Hv Hp%core_pending [Hw Hu]. split; [auto|]. unfold pending_kinds in *. by rewrite Hp.
Qed.

Lemma inv_log now i m : mutation_inv i -> mutation_inv (state_log now i m).
Proof. apply inv_update; [apply wf_state_log|apply core_state_log]. Qed.
Lemma inv_rejected now i m : mutation_inv i -> mutation_inv (order_rejected now i m).
Proof. apply inv_update; [apply wf_order_rejected|apply core_order_rejected]. Qed.
Lemma inv_set_take_profit now i l : mutation_inv i -> mutation_inv (set_take_profit_levels now i l).
Proof. apply inv_update; [apply wf_set_take_profit_levels|apply core_set_take_profit]. Qed.
Lemma inv_set_stop_loss now i l : mutation_inv i -> mutation_inv (set_stop_loss_levels now i l).
Proof. apply inv_update; [apply wf_set_stop_loss_levels|apply core_set_stop_loss]. Qed.
Lemma inv_set_limit_price now i p : mutation_inv i -> mutation_inv (set_limit_price now i p).
Proof. apply inv_update; [apply wf_set_limit_price|apply core_set_limit_price]. Qed.
Lemma inv_set_stop_price now i p : mutation_inv i -> mutation_inv (set_stop_price now i p).
Proof. apply inv_update; [apply wf_set_stop_price|apply core_set_stop_price]. Qed.
Hint Resolve inv_log inv_rejected inv_set_take_profit inv_set_stop_loss inv_set_limit_price
  inv_set_stop_price : aqe.

(** Run a state-passing computation step by step through [poll_inv] and
    [queue_inv]. *)
Ltac inv_step :=
  match goal with
  | Hp : poll_mutation _ _ ?i _ = _, Hi : mutation_inv ?i |- _ =>
      let H1 := fresh "Hi" in let H2 := fresh "Hfree" in let H3 := fresh "Hsub" in
      destruct (poll_inv _ _ _ _ _ _ _ Hp Hi) as (H1 & H2 & H3); clear Hp
  | Hq : queue_mutation _ _ ?i _ _ _ _ = _, Hi : mutation_inv ?i |- _ =>
      let H1 := fresh "Hi" in
      assert (H1 : mutation_inv _) by
        (eapply (queue_inv _ _ _ _ _ _ _ _ _ _ Hq Hi); unfold settled in *; auto 6);
      clear Hq
  end.
Ltac inv_field :=
  match goal with
  | Hi : mutation_inv ?i |- mutation_inv _ => apply (inv_ext i); [reflexivity|reflexivity|assumption]
  end.
Ltac run_inv H := repeat (split_match_in H; simplify_eq; repeat inv_step); simplify_eq; try done; try inv_field.

Lemma cancel_order_inv now ctx i ctx' i' r :
  cancel_order now ctx i = (ctx', i', r) -> mutation_inv i -> mutation_inv i'.
Proof. unfold cancel_order. intros Hr Hi. run_inv Hr. Qed.

Lemma cancel_inv now ctx i ctx' i' r :
  cancel now ctx i = (ctx', i', r) -> mutation_inv i -> mutation_inv i'.
Proof.
  unfold cancel. intros Hr Hi. run_inv Hr; (eapply cancel_order_inv; [eassumption|]); auto.
  inv_field.
Qed.

Lemma cancel_by_id_inv now ctx i id ctx' i' r :
  cancel_order_by_id now ctx i id = (ctx', i', r) -> mutation_inv i -> mutation_inv i'.
Proof. unfold cancel_order_by_id. intros Hr Hi. run_inv Hr. Qed.

Lemma close_partial_inv now ctx i q p ctx' i' r :
  try_close_partial now ctx i q p = (ctx', i', r) -> mutation_inv i -> mutation_inv i'.
Proof. unfold try_close_partial. intros Hr Hi. run_inv Hr. Qed.

Lemma take_profit_inv now ctx i l g ctx' i' r :
  update_take_profit_in_group now ctx i l g = (ctx', i', r) -> mutation_inv i -> mutation_inv i'.
Proof.
  unfold update_take_profit_in_group. intros Hr Hi. run_inv Hr; auto with aqe; by inv_step.
Qed.

Lemma stop_loss_inv now ctx i l ctx' i' r :
  update_stop_loss now ctx i l = (ctx', i', r) -> mutation_inv i -> mutation_inv i'.
Proof.
  unfold update_stop_loss. intros Hr Hi. run_inv Hr; auto with aqe; by inv_step.
Qed.

Lemma amend_entry_inv now ctx i p st ctx' i' r :
  amend_entry now ctx i p st = (ctx', i', r) -> mutation_inv i ->
  KAmendEntry ∉ pending_kinds i -> mutation_inv i'.
Proof.
  unfold amend_entry. intros Hr Hi Hk.
  run_inv Hr; try (destruct st; auto with aqe; fail); eauto using queue_inv.
Qed.

Lemma replace_inv now ctx i p q ctx' i' r :
  replace_pending_order now ctx i p q = (ctx', i', r) -> mutation_inv i -> mutation_inv i'.
Proof. unfold replace_pending_order. intros Hr Hi. run_inv Hr. Qed.

Lemma amend_after_inv now ctx i p st ctx' i' r :
  amend_after_submission now ctx i p st = (ctx', i', r) -> mutation_inv i ->
  KAmendEntry ∉ pending_kinds i -> mutation_inv i'.
Proof.
  unfold amend_after_submission, poll_pending_submission. intros Hr Hi Hk.
  split_match_in Hr; [|by eapply amend_entry_inv].
  destruct (poll_mutation now ctx i KSubmit) as [[ctx1 i1] r1] eqn:Hp. inv_step.
  destruct (unwrap_or r1 (Ok Applied)) as [[|]|]; simplify_eq; [|done|done].
  eapply amend_entry_inv; eauto.
Qed.

Lemma entry_price_inv now ctx i p st ctx' i' r :
  update_entry_price now ctx i p st = (ctx', i', r) -> mutation_inv i -> mutation_inv i'.
Proof.
  unfold update_entry_price. intros Hr Hi. unfold settled in *.
  run_inv Hr; auto with aqe; (eapply amend_after_inv; [eassumption|done|]);
    unfold settled in *; auto 6.
Qed.

Lemma expire_inv now ctx i ctx' i' r :
  expire_if_due now ctx i = (ctx', i', r) -> mutation_inv i -> mutation_inv i'.
Proof.
  unfold expire_if_due. intros Hr Hi. cbv zeta in Hr.
  split_match_in Hr; [|by simplify_eq]. destruct p as [anchor periods].
  split_match_in Hr; [by simplify_eq|].
  destruct (expire_cleanup now ctx i) as [[ctx1 i1] r1] eqn:Hm.
  assert (Hi1 : mutation_inv i1).
  { unfold expire_cleanup in Hm. repeat split_match_in Hm; simplify_eq; eauto using cancel_inv, inv_rejected.
    unfold close in Hm. eauto using close_partial_inv. }
  repeat split_match_in Hr; simplify_eq; auto using inv_log.
Qed.

Lemma validate_inv now ctx i ctx' i' r :
  validate now ctx i = (ctx', i', r) -> mutation_inv i -> mutation_inv i'.
Proof.
  unfold validate, has_expired. intros Hr Hi. cbv zeta in Hr.
  destruct (expire_if_due now ctx i) as [[ctx1 i1] r1] eqn:He.
  pose proof (expire_inv _ _ _ _ _ _ He Hi).
  repeat split_match_in Hr; by simplify_eq.
Qed.

Lemma expire_none now ctx i ctx' i' :
  expire_if_due now ctx i = (ctx', i', None) -> ctx' = ctx /\ i' = i.
Proof.
  unfold expire_if_due. cbv zeta. intros Hr.
  split_match_in Hr; [|by simplify_eq]. destruct p as [anchor periods].
  split_match_in Hr; [by simplify_eq|].
  destruct (expire_cleanup now ctx i) as [[? ?] ?].
  by repeat split_match_in Hr; simplify_eq.
Qed.

(** What an accepted validation has checked; it changes nothing. *)
Lemma validate_ok now ctx i ctx' i' b :
  validate now ctx i = (ctx', i', Ok b) ->
  ctx' = ctx /\ i' = i /\ has_valid_entry_conditions i = true /\ i_market_changed i = false /\
  exists asset q, ctx_universe ctx !! i_symbol i = Some asset /\ i_quantity i = Some q /\
    positive q = true /\ a_tradable asset = true /\ (i_side i = Sell -> a_shortable asset = true) /\
    is_some_and (fun m => q <. m) (a_min_order_size asset) = false /\
    is_some_and (fun m => m <. q) (a_max_order_size asset) = false.
Proof.
  intros Hr. unfold validate, has_expired in Hr. cbv zeta in Hr.
  destruct (ctx_universe ctx !! i_symbol i) as [asset|] eqn:Ha; [|done].
  split_match_in Hr; [done|]. split_match_in Hr; [done|]. split_match_in Hr; [done|].
  destruct (i_quantity i) as [q|] eqn:Hq; [|done].
  split_match_in Hr; [done|]. split_match_in Hr; [done|]. split_match_in Hr; [done|].
  destruct (expire_if_due now ctx i) as [[ctx1 i1] r1] eqn:He.
  destruct r1; [done|]. apply expire_none in He as [-> ->].
  do 3 (split_match_in Hr; [done|]). simplify_eq. break_bool.
  do 4 (split; [done|]). exists asset, q. repeat split; try done.
  - unfold positive. apply andb_true_iff. split; [done|].
    apply not_fle_flt; auto using is_finite_not_nan.
  - intros Hs. match goal with H : bool_decide _ && _ = false |- _ =>
      rewrite bool_decide_eq_true_2 in H by done; simpl in H; by break_bool end.
Qed.

Lemma submit_inv now ctx i ctx' i' r :
  submit now ctx i = (ctx', i', r) -> mutation_inv i -> mutation_inv i'.
Proof.
  unfold submit. intros Hr Hi.
  destruct (poll_mutation now ctx i KSubmit) as [[ctx1 i1] r1] eqn:Hp. inv_step.
  destruct r1; [by simplify_eq|].
  split_match_in Hr; [by simplify_eq|]. split_match_in Hr; [by simplify_eq|].
  destruct (validate now ctx1 i1) as [[ctx2 i2] v] eqn:Hv.
  pose proof (validate_inv _ _ _ _ _ _ Hv Hi0) as Hi2.
  destruct v; [|simplify_eq; auto with aqe].
  apply validate_ok in Hv as (_ & -> & _).
  eapply queue_inv; [eassumption|done|]. apply Hfree. by left.
Qed.

Lemma poll_terminal_inv now ctx i : mutation_inv i -> mutation_inv (poll_terminal_mutations now ctx i).2.
Proof.
  unfold poll_terminal_mutations. split_match; [done|].
  clear Heqb. generalize all_kinds as ks. intros ks. revert ctx i.
  induction ks as [|k ks IH]; intros ctx i Hi; [done|]. simpl.
  destruct (poll_mutation now ctx i k) as [[ctx1 i1] r] eqn:Hp. simpl.
  inv_step. auto.
Qed.

Lemma market_changed_inv now ctx i c b :
  mutation_inv i -> mutation_inv (update_market_changed now ctx i c b).2.
Proof.
  intros Hi. unfold update_market_changed. cbv zeta.
  match goal with |- context [close now ctx ?i1] => assert (Hi1 : mutation_inv i1) end.
  { eapply inv_update; [apply wf_update_state_typed|apply core_update_state_typed|].
    inv_field. }
  destruct b; [|done].
  assert (Hcancel : mutation_inv
            (let '(ctx1, i2, r) := cancel now ctx
               (update_state now (i <| i_market_changed := c |>)
                  (i_state (i <| i_market_changed := c |>)) (Some [Lit "Market changed"])) in
             match r with
             | Ok _ => (ctx1, i2)
             | Err e => (ctx1, state_log now i2
                 (Some ([Lit "Market-change cancellation pending: "] ++ error_text e)))
             end).2).
  { destruct (cancel _ _ _) as [[? ?] [|]] eqn:Hc; apply cancel_inv in Hc; simpl; auto with aqe. }
  split_match; try exact Hcancel.
  destruct (close _ _ _) as [[? ?] [|]] eqn:Hc; apply close_partial_inv in Hc; simpl; auto with aqe.
Qed.

Lemma run_mutation_inv now ctx i op :
  mutation_inv i -> mutation_inv (run_mutation now (ctx, i) op).2.
Proof.
  intros Hi. destruct op; simpl; try (by apply poll_terminal_inv); try (by apply market_changed_inv);
    match goal with |- mutation_inv (?m.1).2 => destruct m as [[ctx' i'] r] eqn:Hr end; simpl;
    try unfold close, close_partial, update_limit, update_stop_limit, poll_pending_submission in Hr;
    eauto using submit_inv, cancel_inv, cancel_by_id_inv, close_partial_inv, take_profit_inv,
      stop_loss_inv, entry_price_inv, replace_inv, expire_inv.
  destruct (poll_mutation now ctx i KSubmit) as [[? ?] ?] eqn:Hp. inv_step. by simplify_eq.
Qed.

(** Every operation on an insight, whatever its strategy context answers, keeps at most
    one broker command of each kind in flight and keeps the insight well formed. *)
Theorem mutation_inv_preserved now ctx i op :
  mutation_inv i -> mutation_inv (run_mutation now (ctx, i) op).2.
Proof.
  intros Hi. exact (run_mutation_inv now ctx i op Hi).
Qed.
End Invariant.
