(* ===== verification/Scripted.v ===== *)
(** * Scripted: concrete instances of the interfaces

    A strategy context that answers from a script, a UUID rendering and one
    asset, so that the theorems about every context can be evaluated on a
    concrete run. *)
From S2P Require Import Prelude.
From S2P Require Import Float64.
From S2P Require Import Text.
From S2P Require Import BrokerTypes.
From S2P Require Import TimeFrame.
From S2P Require Import InsightTypes.
From S2P Require Import Commands.
From S2P Require Import ExecutionData.
From S2P Require Import Insight.
From S2P Require Import InsightInvariant.
From S2P Require Import Operations.

(** A UUID printed as binary digits. *)
#[refine, export] Instance binary_uuid : UuidText := {
  uuid_to_string u := bits (N.succ_pos u);
  uuid_parse s := Some (Pos.pred_N (of_bits s))
}.
Proof. abstract (intros u; by rewrite of_bits_bits, N.pos_pred_succ). Defined.

Record ScriptedContext := mkScripted {
  sc_log : list (Uuid * BrokerCommandAction);
  sc_progress : list (string * BrokerCommandProgress);
  sc_time : DateTime;
  sc_universe : gmap string Asset;
  sc_features : list BrokerFeature
}.

(** The identity of a scripted receipt says whether it is an entry. *)
Definition scripted_id (a : BrokerCommandAction) : string :=
  if is_entry a then "entry" else "command".

Definition is_bare_ack (p : BrokerCommandProgress) : bool :=
  match p with
  | ProgressCompleted c => match cmp_outcome c with Acknowledged => true | _ => false end
  | _ => false
  end.

Definition scripted_progress (c : ScriptedContext) (r : BrokerCommandReceipt)
    : option BrokerCommandProgress :=
  match list_find (fun e => e.1 = rcpt_id r) (sc_progress c) with
  | Some (_, (_, p)) =>
      if String.eqb (rcpt_id r) "entry" && is_bare_ack p then None else Some p
  | None => None
  end.

#[export] Instance scripted_context : StrategyContext ScriptedContext := {
  enqueue_broker_command c id a g :=
    (mkScripted (sc_log c ++ [(id, a)]) (sc_progress c) (sc_time c) (sc_universe c)
       (sc_features c),
     Ok (mkReceipt (scripted_id a) (uuid_to_string id) g));
  broker_command_progress := scripted_progress;
  broker_command_reduced c _ := c;
  cancel_pending_entry c _ := (c, Ok ());
  ctx_current_time := sc_time;
  ctx_universe := sc_universe;
  ctx_broker_features := sc_features
}.

Definition no_fees : AssetFees :=
  mkAssetFees (mkAssetCommissionFees (mkAssetSideFees FeeNone FeeNone)
                 (mkAssetSideFees FeeNone FeeNone))
    (mkAssetSwapFees FeeNone FeeNone) FeeNone FeeNone.
Definition demo_asset : Asset := {|
  a_id := "btc"; a_symbol := "BTCUSD"; a_name := "Bitcoin"; a_asset_type := Crypto;
  a_status := AssetActive; a_exchange := NASDAQ; a_tradable := true; a_marginable := true;
  a_shortable := true; a_fractional := true; a_min_order_size := Some 0.5%float;
  a_quantity_base := None; a_max_order_size := Some 10%float; a_max_total_size := None;
  a_min_price_increment := Some 0.5%float; a_price_base := None; a_contract_size := None;
  a_trading_calendar := None; a_fees := no_fees
|}.

Definition demo_ctx : ScriptedContext :=
  mkScripted [] [] 0%Z {["BTCUSD"%string := demo_asset]} [].

(** A context in which the submission timed out at the transport. *)
Definition demo_timeout : ScriptedContext :=
  mkScripted [] [("entry"%string, ProgressCompleted
    (mkCompletion (mkReceipt "entry" "" None) 0 None 0 (Ambiguous "timeout")))] 0%Z
    {["BTCUSD"%string := demo_asset]} [].

Definition demo_new : Insight := set_quantity 1%Z demo_insight (Some 2%float).
Definition demo_filled : Insight :=
  position_filled 3%Z (order_accepted 2%Z demo_new "entry-a") 100%float 2%float "entry-a" None.

(** A buy of 2 at 100 of the demo asset, as the broker reports it. *)
Definition demo_order (status : TradeUpdateEvent) (qty filled : f64) : Order := {|
  o_order_id := "entry-a"; o_insight_id := None; o_strategy_type := None;
  o_asset := demo_asset; o_qty := qty; o_filled_qty := filled; o_limit_price := None;
  o_filled_price := Some 100%float; o_stop_price := None; o_side := Buy;
  o_order_type := Market; o_time_in_force := GTC; o_status := status;
  o_order_class := Simple; o_created_at := 0%Z; o_updated_at := 0%Z; o_submitted_at := 0%Z;
  o_filled_at := None; o_realized_pnl := None; o_position_accounting := None;
  o_commission := None; o_swap := None; o_rejection_reason := None; o_legs := None
|}.

Lemma demo_new_inv : mutation_inv demo_new.
Proof. split; [apply wf_set_quantity, wf_insight_new|constructor]. Qed.

Lemma mutation_inv_preserved_witness :
  mutation_inv (run_mutation 5%Z (demo_ctx, demo_new) MoSubmit).2.
Proof. apply (mutation_inv_preserved 5%Z demo_ctx demo_new MoSubmit). exact demo_new_inv. Defined.
