(* ===== verification/Submission.v ===== *)
(** * Submission: what reaches the broker

    The commands an insight queues: when a submission, a close or a
    cancellation is queued and with what payload, and that an insight is
    submitted at most once over any interleaving of its operations, of trade
    events and of the outside world.  Every operation is a sequence of the
    atomic actions of relation [atomic]. *)
From S2P Require Import Prelude.
From S2P Require Import Float64.
From S2P Require Import Text.
From S2P Require Import BrokerTypes.
From S2P Require Import TimeFrame.
From S2P Require Import InsightTypes.
From S2P Require Import Commands.
From S2P Require Import ExecutionData.
From S2P Require Import Insight.
From S2P Require Import InsightInvariant.
From S2P Require Import Operations.
From S2P Require Import Scripted.

Section Payload.
Context {C : Type} `{StrategyContext C} `{UuidText} `{Chrono}.

Lemma queue_pending now (ctx : C) i kind a e g ctx' i' r :
  queue_mutation now ctx i kind a e g = (ctx', i', Ok (Pending r)) ->
  enqueue_broker_command ctx (i_insight_id i) a g = (ctx', Ok r) /\
  i_pending_mutations i' = i_pending_mutations i ++ [mkPending kind r e] /\
  i_state i' = i_state i.
Proof.
  unfold queue_mutation. destruct (enqueue_broker_command _ _ _ _) as [ctx1 [rc|er]]; [|done].
  intros ?; simplify_eq. rewrite state_state_log. fields. repeat split.
  erewrite core_pending by apply core_state_log. by fields.
Qed.

Lemma poll_nothing now (ctx : C) i kind :
  has_pending kind i = false -> poll_mutation now ctx i kind = (ctx, i, None).
Proof.
  intros Hn. unfold poll_mutation.
  destruct (position_of kind (i_pending_mutations i)) as [idx|] eqn:Hpos; [|done].
  apply position_of_lookup in Hpos as (p & Hl & Hk). exfalso.
  rewrite <- not_true_iff_false in Hn. apply Hn. unfold has_pending. apply existsb_exists.
  exists p. split; [by eapply list_elem_of_In, list_elem_of_lookup_2|by apply bool_decide_eq_true].
Qed.

(** C38 A new close command is queued only for a filled position with a broker order, for a
    finite positive quantity within what is still open, and marks the insight as closing. *)
Theorem close_within_remainder now ctx i q p ctx' i' r :
  has_pending_close i = false ->
  try_close_partial now ctx i q p = (ctx', i', Ok (Pending r)) ->
  exists id, i_order_id i = Some id /\ i_state i = Filled /\ positive q = true /\
    (remaining_quantity i <. q) = false /\
    enqueue_broker_command ctx (i_insight_id i) (ActClose id q p) None = (ctx', Ok r) /\
    i_closing i' = true /\ has_pending_close i' = true.
Proof.
  intros Hn. unfold try_close_partial. rewrite (poll_nothing _ _ _ KClose) by done. intros Hr.
  do 2 (split_match_in Hr; [done|]). break_bool.
  destruct (i_order_id i) as [id|]; [|done]. exists id. split; [done|].
  destruct (queue_mutation _ _ _ _ _ _ _) as [[ctx1 i1] [r1|]] eqn:Hq; [|done]. simplify_eq.
  apply queue_pending in Hq as (He & Hpend & _). unfold has_pending_close, has_pending. fields.
  rewrite Hpend, existsb_app. cbn. rewrite orb_true_r.
  repeat split; try done.
  - match goal with Hs : bool_decide (i_state i <> Filled) = false |- _ =>
      apply bool_decide_eq_false in Hs; by apply dec_stable end.
  - unfold positive. apply andb_true_iff. split; [done|].
    apply not_fle_flt; auto using is_finite_not_nan.
Qed.

(** A submission is queued only for a new, ungated insight without a broker order, for a
    tradable (and for a short sale shortable) asset of the universe, a finite positive
    quantity within the asset's size limits and exit levels on the right side of the entry;
    the queued request carries exactly the insight's values. *)
Theorem submit_queues_valid_request now ctx i ctx' i' r :
  has_pending_submit i = false ->
  submit now ctx i = (ctx', i', Ok (Pending r)) ->
  i_state i = New /\ i_order_id i = None /\ i_cancelling i = false /\
  i_suppress_child_entries i = false /\ has_valid_entry_conditions i = true /\
  enqueue_broker_command ctx (i_insight_id i) (ActSubmit (order_request i)) None = (ctx', Ok r) /\
  exists asset q, ctx_universe ctx !! i_symbol i = Some asset /\ i_quantity i = Some q /\
    positive q = true /\ a_tradable asset = true /\ (i_side i = Sell -> a_shortable asset = true) /\
    is_some_and (fun m => q <. m) (a_min_order_size asset) = false /\
    is_some_and (fun m => m <. q) (a_max_order_size asset) = false.
Proof.
  intros Hn. unfold submit. rewrite (poll_nothing _ _ _ KSubmit) by done. intros Hr.
  do 2 (split_match_in Hr; [done|]). break_bool.
  destruct (validate now ctx i) as [[ctx1 i1] [b|]] eqn:Hv; [|done].
  apply validate_ok in Hv as (-> & -> & Hcond & _ & Hasset).
  apply queue_pending in Hr as (He & _). repeat split; try done.
  - match goal with Hs : bool_decide (i_state i <> New) = false |- _ =>
      apply bool_decide_eq_false in Hs; by apply dec_stable end.
  - by destruct (i_order_id i).
Qed.

(** C24 While a submission is unresolved (unknown, queued, or ambiguous after a transport
    failure) submitting again changes nothing and returns the same receipt: a timeout never
    manufactures a second order. *)
Theorem unresolved_submit_is_retained now ctx i p rest reason :
  i_pending_mutations i = p :: rest -> pm_kind p = KSubmit ->
  (broker_command_progress ctx (pm_receipt p) = None \/
   broker_command_progress ctx (pm_receipt p) = Some ProgressQueued \/
   exists c, broker_command_progress ctx (pm_receipt p) = Some (ProgressCompleted c) /\
     cmp_outcome c = Ambiguous reason) ->
  submit now ctx i = (ctx, i, Ok (Pending (pm_receipt p))).
Proof.
  intros Hp Hk Hprog. unfold submit, poll_mutation.
  assert (position_of KSubmit (i_pending_mutations i) = Some 0) as ->
    by (rewrite Hp; simpl; by rewrite decide_True).
  rewrite Hp. simpl. destruct Hprog as [->|[->|(c & -> & Hc)]]; [done|done|].
  rewrite Hc. unfold terminal_cleanup. by rewrite andb_false_r.
Qed.

(** Cancelling an insight with no cancellation in flight, when it is accepted, gates every
    later entry: the insight and its dormant children are suppressed, and submitting it again
    while it is new is refused without reaching the broker. *)
Theorem cancel_gates_entries now ctx i ctx' i' r :
  has_pending KCancel i = false ->
  cancel now ctx i = (ctx', i', Ok (Pending r)) ->
  i_suppress_child_entries i' = true /\ i_cancelling i' = true /\
  (forall now' ctx1, has_pending_submit i' = false -> i_submitted i' = false ->
     i_order_id i' = None -> i_state i' = New ->
     submit now' ctx1 i' = (ctx1, i', Err (invalid "Entry is gated for cancellation/cleanup"))).
Proof.
  intros Hn Hr.
  assert (Hflags : i_suppress_child_entries i' = true /\ i_cancelling i' = true).
  { assert (Hco : forall c j, has_pending KCancel j = false ->
        cancel_order now c j = (ctx', i', Ok (Pending r)) ->
        i_suppress_child_entries i' = true /\ i_cancelling i' = true).
    { intros c j Hj. unfold cancel_order. rewrite (poll_nothing _ _ _ KCancel) by done.
      intros Hc. split_match_in Hc; [done|]. destruct (i_order_id j); [|done].
      destruct (queue_mutation _ _ _ _ _ _ _) as [[? ?] [|]]; [|done]. simplify_eq. by fields. }
    unfold cancel in Hr. destruct (poll_mutation now ctx i KSubmit) as [[ctx1 i1] r1] eqn:Hp.
    assert (Hn1 : has_pending KCancel i1 = false).
    { apply poll_mutation_polled in Hp. destruct Hp as [| |idx p i1 rr Hpos Hl Hk Hc]; try done.
      unfold has_pending in *. rewrite (core_pending _ _ Hc). unfold remove_pending. fields.
      rewrite delete_take_drop, existsb_app.
      rewrite <- (take_drop_middle _ _ _ Hl), existsb_app in Hn. simpl in Hn. break_bool.
      by apply orb_false_iff. }
    destruct r1 as [[[|rc]|e]|]; [| | |]; try done.
    - by apply (Hco ctx1 (i1 <| i_cancelling := false |>)).
    - destruct (cancel_pending_entry ctx1 rc) as [ctx2 [|]]; [|done]. simplify_eq. by fields.
    - by apply (Hco ctx1 i1). }
  destruct Hflags as [Hs Hc]. repeat split; try done.
  intros now' ctx1 Hps Hsub Hid Hst. unfold submit. rewrite (poll_nothing _ _ _ KSubmit) by done.
  rewrite Hsub, Hid, Hst, Hs, Hc. simpl. done.
Qed.
End Payload.

(** ** Operations as sequences of atomic actions *)

(** A context that records what it admits: admission appends to the log and
    nothing else does; a submission's receipt is never completed by a bare
    acknowledgement (the worker answers a submission with an order, a refusal
    or an ambiguous outcome). *)
Class RecordingContext (C : Type) `{StrategyContext C} := {
  ctx_log : C -> list (Uuid * BrokerCommandAction);
  entry_receipt : BrokerCommandReceipt -> Prop;
  log_enqueue ctx id a g ctx' r :
    enqueue_broker_command ctx id a g = (ctx', r) ->
    ctx_log ctx' = ctx_log ctx ++ (if is_ok r then [(id, a)] else []);
  log_reduced ctx r : ctx_log (broker_command_reduced ctx r) = ctx_log ctx;
  log_cancel_pending ctx r : ctx_log (cancel_pending_entry ctx r).1 = ctx_log ctx;
  enqueue_entry_receipt ctx id rq g ctx' r :
    enqueue_broker_command ctx id (ActSubmit rq) g = (ctx', Ok r) -> entry_receipt r;
  entry_never_acked ctx r c :
    entry_receipt r -> broker_command_progress ctx r = Some (ProgressCompleted c) ->
    cmp_outcome c <> Acknowledged
}.

Section Once.
Context {C : Type} `{RecordingContext C} `{UuidText} `{Chrono}.

(** The submissions of insight [id] a context has admitted. *)
Definition submissions (id : Uuid) (ctx : C) : nat :=
  length (filter (fun e => e.1 = id /\ is_entry e.2 = true) (ctx_log ctx)).

Lemma submissions_log id c c' : ctx_log c' = ctx_log c -> submissions id c' = submissions id c.
Proof. unfold submissions. by intros ->. Qed.

Lemma submissions_other id c c' id' a b :
  ctx_log c' = ctx_log c ++ (if b : bool then [(id', a)] else []) -> is_entry a = false ->
  submissions id c' = submissions id c.
Proof.
  unfold submissions. intros -> Ha. destruct b; [|by rewrite app_nil_r].
  rewrite filter_app, filter_cons_False; [by rewrite filter_nil, app_nil_r|].
  simpl. rewrite Ha. by intros [].
Qed.

(** What the argument follows of an insight. *)
Definition entry_view (i : Insight) :=
  (i_insight_id i, i_pending_mutations i, i_order_id i, i_execution_data i, i_children i).

Lemma core_entry i j : core_view i = core_view j -> entry_view i = entry_view j.
Proof. unfold core_view, entry_view. intros [=]. congruence. Qed.

(** The steps operations are made of; a submission is one of them only if it [enters]. *)
Section Steps.
Context {enters : bool}.

Inductive atomic : C * Insight -> C * Insight -> Prop :=
| at_local ctx i i' :
    entry_view i' = entry_view i -> (i_state i <> New -> i_state i' <> New) ->
    atomic (ctx, i) (ctx, i')
| at_poll now kind ctx i ctx' i' r :
    poll_mutation now ctx i kind = (ctx', i', r) -> atomic (ctx, i) (ctx', i')
| at_queue now kind a e g ctx i ctx' i' r :
    kind <> KSubmit -> is_entry a = false ->
    queue_mutation now ctx i kind a e g = (ctx', i', r) -> atomic (ctx, i) (ctx', i')
| at_gate ctx i rc : atomic (ctx, i) ((cancel_pending_entry ctx rc).1, i)
| at_submit now ctx i ctx' i' r :
    enters = true -> KSubmit ∉ pending_kinds i -> i_order_id i = None -> i_state i = New ->
    queue_mutation now ctx i KSubmit (ActSubmit (order_request i)) EffSubmit None =
      (ctx', i', r) ->
    atomic (ctx, i) (ctx', i').

Abbreviation steps := (rtc atomic).

Lemma local_steps ctx i i' :
  core_view i' = core_view i -> (i_state i <> New -> i_state i' <> New) ->
  steps (ctx, i) (ctx, i').
Proof. intros. apply rtc_once. constructor; [by apply core_entry|done]. Qed.

Lemma log_steps now ctx i m : steps (ctx, i) (ctx, state_log now i m).
Proof. apply local_steps; [apply core_state_log|by rewrite state_state_log]. Qed.

Lemma flag_steps ctx i i' :
  entry_view i' = entry_view i -> i_state i' = i_state i -> steps (ctx, i) (ctx, i').
Proof. intros He Hs. apply rtc_once. constructor; [done|by rewrite Hs]. Qed.

Lemma poll_steps now kind ctx i ctx' i' r :
  poll_mutation now ctx i kind = (ctx', i', r) -> steps (ctx, i) (ctx', i').
Proof. intros. eapply rtc_once, at_poll; eauto. Qed.

Lemma queue_steps now kind a e g ctx i ctx' i' r :
  queue_mutation now ctx i kind a e g = (ctx', i', r) ->
  kind <> KSubmit -> is_entry a = false -> steps (ctx, i) (ctx', i').
Proof. intros. eapply rtc_once, at_queue; eauto. Qed.

(** Replay a computation whose calls are named by equations. *)
Ltac replay :=
  repeat match goal with
  | Hp : poll_mutation _ ?c ?i _ = _ |- steps (?c, ?i) _ =>
      etrans; [exact (poll_steps _ _ _ _ _ _ _ Hp)|]; clear Hp
  | Hq : queue_mutation _ ?c ?i _ _ _ _ = _ |- steps (?c, ?i) _ =>
      etrans; [by eapply (queue_steps _ _ _ _ _ _ _ _ _ _ Hq)|]; clear Hq
  | |- steps ?x ?x => apply rtc_refl
  end.
Ltac run_replay H := repeat (split_match_in H; simplify_eq); simplify_eq; replay;
  try (by apply flag_steps).

Lemma cancel_order_steps now ctx i ctx' i' r :
  cancel_order now ctx i = (ctx', i', r) -> steps (ctx, i) (ctx', i').
Proof. unfold cancel_order. intros Hr. run_replay Hr. Qed.

Lemma cancel_steps now ctx i ctx' i' r :
  cancel now ctx i = (ctx', i', r) -> steps (ctx, i) (ctx', i').
Proof.
  unfold cancel. intros Hr.
  destruct (poll_mutation now ctx i KSubmit) as [[ctx1 i1] r1] eqn:Hp. replay.
  destruct r1 as [[[|rc]|]|]; [| | |].
  - etrans; [|by eapply cancel_order_steps]. by apply flag_steps.
  - pose proof (at_gate ctx1 i1 rc) as Hg.
    destruct (cancel_pending_entry ctx1 rc) as [ctx2 [|]]; simplify_eq; simpl in Hg;
      (eapply rtc_l; [exact Hg|]); [by apply flag_steps|done].
  - by simplify_eq.
  - by eapply cancel_order_steps.
Qed.

Lemma cancel_by_id_steps now ctx i id ctx' i' r :
  cancel_order_by_id now ctx i id = (ctx', i', r) -> steps (ctx, i) (ctx', i').
Proof. unfold cancel_order_by_id. intros Hr. run_replay Hr. Qed.

Lemma close_steps now ctx i q p ctx' i' r :
  try_close_partial now ctx i q p = (ctx', i', r) -> steps (ctx, i) (ctx', i').
Proof. unfold try_close_partial. intros Hr. run_replay Hr. Qed.

Lemma setter_steps ctx i j :
  core_view j = core_view i -> i_state j = i_state i -> steps (ctx, i) (ctx, j).
Proof. intros Hc Hs. apply local_steps; [done|by rewrite Hs]. Qed.

Lemma take_profit_steps now ctx i l g ctx' i' r :
  update_take_profit_in_group now ctx i l g = (ctx', i', r) -> steps (ctx, i) (ctx', i').
Proof.
  unfold update_take_profit_in_group. intros Hr.
  run_replay Hr; auto using setter_steps, core_set_take_profit, state_set_take_profit.
Qed.

Lemma stop_loss_steps now ctx i l ctx' i' r :
  update_stop_loss now ctx i l = (ctx', i', r) -> steps (ctx, i) (ctx', i').
Proof.
  unfold update_stop_loss. intros Hr.
  run_replay Hr; auto using setter_steps, core_set_stop_loss, state_set_stop_loss.
Qed.

Lemma amend_entry_steps now ctx i p st ctx' i' r :
  amend_entry now ctx i p st = (ctx', i', r) -> steps (ctx, i) (ctx', i').
Proof.
  unfold amend_entry. intros Hr. run_replay Hr;
    try (destruct st; auto using setter_steps, core_set_stop_price, state_set_stop_price,
      core_set_limit_price, state_set_limit_price).
Qed.

Lemma entry_price_steps now ctx i p st ctx' i' r :
  update_entry_price now ctx i p st = (ctx', i', r) -> steps (ctx, i) (ctx', i').
Proof.
  unfold update_entry_price. intros Hr.
  assert (Hafter : forall c j, amend_after_submission now c j p st = (ctx', i', r) ->
            steps (c, j) (ctx', i')).
  { intros c j. unfold amend_after_submission, poll_pending_submission. intros Ha.
    split_match_in Ha; [|by eapply amend_entry_steps].
    destruct (poll_mutation now c j KSubmit) as [[c1 j1] r1] eqn:Hp. replay.
    destruct (unwrap_or r1 (Ok Applied)) as [[|]|]; simplify_eq; [|done|done].
    by eapply amend_entry_steps. }
  run_replay Hr; auto using log_steps.
Qed.

Lemma replace_steps now ctx i p q ctx' i' r :
  replace_pending_order now ctx i p q = (ctx', i', r) -> steps (ctx, i) (ctx', i').
Proof. unfold replace_pending_order. intros Hr. run_replay Hr. Qed.

Lemma rejected_steps now ctx i m : steps (ctx, i) (ctx, order_rejected now i m).
Proof.
  apply local_steps; [apply core_order_rejected|].
  unfold order_rejected, update_state. rewrite update_state_typed_form. fields.
  unfold us_state. by destruct (refused i Rejected).
Qed.

Lemma expire_steps now ctx i ctx' i' r :
  expire_if_due now ctx i = (ctx', i', r) -> steps (ctx, i) (ctx', i').
Proof.
  unfold expire_if_due. cbv zeta. intros Hr.
  split_match_in Hr; [|by simplify_eq]. destruct p as [anchor periods].
  split_match_in Hr; [by simplify_eq|].
  destruct (expire_cleanup now ctx i) as [[ctx1 i1] r1] eqn:Hm.
  assert (Hgo : steps (ctx, i) (ctx1, i1)).
  { unfold expire_cleanup in Hm.
    repeat split_match_in Hm; simplify_eq; eauto using cancel_steps, rejected_steps.
    unfold close in Hm. eauto using close_steps. }
  simplify_eq. etrans; [exact Hgo|].
  assert (Hlog : forall (b : bool) j m, steps (ctx', j) (ctx', if b then state_log now j m else j)).
  { intros [] j m; [apply log_steps|done]. }
  etrans; [apply Hlog|]. apply Hlog.
Qed.

Lemma validate_steps now ctx i ctx' i' r :
  validate now ctx i = (ctx', i', r) -> steps (ctx, i) (ctx', i').
Proof.
  unfold validate, has_expired. cbv zeta. intros Hr.
  destruct (expire_if_due now ctx i) as [[ctx1 i1] r1] eqn:He. apply expire_steps in He.
  repeat split_match_in Hr; by simplify_eq.
Qed.

Lemma submit_steps now ctx i ctx' i' r :
  submit now ctx i = (ctx', i', r) -> enters = true \/ (KSubmit ∈ pending_kinds i) -> steps (ctx, i) (ctx', i').
Proof.
  unfold submit. intros Hr Hen.
  destruct (poll_mutation now ctx i KSubmit) as [[ctx1 i1] r1] eqn:Hp.
  assert (Hfree : r1 = None -> (KSubmit ∉ pending_kinds i1) /\ enters = true).
  { apply poll_mutation_polled in Hp. destruct Hp; try done. by destruct Hen. }
  replay. destruct r1; [by simplify_eq|]. destruct (Hfree eq_refl) as [Hn Het].
  split_match_in Hr; [by simplify_eq|]. split_match_in Hr; [by simplify_eq|]. break_bool.
  destruct (validate now ctx1 i1) as [[ctx2 i2] [b|e]] eqn:Hv.
  - apply validate_ok in Hv as (-> & -> & _). eapply rtc_once, at_submit; eauto.
    + by destruct (i_order_id i1).
    + match goal with Hs : bool_decide (i_state i1 <> New) = false |- _ =>
        apply bool_decide_eq_false in Hs; by apply dec_stable end.
  - simplify_eq. etrans; [by eapply validate_steps|]. apply rejected_steps.
Qed.

Lemma poll_terminal_steps now ctx i : steps (ctx, i) (poll_terminal_mutations now ctx i).
Proof.
  unfold poll_terminal_mutations. split_match; [done|]. clear Heqb.
  generalize all_kinds as ks. intros ks. revert ctx i.
  induction ks as [|k ks IH]; intros ctx i; [done|]. simpl.
  destruct (poll_mutation now ctx i k) as [[ctx1 i1] r] eqn:Hp. simpl.
  etrans; [by eapply poll_steps|]. apply IH.
Qed.

Lemma market_changed_steps now ctx i c b : steps (ctx, i) (update_market_changed now ctx i c b).
Proof.
  unfold update_market_changed. cbv zeta.
  set (j := update_state _ _ _ _).
  assert (Hj : steps (ctx, i) (ctx, j)).
  { apply local_steps.
    - unfold j, update_state. rewrite core_update_state_typed. reflexivity.
    - unfold j, update_state. rewrite state_update_same. by fields. }
  etrans; [exact Hj|]. clearbody j.
  destruct b; [|done].
  destruct (close now ctx j) as [[c1 j1] r1] eqn:Hc. apply close_steps in Hc.
  destruct (cancel now ctx j) as [[c2 j2] r2] eqn:Hc2. apply cancel_steps in Hc2.
  destruct (i_state j), r1, r2; try done;
    first [etrans; [exact Hc|apply log_steps] | etrans; [exact Hc2|apply log_steps]].
Qed.

Lemma run_mutation_steps now ctx i op :
  enters = true -> steps (ctx, i) (run_mutation now (ctx, i) op).
Proof.
  intros Hen. destruct op; cbn [run_mutation]; try exact (poll_terminal_steps now ctx i);
    try exact (market_changed_steps now ctx i _ _);
    match goal with |- steps _ (?m.1) => destruct m as [[ctx' i'] r] eqn:Hr end; cbn [fst].
  - exact (submit_steps _ _ _ _ _ _ Hr (or_introl Hen)).
  - exact (cancel_steps _ _ _ _ _ _ Hr).
  - exact (cancel_by_id_steps _ _ _ _ _ _ _ Hr).
  - exact (close_steps _ _ _ _ _ _ _ _ Hr).
  - exact (close_steps _ _ _ _ _ _ _ _ Hr).
  - exact (take_profit_steps _ _ _ _ _ _ _ _ Hr).
  - exact (stop_loss_steps _ _ _ _ _ _ _ Hr).
  - exact (entry_price_steps _ _ _ _ _ _ _ _ Hr).
  - exact (entry_price_steps _ _ _ _ _ _ _ _ Hr).
  - exact (replace_steps _ _ _ _ _ _ _ _ Hr).
  - exact (expire_steps _ _ _ _ _ _ Hr).
  - unfold poll_pending_submission in Hr.
    destruct (poll_mutation now ctx i KSubmit) as [[? ?] ?] eqn:Hp. simplify_eq. replay.
Qed.

(** ** What the steps leave alone *)
Lemma queue_frame now (ctx : C) i kind a e g ctx' i' r :
  queue_mutation now ctx i kind a e g = (ctx', i', r) ->
  ctx' = (enqueue_broker_command ctx (i_insight_id i) a g).1 /\
  (i_insight_id i', i_execution_data i', i_children i') = (i_insight_id i, i_execution_data i, i_children i).
Proof.
  unfold queue_mutation. destruct (enqueue_broker_command _ _ _ _) as [ctx1 [rc|er]]; intros ?; simplify_eq; [|done].
  split; [done|]. set (j := i <| i_pending_mutations := _ |>).
  pose proof (core_state_log now j (Some [Lit "Broker command queued: "; Lit (rcpt_id rc)])) as [=]. congruence.
Qed.
Lemma poll_frame now (ctx : C) i kind ctx' i' r :
  poll_mutation now ctx i kind = (ctx', i', r) ->
  (ctx' = ctx \/ exists rc, ctx' = broker_command_reduced ctx rc) /\
  (i_insight_id i', i_execution_data i', i_children i') = (i_insight_id i, i_execution_data i, i_children i).
Proof.
  intros Hp%poll_mutation_polled. destruct Hp as [|p r Hin Hk Hr|idx p i' r Hpos Hl Hk Hc Hs Hw Hr Hres];
    [by auto|by auto|]. split; [eauto|]. injection Hc. unfold remove_pending. congruence.
Qed.

(** An operation keeps the identity of the insight, its execution data and its children. *)
Definition fixed_view (i : Insight) := (i_insight_id i, i_execution_data i, i_children i).
Lemma atomic_fixed s s' : atomic s s' -> fixed_view s'.2 = fixed_view s.2.
Proof.
  unfold fixed_view. intros Hst.
  destruct Hst as [ctx i i' He|now kind ctx i ctx' i' r Hp|now kind a e g ctx i ctx' i' r _ _ Hq
    |ctx i rc|now ctx i ctx' i' r _ _ _ _ Hq]; cbn.
  - unfold entry_view in He. congruence.
  - apply (poll_frame _ _ _ _ _ _ _ Hp).
  - apply (queue_frame _ _ _ _ _ _ _ _ _ _ Hq).
  - done.
  - apply (queue_frame _ _ _ _ _ _ _ _ _ _ Hq).
Qed.
Lemma steps_fixed s s' : steps s s' -> fixed_view s'.2 = fixed_view s.2.
Proof. induction 1 as [s|s1 s2 s3 Hst _ IH]; [done|]. etrans; [exact IH|by apply atomic_fixed]. Qed.

(** It changes the strategy by its three calls only, and queues commands of its insight. *)
Lemma steps_context (R : relation C) `{!PreOrder R} id s s' :
  (forall c a g, (is_entry a = true -> enters = true) -> R c (enqueue_broker_command c id a g).1) ->
  (forall c rc, R c (broker_command_reduced c rc)) ->
  (forall c rc, R c (cancel_pending_entry c rc).1) ->
  steps s s' -> i_insight_id s.2 = id -> R s.1 s'.1.
Proof.
  intros He Hr Hc. induction 1 as [s|s1 s2 s3 Hst _ IH]; [done|]. intros Hid.
  etrans; [|apply IH; pose proof (atomic_fixed _ _ Hst) as [=]; congruence]. clear IH.
  destruct Hst as [ctx i i'|now kind ctx i ctx' i' r Hp|now kind a e g ctx i ctx' i' r _ Ha Hq
    |ctx i rc|now ctx i ctx' i' r Hen _ _ _ Hq]; cbn in *; [done| | |done|].
  - by destruct (poll_frame _ _ _ _ _ _ _ Hp) as [[->|[rc ->]] _].
  - destruct (queue_frame _ _ _ _ _ _ _ _ _ _ Hq) as [-> _]. rewrite Hid. apply He. congruence.
  - destruct (queue_frame _ _ _ _ _ _ _ _ _ _ Hq) as [-> _]. rewrite Hid. by apply He.
Qed.

End Steps.
Abbreviation steps := (rtc (atomic (enters := true))).

(** ** At most one submission *)

(** An insight whose submission was admitted either still holds its receipt,
    or has its broker order, or is no longer new. *)
Definition entered (i : Insight) : Prop :=
  KSubmit ∈ pending_kinds i \/ is_Some (i_order_id i) \/ i_state i <> New.

Record once_inv (id : Uuid) (s : C * Insight) : Prop := {
  once_id : i_insight_id s.2 = id;
  once_receipts p : p ∈ i_pending_mutations s.2 -> pm_kind p = KSubmit ->
    entry_receipt (pm_receipt p);
  once_count : submissions id s.1 = 0 \/ submissions id s.1 = 1 /\ entered s.2
}.

Lemma once_change id c i c' i' :
  i_insight_id i' = i_insight_id i -> submissions id c' = submissions id c ->
  (forall p, p ∈ i_pending_mutations i' -> pm_kind p = KSubmit -> p ∈ i_pending_mutations i) ->
  (entered i -> entered i') -> once_inv id (c, i) -> once_inv id (c', i').
Proof.
  intros Hid Hsub Hp He [Hi Hr Hc]. simpl in *. split; simpl.
  - by rewrite Hid.
  - intros p Hin Hk. eauto.
  - rewrite Hsub. naive_solver.
Qed.

Lemma core_ids i j :
  core_view i = core_view j -> i_insight_id i = i_insight_id j /\ i_order_id i = i_order_id j.
Proof. unfold core_view. intros [=]. done. Qed.

Lemma poll_once id now kind ctx i ctx' i' r :
  poll_mutation now ctx i kind = (ctx', i', r) -> once_inv id (ctx, i) -> once_inv id (ctx', i').
Proof.
  intros Hp%poll_mutation_polled Ho.
  destruct Hp as [|p r Hin Hk Hr|idx p i' r Hpos Hl Hk Hc Hs Hw Hr Hres]; [done|done|].
  destruct (core_ids _ _ Hc) as [Hid Hoid]. apply core_pending in Hc.
  unfold remove_pending in *. fields_in Hid. fields_in Hoid. fields_in Hc.
  apply (once_change id ctx i); try done.
  - apply submissions_log, log_reduced.
  - intros q Hq _. rewrite Hc in Hq. rewrite (delete_Permutation _ _ _ Hl). by right.
  - intros He. destruct (decide (kind = KSubmit)) as [Hks|Hks].
    + destruct (Hres Hks) as [(c & Hprog & Hack)|[Hsome|Hnew]].
      * exfalso. eapply entry_never_acked; [|exact Hprog|exact Hack].
        eapply (once_receipts _ _ Ho); [by eapply list_elem_of_lookup_2|by rewrite Hk].
      * right; left. by rewrite Hoid.
      * by right; right.
    + destruct Hs as [Hs|[? _]]; [|done]. destruct He as [Hin|[Hsome|Hnew]].
      * left. unfold pending_kinds in *. rewrite Hc.
        apply list_elem_of_fmap in Hin as (q & Hqk & Hq).
        apply list_elem_of_fmap. exists q. split; [done|].
        pose proof (delete_Permutation _ _ _ Hl) as Hperm. rewrite Hperm in Hq.
        apply elem_of_cons in Hq as [->|Hq]; [congruence|done].
      * right; left. by rewrite Hoid.
      * right; right. by rewrite Hs.
Qed.

Lemma queue_result now (ctx : C) i kind a e g ctx' i' r :
  queue_mutation now ctx i kind a e g = (ctx', i', r) ->
  exists er, enqueue_broker_command ctx (i_insight_id i) a g = (ctx', er) /\
    match er with
    | Ok rc => i_pending_mutations i' = i_pending_mutations i ++ [mkPending kind rc e] /\
        i_insight_id i' = i_insight_id i /\ i_order_id i' = i_order_id i /\ i_state i' = i_state i
    | Err _ => i' = i
    end.
Proof.
  unfold queue_mutation. destruct (enqueue_broker_command _ _ _ _) as [ctx1 [rc|er]].
  - intros ?; simplify_eq. exists (Ok rc). split; [done|].
    pose proof (core_state_log now
      (i <| i_pending_mutations := i_pending_mutations i ++ [mkPending kind rc e] |>)
      (Some [Lit "Broker command queued: "; Lit (rcpt_id rc)])) as Hc.
    destruct (core_ids _ _ Hc) as [-> ->]. rewrite (core_pending _ _ Hc), state_state_log.
    by fields.
  - intros ?; simplify_eq. by exists (Err er).
Qed.

Lemma atomic_once {enters} id s s' : atomic (enters := enters) s s' -> once_inv id s -> once_inv id s'.
Proof.
  destruct 1 as [ctx i i' He Hs|now kind ctx i ctx' i' r Hp|now kind a e g ctx i ctx' i' r Hk Ha Hq
    |ctx i rc|now ctx i ctx' i' r _ Hn Hoid Hst Hq]; intros Ho.
  - unfold entry_view in He. injection He as Hid Hpend Hoid _ _.
    apply (once_change id ctx i); try done.
    + intros p. by rewrite Hpend.
    + unfold entered, pending_kinds. rewrite Hpend, Hoid. naive_solver.
  - by eapply poll_once.
  - destruct (queue_result _ _ _ _ _ _ _ _ _ _ Hq) as (er & Hen & Hcase).
    pose proof (submissions_other id _ _ _ _ _ (log_enqueue _ _ _ _ _ _ Hen) Ha) as Hsub.
    destruct er as [rc|er]; [|subst i'; by apply (once_change id ctx i)].
    destruct Hcase as (Hpend & Hid & Hoid & Hst). apply (once_change id ctx i); try done.
    + intros p Hin Hpk. rewrite Hpend in Hin.
      apply elem_of_app in Hin as [?|Hx%list_elem_of_singleton]; [done|].
      by rewrite Hx in Hpk.
    + unfold entered, pending_kinds. rewrite Hpend, Hoid, Hst, fmap_app, elem_of_app. tauto.
  - apply (once_change id ctx i); try done. apply submissions_log, log_cancel_pending.
  - destruct (queue_result _ _ _ _ _ _ _ _ _ _ Hq) as (er & Hen & Hcase).
    pose proof (log_enqueue _ _ _ _ _ _ Hen) as Hlog.
    destruct Ho as [Hid Hrec Hcnt]; simpl in *.
    assert (H0' : submissions id ctx = 0).
    { destruct Hcnt as [|[_ Hent]]; [done|]. exfalso. destruct Hent as [?|[Hsome|?]]; try done.
      rewrite Hoid in Hsome. by destruct Hsome. }
    destruct er as [rc|er].
    + destruct Hcase as (Hpend & Hid' & _ & _). split; simpl.
      * by rewrite Hid'.
      * intros p Hin Hpk. rewrite Hpend in Hin.
        apply elem_of_app in Hin as [?|Hx%list_elem_of_singleton]; [eauto|]. rewrite Hx.
        by eapply enqueue_entry_receipt.
      * right. split.
        -- unfold submissions in *. rewrite Hlog, filter_app, length_app, H0'. simpl.
           by rewrite filter_cons_True.
        -- left. unfold pending_kinds. rewrite Hpend, fmap_app, elem_of_app.
           right. by apply list_elem_of_singleton.
    + subst i'. split; simpl; [done|done|]. left. rewrite <- H0'. apply submissions_log.
      by rewrite Hlog, app_nil_r.
Qed.

Lemma steps_once id s s' : steps s s' -> once_inv id s -> once_inv id s'.
Proof. induction 1; eauto using atomic_once. Qed.

(** Trade events and configuration never touch the receipts, never forget the
    broker order and never make an insight new again. *)
Record entry_kept (i j : Insight) : Prop := {
  kept_id : i_insight_id j = i_insight_id i;
  kept_pending : i_pending_mutations j = i_pending_mutations i;
  kept_order : is_Some (i_order_id i) -> is_Some (i_order_id j);
  kept_state : i_state i <> New -> i_state j <> New
}.

Lemma kept_refl i : entry_kept i i.
Proof. by split. Qed.

Lemma kept_trans i j k : entry_kept i j -> entry_kept j k -> entry_kept i k.
Proof. intros [? ? ? ?] [? ? ? ?]. split; [congruence|congruence|auto|auto]. Qed.

Lemma kept_same i j :
  i_insight_id j = i_insight_id i -> i_pending_mutations j = i_pending_mutations i ->
  (i_order_id j = i_order_id i \/ is_Some (i_order_id j)) -> i_state j = i_state i -> entry_kept i j.
Proof.
  intros Hi Hp Ho Hs. split; [done|done| |by rewrite Hs].
  destruct Ho as [->|]; done.
Qed.

Lemma kept_update_state now i s m k :
  s <> New \/ s = i_state i -> entry_kept i (update_state_typed now i s m k).
Proof.
  intros Hs. rewrite update_state_typed_form. split; fields; try done.
  unfold us_state. intros Hn. destruct (refused i s); [done|]. destruct Hs as [|Hs]; [done|].
  by rewrite Hs.
Qed.

Lemma kept_core i j : core_view j = core_view i -> i_state j = i_state i -> entry_kept i j.
Proof.
  intros Hc Hs. destruct (core_ids _ _ Hc) as [? ?]. apply kept_same; auto. by apply core_pending.
Qed.

Lemma kept_first_on_fill now i b : entry_kept i (set_first_on_fill now i b).
Proof.
  unfold set_first_on_fill, update_state. split_match; [apply kept_refl|]. cbv zeta.
  eapply kept_trans; [|apply kept_update_state; by right]. apply kept_same; auto.
Qed.

(** Peel the final state change and the field updates below it. *)
Ltac solve_kept :=
  cbv zeta; unfold update_state; repeat split_match;
  repeat lazymatch goal with
    | |- entry_kept _ (update_state_typed _ ?j _ _ _) =>
        apply (kept_trans _ j); [|apply kept_update_state; first [by left|by right]]
    | |- entry_kept _ (set_first_on_fill _ ?j _) =>
        apply (kept_trans _ j); [|apply kept_first_on_fill]
    | |- entry_kept _ (set_field _ _ ?j) =>
        apply (kept_trans _ j);
          [|apply kept_same; fields; first [reflexivity|left; reflexivity|right; eexists; reflexivity]]
    | |- entry_kept ?x ?y => constr_eq x y; exact (kept_refl x)
    end.

Lemma run_op_kept now i op : entry_kept i (run_op now i op).
Proof.
  destruct op; cbn [run_op].
  - unfold order_accepted. solve_kept.
  - unfold position_filled. solve_kept.
  - unfold partial_filled. solve_kept.
  - unfold partial_closed. solve_kept.
  - unfold position_closed. solve_kept.
  - unfold order_rejected. solve_kept.
  - unfold order_cancelled. solve_kept.
  - apply kept_core; [apply core_set_quantity|apply state_set_quantity].
  - apply kept_core; [apply core_set_limit_price|apply state_set_limit_price].
  - apply kept_core; [apply core_set_stop_price|apply state_set_stop_price].
  - apply kept_core; [apply core_set_take_profit|apply state_set_take_profit].
  - apply kept_core; [apply core_set_take_profit|apply state_set_take_profit].
  - apply kept_core; [apply core_set_stop_loss|apply state_set_stop_loss].
  - apply kept_core; [apply core_set_stop_loss|apply state_set_stop_loss].
  - apply kept_core; [apply core_set_stop_loss|apply state_set_stop_loss].
  - apply kept_core; [apply core_set_trailing|apply state_set_trailing].
  - unfold set_parent_id. solve_kept.
  - unfold set_side. solve_kept.
  - unfold set_period_unfilled. solve_kept.
  - unfold set_period_till_tp. solve_kept.
  - unfold set_execution_depends. solve_kept.
  - apply kept_first_on_fill.
  - apply kept_core; [apply core_state_log|apply state_state_log].
  - unfold state_log_typed. solve_kept.
  - unfold align_time_to. solve_kept.
  - unfold add_child_insight. solve_kept.
  - unfold observe_position_accounting. repeat split_match; cbn [fst]; solve_kept.
Qed.

Lemma kept_once id ctx i j : entry_kept i j -> once_inv id (ctx, i) -> once_inv id (ctx, j).
Proof.
  intros [Hid Hp Ho Hs]. apply once_change; try done.
  - intros p. by rewrite Hp.
  - unfold entered, pending_kinds. rewrite Hp. naive_solver.
Qed.

(** One step of the system: an operation of the insight, a trade event or
    configuration call, or anything else that happens in the context (progress
    arriving, other insights' commands) and submits nothing for this insight. *)
Inductive system_step (id : Uuid) : C * Insight -> C * Insight -> Prop :=
| sys_mutation now op s : system_step id s (run_mutation now s op)
| sys_event now op s : system_step id s (s.1, run_op now s.2 op)
| sys_environment ctx ctx' i :
    submissions id ctx' = submissions id ctx -> system_step id (ctx, i) (ctx', i).

Lemma system_step_inv id s s' :
  system_step id s s' -> mutation_inv s.2 /\ once_inv id s -> mutation_inv s'.2 /\ once_inv id s'.
Proof.
  destruct 1 as [now op [ctx i]|now op [ctx i]|ctx ctx' i Hsub]; intros [Hm Ho]; cbn [fst snd] in *.
  - split; [by apply run_mutation_inv|]. eapply steps_once; [|exact Ho].
    by apply run_mutation_steps.
  - split; [|by apply (kept_once _ _ _ _ (run_op_kept now i op))].
    destruct Hm as [Hw Hu]. split; [by apply wf_run_op|]. simpl. unfold pending_kinds.
    by rewrite (kept_pending _ _ (run_op_kept now i op)).
  - split; [done|]. by apply (once_change id ctx i).
Qed.

End Once.

(** ** Concrete runs *)
#[refine, export] Instance scripted_recording : RecordingContext ScriptedContext := {
  ctx_log := sc_log;
  entry_receipt r := rcpt_id r = "entry"%string
}.
Proof.
  - abstract (intros ctx id a g ctx' r [= <- <-]; reflexivity).
  - abstract done.
  - abstract done.
  - abstract (intros ctx id rq g ctx' r [= _ <-]; reflexivity).
  - abstract (intros ctx r c Hr Hp Ho; simpl in Hp; unfold scripted_progress in Hp;
      rewrite Hr in Hp; destruct (list_find _ _) as [[? [? p]]|]; [|done];
      simpl in Hp; destruct (is_bare_ack p) eqn:Hb; [done|]; simplify_eq; simpl in Hb;
      by rewrite Ho in Hb).
Defined.

Lemma close_within_remainder_witness :
  exists ctx' i' r, try_close_partial 5%Z demo_ctx demo_filled 1%float None
                      = (ctx', i', Ok (Pending r)) /\ i_closing i' = true.
Proof.
  do 3 eexists. split; [vm_compute; reflexivity|].
  edestruct (close_within_remainder 5%Z demo_ctx demo_filled 1%float None)
    as (id & _ & _ & _ & _ & _ & Hc & _); [| |exact Hc]; vm_compute; reflexivity.
Defined.

Lemma submit_queues_valid_request_witness :
  exists ctx' i' r, submit 5%Z demo_ctx demo_new = (ctx', i', Ok (Pending r)) /\
    has_valid_entry_conditions demo_new = true.
Proof.
  do 3 eexists. split; [vm_compute; reflexivity|].
  edestruct (submit_queues_valid_request 5%Z demo_ctx demo_new)
    as (_ & _ & _ & _ & Hv & _); [| |exact Hv]; vm_compute; reflexivity.
Defined.

Definition demo_submitted : ScriptedContext * Insight := (submit 5%Z demo_timeout demo_new).1.

Lemma unresolved_submit_is_retained_witness :
  exists r, submit 6%Z demo_timeout demo_submitted.2 =
              (demo_timeout, demo_submitted.2, Ok (Pending r)).
Proof.
  eexists. eapply (unresolved_submit_is_retained 6%Z demo_timeout demo_submitted.2 _ [] "timeout");
    [vm_compute; reflexivity|reflexivity|].
  right; right. eexists. split; vm_compute; reflexivity.
Defined.

Lemma cancel_gates_entries_witness :
  exists ctx' i' r, cancel 6%Z demo_ctx (order_accepted 2%Z demo_new "entry-a") =
                      (ctx', i', Ok (Pending r)) /\ i_cancelling i' = true.
Proof.
  do 3 eexists. split; [vm_compute; reflexivity|].
  edestruct (cancel_gates_entries 6%Z demo_ctx (order_accepted 2%Z demo_new "entry-a"))
    as (_ & Hc & _); [| |exact Hc]; vm_compute; reflexivity.
Defined.

(** Submit, time out, submit again: one submission. *)
Definition demo_sized : ScriptedContext * Insight :=
  (demo_timeout, run_op 1%Z demo_insight (OpSetQuantity (Some 2%float))).
Definition demo_sent : ScriptedContext * Insight := run_mutation 7%Z demo_sized MoSubmit.
Definition demo_again : ScriptedContext * Insight := run_mutation 8%Z demo_sent MoSubmit.

