(* ===== verification/OrderReducer.v ===== *)
(** * OrderReducer: broker evidence applied to one insight
    ([src/core/strategy/order_reducer.rs], the order helpers of
    [src/core/strategy/mod.rs] and [terminal_order] of
    [src/core/strategy/lifecycle_reconciliation.rs])

    Submit responses, streamed trade events and final broker history all pass
    through [reduce_broker_order].  [now] is the insight's clock and [wall_us]
    the wall clock in microseconds the accounting check reads. *)
From S2P Require Import Prelude.
From S2P Require Import Float64.
From S2P Require Import Text.
From S2P Require Import BrokerTypes.
From S2P Require Import TimeFrame.
From S2P Require Import InsightTypes.
From S2P Require Import Commands.
From S2P Require Import ExecutionData.
From S2P Require Import Insight.
From S2P Require Import InsightInvariant.
From S2P Require Import Operations.
From S2P Require Import Scripted.

Inductive OrderEvidenceSource := SubmitResponse | TradeStream | TerminalHistory.
#[export] Instance OrderEvidenceSource_eq_dec : EqDecision OrderEvidenceSource.
Proof. solve_decision. Defined.

Inductive OrderReduction :=
| Ignored | Updated | AccountingUpdated | EntryFilled | LateEntryFilled | Terminal.
#[export] Instance OrderReduction_eq_dec : EqDecision OrderReduction.
Proof. solve_decision. Defined.

Definition leg_id (leg : option OrderLeg) : option string :=
  match leg with Some l => leg_order_id l | None => None end.

Definition debug_event (e : TradeUpdateEvent) : string :=
  match e with
  | EvAccepted => "Accepted" | EvNew => "New" | EvPendingNew => "PendingNew"
  | EvPending => "Pending" | EvPartialFilled => "PartialFilled" | EvFilled => "Filled"
  | EvCancelled => "Cancelled" | EvRejected => "Rejected" | EvExpired => "Expired"
  | EvClosed => "Closed" | EvReplaced => "Replaced"
  end.

(** [leg.filter(|leg| leg.status == Filled).and_then(|leg| filled.or(limit))]. *)
Definition filled_leg_price (leg : option OrderLeg) : option f64 :=
  match leg with
  | Some l => if decide (leg_status l = EvFilled)
              then opt_or (leg_filled_price l) (leg_limit_price l) else None
  | None => None
  end.

Definition close_price_from_order (order : Order) : f64 :=
  let from_legs := match o_legs order with
                   | Some legs =>
                       opt_or (opt_or (filled_leg_price (stop_loss legs))
                                 (filled_leg_price (take_profit legs)))
                         (filled_leg_price (trailing_stop legs))
                   | None => None
                   end in
  unwrap_or (opt_or (opt_or (opt_or from_legs (o_filled_price order)) (o_stop_price order))
               (o_limit_price order)) f0.

Definition round_order_value (order : Order) (value : f64) : f64 :=
  dynamic_round_for_asset value (o_asset order).
Definition round_order_option_value (order : Order) (value : option f64) : option f64 :=
  round_order_value order <$> value.

Definition leg_filled (leg : option OrderLeg) : bool :=
  is_some_and (fun l => bool_decide (leg_status l = EvFilled)) leg.
Definition at_most_one_level (levels : option (list f64)) : bool :=
  is_none_or (fun l => length l <=? 1) levels.

(** The three level updates of [sync_broker_managed_levels]. *)
Definition sync_take_profit (now : DateTime) (order : Order) (leg : option OrderLeg)
    (i : Insight) : Insight :=
  match match leg with Some l => leg_limit_price l | None => None end with
  | Some tp =>
      if at_most_one_level (i_take_profit_levels i)
      then set_take_profit_levels now i (Some [round_order_value order tp]) else i
  | None => i
  end.
Definition sync_stop_loss (now : DateTime) (order : Order) (leg : option OrderLeg)
    (i : Insight) : Insight :=
  match match leg with Some l => leg_limit_price l | None => None end with
  | Some sl =>
      if at_most_one_level (i_stop_loss_levels i)
      then set_stop_loss_levels now i (Some [round_order_value order sl]) else i
  | None => i
  end.
Definition sync_trailing_stop (now : DateTime) (order : Order) (leg : option OrderLeg)
    (i : Insight) : Insight :=
  match match leg with Some l => leg_trail_price l | None => None end with
  | Some gap => set_trailing_stop_price now i (Some (round_order_value order gap))
  | None => i
  end.

Definition sync_broker_managed_levels (now : DateTime) (i : Insight) (order : Order) : Insight :=
  match o_legs order with
  | None => i
  | Some legs =>
      if bool_decide (o_status order = EvClosed) || leg_filled (take_profit legs)
         || leg_filled (stop_loss legs) || leg_filled (trailing_stop legs)
      then i <| i_legs := legs |>
      else
        let i := sync_take_profit now order (take_profit legs) i in
        let i := sync_stop_loss now order (stop_loss legs) i in
        let i := sync_trailing_stop now order (trailing_stop legs) i in
        i <| i_legs := legs |>
  end.

(** The quantity and notional already recorded for one exit order. *)
Definition closed_so_far (i : Insight) (order_id : string) : f64 * f64 :=
  foldl (fun '(quantity, notional) p =>
           (quantity ⊕ pc_quantity p,
            notional ⊕ pc_quantity p ⊗ unwrap_or (pc_filled_price p) (pc_entry_price p)))
    (f0, f0) (filter (fun p => pc_order_id p = order_id) (i_partial_closes i)).

Section Reducer.
Context `{UuidText}.

Definition trade_event_matches_insight (i : Insight) (order : Order) : bool :=
  is_some_and (fun v => String.eqb v (uuid_to_string (i_insight_id i))) (o_insight_id order)
  || bool_decide (i_order_id i = Some (o_order_id order))
  || bool_decide (i_close_order_id i = Some (o_order_id order))
  || bool_decide (leg_id (take_profit (i_legs i)) = Some (o_order_id order))
  || bool_decide (leg_id (stop_loss (i_legs i)) = Some (o_order_id order))
  || bool_decide (leg_id (trailing_stop (i_legs i)) = Some (o_order_id order)).

(** The three guards and three closures at the top of [reduce_broker_order]. *)
Definition correlated_response (i : Insight) (order : Order) (source : OrderEvidenceSource) : bool :=
  bool_decide (source = SubmitResponse) && is_none (o_insight_id order)
  && is_none_or (fun id => String.eqb id (o_order_id order)) (i_order_id i).
Definition unrouted (i : Insight) (order : Order) (source : OrderEvidenceSource) : bool :=
  str_is_empty (o_order_id order) || negb (String.eqb (i_symbol i) (a_symbol (o_asset order)))
  || negb (correlated_response i order source || trade_event_matches_insight i order).
Definition is_pre_fill (s : InsightState) : bool :=
  match s with New | Executed => true | _ => false end.
Definition entry_side (i : Insight) (order : Order) : bool :=
  bool_decide (o_side order = i_side i).
Definition entry_order (i : Insight) (order : Order) : bool :=
  is_none_or (fun id => String.eqb id (o_order_id order)) (i_order_id i)
  || (is_pre_fill (i_state i)
      && bool_decide (match o_insight_id order with Some id => uuid_parse id | None => None end
                      = Some (i_insight_id i))).
Definition fill_price (order : Order) : f64 :=
  round_order_value order (unwrap_or (opt_or (o_filled_price order) (o_limit_price order)) f0).
Definition fill_commission (order : Order) : option f64 :=
  round_order_option_value order (o_commission order).
Definition valid_fill (order : Order) : bool :=
  is_finite (o_filled_qty order) && (f0 <. o_filled_qty order)
  && is_finite (fill_price order) && (f0 <. fill_price order).

Definition observe_option (wall_us : Z) (i : Insight) (a : option PositionCloseAccounting)
    : Insight :=
  match a with Some a => (observe_position_accounting wall_us i a).1 | None => i end.

(** Final history closes its ticket without inventing an entry fill. *)
Definition history_close (i : Insight) (order : Order) (event : TradeUpdateEvent)
    (source : OrderEvidenceSource) : bool :=
  bool_decide (source = TerminalHistory) && bool_decide (event = EvClosed)
  && match i_state i with New | Executed | Filled => true | _ => false end
  && bool_decide (i_order_id i = Some (o_order_id order))
  && is_some_and is_finite (o_realized_pnl order)
  && is_finite (fill_price order) && (f0 <. fill_price order).

Definition ends_entry (event : TradeUpdateEvent) : bool :=
  match event with EvCancelled | EvExpired | EvRejected => true | _ => false end.

(** The exposure an entry's cancelled remainder leaves behind. *)
Definition executed_part (i : Insight) : option (f64 * f64) :=
  match i_entry_filled_quantity i, i_filled_price i with
  | Some quantity, Some price =>
      if (f0 <. quantity) && is_finite quantity && (f0 <. price) && is_finite price
      then Some (quantity, price) else None
  | _, _ => None
  end.

Definition keep_executed_part (now : DateTime) (i : Insight) (order : Order)
    (event : TradeUpdateEvent) (quantity price : f64) : Insight :=
  let commission := i_commission i in
  let i := i <| i_suppress_child_entries := true |> in
  let i := set_quantity now i (Some quantity) in
  let i := position_filled now i price quantity (o_order_id order) commission in
  state_log now i
    (Some [Lit "Entry remainder "; Lit (debug_event event);
           Lit "; preserving broker-confirmed filled quantity "; ShowF64 None quantity]).

(** An insight that is still new is first marked as accepted. *)
Definition accept_if_new (now : DateTime) (i : Insight) (order : Order) : Insight :=
  if decide (i_state i = New) then order_accepted now i (o_order_id order) else i.

Definition reduce_entry_fill (now : DateTime) (i : Insight) (order : Order) : Insight :=
  let i := accept_if_new now i order in
  let i := position_filled now i (fill_price order) (o_filled_qty order) (o_order_id order)
             (fill_commission order) in
  sync_broker_managed_levels now i order.

Definition reduce_entry_partial (now : DateTime) (i : Insight) (order : Order)
    : Insight * OrderReduction :=
  if o_filled_qty order <=. unwrap_or (i_entry_filled_quantity i) f0 then (i, Ignored)
  else
    let i := accept_if_new now i order in
    let i := partial_filled now i (o_filled_qty order) (fill_price order) (o_order_id order)
               (fill_commission order) in
    (sync_broker_managed_levels now i order, Updated).

Definition reduce_exit_partial (now : DateTime) (i : Insight) (order : Order)
    : Insight * OrderReduction :=
  let average_close_price := close_price_from_order order in
  let '(previously_closed, previous_notional) := closed_so_far i (o_order_id order) in
  let close_qty := o_filled_qty order ⊖ previously_closed in
  let close_price :=
    (o_filled_qty order ⊗ average_close_price ⊖ previous_notional) ⊘ close_qty in
  if negb (is_finite (o_filled_qty order)) || negb (is_finite close_qty) || (close_qty <=. f0)
     || (remaining_quantity i <. close_qty) || negb (is_finite close_price)
     || (close_price <=. f0)
  then (i, Ignored)
  else (partial_closed now i close_qty close_price (o_order_id order) (fill_commission order),
        Updated).

Definition reduce_replaced (now : DateTime) (i : Insight) (order : Order) : Insight :=
  let i := if negb (opt_feq (o_limit_price order) (i_limit_price i))
           then i <| i_limit_price := round_order_option_value order (o_limit_price order) |>
           else i in
  let i := if negb (opt_feq (i_quantity i) (Some (o_qty order)))
           then i <| i_quantity := Some (o_qty order) |> else i in
  sync_broker_managed_levels now i order.

Definition reduce_exit (now : DateTime) (wall_us : Z) (i : Insight) (order : Order)
    : Insight * OrderReduction :=
  let close_price := round_order_value order (close_price_from_order order) in
  if negb (is_finite close_price) || (close_price <=. f0) then (i, Ignored)
  else
    let i := sync_broker_managed_levels now i order in
    let i := position_closed now i close_price (o_order_id order) (o_filled_qty order)
               (round_order_option_value order (o_realized_pnl order))
               (fill_commission order) (round_order_option_value order (o_swap order)) in
    (observe_option wall_us i (o_position_accounting order), Terminal).

(** The final [match (&insight.state, event)], arm by arm. *)
Definition reduce_event (now : DateTime) (wall_us : Z) (i : Insight) (order : Order)
    (event : TradeUpdateEvent) (source : OrderEvidenceSource) : Insight * OrderReduction :=
  let entry_side := entry_side i order in
  let entry_order := entry_order i order in
  match i_state i, event with
  | New, (EvAccepted | EvPendingNew | EvNew | EvPending) =>
      if entry_side && entry_order
      then (sync_broker_managed_levels now (order_accepted now i (o_order_id order)) order, Updated)
      else (i, Ignored)
  | (New | Executed), EvFilled =>
      if entry_side && entry_order && valid_fill order
      then (reduce_entry_fill now i order, EntryFilled)
      else (i, Ignored)
  | (New | Executed), EvPartialFilled =>
      if entry_side && entry_order && valid_fill order
      then reduce_entry_partial now i order
      else (i, Ignored)
  | Filled, EvPartialFilled =>
      if negb entry_side && bool_decide (source = TradeStream)
      then reduce_exit_partial now i order
      else (i, Ignored)
  | (New | Executed), (EvCancelled | EvExpired) =>
      if entry_order
      then (order_cancelled now (sync_broker_managed_levels now i order) [Lit "Order cancelled"],
            Terminal)
      else (i, Ignored)
  | (New | Executed), EvRejected =>
      if entry_order
      then (order_rejected now (sync_broker_managed_levels now i order)
              [Lit (unwrap_or (o_rejection_reason order) "Order rejected")], Terminal)
      else (i, Ignored)
  | Executed, EvReplaced =>
      if entry_order && bool_decide (source = TradeStream)
      then (reduce_replaced now i order, Updated)
      else (i, Ignored)
  | Filled, (EvFilled | EvClosed) =>
      if bool_decide (source = TradeStream)
         && (negb entry_side || bool_decide (event = EvClosed))
      then reduce_exit now wall_us i order
      else (i, Ignored)
  | (Cancelled | Rejected), EvFilled =>
      if entry_side && valid_fill order
      then
        let i := i <| i_suppress_child_entries := true |> in
        let i := position_filled now i (fill_price order) (o_filled_qty order)
                   (o_order_id order) (fill_commission order) in
        (sync_broker_managed_levels now i order, LateEntryFilled)
      else (i, Ignored)
  | _, _ => (i, Ignored)
  end.

Definition reduce_broker_order (now : DateTime) (wall_us : Z) (i : Insight) (order : Order)
    (event : TradeUpdateEvent) (source : OrderEvidenceSource) : Insight * OrderReduction :=
  if unrouted i order source then (i, Ignored)
  else
    let corrected :=
      if bool_decide (i_state i = Closed) && bool_decide (event = EvClosed)
         && bool_decide (source <> SubmitResponse)
      then match o_position_accounting order with
           | Some a => observe_position_accounting wall_us i a
           | None => (i, false)
           end
      else (i, false) in
    if corrected.2 then (corrected.1, AccountingUpdated)
    else if history_close i order event source then
      let i := i <| i_suppress_child_entries := true |> in
      let i := position_closed now i (fill_price order) (o_order_id order) (o_filled_qty order)
                 (o_realized_pnl order) (o_commission order) (o_swap order) in
      (observe_option wall_us i (o_position_accounting order), Terminal)
    else
      match executed_part i with
      | Some (quantity, price) =>
          if is_pre_fill (i_state i) && entry_order i order && ends_entry event
          then (keep_executed_part now i order event quantity price, LateEntryFilled)
          else reduce_event now wall_us i order event source
      | None => reduce_event now wall_us i order event source
      end.

(** ** What the helpers do to the state *)

(** A change of configuration only: state, identity, orders, fills and receipts stay. *)
Record quiet (i j : Insight) : Prop := {
  quiet_state : i_state j = i_state i;
  quiet_core : core_view j = core_view i;
  quiet_wf : insight_wf i -> insight_wf j
}.

Lemma quiet_refl i : quiet i i.
Proof. by split. Qed.
Lemma quiet_trans i j k : quiet i j -> quiet j k -> quiet i k.
Proof. intros [? ? ?] [? ? ?]. split; [congruence|congruence|auto]. Qed.

Lemma quiet_take_profit now i l : quiet i (set_take_profit_levels now i l).
Proof. split; [apply state_set_take_profit|apply core_set_take_profit|apply wf_set_take_profit_levels]. Qed.
Lemma quiet_stop_loss now i l : quiet i (set_stop_loss_levels now i l).
Proof. split; [apply state_set_stop_loss|apply core_set_stop_loss|apply wf_set_stop_loss_levels]. Qed.
Lemma quiet_trailing now i p : quiet i (set_trailing_stop_price now i p).
Proof. split; [apply state_set_trailing|apply core_set_trailing|apply wf_set_trailing_stop_price]. Qed.
Lemma quiet_legs i l : quiet i (i <| i_legs := l |>).
Proof. split; [reflexivity|reflexivity|by apply wf_ext]. Qed.

Lemma sync_quiet now i order : quiet i (sync_broker_managed_levels now i order).
Proof.
  unfold sync_broker_managed_levels. cbv zeta.
  destruct (o_legs order) as [legs|]; [|apply quiet_refl].
  split_match; [apply quiet_legs|].
  eapply quiet_trans; [|apply quiet_legs].
  eapply quiet_trans; [|unfold sync_trailing_stop; split_match; (apply quiet_trailing || apply quiet_refl)].
  eapply quiet_trans; [|unfold sync_stop_loss; repeat split_match; (apply quiet_stop_loss || apply quiet_refl)].
  unfold sync_take_profit. repeat split_match; (apply quiet_take_profit || apply quiet_refl).
Qed.

Lemma state_update_to now i s m k :
  is_cancel_or_reject s = false -> i_state (update_state_typed now i s m k) = s.
Proof.
  intros Hs. rewrite update_state_typed_form. fields. unfold us_state, refused.
  by rewrite Hs, andb_false_r.
Qed.

Lemma state_update_terminal now i s m k :
  i_state i <> Filled -> i_state (update_state_typed now i s m k) = s.
Proof.
  intros Hs. rewrite update_state_typed_form. fields. unfold us_state, refused.
  by rewrite bool_decide_eq_false_2.
Qed.

Lemma state_position_filled now i p q id c : i_state (position_filled now i p q id c) = Filled.
Proof.
  unfold position_filled, set_first_on_fill, update_state. cbv zeta.
  split_match; [by apply state_update_to|].
  rewrite state_update_same. fields. by apply state_update_to.
Qed.
Lemma state_position_closed now i p id q pnl c sw :
  i_state (position_closed now i p id q pnl c sw) = Closed.
Proof. unfold position_closed, update_state. cbv zeta. by apply state_update_to. Qed.
Lemma state_order_accepted now i id : i_state (order_accepted now i id) = Executed.
Proof. unfold order_accepted, update_state. cbv zeta. by apply state_update_to. Qed.
Lemma state_partial_closed now i q p id c : i_state (partial_closed now i q p id c) = Filled.
Proof. unfold partial_closed, update_state. cbv zeta. by apply state_update_to. Qed.
Lemma state_partial_filled now i q p id c :
  i_state i = Executed -> i_state (partial_filled now i q p id c) = Executed.
Proof.
  intros Hs. unfold partial_filled, update_state. cbv zeta. split_match; [done|].
  by apply state_update_to.
Qed.
Lemma state_observe wall i a : i_state (observe_option wall i a) = i_state i.
Proof.
  destruct a as [a|]; [|done]. simpl. unfold observe_position_accounting.
  repeat split_match; cbn [fst]; by fields.
Qed.

(** ** The state machine of broker evidence *)

(** The transitions broker evidence can cause. *)
Definition evidence_allows (s s' : InsightState) : bool :=
  match s, s' with
  | New, _ => true
  | Executed, (Executed | Filled | Closed | Cancelled | Rejected) => true
  | Filled, (Filled | Closed) => true
  | Closed, Closed => true
  | Cancelled, (Cancelled | Filled) => true
  | Rejected, (Rejected | Filled) => true
  | _, _ => false
  end.

(** What each reduction result says about the insight. *)
Definition reduction_agrees (i i' : Insight) (r : OrderReduction) : Prop :=
  match r with
  | Ignored => i' = i
  | AccountingUpdated =>
      i_state i = Closed /\ exists a, i' = i <| i_position_accounting := Some a |>
  | Updated => is_active (i_state i') = true
  | EntryFilled => is_pre_fill (i_state i) = true /\ i_state i' = Filled
  | LateEntryFilled => i_state i <> Filled /\ i_state i <> Closed /\ i_state i' = Filled
  | Terminal => is_inactive (i_state i') = true /\ is_active (i_state i) = true
  end.

Lemma sync_state now i order : i_state (sync_broker_managed_levels now i order) = i_state i.
Proof. apply quiet_state, sync_quiet. Qed.

Lemma keep_executed_state now i order event q p :
  i_state (keep_executed_part now i order event q p) = Filled.
Proof. unfold keep_executed_part. cbv zeta. by rewrite state_state_log, state_position_filled. Qed.

Lemma state_accept_if_new now i order :
  is_pre_fill (i_state i) = true -> i_state (accept_if_new now i order) = Executed.
Proof.
  intros Hs. unfold accept_if_new. case_decide; [apply state_order_accepted|].
  by destruct (i_state i).
Qed.
Lemma state_entry_fill now i order : i_state (reduce_entry_fill now i order) = Filled.
Proof. unfold reduce_entry_fill. cbv zeta. by rewrite sync_state, state_position_filled. Qed.
Lemma state_replaced now i order : i_state (reduce_replaced now i order) = i_state i.
Proof. unfold reduce_replaced. cbv zeta. rewrite sync_state. repeat split_match; by fields. Qed.
Lemma state_cancelled now i m :
  i_state i <> Filled -> i_state (order_cancelled now i m) = Cancelled.
Proof. intros. unfold order_cancelled, update_state. by apply state_update_terminal. Qed.
Lemma state_rejected now i m :
  i_state i <> Filled -> i_state (order_rejected now i m) = Rejected.
Proof. intros. unfold order_rejected, update_state. by apply state_update_terminal. Qed.

Lemma reduce_event_transition now wall i order event source i' r :
  reduce_event now wall i order event source = (i', r) ->
  evidence_allows (i_state i) (i_state i') = true /\ reduction_agrees i i' r.
Proof.
  intros Hr. unfold reduce_event, reduce_entry_partial, reduce_exit_partial, reduce_exit in Hr.
  cbv zeta in Hr.
  assert (Hig : (i, Ignored) = (i', r) ->
            evidence_allows (i_state i) (i_state i') = true /\ reduction_agrees i i' r).
  { intros [= <- <-]. split; [by destruct (i_state i)|done]. }
  destruct (i_state i) eqn:Hs, event; try (by apply Hig);
    repeat (split_match_in Hr; try (by apply Hig)); simplify_eq;
    rewrite ?state_entry_fill, ?state_replaced, ?sync_state, ?state_order_accepted, ?state_observe,
      ?state_position_closed, ?state_position_filled, ?state_partial_closed, ?state_cancelled,
      ?state_rejected by (by rewrite ?sync_state, Hs);
    try (rewrite state_partial_filled by (apply state_accept_if_new; by rewrite Hs));
    unfold reduction_agrees;
    rewrite ?state_entry_fill, ?state_replaced, ?sync_state, ?state_order_accepted, ?state_observe,
      ?state_position_closed, ?state_position_filled, ?state_partial_closed, ?state_cancelled,
      ?state_rejected by (by rewrite ?sync_state, Hs);
    try (rewrite state_partial_filled by (apply state_accept_if_new; by rewrite Hs));
    rewrite ?Hs; done.
Qed.

Lemma corrected_accounting wall i a i' :
  observe_position_accounting wall i a = (i', true) ->
  i_state i = Closed /\ i' = i <| i_position_accounting := Some a |>.
Proof.
  unfold observe_position_accounting. intros Hr. split_match_in Hr; [done|]. break_bool.
  split_match_in Hr; simplify_eq. split; [|done].
  match goal with Hc : bool_decide (i_state i <> Closed) = false |- _ =>
    apply bool_decide_eq_false in Hc; by apply dec_stable end.
Qed.

(** C5 Broker evidence drives the life cycle along its allowed transitions only: a closed
    insight stays closed, an open position is never cancelled or rejected, a cancelled or
    rejected entry is only ever revived by a genuine fill; and the reported reduction agrees
    with what happened, an ignored event leaving the insight untouched. *)
Theorem reduction_transitions now wall i order event source i' r :
  reduce_broker_order now wall i order event source = (i', r) ->
  evidence_allows (i_state i) (i_state i') = true /\ reduction_agrees i i' r.
Proof.
  unfold reduce_broker_order. cbv zeta. intros Hr.
  split_match_in Hr; [simplify_eq; split; [by destruct (i_state i')|done]|].
  match type of Hr with context [if ?b then _ else (i, false)] => set (cond := b) in Hr end.
  destruct ((if cond then _ else (i, false)) : Insight * bool) as [j ok] eqn:Hcor in Hr.
  cbn [fst snd] in Hr. destruct ok.
  - destruct cond; [|done]. destruct (o_position_accounting order) as [a|]; [|done].
    apply corrected_accounting in Hcor as [Hs ->]. simplify_eq. rewrite Hs. fields. rewrite Hs.
    split; [done|]. split; [done|]. by exists a.
  - clear Hcor. split_match_in Hr.
    + simplify_eq. unfold history_close in *. break_bool.
      unfold reduction_agrees. rewrite state_observe, state_position_closed.
      by destruct (i_state i).
    + destruct (executed_part i) as [[q p]|]; [|by eapply reduce_event_transition].
      split_match_in Hr; [|by eapply reduce_event_transition].
      break_bool. simplify_eq. unfold reduction_agrees. rewrite keep_executed_state.
      by destruct (i_state i).
Qed.

(** ** Redelivery *)

(** Reduction is the final match unless accounting, history or an executed
    remainder applies. *)
Lemma reduce_is_event now wall i order event source :
  event <> EvClosed -> (is_pre_fill (i_state i) && ends_entry event = false) ->
  reduce_broker_order now wall i order event source =
    if unrouted i order source then (i, Ignored)
    else reduce_event now wall i order event source.
Proof.
  intros He Hp. unfold reduce_broker_order, history_close. cbv zeta.
  rewrite (bool_decide_eq_false_2 (event = EvClosed)), !andb_false_r by done.
  rewrite andb_false_l. cbn [fst snd].
  destruct (unrouted i order source); [done|].
  destruct (executed_part i) as [[q p]|]; [|done].
  destruct (entry_order i order); rewrite ?andb_true_r, ?andb_false_r; [|done].
  by rewrite Hp.
Qed.

Lemma side_position_filled now i p q id c : i_side (position_filled now i p q id c) = i_side i.
Proof.
  unfold position_filled, set_first_on_fill, update_state. cbv zeta.
  rewrite !update_state_typed_form. split_match; fields; reflexivity.
Qed.
Lemma side_order_accepted now i id : i_side (order_accepted now i id) = i_side i.
Proof. unfold order_accepted, update_state. cbv zeta. rewrite update_state_typed_form. by fields. Qed.
Lemma side_sync now i order : i_side (sync_broker_managed_levels now i order) = i_side i.
Proof. pose proof (quiet_core _ _ (sync_quiet now i order)) as Hc. unfold core_view in Hc. by injection Hc. Qed.
Lemma filled_qty_sync now i order :
  i_entry_filled_quantity (sync_broker_managed_levels now i order) = i_entry_filled_quantity i.
Proof. pose proof (quiet_core _ _ (sync_quiet now i order)) as Hc. unfold core_view in Hc. by injection Hc. Qed.
Lemma filled_qty_accept now i order :
  i_entry_filled_quantity (accept_if_new now i order) = i_entry_filled_quantity i.
Proof.
  unfold accept_if_new, order_accepted, update_state. case_decide; [|done]. cbv zeta.
  rewrite update_state_typed_form. by fields.
Qed.

(** A recorded entry fill carries the reported quantity. *)
Lemma partial_filled_quantity now i q p id c :
  (q <=. unwrap_or (i_entry_filled_quantity i) f0) = false ->
  is_finite q = true -> is_finite p = true -> (f0 <. p) = true ->
  i_entry_filled_quantity (partial_filled now i q p id c) = Some q.
Proof.
  intros Hq Hf Hp Hpos. unfold partial_filled. rewrite Hf, Hp, Hq.
  assert ((p <=. f0) = false) as ->.
  { destruct (p <=. f0) eqn:E; [|done]. apply fle_not_flt in E. by rewrite E in Hpos. }
  simpl. unfold update_state. rewrite update_state_typed_form. fields. split_match; by fields.
Qed.

Lemma event_after_fill now wall i order event source :
  i_state i = Filled -> event <> EvClosed -> entry_side i order = true ->
  reduce_event now wall i order event source = (i, Ignored).
Proof.
  intros Hs He Hside. unfold reduce_event. rewrite Hs, Hside. destruct event; try done.
  by rewrite andb_false_r.
Qed.

Lemma entry_side_filled now i order p q id c :
  entry_side (position_filled now i p q id c) order = entry_side i order.
Proof. unfold entry_side. by rewrite side_position_filled. Qed.
Lemma entry_side_sync now i order :
  entry_side (sync_broker_managed_levels now i order) order = entry_side i order.
Proof. unfold entry_side. by rewrite side_sync. Qed.
Lemma entry_side_accept now i order :
  entry_side (accept_if_new now i order) order = entry_side i order.
Proof. unfold entry_side, accept_if_new. case_decide; by rewrite ?side_order_accepted. Qed.

(** The states an event has no further effect in. *)
Definition event_done (s : InsightState) (event : TradeUpdateEvent) : bool :=
  match s, event with
  | Closed, _ => true
  | (Cancelled | Rejected), EvFilled => false
  | (Cancelled | Rejected), _ => true
  | Executed, (EvAccepted | EvNew | EvPendingNew | EvPending) => true
  | _, _ => false
  end.

Lemma event_done_ignored now wall i order event source :
  event_done (i_state i) event = true ->
  reduce_event now wall i order event source = (i, Ignored).
Proof. unfold reduce_event. by destruct (i_state i), event. Qed.

Lemma partial_settles now i order i1 :
  is_pre_fill (i_state i) = true -> valid_fill order = true ->
  reduce_entry_partial now i order = (i1, Updated) ->
  i_state i1 = Executed /\ i_entry_filled_quantity i1 = Some (o_filled_qty order).
Proof.
  unfold reduce_entry_partial, valid_fill. intros Hs Hv Hr. break_bool.
  split_match_in Hr; [done|]. cbv zeta in Hr. simplify_eq.
  rewrite sync_state, filled_qty_sync. split.
  - apply state_partial_filled. by apply state_accept_if_new.
  - apply partial_filled_quantity; try done. by rewrite filled_qty_accept.
Qed.

(** What one applied event leaves behind, in the terms its redelivery is judged by. *)
Definition settled_by (order : Order) (event : TradeUpdateEvent) (i1 : Insight) : Prop :=
  event_done (i_state i1) event = true \/
  (i_state i1 = Filled /\ (entry_side i1 order = true \/ ends_entry event = true)) \/
  (event = EvPartialFilled /\ i_state i1 = Executed /\
   i_entry_filled_quantity i1 = Some (o_filled_qty order) /\
   is_finite (o_filled_qty order) = true).

Lemma entry_partial_settles now i order i1 r :
  is_pre_fill (i_state i) = true -> valid_fill order = true ->
  reduce_entry_partial now i order = (i1, r) -> r <> Ignored ->
  settled_by order EvPartialFilled i1.
Proof.
  intros Hs Hv Hr Hig.
  assert (r = Updated) as ->.
  { unfold reduce_entry_partial in Hr. split_match_in Hr; by simplify_eq. }
  destruct (partial_settles _ _ _ _ Hs Hv Hr) as [Hst Hq].
  right; right. unfold valid_fill in Hv. break_bool. done.
Qed.

Lemma entry_fill_settles now i order :
  entry_side i order = true -> settled_by order EvFilled (reduce_entry_fill now i order).
Proof.
  intros He. right; left. split; [apply state_entry_fill|left].
  unfold reduce_entry_fill. cbv zeta. by rewrite entry_side_sync, entry_side_filled, entry_side_accept.
Qed.

Lemma late_fill_settles now i order p q id c :
  entry_side i order = true ->
  settled_by order EvFilled
    (sync_broker_managed_levels now
       (position_filled now (i <| i_suppress_child_entries := true |>) p q id c) order).
Proof.
  intros He. right; left. split; [by rewrite sync_state, state_position_filled|left].
  rewrite entry_side_sync, entry_side_filled. exact He.
Qed.

Lemma exit_settles now wall i order event i1 r :
  reduce_exit now wall i order = (i1, r) -> r <> Ignored -> settled_by order event i1.
Proof.
  unfold reduce_exit. cbv zeta. intros Hr Hig. split_match_in Hr; simplify_eq.
  left. rewrite state_observe, state_position_closed. by destruct event.
Qed.

Lemma reduce_event_settles now wall i order event source i1 r :
  reduce_event now wall i order event source = (i1, r) -> r <> Ignored ->
  event <> EvReplaced -> event <> EvClosed ->
  (event = EvPartialFilled -> entry_side i order = true) ->
  settled_by order event i1.
Proof.
  intros Hr Hig Hrep Hcl Hpart. unfold reduce_event in Hr. cbv zeta in Hr.
  destruct (i_state i) eqn:Hs, event; simplify_eq; try done;
    try (rewrite (Hpart eq_refl) in Hr); split_match_in Hr; simplify_eq; try done;
    try (left; rewrite sync_state, state_order_accepted; done);
    try (left; rewrite ?state_cancelled, ?state_rejected by (by rewrite sync_state, Hs); done).
  all: break_bool.
  - eapply entry_partial_settles; [by rewrite Hs|eassumption..].
  - by apply entry_fill_settles.
  - eapply entry_partial_settles; [by rewrite Hs|eassumption..].
  - by apply entry_fill_settles.
  - eapply exit_settles; eassumption.
  - by apply late_fill_settles.
  - by apply late_fill_settles.
Qed.


(** ** Exposure *)

Lemma fills_position_filled now i p q id c :
  let j := position_filled now i p q id c in
  i_entry_filled_quantity j = Some q /\ i_filled_price j = Some p /\ i_order_id j = Some id /\
  i_suppress_child_entries j = i_suppress_child_entries i.
Proof.
  unfold position_filled, set_first_on_fill, update_state. cbv zeta.
  rewrite !update_state_typed_form. split_match; fields; done.
Qed.

Lemma fills_state_log now i m :
  i_entry_filled_quantity (state_log now i m) = i_entry_filled_quantity i /\
  i_filled_price (state_log now i m) = i_filled_price i /\
  i_order_id (state_log now i m) = i_order_id i /\
  i_suppress_child_entries (state_log now i m) = i_suppress_child_entries i.
Proof. unfold state_log. rewrite update_state_typed_form. by fields. Qed.

Lemma suppress_set_quantity now i q :
  i_suppress_child_entries (set_quantity now i q) = i_suppress_child_entries i.
Proof. pose proof (core_set_quantity now i q) as Hc. unfold core_view in Hc. by injection Hc. Qed.

(** Cancelling, expiring or rejecting the rest of a partly executed entry never loses the
    executed part: the insight becomes a filled position of exactly the confirmed quantity and
    average price, and its dormant children stay suppressed. *)
Theorem remainder_cancel_keeps_exposure now wall i order event source q p :
  unrouted i order source = false -> is_pre_fill (i_state i) = true ->
  entry_order i order = true -> ends_entry event = true -> executed_part i = Some (q, p) ->
  exists i', reduce_broker_order now wall i order event source = (i', LateEntryFilled) /\
    i_state i' = Filled /\ i_entry_filled_quantity i' = Some q /\ i_filled_price i' = Some p /\
    i_suppress_child_entries i' = true /\ positive q = true.
Proof.
  intros Hun Hs Heo Hee Hex. eexists. split; [|split; [|split; [|split; [|split]]]].
  - unfold reduce_broker_order, history_close. cbv zeta. rewrite Hun, Hex, Hs, Heo, Hee.
    rewrite (bool_decide_eq_false_2 (event = EvClosed)), !andb_false_r by (by destruct event).
    cbn [andb fst snd]. reflexivity.
  - apply keep_executed_state.
  - unfold keep_executed_part. cbv zeta.
    rewrite (proj1 (fills_state_log _ _ _)). apply fills_position_filled.
  - unfold keep_executed_part. cbv zeta.
    rewrite (proj1 (proj2 (fills_state_log _ _ _))). apply fills_position_filled.
  - unfold keep_executed_part. cbv zeta.
    rewrite (proj2 (proj2 (proj2 (fills_state_log _ _ _)))).
    rewrite (proj2 (proj2 (proj2 (fills_position_filled _ _ _ _ _ _)))).
    rewrite suppress_set_quantity. by fields.
  - unfold executed_part in Hex. repeat split_match_in Hex; simplify_eq. break_bool.
    unfold positive. by apply andb_true_iff.
Qed.

(** A streamed partial exit records at most what is still open: it is ignored, or it
    appends one record of a finite positive quantity not above the remaining quantity at a
    positive price, and the position stays open. *)
Theorem exit_partial_within_remainder now wall i order i' r :
  i_state i = Filled -> entry_side i order = false ->
  reduce_broker_order now wall i order EvPartialFilled TradeStream = (i', r) ->
  (i' = i /\ r = Ignored) \/
  (exists q p, r = Updated /\ i_state i' = Filled /\ positive q = true /\ positive p = true /\
     (remaining_quantity i <. q) = false /\
     i_partial_closes i' =
       i_partial_closes i ++ [mkPartialClose (o_order_id order) (i_side i) q
                                (unwrap_or (entry_price i) f0) (Some p)]).
Proof.
  intros Hs Hside. rewrite reduce_is_event by (by rewrite ?Hs). intros Hr.
  split_match_in Hr; [simplify_eq; by left|].
  unfold reduce_event in Hr. rewrite Hs, Hside in Hr. simpl in Hr.
  unfold reduce_exit_partial in Hr. destruct (closed_so_far i (o_order_id order)) as [pc pn].
  split_match_in Hr; [simplify_eq; by left|right]. cbv zeta in Hr. simplify_eq. break_bool.
  do 2 eexists. split; [done|]. split; [apply state_partial_closed|].
  split; [|split; [|split]]; [| |eassumption|].
  - unfold positive. apply andb_true_iff. split; [eassumption|].
    apply not_fle_flt; auto using is_finite_not_nan.
  - unfold positive. apply andb_true_iff. split; [eassumption|].
    apply not_fle_flt; auto using is_finite_not_nan.
  - unfold partial_closed, update_state. cbv zeta. rewrite update_state_typed_form.
    unfold set_filled_price, partial_close_new, entry_price.
    split_match; fields; cbn; reflexivity.
Qed.

(** A response to a submission never closes a position: only streamed trade events and
    validated final history do. *)
Theorem submit_response_never_closes now wall i order event i' r :
  i_state i <> Closed ->
  reduce_broker_order now wall i order event SubmitResponse = (i', r) -> i_state i' <> Closed.
Proof.
  intros Hn Hr.
  assert (Hev : forall i' r, reduce_event now wall i order event SubmitResponse = (i', r) ->
            i_state i' <> Closed).
  { clear i' r Hr. intros i' r Hr. unfold reduce_event, reduce_entry_partial in Hr. cbv zeta in Hr.
    rewrite (bool_decide_eq_false_2 (SubmitResponse = TradeStream)), !andb_false_r in Hr by done.
    destruct (i_state i) eqn:Hs, event; try done; repeat split_match_in Hr; simplify_eq;
      rewrite ?state_entry_fill, ?sync_state, ?state_order_accepted, ?state_position_filled,
        ?state_cancelled, ?state_rejected by (by rewrite ?sync_state, Hs);
      try (rewrite state_partial_filled by (apply state_accept_if_new; by rewrite Hs)); congruence. }
  unfold reduce_broker_order, history_close in Hr. cbv zeta in Hr.
  rewrite (bool_decide_eq_false_2 (i_state i = Closed)) in Hr by done.
  rewrite (bool_decide_eq_false_2 (SubmitResponse = TerminalHistory)) in Hr by done.
  cbn [andb fst snd] in Hr. split_match_in Hr; [by simplify_eq|].
  destruct (executed_part i) as [[q p]|]; [|by eapply Hev].
  split_match_in Hr; [|by eapply Hev]. simplify_eq. by rewrite keep_executed_state.
Qed.

(** ** Well-formedness *)

Lemma wf_suppress i b : insight_wf i -> insight_wf (i <| i_suppress_child_entries := b |>).
Proof. by apply wf_ext. Qed.
Lemma wf_sync now i order : insight_wf i -> insight_wf (sync_broker_managed_levels now i order).
Proof. apply quiet_wf, sync_quiet. Qed.
Lemma wf_observe wall i a : insight_wf i -> insight_wf (observe_option wall i a).
Proof. intros Hi. destruct a as [a|]; [by apply wf_observe_accounting|done]. Qed.
Lemma wf_accept_if_new now i order : insight_wf i -> insight_wf (accept_if_new now i order).
Proof. intros Hi. unfold accept_if_new. case_decide; [by apply wf_order_accepted|done]. Qed.
Hint Resolve wf_suppress wf_sync wf_observe wf_accept_if_new wf_order_rejected
  wf_order_cancelled : aqe.

Lemma wf_reduce_event now wall i order event source i' r :
  reduce_event now wall i order event source = (i', r) -> event <> EvReplaced ->
  insight_wf i -> insight_wf i'.
Proof.
  intros Hr He Hi.
  unfold reduce_event, reduce_entry_partial, reduce_exit_partial, reduce_exit, reduce_entry_fill in Hr.
  cbv zeta in Hr.
  destruct (i_state i), event; try done; repeat split_match_in Hr; simplify_eq; auto 8 with aqe.
Qed.

(** Applying broker evidence keeps an insight well formed: its history still explains its
    state, and its order type, class and levels stay consistent; the one exception is a
    streamed replacement, which rewrites the entry price alone. *)
Theorem reduction_keeps_wf now wall i order event source i' r :
  reduce_broker_order now wall i order event source = (i', r) -> event <> EvReplaced ->
  insight_wf i -> insight_wf i'.
Proof.
  unfold reduce_broker_order. cbv zeta. intros Hr He Hi.
  split_match_in Hr; [by simplify_eq|].
  split_match_in Hr.
  { simplify_eq. repeat split_match; cbn [fst] in *; try done.
    match goal with |- insight_wf (observe_position_accounting _ _ ?a).1 =>
      exact (wf_observe wall i (Some a) Hi) end. }
  split_match_in Hr; [simplify_eq; auto 8 with aqe|].
  destruct (executed_part i) as [[q p]|]; [|by eapply wf_reduce_event].
  split_match_in Hr; [|by eapply wf_reduce_event]. simplify_eq.
  unfold keep_executed_part. cbv zeta. auto 8 with aqe.
Qed.

(** ** Final broker history ([lifecycle_reconciliation.rs]); [utc_now] is the wall clock. *)

Definition usable_close (utc_now : DateTime) (i : Insight) (close : OrderLifecycleCloseDetails)
    : bool :=
  negb (negb (is_finite (cd_close_price close)) || (cd_close_price close <=. f0)
        || negb (is_finite (cd_realized_pnl close)) || negb (is_finite (cd_commission close))
        || negb (is_finite (cd_swap close)) || (utc_now <? cd_closed_at close)%Z
        || is_some_and (fun at_ => (cd_closed_at close <? at_)%Z) (i_filled_at i)
        || (is_none (i_filled_at i) && (cd_closed_at close <? i_created_at i)%Z)).

(** The event and the close a snapshot proves, if any. *)
Definition terminal_evidence (utc_now : DateTime) (i : Insight) (s : OrderLifecycleSnapshot)
    : option (TradeUpdateEvent * option OrderLifecycleCloseDetails) :=
  match ls_status s with
  | LcCancelled | LcExpired => Some (EvCancelled, None)
  | LcRejected => Some (EvRejected, None)
  | LcClosed =>
      match ls_close_details s with
      | Some close => if usable_close utc_now i close then Some (EvClosed, Some close) else None
      | None => None
      end
  | _ => None
  end.

Definition accounting_only (i : Insight) (s : OrderLifecycleSnapshot) : bool :=
  bool_decide (i_state i = Closed) && bool_decide (ls_status s = LcClosed)
  && is_some_and (fun close => is_some (validated_position_accounting close (ls_order_id s)))
       (ls_close_details s).

Definition terminal_order (utc_now : DateTime) (i : Insight) (asset : Asset)
    (s : OrderLifecycleSnapshot) : option Order :=
  if (is_inactive (i_state i) && negb (accounting_only i s))
     || negb (bool_decide (i_order_id i = Some (ls_order_id s)))
     || is_some_and (fun symbol => negb (String.eqb symbol (i_symbol i))) (ls_symbol s)
  then None
  else
    match terminal_evidence utc_now i s with
    | None => None
    | Some (event, close) =>
        Some {|
          o_order_id := ls_order_id s;
          o_insight_id := Some (uuid_to_string (i_insight_id i));
          o_strategy_type := None;
          o_asset := asset;
          o_qty := remaining_quantity i;
          o_filled_qty := if is_some close then remaining_quantity i else f0;
          o_limit_price := i_limit_price i;
          o_filled_price := cd_close_price <$> close;
          o_stop_price := i_stop_price i;
          o_side := i_side i;
          o_order_type := i_order_type i;
          o_time_in_force := GTC;
          o_status := event;
          o_order_class := i_order_class i;
          o_created_at := 0%Z;
          o_updated_at := 0%Z;
          o_submitted_at := 0%Z;
          o_filled_at := None;
          o_realized_pnl := cd_realized_pnl <$> close;
          o_position_accounting :=
            match close with
            | Some close => validated_position_accounting close (ls_order_id s)
            | None => None
            end;
          o_commission := cd_commission <$> close;
          o_swap := cd_swap <$> close;
          o_rejection_reason := ls_detail s;
          o_legs := None
        |}
    end.

Lemma observe_option_frame wall j a :
  let j' := observe_option wall j a in
  i_suppress_child_entries j' = i_suppress_child_entries j /\ i_close_price j' = i_close_price j /\
  i_broker_realized_pnl j' = i_broker_realized_pnl j.
Proof.
  cbv zeta. destruct a as [a|]; [|done]. simpl. unfold observe_position_accounting.
  repeat split_match; cbn [fst]; by fields.
Qed.

Lemma position_closed_frame now i p id q pnl c sw :
  let j := position_closed now i p id q pnl c sw in
  i_suppress_child_entries j = i_suppress_child_entries i /\ i_close_price j = Some p /\
  i_broker_realized_pnl j = pnl.
Proof.
  cbv zeta. unfold position_closed, update_state. cbv zeta. rewrite update_state_typed_form.
  repeat split_match; by fields.
Qed.

Lemma history_close_reduces now wall i order :
  unrouted i order TerminalHistory = false -> is_active (i_state i) = true ->
  i_order_id i = Some (o_order_id order) -> is_some_and is_finite (o_realized_pnl order) = true ->
  positive (fill_price order) = true ->
  exists i', reduce_broker_order now wall i order EvClosed TerminalHistory = (i', Terminal) /\
    i_state i' = Closed /\ i_suppress_child_entries i' = true /\
    i_close_price i' = Some (fill_price order) /\ i_broker_realized_pnl i' = o_realized_pnl order.
Proof.
  intros Hun Hact Hoid Hpnl [Hf Hp]%andb_true_iff. eexists. split.
  - unfold reduce_broker_order. rewrite Hun. cbv zeta.
    rewrite (bool_decide_eq_false_2 (i_state i = Closed)) by (by intros Hc; rewrite Hc in Hact).
    cbn [andb fst snd].
    assert (history_close i order EvClosed TerminalHistory = true) as ->; [|reflexivity].
    unfold history_close. rewrite Hpnl, Hf, Hp, Hoid, !bool_decide_eq_true_2 by done.
    by destruct (i_state i).
  - rewrite state_observe, state_position_closed.
    destruct (observe_option_frame wall
      (position_closed now (i <| i_suppress_child_entries := true |>) (fill_price order)
         (o_order_id order) (o_filled_qty order) (o_realized_pnl order) (o_commission order)
         (o_swap order)) (o_position_accounting order)) as (-> & -> & ->).
    destruct (position_closed_frame now (i <| i_suppress_child_entries := true |>)
      (fill_price order) (o_order_id order) (o_filled_qty order) (o_realized_pnl order)
      (o_commission order) (o_swap order)) as (-> & -> & ->).
    by fields.
Qed.

Lemma terminal_order_closed utc_now i asset s order :
  terminal_order utc_now i asset s = Some order -> ls_status s = LcClosed ->
  i_order_id i = Some (ls_order_id s) /\ o_order_id order = ls_order_id s /\
  o_asset order = asset /\ is_some_and is_finite (o_realized_pnl order) = true.
Proof.
  unfold terminal_order, terminal_evidence. intros Ht Hst. rewrite Hst in Ht.
  split_match_in Ht; [done|]. break_bool.
  destruct (ls_close_details s) as [close|]; [|done].
  destruct (usable_close utc_now i close) eqn:Hu; [|done].
  unfold usable_close in Hu. apply negb_true_iff in Hu. break_bool.
  injection Ht as <-. cbn. by match goal with Hb : bool_decide _ = true |- _ =>
    apply bool_decide_eq_true in Hb end.
Qed.

(** Confirmed broker history closes an active insight directly, even one whose entry fill
    was never seen, at the confirmed price and with the confirmed profit, and never launches
    its dormant children. *)
Theorem history_closes_active_insight utc_now now wall i asset s order :
  terminal_order utc_now i asset s = Some order -> ls_status s = LcClosed ->
  is_active (i_state i) = true -> i_symbol i = a_symbol asset -> ls_order_id s <> ""%string ->
  positive (fill_price order) = true ->
  exists i', reduce_broker_order now wall i order EvClosed TerminalHistory = (i', Terminal) /\
    i_state i' = Closed /\ i_suppress_child_entries i' = true /\
    i_close_price i' = Some (fill_price order) /\ i_broker_realized_pnl i' = o_realized_pnl order.
Proof.
  intros Ht Hst Hact Hsym Hid Hp.
  destruct (terminal_order_closed _ _ _ _ _ Ht Hst) as (Hoid & Hord & Hasset & Hpnl).
  apply history_close_reduces; try done; [|by rewrite Hord].
  unfold unrouted, trade_event_matches_insight. rewrite Hord, Hasset, Hsym, Hoid, String.eqb_refl.
  rewrite (bool_decide_eq_true_2 (Some _ = Some _)) by done.
  rewrite !orb_true_r. by destruct (ls_order_id s).
Qed.
End Reducer.

(** ** Concrete evidence *)

Definition demo_executed : Insight := order_accepted 2%Z demo_new "entry-a".
Definition demo_partly : Insight := partial_filled 3%Z demo_executed 1%float 100%float "entry-a" None.
Definition opposite (o : Order) : Order :=
  mkOrder "exit-a" (Some (uuid_to_string 7%N)) None (o_asset o) (o_qty o) (o_filled_qty o)
    (o_limit_price o) (Some 110%float) (o_stop_price o) Sell (o_order_type o)
    (o_time_in_force o) (o_status o) (o_order_class o) 0%Z 0%Z 0%Z None None None None None None None.

Lemma reduction_transitions_witness :
  evidence_allows Executed
    (i_state (reduce_broker_order 4%Z 0%Z demo_executed (demo_order EvFilled 2%float 2%float)
                EvFilled TradeStream).1) = true.
Proof.
  edestruct (reduction_transitions 4%Z 0%Z demo_executed (demo_order EvFilled 2%float 2%float)
               EvFilled TradeStream) as [Ht _]; [apply surjective_pairing|exact Ht].
Defined.


Lemma remainder_cancel_keeps_exposure_witness :
  exists i', reduce_broker_order 4%Z 0%Z demo_partly (demo_order EvCancelled 2%float 1%float)
               EvCancelled TradeStream = (i', LateEntryFilled) /\ i_state i' = Filled.
Proof.
  edestruct (remainder_cancel_keeps_exposure 4%Z 0%Z demo_partly
    (demo_order EvCancelled 2%float 1%float) EvCancelled TradeStream 1%float 100%float)
    as (i' & Hr & Hs & _); [reflexivity..|]. by exists i'.
Defined.

Lemma exit_partial_within_remainder_witness :
  (remaining_quantity demo_filled <. 1%float) = false /\
  i_state (reduce_broker_order 4%Z 0%Z demo_filled
    (opposite (demo_order EvPartialFilled 2%float 1%float)) EvPartialFilled TradeStream).1 = Filled.
Proof.
  edestruct (exit_partial_within_remainder 4%Z 0%Z demo_filled
    (opposite (demo_order EvPartialFilled 2%float 1%float))) as [[_ Hr]|(q & p & _ & Hs & _)];
    [reflexivity|reflexivity|apply surjective_pairing|vm_compute in Hr; discriminate|].
  split; [vm_compute; reflexivity|exact Hs].
Defined.

Lemma submit_response_never_closes_witness :
  i_state (reduce_broker_order 4%Z 0%Z demo_filled (demo_order EvFilled 2%float 2%float)
    EvFilled SubmitResponse).1 <> Closed.
Proof.
  eapply (submit_response_never_closes 4%Z 0%Z demo_filled (demo_order EvFilled 2%float 2%float));
    [vm_compute; discriminate|apply surjective_pairing].
Defined.

Definition demo_snapshot : OrderLifecycleSnapshot :=
  mkLifecycleSnapshot "entry-a" LcClosed None None None None
    (Some (mkCloseDetails 110%float 5%Z 20%float f0 f0 None)).

Lemma history_closes_active_insight_witness :
  exists order i', terminal_order 9%Z demo_executed demo_asset demo_snapshot = Some order /\
    reduce_broker_order 9%Z 9%Z demo_executed order EvClosed TerminalHistory = (i', Terminal) /\
    i_state i' = Closed.
Proof.
  eexists. edestruct (history_closes_active_insight 9%Z 9%Z 9%Z demo_executed demo_asset
    demo_snapshot) as (i' & Hr & Hs & _); [vm_compute; reflexivity|done|reflexivity|reflexivity
    |discriminate|vm_compute; reflexivity|].
  exists i'. split; [vm_compute; reflexivity|]. split; [exact Hr|exact Hs].
Defined.

Lemma reduction_keeps_wf_witness :
  insight_wf (reduce_broker_order 4%Z 0%Z demo_executed (demo_order EvFilled 2%float 2%float)
    EvFilled TradeStream).1.
Proof.
  eapply (reduction_keeps_wf 4%Z 0%Z demo_executed (demo_order EvFilled 2%float 2%float) EvFilled);
    [apply surjective_pairing|done|].
  apply wf_order_accepted, wf_set_quantity, wf_insight_new.
Defined.

(** A streamed replacement without a limit price clears the entry price of a limit entry but
    leaves its order type behind. *)
Example replaced_leaves_stale_type :
  let i := set_limit_price 3%Z demo_executed (Some 90%float) in
  let i' := (reduce_broker_order 4%Z 0%Z i (demo_order EvReplaced 2%float f0)
               EvReplaced TradeStream).1 in
  i_order_type i = Limit /\ i_limit_price i' = None /\ i_order_type i' = Limit.
Proof. repeat split; vm_compute; reflexivity. Qed.
