(* ===== verification/RecoveryViews.v ===== *)
(** * RecoveryViews: reference-counted recovery owners
    ([src/core/insight/recovery_views.rs])

    While an active insight depends on another insight's recovery data, a
    history-free view of that owner is retained after the owner is pruned.  A
    panic of the source ([expect], underflow) is [None]. *)
From S2P Require Import Prelude.
From S2P Require Import OrderedSet.
From S2P Require Import Float64.
From S2P Require Import Text.
From S2P Require Import BrokerTypes.
From S2P Require Import TimeFrame.
From S2P Require Import InsightTypes.
From S2P Require Import Commands.
From S2P Require Import ExecutionData.
From S2P Require Import Insight.

Record Retained := mkRetained {
  rt_id : Uuid;
  rt_parent : option Uuid;
  rt_state : InsightState;
  rt_symbol : string;
  rt_filled_price : option f64;
  rt_materialized : bool;
  rt_data : ExecutionData
}.

Definition capture (row : Insight) (materialized : bool) : Retained :=
  mkRetained (i_insight_id row) (i_parent_id row) (i_state row) (i_symbol row)
    (i_filled_price row) materialized (i_execution_data row).

Record RecoveryViews := mkViews {
  rv_owners : gmap Uuid (list Uuid);
  rv_counts : gmap Uuid nat;
  rv_retained : gmap Uuid Retained
}.
Definition default_views : RecoveryViews := mkViews ∅ ∅ ∅.

(** One turn of the release loop of [replace]. *)
Definition release (v : RecoveryViews) (id : Uuid) : option RecoveryViews :=
  match rv_counts v !! id with
  | None | Some O => None
  | Some (S n) =>
      Some (if decide (n = 0)
            then mkViews (rv_owners v) (delete id (rv_counts v)) (delete id (rv_retained v))
            else mkViews (rv_owners v) (<[id := n]> (rv_counts v)) (rv_retained v))
  end.

(** One turn of its acquire loop. *)
Definition acquire (v : RecoveryViews) (id : Uuid) : RecoveryViews :=
  mkViews (rv_owners v) (<[id := S (default 0 (rv_counts v !! id))]> (rv_counts v))
    (rv_retained v).

Fixpoint release_all (v : RecoveryViews) (ids : list Uuid) : option RecoveryViews :=
  match ids with
  | [] => Some v
  | id :: rest =>
      match release v id with
      | Some v => release_all v rest
      | None => None
      end
  end.

Definition without (l l' : list Uuid) : list Uuid := filter (fun id => id ∉ l') l.

Definition replace (v : RecoveryViews) (owner : Uuid) (dependencies : list Uuid)
    : option RecoveryViews :=
  let previous := default [] (rv_owners v !! owner) in
  if decide (previous = dependencies) then Some v
  else
    match release_all v (without previous dependencies) with
    | None => None
    | Some v =>
        let v := foldl acquire v (without dependencies previous) in
        let owners := match dependencies with
                      | [] => delete owner (rv_owners v)
                      | _ => <[owner := dependencies]> (rv_owners v)
                      end in
        Some (if decide (owners = ∅) then default_views
              else mkViews owners (rv_counts v) (rv_retained v))
    end.

Definition remove_owner (v : RecoveryViews) (owner : Uuid) : option RecoveryViews :=
  replace v owner [].

Definition refresh `{Json} (v : RecoveryViews) (row : Insight) : option RecoveryViews :=
  let v := mkViews (rv_owners v) (rv_counts v) (delete (i_insight_id row) (rv_retained v)) in
  if is_active (i_state row) then
    match recovery_dependencies (i_execution_data row) with
    | Ok dependencies => replace v (i_insight_id row) dependencies
    | Err _ => None
    end
  else replace v (i_insight_id row) [].

Definition retain (v : RecoveryViews) (row : Insight) (materialized : bool) : RecoveryViews :=
  match rv_counts v !! i_insight_id row with
  | Some _ =>
      mkViews (rv_owners v) (rv_counts v)
        (<[i_insight_id row := capture row materialized]> (rv_retained v))
  | None => v
  end.

(** The stack loop of [before_prune]: the last element is popped first and the
    children of a visited template are pushed behind it.  [fuel] bounds the
    number of pops by the size of the trees. *)
Fixpoint retain_children (fuel : nat) (materialized : gset Uuid) (pending : list Insight)
    (v : RecoveryViews) : RecoveryViews :=
  match fuel with
  | O => v
  | S fuel =>
      match last pending with
      | None => v
      | Some child =>
          let pending := removelast pending in
          if decide (i_insight_id child ∈ materialized)
          then retain_children fuel materialized pending v
          else retain_children fuel materialized (pending ++ i_children child)
                 (retain v child false)
      end
  end.

(** The number of insights in a list of trees. *)
Fixpoint tree_size (i : Insight) : nat := S (sum_list_with tree_size (i_children i)).

Definition before_prune (v : RecoveryViews) (row : Insight) (materialized : gset Uuid)
    : RecoveryViews :=
  if negb (is_inactive (i_state row)) then v
  else
    let v := retain v row true in
    retain_children (sum_list_with tree_size (i_children row)) materialized (i_children row) v.

(** ** Reference counts *)

(** How many owners depend on [d]. *)
Definition refcount (owners : gmap Uuid (list Uuid)) (d : Uuid) : nat :=
  count_where (fun l => bool_decide (d ∈ l)) owners.
Definition uses (l : list Uuid) (d : Uuid) : nat := if decide (d ∈ l) then 1 else 0.
Definition count (v : RecoveryViews) (d : Uuid) : nat := default 0 (rv_counts v !! d).

Record rv_ok (v : RecoveryViews) : Prop := {
  rv_deps o l : rv_owners v !! o = Some l -> l <> [] /\ NoDup l;
  rv_tidy d : rv_counts v !! d <> Some 0;
  rv_count d : count v d = refcount (rv_owners v) d;
  rv_retained_used d : is_Some (rv_retained v !! d) -> is_Some (rv_counts v !! d)
}.

Lemma uses_nil d : uses [] d = 0.
Proof. unfold uses. case_decide; [set_solver|done]. Qed.

Lemma refcount_split owners o d :
  refcount owners d = uses (default [] (owners !! o)) d + refcount (delete o owners) d.
Proof.
  unfold refcount. rewrite (count_where_split _ owners o). f_equal. unfold counts_one, uses.
  destruct (owners !! o) as [l|]; simpl.
  - by destruct (decide (d ∈ l)) as [?|?]; [rewrite bool_decide_true|rewrite bool_decide_false].
  - done.
Qed.

(** The parts of [rv_ok] the loops of [replace] keep while counts and owners
    disagree. *)
Definition counts_ok (v : RecoveryViews) : Prop :=
  (forall d, rv_counts v !! d <> Some 0) /\
  (forall d, is_Some (rv_retained v !! d) -> is_Some (rv_counts v !! d)).

Lemma count_pos v d : counts_ok v -> (0 < count v d <-> is_Some (rv_counts v !! d)).
Proof.
  intros [Ht _]. specialize (Ht d). unfold count. destruct (rv_counts v !! d) as [[|n]|]; simpl.
  - done.
  - split; [eauto|lia].
  - split; [lia|by intros []].
Qed.

Lemma release_spec v id :
  counts_ok v -> 0 < count v id ->
  exists v', release v id = Some v' /\ rv_owners v' = rv_owners v /\ counts_ok v' /\
    (forall d, count v' d = count v d - uses [id] d) /\
    (forall d, 0 < count v' d -> rv_retained v' !! d = rv_retained v !! d).
Proof.
  intros [Ht Hr] Hc. unfold release, count in *.
  destruct (rv_counts v !! id) as [[|n]|] eqn:E; simpl in Hc; [lia| |lia].
  assert (Huses : forall d, uses [id] d = if decide (d = id) then 1 else 0).
  { intros d. unfold uses. do 2 case_decide; set_solver. }
  eexists. split; [done|]. case_decide as Hn; simpl.
  - subst n. split; [done|]. split; [split|split]; simpl.
    + intros d. destruct (decide (d = id)) as [->|]; [by rewrite lookup_delete_eq|].
      rewrite lookup_delete_ne by done. apply Ht.
    + intros d. destruct (decide (d = id)) as [->|]; [rewrite lookup_delete_eq; by intros []|].
      rewrite !lookup_delete_ne by done. apply Hr.
    + intros d. rewrite Huses. destruct (decide (d = id)) as [->|].
      * by rewrite lookup_delete_eq, E.
      * rewrite lookup_delete_ne by done. lia.
    + intros d. destruct (decide (d = id)) as [->|]; [rewrite lookup_delete_eq; simpl; lia|].
      by rewrite !lookup_delete_ne.
  - split; [done|]. split; [split|split]; simpl.
    + intros d. destruct (decide (d = id)) as [->|]; [rewrite lookup_insert_eq; congruence|].
      rewrite lookup_insert_ne by done. apply Ht.
    + intros d Hd. destruct (decide (d = id)) as [->|]; [rewrite lookup_insert_eq; eauto|].
      rewrite lookup_insert_ne by done. auto.
    + intros d. rewrite Huses. destruct (decide (d = id)) as [->|].
      * rewrite lookup_insert_eq, E. simpl. lia.
      * rewrite lookup_insert_ne by done. lia.
    + done.
Qed.

Lemma release_all_spec v ids :
  counts_ok v -> NoDup ids -> (forall d, d ∈ ids -> 0 < count v d) ->
  exists v', release_all v ids = Some v' /\ rv_owners v' = rv_owners v /\ counts_ok v' /\
    (forall d, count v' d = count v d - uses ids d) /\
    (forall d, 0 < count v' d -> rv_retained v' !! d = rv_retained v !! d).
Proof.
  revert v. induction ids as [|id ids IH]; intros v Hok Hnd Hpos; simpl.
  - exists v. repeat split; try apply Hok. intros d.
    rewrite uses_nil. lia.
  - apply NoDup_cons in Hnd as [Hni Hnd].
    destruct (release_spec v id Hok) as (v1 & -> & Ho & Hok1 & Hc1 & Hr1); [apply Hpos; by left|].
    destruct (IH v1 Hok1 Hnd) as (v2 & Hrel & Ho2 & Hok2 & Hc2 & Hr2).
    { intros d Hd. rewrite Hc1. unfold uses. rewrite decide_False by set_solver.
      assert (d ∈ id :: ids) by (by right). specialize (Hpos d). lia. }
    exists v2. rewrite Hrel, Ho2, Ho. repeat split; try done; try apply Hok2.
    + intros d. rewrite Hc2, Hc1. unfold uses.
      destruct (decide (d ∈ ids)), (decide (d ∈ [id])), (decide (d ∈ id :: ids)); set_solver by lia.
    + intros d Hd. rewrite Hr2 by done. apply Hr1. rewrite Hc2 in Hd. lia.
Qed.

Lemma acquire_all_spec v ids :
  counts_ok v -> NoDup ids ->
  let v' := foldl acquire v ids in
  rv_owners v' = rv_owners v /\ counts_ok v' /\ rv_retained v' = rv_retained v /\
  (forall d, count v' d = count v d + uses ids d).
Proof.
  revert v. induction ids as [|id ids IH]; intros v Hok Hnd; simpl.
  - repeat split; try apply Hok. intros d.
    rewrite uses_nil. lia.
  - apply NoDup_cons in Hnd as [Hni Hnd]. destruct Hok as [Ht Hr].
    destruct (IH (acquire v id)) as (Ho & Hok2 & Hret & Hc); [split|done|].
    + intros d. simpl. destruct (decide (d = id)) as [->|]; [by rewrite lookup_insert_eq|].
      rewrite lookup_insert_ne by done. apply Ht.
    + intros d Hd. simpl in *. destruct (decide (d = id)) as [->|]; [rewrite lookup_insert_eq; eauto|].
      rewrite lookup_insert_ne by done. auto.
    + split; [done|]. split; [done|]. split; [done|]. intros d. rewrite Hc. unfold count, acquire, uses.
      simpl. destruct (decide (d = id)) as [->|].
      * rewrite lookup_insert_eq. rewrite (decide_False (P := id ∈ ids)) by done.
        rewrite decide_True by by left. simpl. lia.
      * rewrite lookup_insert_ne by done.
        destruct (decide (d ∈ ids)), (decide (d ∈ id :: ids)); set_solver by lia.
Qed.

Lemma uses_without l l' d : uses (without l l') d = uses l d - uses l' d.
Proof.
  unfold uses, without.
  destruct (decide (d ∈ l)), (decide (d ∈ l')),
    (decide (d ∈ filter (fun id => id ∉ l') l)) as [Hf|Hf];
    rewrite ?list_elem_of_filter in Hf; tauto || lia.
Qed.

Lemma rv_ok_counts v : rv_ok v -> counts_ok v.
Proof. intros [? ? ? ?]. by split. Qed.

Definition owners_after (v : RecoveryViews) (o : Uuid) (deps : list Uuid)
    : gmap Uuid (list Uuid) :=
  match deps with [] => delete o (rv_owners v) | _ => <[o := deps]> (rv_owners v) end.

Lemma refcount_after v o deps d :
  refcount (owners_after v o deps) d = uses deps d + refcount (delete o (rv_owners v)) d.
Proof.
  unfold owners_after. destruct deps as [|x deps]; [done|].
  rewrite (refcount_split _ o), lookup_insert_eq, delete_insert_eq. done.
Qed.

Lemma rv_ok_empty v : rv_ok v -> rv_owners v = ∅ -> v = default_views.
Proof.
  intros [Hd Ht Hc Hr] Ho. destruct v as [ow ct rt]; simpl in *. subst ow. unfold default_views.
  assert (Hct : ct = ∅).
  { apply map_eq. intros d. rewrite lookup_empty. specialize (Hc d); specialize (Ht d).
    unfold count in Hc. simpl in *. unfold refcount in Hc; rewrite count_where_empty in Hc.
    destruct (ct !! d) as [n|]; simpl in *; [by subst n|done]. }
  f_equal; [done|]. apply map_eq. intros d. rewrite lookup_empty. subst ct.
  destruct (rt !! d) eqn:E; [|done]. destruct (Hr d) as [? Hx]; [eauto|].
  by rewrite lookup_empty in Hx.
Qed.

(** Replacing an owner's dependencies never panics and keeps the reference
    counts exact; every view that is still needed is kept as it is. *)
Lemma replace_spec v o deps :
  rv_ok v -> NoDup deps ->
  exists v', replace v o deps = Some v' /\ rv_ok v' /\ rv_owners v' = owners_after v o deps /\
    (forall d, is_Some (rv_counts v' !! d) -> rv_retained v' !! d = rv_retained v !! d).
Proof.
  intros Hv Hnd. unfold replace. set (prev := default [] (rv_owners v !! o)).
  assert (Hprev : NoDup prev /\ (prev = [] -> rv_owners v !! o = None)).
  { unfold prev. destruct (rv_owners v !! o) as [l|] eqn:E; simpl.
    - destruct (rv_deps v Hv _ _ E) as [? ?]. done.
    - split; [constructor|done]. }
  case_decide as Heq.
  - exists v. split; [done|]. split; [done|]. split; [|done]. unfold owners_after.
    destruct deps as [|x deps]; [rewrite delete_id; [done|by apply Hprev]|].
    rewrite insert_id; [done|]. unfold prev in Heq.
    destruct (rv_owners v !! o); [simpl in Heq; by subst|done].
  - destruct (release_all_spec v (without prev deps)) as (v1 & -> & Ho1 & Hok1 & Hc1 & Hr1).
    + by apply rv_ok_counts.
    + apply NoDup_filter, Hprev.
    + intros d [_ Hd]%list_elem_of_filter. rewrite rv_count by done.
      rewrite (refcount_split _ o). fold prev. unfold uses. rewrite decide_True by done. lia.
    + destruct (acquire_all_spec v1 (without deps prev) Hok1) as (Ho2 & Hok2 & Hret2 & Hc2);
        [by apply NoDup_filter|].
      set (v2 := foldl acquire v1 (without deps prev)) in *. rewrite Ho2, Ho1.
      fold (owners_after v o deps).
      set (v3 := mkViews (owners_after v o deps) (rv_counts v2) (rv_retained v2)).
      assert (Hv3 : rv_ok v3).
      { destruct Hok2 as [Ht2 Hru2]. split; [|done| |done].
        - intros o' l. simpl. unfold owners_after. destruct deps as [|x deps].
          + intros [_ Hl]%lookup_delete_Some. exact (rv_deps v Hv _ _ Hl).
          + intros [[_ <-]|[_ Hl]]%lookup_insert_Some; [done|]. exact (rv_deps v Hv _ _ Hl).
        - intros d. change (count v3 d) with (count v2 d). simpl.
          rewrite Hc2, Hc1, refcount_after, !uses_without, (rv_count v Hv), (refcount_split _ o).
          fold prev. unfold uses. repeat case_decide; lia. }
      assert (Hkeep : forall d, is_Some (rv_counts v3 !! d) -> rv_retained v3 !! d = rv_retained v !! d).
      { intros d Hd. change (rv_retained v3) with (rv_retained v2). rewrite Hret2.
        change (rv_counts v3) with (rv_counts v2) in Hd. apply (count_pos v2 d Hok2) in Hd.
        rewrite Hc2 in Hd.
        destruct (decide (0 < count v1 d)) as [Hp|Hp]; [by apply Hr1|].
        assert (Hno : forall w, counts_ok w -> ~ 0 < count w d -> rv_retained w !! d = None).
        { intros w Hw Hz. destruct (rv_retained w !! d) eqn:E; [|done]. exfalso. apply Hz.
          apply (count_pos w d Hw). apply Hw. eauto. }
        rewrite (Hno v1 Hok1 Hp). symmetry. apply Hno; [by apply rv_ok_counts|].
        rewrite Hc1 in Hp, Hd. rewrite !uses_without in *. unfold uses in *.
        repeat case_decide; lia. }
      eexists. split; [done|]. case_decide as Hempty.
      * assert (v3 = default_views) as <- by (by apply rv_ok_empty). split; [done|]. split; [|done].
        done.
      * by split.
Qed.

Lemma counted v o deps d :
  rv_ok v -> rv_owners v !! o = Some deps -> d ∈ deps -> is_Some (rv_counts v !! d).
Proof.
  intros Hv Ho Hd. apply (count_pos v d (rv_ok_counts v Hv)).
  rewrite (rv_count v Hv), (refcount_split _ o), Ho. simpl. unfold uses.
  rewrite decide_True by done. lia.
Qed.

Lemma dependencies_NoDup `{Json} d deps : recovery_dependencies d = Ok deps -> NoDup deps.
Proof.
  unfold recovery_dependencies, decode_dependencies. intros Hd.
  assert (Hs : forall l, out_of_order l = false -> Sorted N.lt l).
  { induction l as [|a l IH]; [constructor|]. simpl. destruct l as [|b l].
    - intros _. repeat constructor.
    - intros [Hab Hr]%orb_false_iff. constructor; [by apply IH|]. constructor. lia. }
  repeat split_match_in Hd; simplify_eq; [|constructor]. break_bool.
  apply sorted_NoDup, Sorted_StronglySorted; [|by apply Hs]. intros x y z. lia.
Qed.

(** ** Retention *)

Lemma retain_frame v row m :
  rv_owners (retain v row m) = rv_owners v /\ rv_counts (retain v row m) = rv_counts v /\
  (forall d, d <> i_insight_id row -> rv_retained (retain v row m) !! d = rv_retained v !! d).
Proof.
  unfold retain. destruct (rv_counts v !! i_insight_id row); [|done].
  repeat split. intros d Hd. simpl. by rewrite lookup_insert_ne.
Qed.

Lemma retain_ok v row m : rv_ok v -> rv_ok (retain v row m).
Proof.
  intros [Hd Ht Hc Hr]. unfold retain. destruct (rv_counts v !! i_insight_id row) eqn:E; [|by split].
  split; try done. simpl. intros d. destruct (decide (d = i_insight_id row)) as [->|].
  - eauto.
  - rewrite lookup_insert_ne by done. auto.
Qed.

Lemma retain_children_frame fuel m pending v :
  let v' := retain_children fuel m pending v in
  (rv_ok v -> rv_ok v') /\ rv_owners v' = rv_owners v /\ rv_counts v' = rv_counts v /\
  (forall d, d ∈ m -> rv_retained v' !! d = rv_retained v !! d).
Proof.
  revert pending v. induction fuel as [|fuel IH]; intros pending v; simpl; [done|].
  destruct (last pending) as [c|]; [|done]. case_decide as Hm; [apply IH|].
  destruct (IH (removelast pending ++ i_children c) (retain v c false)) as (Hok & Ho & Hc & Hr).
  destruct (retain_frame v c false) as (Ho' & Hc' & Hr').
  rewrite Ho, Hc, Ho', Hc'. split; [auto using retain_ok|]. split; [done|]. split; [done|].
  intros d Hd. rewrite Hr, Hr'; [done| |done]. by intros ->.
Qed.

Lemma before_prune_ok v row m : rv_ok v -> rv_ok (before_prune v row m).
Proof.
  intros Hv. unfold before_prune. split_match; [done|].
  apply retain_children_frame, retain_ok, Hv.
Qed.

(** Pruning a terminal row keeps its view when it is counted; the view of any
    other materialized row is left alone. *)
Lemma before_prune_frame v row m :
  rv_owners (before_prune v row m) = rv_owners v /\
  rv_counts (before_prune v row m) = rv_counts v /\
  (forall d, d ∈ m -> d <> i_insight_id row ->
     rv_retained (before_prune v row m) !! d = rv_retained v !! d) /\
  (is_inactive (i_state row) = true -> i_insight_id row ∈ m ->
   is_Some (rv_counts v !! i_insight_id row) ->
     rv_retained (before_prune v row m) !! i_insight_id row = Some (capture row true)).
Proof.
  unfold before_prune. destruct (is_inactive (i_state row)); cbn [negb]; [|done].
  destruct (retain_frame v row true) as (Ho & Hc & Hr).
  destruct (retain_children_frame (sum_list_with tree_size (i_children row)) m
              (i_children row) (retain v row true)) as (_ & Ho' & Hc' & Hr').
  rewrite Ho', Hc', Ho, Hc. split; [done|]. split; [done|]. split.
  - intros d Hd Hne. by rewrite Hr', Hr.
  - intros _ Hm [n Hn]. rewrite Hr' by done. unfold retain. rewrite Hn. apply lookup_insert_eq.
Qed.

Lemma refresh_ok `{Json} v row :
  rv_ok v -> is_ok (recovery_dependencies (i_execution_data row)) = true ->
  exists v', refresh v row = Some v' /\ rv_ok v'.
Proof.
  intros Hv Hdep. unfold refresh.
  set (v0 := mkViews _ _ _).
  assert (Hv0 : rv_ok v0).
  { destruct Hv as [Hd Ht Hc Hr]. split; try done. simpl. intros d [r [_ Hl]%lookup_delete_Some]. eauto. }
  destruct (is_active (i_state row)).
  - destruct (recovery_dependencies (i_execution_data row)) as [deps|] eqn:E; [|done].
    destruct (replace_spec v0 (i_insight_id row) deps Hv0) as (v' & Hr & Hok & _);
      [by eapply dependencies_NoDup|eauto].
  - destruct (replace_spec v0 (i_insight_id row) [] Hv0) as (v' & Hr & Hok & _); [constructor|eauto].
Qed.

(** The recovery registry is a sound reference count: registering, changing or dropping an
    insight's dependencies never panics, the count of an owner is exactly the number of active
    dependents, and the retained view of an owner survives unchanged for as long as one
    dependent remains. *)
Theorem recovery_refcount_exact v o deps :
  rv_ok v -> NoDup deps ->
  exists v', replace v o deps = Some v' /\ rv_ok v' /\
    (forall d, count v' d = uses deps d + refcount (delete o (rv_owners v)) d) /\
    (forall d, 0 < count v' d -> rv_retained v' !! d = rv_retained v !! d) /\
    (forall d, count v' d = 0 -> rv_retained v' !! d = None).
Proof.
  intros Hv Hnd. destruct (replace_spec v o deps Hv Hnd) as (v' & Hr & Hok & Ho & Hk).
  exists v'. split; [done|]. split; [done|]. split; [|split].
  - intros d. by rewrite (rv_count v' Hok), Ho, refcount_after.
  - intros d Hd. apply Hk. by apply (count_pos v' d (rv_ok_counts v' Hok)).
  - intros d Hd. destruct (rv_retained v' !! d) eqn:E; [|done].
    assert (Hs : is_Some (rv_counts v' !! d)) by (apply (rv_retained_used v' Hok); eauto).
    apply (count_pos v' d (rv_ok_counts v' Hok)) in Hs. lia.
Qed.

Lemma default_views_ok : rv_ok default_views.
Proof.
  split; simpl.
  - intros o l. by rewrite lookup_empty.
  - intros d. by rewrite lookup_empty.
  - intros d. unfold count. simpl. unfold refcount. by rewrite lookup_empty, count_where_empty.
  - intros d. rewrite lookup_empty. by intros [].
Qed.

Lemma recovery_refcount_exact_witness :
  exists v', replace default_views 1%N [5%N; 9%N] = Some v' /\ count v' 9%N = 1.
Proof.
  destruct (recovery_refcount_exact default_views 1%N [5%N; 9%N]) as (v' & Hr & _ & Hc & _);
    [apply default_views_ok|repeat constructor; set_solver|].
  exists v'. split; [exact Hr|]. rewrite (Hc 9%N). vm_compute. reflexivity.
Defined.
