(* ===== verification/Collection.v ===== *)
(** * Collection: the insight registry and its indexes ([src/core/insight/mod.rs])

    [InsightCollection] owns every materialized insight of a strategy and keeps,
    beside the rows, the indexes the engine reads in bounded pages: the active
    set, the active set of every symbol, the terminal rows that wait to be
    pruned, the dirty rows, lifetime state counts, the order-id routes and the
    recovery views.  An operation that can reach a panic of the source returns
    an [option].

    [coll_ok] is the consistency of the indexes.  [collection_stays_consistent]
    shows that no sequence of operations panics or leaves it; the other
    theorems describe a refresh, order routing, the page readers, the descendant
    walk and pruning. *)
From S2P Require Import Prelude.
From S2P Require Import OrderedSet.
From S2P Require Import Float64.
From S2P Require Import Text.
From S2P Require Import BrokerTypes.
From S2P Require Import TimeFrame.
From S2P Require Import InsightTypes.
From S2P Require Import Commands.
From S2P Require Import ExecutionData.
From S2P Require Import Insight.
From S2P Require Import RecoveryViews.

Record InsightCollection := mkCollection {
  c_insights : gmap Uuid Insight;
  c_dirty : gset Uuid;
  c_active : gset Uuid;
  c_ordered_active : gset Uuid;
  c_by_symbol : gmap string (gset Uuid);
  c_symbol_by_id : gmap Uuid string;
  c_terminal : gset Uuid;
  c_state_counts : gmap InsightState nat;
  c_last_state : gmap Uuid InsightState;
  c_order_to_insight : gmap string Uuid;
  c_insight_to_orders : gmap Uuid (list string);
  c_index_enabled : bool;
  c_materialized : gset Uuid;
  c_persistence : bool;
  c_exec_dirty : gset Uuid;
  c_pins : gset Uuid;
  c_views : RecoveryViews
}.

Definition eta_collection (c : InsightCollection) : InsightCollection :=
  mkCollection (c_insights c) (c_dirty c) (c_active c) (c_ordered_active c) (c_by_symbol c)
    (c_symbol_by_id c) (c_terminal c) (c_state_counts c) (c_last_state c)
    (c_order_to_insight c) (c_insight_to_orders c) (c_index_enabled c) (c_materialized c)
    (c_persistence c) (c_exec_dirty c) (c_pins c) (c_views c).
#[export] Instance set_c_insights : Setter c_insights := ltac:(solve_setter eta_collection).
#[export] Instance set_c_dirty : Setter c_dirty := ltac:(solve_setter eta_collection).
#[export] Instance set_c_active : Setter c_active := ltac:(solve_setter eta_collection).
#[export] Instance set_c_ordered_active : Setter c_ordered_active := ltac:(solve_setter eta_collection).
#[export] Instance set_c_by_symbol : Setter c_by_symbol := ltac:(solve_setter eta_collection).
#[export] Instance set_c_symbol_by_id : Setter c_symbol_by_id := ltac:(solve_setter eta_collection).
#[export] Instance set_c_terminal : Setter c_terminal := ltac:(solve_setter eta_collection).
#[export] Instance set_c_state_counts : Setter c_state_counts := ltac:(solve_setter eta_collection).
#[export] Instance set_c_last_state : Setter c_last_state := ltac:(solve_setter eta_collection).
#[export] Instance set_c_order_to_insight : Setter c_order_to_insight := ltac:(solve_setter eta_collection).
#[export] Instance set_c_insight_to_orders : Setter c_insight_to_orders := ltac:(solve_setter eta_collection).
#[export] Instance set_c_index_enabled : Setter c_index_enabled := ltac:(solve_setter eta_collection).
#[export] Instance set_c_materialized : Setter c_materialized := ltac:(solve_setter eta_collection).
#[export] Instance set_c_persistence : Setter c_persistence := ltac:(solve_setter eta_collection).
#[export] Instance set_c_exec_dirty : Setter c_exec_dirty := ltac:(solve_setter eta_collection).
#[export] Instance set_c_pins : Setter c_pins := ltac:(solve_setter eta_collection).
#[export] Instance set_c_views : Setter c_views := ltac:(solve_setter eta_collection).

Definition collection_new : InsightCollection :=
  mkCollection ∅ ∅ ∅ ∅ ∅ ∅ ∅ ∅ ∅ ∅ ∅ true ∅ false ∅ ∅ default_views.

Definition set_order_id_index_enabled (c : InsightCollection) (enabled : bool)
    : InsightCollection :=
  let c := c <| c_index_enabled := enabled |> in
  if enabled then c
  else c <| c_order_to_insight := ∅ |> <| c_insight_to_orders := ∅ |>.

(** ** Tracking *)

(** The order ids of the bracket legs, in the order of the source. *)
Definition leg_ids (legs : OrderLegs) : list string :=
  omap (fun leg => leg ≫= leg_order_id) [take_profit legs; stop_loss legs; trailing_stop legs].
Definition collect_order_ids (i : Insight) : list string :=
  option_list (i_order_id i) ++ option_list (i_close_order_id i) ++ leg_ids (i_legs i).

Definition decrement_state_count (counts : gmap InsightState nat) (state : InsightState)
    : gmap InsightState nat :=
  match counts !! state with
  | None => counts
  | Some count =>
      if decide (count - 1 = 0) then delete state counts else <[state := count - 1]> counts
  end.
Definition increment_state_count (counts : gmap InsightState nat) (state : InsightState)
    : gmap InsightState nat := <[state := S (default 0 (counts !! state))]> counts.

Definition update_state_tracking (c : InsightCollection) (id : Uuid) (current : InsightState)
    : InsightCollection :=
  let previous := c_last_state c !! id in
  let c := c <| c_last_state := <[id := current]> (c_last_state c) |> in
  match previous with
  | Some previous =>
      if decide (previous = current) then c
      else c <| c_state_counts :=
                  increment_state_count (decrement_state_count (c_state_counts c) previous) current |>
  | None => c <| c_state_counts := increment_state_count (c_state_counts c) current |>
  end.

Definition unroute (order_ids : list string) (m : gmap string Uuid) : gmap string Uuid :=
  foldl (fun m o => delete o m) m order_ids.
Definition route (id : Uuid) (order_ids : list string) (m : gmap string Uuid) : gmap string Uuid :=
  foldl (fun m o => <[o := id]> m) m order_ids.

Definition index_order_ids_for_insight (c : InsightCollection) (id : Uuid)
    (order_ids : list string) : InsightCollection :=
  if negb (c_index_enabled c) then c
  else
    match c_insight_to_orders c !! id with
    | Some current =>
        if decide (current = order_ids) then c
        else
          c <| c_order_to_insight :=
                 route id order_ids (unroute current (c_order_to_insight c)) |>
            <| c_insight_to_orders :=
                 match order_ids with
                 | [] => delete id (c_insight_to_orders c)
                 | _ => <[id := order_ids]> (c_insight_to_orders c)
                 end |>
    | None =>
        match order_ids with
        | [] => c
        | _ =>
            c <| c_order_to_insight := route id order_ids (c_order_to_insight c) |>
              <| c_insight_to_orders := <[id := order_ids]> (c_insight_to_orders c) |>
        end
    end.

Definition remove_symbol_tracking (c : InsightCollection) (id : Uuid) : InsightCollection :=
  match c_symbol_by_id c !! id with
  | None => c
  | Some symbol =>
      let c := c <| c_symbol_by_id := delete id (c_symbol_by_id c) |> in
      match c_by_symbol c !! symbol with
      | None => c
      | Some ids =>
          let ids := ids ∖ {[id]} in
          c <| c_by_symbol := if decide (ids = ∅) then delete symbol (c_by_symbol c)
                              else <[symbol := ids]> (c_by_symbol c) |>
      end
  end.

Definition refresh_symbol_tracking (c : InsightCollection) (id : Uuid) : InsightCollection :=
  let symbol := match c_insights c !! id with
                | Some row => if is_inactive (i_state row) then None else Some (i_symbol row)
                | None => None
                end in
  if decide (symbol = c_symbol_by_id c !! id) then c
  else
    let c := remove_symbol_tracking c id in
    match symbol with
    | None => c
    | Some symbol =>
        c <| c_by_symbol :=
               <[symbol := default ∅ (c_by_symbol c !! symbol) ∪ {[id]}]> (c_by_symbol c) |>
          <| c_symbol_by_id := <[id := symbol]> (c_symbol_by_id c) |>
    end.

Definition remove_tracking (c : InsightCollection) (id : Uuid) : option InsightCollection :=
  match remove_owner (c_views c) id with
  | None => None
  | Some views =>
      let c := remove_symbol_tracking (c <| c_views := views |>) id in
      let c := c <| c_dirty := c_dirty c ∖ {[id]} |>
                 <| c_active := c_active c ∖ {[id]} |>
                 <| c_ordered_active := c_ordered_active c ∖ {[id]} |>
                 <| c_terminal := c_terminal c ∖ {[id]} |> in
      let c := match c_last_state c !! id with
               | None => c
               | Some previous =>
                   c <| c_last_state := delete id (c_last_state c) |>
                     <| c_state_counts := decrement_state_count (c_state_counts c) previous |>
               end in
      Some (match c_insight_to_orders c !! id with
            | None => c
            | Some order_ids =>
                c <| c_insight_to_orders := delete id (c_insight_to_orders c) |>
                  <| c_order_to_insight := unroute order_ids (c_order_to_insight c) |>
            end)
  end.

Section Rows.
Context `{Json}.

Definition refresh_runtime_tracking (c : InsightCollection) (id : Uuid)
    : option InsightCollection :=
  match c_insights c !! id with
  | None => remove_tracking (refresh_symbol_tracking c id) id
  | Some row =>
      match refresh (c_views c) row with
      | None => None
      | Some views =>
          let c := refresh_symbol_tracking (c <| c_views := views |>) id in
          let order_ids := if c_index_enabled c then collect_order_ids row else [] in
          let c := update_state_tracking c id (i_state row) in
          let c := index_order_ids_for_insight c id order_ids in
          let c := c <| c_dirty := {[id]} ∪ c_dirty c |> in
          let c := if c_persistence c then c <| c_exec_dirty := {[id]} ∪ c_exec_dirty c |> else c in
          Some (if is_inactive (i_state row)
                then c <| c_terminal := {[id]} ∪ c_terminal c |>
                       <| c_active := c_active c ∖ {[id]} |>
                       <| c_ordered_active := c_ordered_active c ∖ {[id]} |>
                else c <| c_terminal := c_terminal c ∖ {[id]} |>
                       <| c_active := {[id]} ∪ c_active c |>
                       <| c_ordered_active := {[id]} ∪ c_ordered_active c |>)
      end
  end.

Definition add_insight (c : InsightCollection) (row : Insight) : option InsightCollection :=
  let id := i_insight_id row in
  refresh_runtime_tracking
    (c <| c_materialized := {[id]} ∪ c_materialized c |>
       <| c_insights := <[id := row]> (c_insights c) |>) id.

Definition was_materialized (c : InsightCollection) (id : Uuid) : bool :=
  bool_decide (id ∈ c_materialized c).

Definition take_for_update (c : InsightCollection) (id : Uuid)
    : InsightCollection * option Insight :=
  (c <| c_insights := delete id (c_insights c) |>, c_insights c !! id).

Definition restore_after_update (c : InsightCollection) (row : Insight) (changed : bool)
    : option InsightCollection :=
  let id := i_insight_id row in
  let c := c <| c_insights := <[id := row]> (c_insights c) |> in
  if changed then refresh_runtime_tracking c id else Some c.
End Rows.

(** [get_mut]; the closure is what the caller does with the borrow. *)
Definition get_mut (c : InsightCollection) (id : Uuid) (f : Insight -> Insight)
    : InsightCollection :=
  let c := if c_persistence c && bool_decide (is_Some (c_insights c !! id))
           then c <| c_exec_dirty := {[id]} ∪ c_exec_dirty c |> else c in
  c <| c_insights := alter f id (c_insights c) |>.
(** [get_insight_mut], which does not mark the row for persistence. *)
Definition get_insight_mut (c : InsightCollection) (id : Uuid) (f : Insight -> Insight)
    : InsightCollection := c <| c_insights := alter f id (c_insights c) |>.

Definition remove_dirty (c : InsightCollection) (id : Uuid) : InsightCollection :=
  c <| c_dirty := c_dirty c ∖ {[id]} |>.
Definition take_dirty_insight_ids (c : InsightCollection) : InsightCollection * list Uuid :=
  (c <| c_dirty := ∅ |>, btree_elements (c_dirty c)).

(** A row that persistence still needs is not pruned. *)
Definition held_for_persistence (c : InsightCollection) (id : Uuid) : bool :=
  c_persistence c && (bool_decide (id ∈ c_exec_dirty c) || bool_decide (id ∈ c_pins c)).

Definition prune_terminal_insight (c : InsightCollection) (id : Uuid)
    : option InsightCollection :=
  if held_for_persistence c id then Some c
  else
    let row := c_insights c !! id in
    let c := c <| c_insights := delete id (c_insights c) |> in
    let c := match row with
             | Some row => c <| c_views := before_prune (c_views c) row (c_materialized c) |>
             | None => c
             end in
    remove_tracking c id.

Fixpoint prune_each (c : InsightCollection) (ids : list Uuid) : option InsightCollection :=
  match ids with
  | [] => Some c
  | id :: ids =>
      match prune_terminal_insight c id with
      | Some c => prune_each c ids
      | None => None
      end
  end.

Definition prune_ids (c : InsightCollection) : list Uuid :=
  filter (fun id => held_for_persistence c id = false) (btree_elements (c_terminal c)).
Definition prune_terminal_insights_without_aqs (c : InsightCollection)
    : option (InsightCollection * list Uuid) :=
  match prune_each c (prune_ids c) with
  | Some c' => Some (c', prune_ids c)
  | None => None
  end.

(** [keys] is the iteration order of the hash table, which the source leaves
    open. *)
Definition prune_inactive_insights (c : InsightCollection) (keys : list Uuid)
    : option InsightCollection :=
  prune_each c
    (filter (fun id => is_some_and (fun row => is_inactive (i_state row)) (c_insights c !! id)
                       = true) keys).

Definition remove_insight (c : InsightCollection) (id : Uuid)
    : option (InsightCollection * option Insight) :=
  let removed := c_insights c !! id in
  let c := c <| c_insights := delete id (c_insights c) |> in
  match removed with
  | None => Some (c, None)
  | Some row =>
      match remove_tracking
              (c <| c_views := before_prune (c_views c) row (c_materialized c) |>) id with
      | Some c => Some (c, Some row)
      | None => None
      end
  end.

Definition enable_execution_persistence (c : InsightCollection) : InsightCollection :=
  c <| c_persistence := true |>
    <| c_exec_dirty := c_exec_dirty c ∪ dom (c_insights c) |>.
Definition execution_dirty_ids (c : InsightCollection) (limit : nat) : list Uuid :=
  take limit (btree_elements (c_exec_dirty c)).
Definition execution_pin (c : InsightCollection) (id : Uuid) : InsightCollection :=
  c <| c_pins := {[id]} ∪ c_pins c |>.
Definition execution_unpin (c : InsightCollection) (id : Uuid) : InsightCollection :=
  c <| c_pins := c_pins c ∖ {[id]} |>.
Definition execution_saved (c : InsightCollection) (id : Uuid) : InsightCollection :=
  c <| c_exec_dirty := c_exec_dirty c ∖ {[id]} |>.
Definition mark_execution_dirty (c : InsightCollection) (id : Uuid) : InsightCollection :=
  if c_persistence c then c <| c_exec_dirty := {[id]} ∪ c_exec_dirty c |> else c.

(** ** Readers *)

Definition sort_unstable (ids : list Uuid) : list Uuid := merge_sort N.le ids.

Definition ids (c : InsightCollection) : list Uuid :=
  sort_unstable (elements (dom (c_insights c))).

(** [select_nth_unstable(limit)] leaves the [limit] smallest ids in front; a
    sorted vector is one such arrangement. *)
Definition insight_ids_for_live_sync_limited (c : InsightCollection)
    (include_full_reconcile : bool) (limit : option nat) : list Uuid :=
  if decide (limit = Some 0) then []
  else if negb include_full_reconcile then
    let selected :=
      filter (fun id => bool_decide (id ∈ c_dirty c) || negb (held_for_persistence c id) = true)
        (btree_elements (c_dirty c ∪ c_terminal c)) in
    match limit with Some limit => take limit selected | None => selected end
  else
    let all := ids c in
    let all := match limit with
               | Some limit => if limit <? length all then take limit (sort_unstable all) else all
               | None => all
               end in
    sort_unstable all.
Definition insight_ids_for_live_sync (c : InsightCollection) (include_full_reconcile : bool)
    : list Uuid := insight_ids_for_live_sync_limited c include_full_reconcile None.

Definition opt_max (a b : option Uuid) : option Uuid :=
  match a, b with Some a, Some b => Some (N.max a b) | Some a, None => Some a | None, b => b end.
Definition opt_min (a b : option Uuid) : option Uuid :=
  match a, b with Some a, Some b => Some (N.min a b) | Some a, None => Some a | None, b => b end.

Definition cloud_recovery_upper_bound (c : InsightCollection) : option Uuid :=
  opt_max (btree_last (c_ordered_active c))
    (opt_max (btree_last (c_dirty c)) (btree_last (c_terminal c))).

(** The three peekable iterators: an iterator whose head was produced moves on. *)
Definition advance (next : Uuid) (l : list Uuid) : list Uuid :=
  match l with
  | id :: rest => if (id =? next)%N then rest else l
  | [] => []
  end.
Fixpoint merge_pages (n : nat) (active dirty terminal : list Uuid) : list Uuid :=
  match n with
  | O => []
  | S n =>
      match opt_min (hd_error active) (opt_min (hd_error dirty) (hd_error terminal)) with
      | None => []
      | Some next =>
          next :: merge_pages n (advance next active) (advance next dirty) (advance next terminal)
      end
  end.

Definition cloud_recovery_page (c : InsightCollection) (after : option Uuid) (upper : Uuid)
    (limit : nat) : list Uuid :=
  if (limit =? 0) || is_some_and (fun id => upper <=? id)%N after then []
  else merge_pages (Nat.min limit 128)
         (btree_range after upper (c_ordered_active c))
         (btree_range after upper (c_dirty c))
         (btree_range after upper (c_terminal c)).

Definition dirty_insight_ids (c : InsightCollection) : list Uuid :=
  sort_unstable (btree_elements (c_dirty c)).
Definition active_insight_ids (c : InsightCollection) : list Uuid :=
  sort_unstable (elements (c_active c)).
Definition active_insight_count (c : InsightCollection) : nat := size (c_active c).
Definition active_insight_upper_bound (c : InsightCollection) : option Uuid :=
  btree_last (c_ordered_active c).
Definition active_insight_page (c : InsightCollection) (after : option Uuid) (upper : Uuid)
    (limit : nat) : list Uuid := cursor_page 256 (c_ordered_active c) after upper limit.

Definition active_symbol_upper_bound (c : InsightCollection) (symbol : string) : option Uuid :=
  c_by_symbol c !! symbol ≫= btree_last.
Definition active_symbol_page (c : InsightCollection) (symbol : string) (after : option Uuid)
    (upper : Uuid) (limit : nat) : list Uuid :=
  match c_by_symbol c !! symbol with
  | Some ids => cursor_page 256 ids after upper limit
  | None => []
  end.

(** The parent of a materialized row. *)
Definition parent_of (c : InsightCollection) (id : Uuid) : option Uuid :=
  c_insights c !! id ≫= i_parent_id.

Definition child_ids_for_parents (c : InsightCollection) (parents : gset Uuid) : list Uuid :=
  sort_unstable
    (filter (fun id => is_some_and (fun p => bool_decide (p ∈ parents)) (parent_of c id) = true)
       (elements (dom (c_insights c)))).

(** The breadth-first loop of [descendant_ids_for_parents]; the rows are keyed
    by distinct ids, so [visited.insert] admits an id once. *)
Fixpoint generations (fuel : nat) (c : InsightCollection) (visited frontier : gset Uuid)
    : list (list Uuid) :=
  match fuel with
  | O => []
  | S fuel =>
      if decide (frontier = ∅) then []
      else
        let generation :=
          filter (fun id => id ∉ visited) (child_ids_for_parents c frontier) in
        match generation with
        | [] => []
        | _ => generation ::
                 generations fuel c (visited ∪ list_to_set generation) (list_to_set generation)
        end
  end.
(** Every turn but the last visits a row, so that the rows bound the turns. *)
Definition descendant_ids_for_parents (c : InsightCollection) (parents : gset Uuid)
    : list Uuid :=
  concat (reverse (generations (S (size (c_insights c))) c parents parents)).

Definition push_mapped (c : InsightCollection) (candidates : list Uuid) (order_id : string)
    : list Uuid :=
  match c_order_to_insight c !! order_id with
  | Some mapped => if decide (mapped ∈ candidates) then candidates else candidates ++ [mapped]
  | None => candidates
  end.
Definition candidate_insight_ids_for_trade_event `{UuidText} (c : InsightCollection)
    (order : Order) : list Uuid :=
  foldl (push_mapped c) (option_list (o_insight_id order ≫= uuid_parse))
    (o_order_id order :: match o_legs order with Some legs => leg_ids legs | None => [] end).
Definition insight_id_for_order (c : InsightCollection) (order_id : string) : option Uuid :=
  c_order_to_insight c !! order_id.

Definition iter_active_insights (c : InsightCollection) : list Insight :=
  omap (fun id => c_insights c !! id) (elements (c_active c)).
Definition get_insights_by_symbol (c : InsightCollection) (symbol : string) : list Insight :=
  filter (fun i => i_symbol i = symbol) (map snd (map_to_list (c_insights c))).
Definition get_inactive_insights (c : InsightCollection) : list Insight :=
  filter (fun i => is_inactive (i_state i) = true) (map snd (map_to_list (c_insights c))).

Definition recovery_view (c : InsightCollection) (id : Uuid) : option Retained :=
  match c_insights c !! id with
  | Some row => Some (capture row true)
  | None => rv_retained (c_views c) !! id
  end.
