(* ===== verification/CollectionInvariant.v ===== *)
(** * CollectionInvariant: the indexes of the collection stay consistent

    [coll_ok] relates every index of [InsightCollection] to the last tracked
    state of each insight.  Each index has its own lemmas; [refresh_form] and
    [remove_tracking_form] put them together for the two tracking routines all
    the operations are made of. *)
From S2P Require Import Prelude.
From S2P Require Import OrderedSet.
From S2P Require Import Float64.
From S2P Require Import Text.
From S2P Require Import BrokerTypes.
From S2P Require Import TimeFrame.
From S2P Require Import InsightTypes.
From S2P Require Import Commands.
From S2P Require Import ExecutionData.
From S2P Require Import Insight.
From S2P Require Import RecoveryViews.
From S2P Require Import Collection.

(** ** State counts *)
Definition states_ok (last : gmap Uuid InsightState) (counts : gmap InsightState nat) : Prop :=
  forall s, counts !! s <> Some 0 /\
    default 0 (counts !! s) = count_where (fun x => bool_decide (x = s)) last.

(** Whether one entry with state [a] counts for [s]. *)
Definition same (a s : InsightState) : nat := if decide (a = s) then 1 else 0.

Lemma counts_one_same a s : counts_one (fun x => bool_decide (x = s)) (Some a) = same a s.
Proof. unfold counts_one, same; simpl. by case_decide; case_bool_decide. Qed.

Lemma decrement_spec counts a :
  (forall s, counts !! s <> Some 0) ->
  (forall s, decrement_state_count counts a !! s <> Some 0) /\
  (forall s, default 0 (decrement_state_count counts a !! s) = default 0 (counts !! s) - same a s).
Proof.
  intros Hz. unfold decrement_state_count, same. destruct (counts !! a) as [n|] eqn:E.
  - case_decide as Hn; split; intros s; specialize (Hz s); destruct (decide (a = s)) as [<-|Hs];
      rewrite ?lookup_delete_eq, ?lookup_insert_eq, ?E; rewrite ?lookup_delete_ne, ?lookup_insert_ne by done;
      simpl; try congruence; try lia.
  - split; [done|]. intros s. destruct (decide (a = s)) as [<-|]; [by rewrite E|lia].
Qed.

Lemma increment_spec counts a :
  (forall s, counts !! s <> Some 0) ->
  (forall s, increment_state_count counts a !! s <> Some 0) /\
  (forall s, default 0 (increment_state_count counts a !! s) = default 0 (counts !! s) + same a s).
Proof.
  intros Hz. unfold increment_state_count, same.
  split; intros s; specialize (Hz s); destruct (decide (a = s)) as [<-|Hs];
    rewrite ?lookup_insert_eq; rewrite ?lookup_insert_ne by done; simpl; congruence || lia.
Qed.

Lemma states_ok_delete last counts id a :
  states_ok last counts -> last !! id = Some a ->
  states_ok (delete id last) (decrement_state_count counts a).
Proof.
  intros Hok Ha. destruct (decrement_spec counts a) as [Hz Hd]; [intros s; apply Hok|].
  intros s. split; [apply Hz|]. destruct (Hok s) as [_ Hs].
  rewrite Hd, Hs, (count_where_split _ last id), Ha, counts_one_same. lia.
Qed.

Lemma states_ok_fresh last counts id a :
  states_ok last counts -> last !! id = None ->
  states_ok (<[id := a]> last) (increment_state_count counts a).
Proof.
  intros Hok Hn. destruct (increment_spec counts a) as [Hz Hd]; [intros s; apply Hok|].
  intros s. split; [apply Hz|]. destruct (Hok s) as [_ Hs].
  rewrite Hd, Hs, count_where_fresh, counts_one_same by done. lia.
Qed.

Lemma update_state_tracking_form c id s :
  states_ok (c_last_state c) (c_state_counts c) ->
  exists counts,
    update_state_tracking c id s =
      c <| c_last_state := <[id := s]> (c_last_state c) |> <| c_state_counts := counts |> /\
    states_ok (<[id := s]> (c_last_state c)) counts.
Proof.
  intros Hok. unfold update_state_tracking. destruct (c_last_state c !! id) as [p|] eqn:E.
  - case_decide as Hp.
    + subst p. exists (c_state_counts c). split; [by destruct c|]. by rewrite insert_id.
    + eexists. split; [reflexivity|]. rewrite <- insert_delete_eq.
      apply states_ok_fresh; [by apply states_ok_delete|apply lookup_delete_eq].
  - eexists. split; [reflexivity|]. by apply states_ok_fresh.
Qed.

(** ** Symbols *)
Definition symbols_ok (by_symbol : gmap string (gset Uuid)) (by_id : gmap Uuid string) : Prop :=
  (forall sym id, id ∈ default ∅ (by_symbol !! sym) <-> by_id !! id = Some sym) /\
  (forall sym, by_symbol !! sym <> Some ∅).

Lemma symbols_ok_remove bs bi id sym ids :
  symbols_ok bs bi -> bi !! id = Some sym -> bs !! sym = Some ids ->
  symbols_ok (if decide (ids ∖ {[id]} = ∅) then delete sym bs else <[sym := ids ∖ {[id]}]> bs)
    (delete id bi).
Proof.
  intros [Hm He] Hi Hs.
  assert (Hl : forall sym' : string,
    default ∅ ((if decide (ids ∖ {[id]} = ∅) then delete sym bs else <[sym := ids ∖ {[id]}]> bs) !! sym')
    = if decide (sym' = sym) then ids ∖ {[id]} else default ∅ (bs !! sym')).
  { intros sym'. destruct (decide (sym' = sym)) as [->|]; case_decide as Hd;
      rewrite ?lookup_delete_eq, ?lookup_insert_eq; rewrite ?lookup_delete_ne, ?lookup_insert_ne by done;
      done. }
  split.
  - intros sym' id'. rewrite Hl. specialize (Hm sym' id').
    destruct (decide (id' = id)) as [->|Hid].
    + rewrite lookup_delete_eq. split; [|done]. destruct (decide (sym' = sym)) as [|Hc]; [set_solver|].
      rewrite Hm, Hi. congruence.
    + rewrite lookup_delete_ne by done. rewrite <- Hm.
      destruct (decide (sym' = sym)) as [->|]; [rewrite Hs; simpl; set_solver|done].
  - intros sym'. case_decide as Hd; destruct (decide (sym' = sym)) as [->|];
      rewrite ?lookup_delete_eq, ?lookup_insert_eq; rewrite ?lookup_delete_ne, ?lookup_insert_ne by done;
      try apply He; congruence.
Qed.

Lemma symbols_ok_add bs bi id sym :
  symbols_ok bs bi -> bi !! id = None ->
  symbols_ok (<[sym := default ∅ (bs !! sym) ∪ {[id]}]> bs) (<[id := sym]> bi).
Proof.
  intros [Hm He] Hi. split.
  - intros sym' id'. specialize (Hm sym' id'). destruct (decide (id' = id)) as [->|Hid].
    + rewrite lookup_insert_eq. destruct (decide (sym' = sym)) as [->|].
      * rewrite lookup_insert_eq. simpl. set_solver.
      * rewrite lookup_insert_ne by done. rewrite Hm, Hi. naive_solver.
    + rewrite (lookup_insert_ne bi) by done. destruct (decide (sym' = sym)) as [->|].
      * rewrite lookup_insert_eq. simpl. rewrite <- Hm. set_solver.
      * by rewrite lookup_insert_ne.
  - intros sym'. destruct (decide (sym' = sym)) as [->|].
    + rewrite lookup_insert_eq. intros [=Hx]. set_solver.
    + rewrite lookup_insert_ne by done. apply He.
Qed.

Lemma remove_symbol_form c id :
  symbols_ok (c_by_symbol c) (c_symbol_by_id c) ->
  exists bs,
    remove_symbol_tracking c id =
      c <| c_by_symbol := bs |> <| c_symbol_by_id := delete id (c_symbol_by_id c) |> /\
    symbols_ok bs (delete id (c_symbol_by_id c)).
Proof.
  intros Hok. unfold remove_symbol_tracking.
  destruct (c_symbol_by_id c !! id) as [sym|] eqn:E.
  - destruct Hok as [Hm He]. pose proof (proj2 (Hm sym id) E) as Hin. fields.
    destruct (c_by_symbol c !! sym) as [ids|] eqn:Es; [|set_solver].
    eexists. split; [reflexivity|]. by apply symbols_ok_remove.
  - exists (c_by_symbol c). rewrite delete_id by done. split; [by destruct c|done].
Qed.

(** The symbol under which a row is filed, if any. *)
Definition filed_symbol (c : InsightCollection) (id : Uuid) : option string :=
  match c_insights c !! id with
  | Some row => if is_inactive (i_state row) then None else Some (i_symbol row)
  | None => None
  end.

Lemma refresh_symbol_form c id :
  symbols_ok (c_by_symbol c) (c_symbol_by_id c) ->
  exists bs bi,
    refresh_symbol_tracking c id = c <| c_by_symbol := bs |> <| c_symbol_by_id := bi |> /\
    symbols_ok bs bi /\ bi !! id = filed_symbol c id /\
    (forall k, k <> id -> bi !! k = c_symbol_by_id c !! k).
Proof.
  intros Hok. unfold refresh_symbol_tracking. fold (filed_symbol c id). case_decide as Hs.
  - exists (c_by_symbol c), (c_symbol_by_id c). by split; [destruct c|].
  - destruct (remove_symbol_form c id Hok) as (bs & -> & Hbs). fields.
    destruct (filed_symbol c id) as [sym|].
    + eexists _, _. split; [by destruct c|]. split; [|split].
      * apply symbols_ok_add; [exact Hbs|apply lookup_delete_eq].
      * apply lookup_insert_eq.
      * intros k Hk. by rewrite lookup_insert_ne, lookup_delete_ne.
    + exists bs, (delete id (c_symbol_by_id c)). split; [done|]. split; [done|]. split.
      * apply lookup_delete_eq.
      * intros k Hk. by rewrite lookup_delete_ne.
Qed.

(** ** Order routes *)

(** A routed order id is one of the ids its insight was indexed under. *)
Definition routes_ok (o2i : gmap string Uuid) (i2o : gmap Uuid (list string)) : Prop :=
  forall o id, o2i !! o = Some id -> exists l, i2o !! id = Some l /\ o ∈ l.

Lemma lookup_unroute l m o :
  unroute l m !! o = if decide (o ∈ l) then None else m !! o.
Proof.
  unfold unroute. revert m. induction l as [|x l IH]; intros m; simpl; [done|].
  rewrite IH. destruct (decide (o = x)) as [->|Hx].
  - rewrite lookup_delete_eq. do 2 case_decide; set_solver.
  - rewrite lookup_delete_ne by done. do 2 case_decide; set_solver.
Qed.

Lemma lookup_route id l m o :
  route id l m !! o = if decide (o ∈ l) then Some id else m !! o.
Proof.
  unfold route. revert m. induction l as [|x l IH]; intros m; simpl; [done|].
  rewrite IH. destruct (decide (o = x)) as [->|Hx].
  - rewrite lookup_insert_eq. do 2 case_decide; set_solver.
  - rewrite lookup_insert_ne by done. do 2 case_decide; set_solver.
Qed.

(** The order ids indexed for an insight. *)
Definition orders_of (i2o : gmap Uuid (list string)) (id : Uuid) : list string :=
  default [] (i2o !! id).

(** The entry of an insight after it was indexed under [l]. *)
Definition put_orders (id : Uuid) (l : list string) (i2o : gmap Uuid (list string))
    : gmap Uuid (list string) :=
  match l with [] => delete id i2o | _ => <[id := l]> i2o end.

Lemma orders_of_put id l i2o k :
  orders_of (put_orders id l i2o) k = if decide (k = id) then l else orders_of i2o k.
Proof.
  unfold orders_of, put_orders. destruct l, (decide (k = id)) as [->|];
    rewrite ?lookup_delete_eq, ?lookup_insert_eq; rewrite ?lookup_delete_ne, ?lookup_insert_ne by done;
    done.
Qed.

Lemma put_orders_nonempty id l i2o :
  (forall k, i2o !! k <> Some []) -> forall k, put_orders id l i2o !! k <> Some [].
Proof.
  intros Hne k. unfold put_orders. destruct l, (decide (k = id)) as [->|];
    rewrite ?lookup_delete_eq, ?lookup_insert_eq; rewrite ?lookup_delete_ne, ?lookup_insert_ne by done;
    done.
Qed.

(** Where an order id leads after the insight [id] was indexed under [l]. *)
Definition route_after (id : Uuid) (l : list string) (o2i : gmap string Uuid)
    (i2o : gmap Uuid (list string)) (o : string) : option Uuid :=
  if decide (orders_of i2o id = l) then o2i !! o
  else if decide (o ∈ l) then Some id
  else if decide (o ∈ orders_of i2o id) then None
  else o2i !! o.

Lemma orders_of_Some i2o k l :
  (forall k, i2o !! k <> Some []) -> l <> [] -> orders_of i2o k = l -> i2o !! k = Some l.
Proof. intros Hne Hl. unfold orders_of. destruct (i2o !! k); simpl; congruence. Qed.

Lemma index_order_ids_form c id l :
  (forall k, c_insight_to_orders c !! k <> Some []) -> c_index_enabled c = true ->
  exists o2i,
    index_order_ids_for_insight c id l =
      c <| c_order_to_insight := o2i |>
        <| c_insight_to_orders := put_orders id l (c_insight_to_orders c) |> /\
    forall o, o2i !! o = route_after id l (c_order_to_insight c) (c_insight_to_orders c) o.
Proof.
  intros Hne En. unfold index_order_ids_for_insight. rewrite En. cbn [negb].
  assert (Hsame : put_orders id l (c_insight_to_orders c) = c_insight_to_orders c ->
    c = c <| c_order_to_insight := c_order_to_insight c |>
          <| c_insight_to_orders := put_orders id l (c_insight_to_orders c) |>).
  { intros ->. by destruct c. }
  unfold route_after, orders_of. destruct (c_insight_to_orders c !! id) as [cur|] eqn:E; simpl.
  - case_decide as Hc.
    + eexists. split; [apply Hsame|by intros o]. subst cur. unfold put_orders.
      destruct l; [by destruct (Hne id)|by apply insert_id].
    + eexists. split; [reflexivity|]. intros o. by rewrite lookup_route, lookup_unroute.
  - destruct l as [|x l].
    + eexists. split; [apply Hsame; by apply delete_id|done].
    + eexists. split; [reflexivity|]. intros o. by rewrite lookup_route.
Qed.

Lemma routes_ok_index id l o2i o2i' i2o :
  (forall k, i2o !! k <> Some []) -> routes_ok o2i i2o ->
  (forall o, o2i' !! o = route_after id l o2i i2o o) ->
  routes_ok o2i' (put_orders id l i2o).
Proof.
  intros Hne Hr Hl o k. rewrite Hl. unfold route_after. intros Hk.
  assert (Hput : o ∈ orders_of (put_orders id l i2o) k).
  { rewrite orders_of_put. case_decide as Hc.
    - destruct (Hr _ _ Hk) as (l' & Hl' & Hin). unfold orders_of in *. rewrite Hl' in *.
      case_decide as Hkid; [|done]. subst k. rewrite Hl' in Hc. simpl in Hc. by subst.
    - case_decide as Ho; [simplify_eq; by rewrite decide_True|].
      destruct (decide (o ∈ orders_of i2o id)) as [|Hoo]; [done|].
      destruct (Hr _ _ Hk) as (l' & Hl' & Hin). rewrite decide_False; unfold orders_of in *.
      + by rewrite Hl'.
      + intros ->. apply Hoo. by rewrite Hl'. }
  unfold orders_of in Hput. destruct (put_orders id l i2o !! k); [eauto|set_solver].
Qed.

Lemma routes_ok_remove id l o2i i2o :
  routes_ok o2i i2o -> i2o !! id = Some l -> routes_ok (unroute l o2i) (delete id i2o).
Proof.
  intros Hr Hl o k. rewrite lookup_unroute. case_decide as Ho; [done|]. intros Hk.
  destruct (Hr _ _ Hk) as (l' & Hl' & Hin). rewrite lookup_delete_ne; [eauto|].
  intros ->. congruence.
Qed.

(** ** The invariant *)
Section Invariant.
Context `{Json}.

(** The dependencies of the row decode, so that tracking it cannot panic. *)
Definition deps_ok (row : Insight) : Prop :=
  is_ok (recovery_dependencies (i_execution_data row)) = true.

(** Whether the state tracked for [id] makes it inactive, if it is tracked. *)
Definition tracked (last : gmap Uuid InsightState) (inactive : bool) (id : Uuid) : Prop :=
  exists s, last !! id = Some s /\ is_inactive s = inactive.

Record coll_ok (c : InsightCollection) : Prop := {
  co_rows id row : c_insights c !! id = Some row -> i_insight_id row = id /\ deps_ok row;
  co_materialized id : is_Some (c_insights c !! id) -> id ∈ c_materialized c;
  co_active id : id ∈ c_active c <-> tracked (c_last_state c) false id;
  co_ordered : c_ordered_active c = c_active c;
  co_terminal id : id ∈ c_terminal c <-> tracked (c_last_state c) true id;
  co_filed id : is_Some (c_symbol_by_id c !! id) <-> id ∈ c_active c;
  co_symbols : symbols_ok (c_by_symbol c) (c_symbol_by_id c);
  co_counts : states_ok (c_last_state c) (c_state_counts c);
  co_routes : routes_ok (c_order_to_insight c) (c_insight_to_orders c);
  co_indexed id : c_insight_to_orders c !! id <> Some [];
  co_views : rv_ok (c_views c)
}.

Lemma tracked_insert last id s b k :
  tracked (<[id := s]> last) b k <-> (if decide (k = id) then is_inactive s = b else tracked last b k).
Proof.
  unfold tracked. destruct (decide (k = id)) as [->|].
  - rewrite lookup_insert_eq. naive_solver.
  - by rewrite lookup_insert_ne.
Qed.

Lemma tracked_delete last id b k :
  tracked (delete id last) b k <-> k <> id /\ tracked last b k.
Proof.
  unfold tracked. destruct (decide (k = id)) as [->|].
  - rewrite lookup_delete_eq. naive_solver.
  - rewrite lookup_delete_ne by done. naive_solver.
Qed.

(** The fields that the operations outside the indexes change freely. *)
Lemma coll_ok_frame c c' :
  coll_ok c ->
  (forall id row, c_insights c' !! id = Some row ->
     i_insight_id row = id /\ deps_ok row /\ id ∈ c_materialized c') ->
  (c_active c', c_ordered_active c', c_terminal c', c_symbol_by_id c', c_by_symbol c',
   c_last_state c', c_state_counts c', c_order_to_insight c', c_insight_to_orders c', c_views c') =
  (c_active c, c_ordered_active c, c_terminal c, c_symbol_by_id c, c_by_symbol c,
   c_last_state c, c_state_counts c, c_order_to_insight c, c_insight_to_orders c, c_views c) ->
  coll_ok c'.
Proof.
  intros Hok Hrows E. injection E as E1 E2 E3 E4 E5 E6 E7 E8 E9 E10.
  split; rewrite ?E1, ?E2, ?E3, ?E4, ?E5, ?E6, ?E7, ?E8, ?E9, ?E10; try apply Hok.
  - intros id row Hr. destruct (Hrows id row Hr) as (? & ? & _). done.
  - intros id [row Hr]. apply (Hrows id row Hr).
Qed.

(** *** Untracking *)
Lemma eta_collection_eq c : c = eta_collection c.
Proof. by destruct c. Qed.

(** The collection after [id] was untracked, given the parts the index lemmas
    provide. *)
Definition untracked (c : InsightCollection) (id : Uuid) (v : RecoveryViews)
    (bs : gmap string (gset Uuid)) (bi : gmap Uuid string) : InsightCollection :=
  mkCollection (c_insights c) (c_dirty c ∖ {[id]}) (c_active c ∖ {[id]})
    (c_ordered_active c ∖ {[id]}) bs bi (c_terminal c ∖ {[id]})
    (match c_last_state c !! id with
     | Some p => decrement_state_count (c_state_counts c) p | None => c_state_counts c end)
    (delete id (c_last_state c))
    (match c_insight_to_orders c !! id with
     | Some l => unroute l (c_order_to_insight c) | None => c_order_to_insight c end)
    (delete id (c_insight_to_orders c)) (c_index_enabled c) (c_materialized c)
    (c_persistence c) (c_exec_dirty c) (c_pins c) v.

Lemma remove_tracking_form c id v bs :
  remove_owner (c_views c) id = Some v ->
  remove_symbol_tracking (c <| c_views := v |>) id =
    c <| c_views := v |> <| c_by_symbol := bs |>
      <| c_symbol_by_id := delete id (c_symbol_by_id c) |> ->
  remove_tracking c id = Some (untracked c id v bs (delete id (c_symbol_by_id c))).
Proof.
  intros Hv Hs. unfold remove_tracking. rewrite Hv, Hs. f_equal. fields. unfold untracked.
  destruct (c_last_state c !! id) as [p|] eqn:E1; fields;
    destruct (c_insight_to_orders c !! id) as [l|] eqn:E2;
    (etransitivity; [apply eta_collection_eq|]); unfold eta_collection; fields;
    rewrite ?(delete_id _ _ E1), ?(delete_id _ _ E2); reflexivity.
Qed.

Lemma untracked_ok c id v bs bi :
  coll_ok c -> rv_ok v -> symbols_ok bs bi -> bi !! id = None ->
  (forall k, k <> id -> bi !! k = c_symbol_by_id c !! k) ->
  coll_ok (untracked c id v bs bi).
Proof.
  intros [Hrows Hmat Hact Hord Hter Hfil Hsym Hcnt Hrt Hidx _] Hv Hs Hb Hk.
  split; cbn; try done.
  - intros k. rewrite tracked_delete, <- Hact. set_solver.
  - by rewrite Hord.
  - intros k. rewrite tracked_delete, <- Hter. set_solver.
  - intros k. destruct (decide (k = id)) as [->|].
    + rewrite Hb. split; [by intros []|set_solver].
    + rewrite Hk by done. rewrite Hfil. set_solver.
  - destruct (c_last_state c !! id) eqn:E; [by apply states_ok_delete|by rewrite delete_id].
  - destruct (c_insight_to_orders c !! id) eqn:E; [by apply routes_ok_remove|by rewrite delete_id].
  - intros k. destruct (decide (k = id)) as [->|];
      [by rewrite lookup_delete_eq|rewrite lookup_delete_ne by done; apply Hidx].
Qed.

Lemma remove_tracking_ok c id :
  coll_ok c ->
  exists c', remove_tracking c id = Some c' /\ coll_ok c' /\
    c_insights c' = c_insights c /\ c_materialized c' = c_materialized c /\
    c_last_state c' = delete id (c_last_state c) /\
    remove_owner (c_views c) id = Some (c_views c') /\
    (c_persistence c', c_exec_dirty c', c_pins c') = (c_persistence c, c_exec_dirty c, c_pins c).
Proof.
  intros Hok.
  destruct (replace_spec (c_views c) id [] (co_views c Hok)) as (v & Hv & Hvok & _ & _); [constructor|].
  destruct (remove_symbol_form (c <| c_views := v |>) id) as (bs & Hs & Hbs); [apply Hok|].
  eexists. split; [exact (remove_tracking_form c id v bs Hv Hs)|].
  split; [|cbn; by rewrite <- Hv]. apply untracked_ok; try done; [apply lookup_delete_eq|].
  intros k Hk. by rewrite lookup_delete_ne.
Qed.

(** *** Tracking *)

(** The collection after the present row [row] of [id] was refreshed; the
    arguments are the parts the index lemmas provide. *)
Definition refreshed (c : InsightCollection) (id : Uuid) (row : Insight) (v : RecoveryViews)
    (bs : gmap string (gset Uuid)) (bi : gmap Uuid string) (counts : gmap InsightState nat)
    (o2i : gmap string Uuid) : InsightCollection :=
  let dead := is_inactive (i_state row) in
  let filed_in X := if dead then X ∖ {[id]} else {[id]} ∪ X in
  mkCollection (c_insights c) ({[id]} ∪ c_dirty c) (filed_in (c_active c))
    (filed_in (c_ordered_active c)) bs bi
    (if dead then {[id]} ∪ c_terminal c else c_terminal c ∖ {[id]}) counts
    (<[id := i_state row]> (c_last_state c)) o2i
    (if c_index_enabled c then put_orders id (collect_order_ids row) (c_insight_to_orders c)
     else c_insight_to_orders c)
    (c_index_enabled c) (c_materialized c) (c_persistence c)
    (if c_persistence c then {[id]} ∪ c_exec_dirty c else c_exec_dirty c) (c_pins c) v.

Lemma refresh_form c id row :
  coll_ok c -> c_insights c !! id = Some row ->
  exists v bs bi counts o2i,
    refresh_runtime_tracking c id = Some (refreshed c id row v bs bi counts o2i) /\
    rv_ok v /\ symbols_ok bs bi /\ bi !! id = filed_symbol c id /\
    (forall k, k <> id -> bi !! k = c_symbol_by_id c !! k) /\
    states_ok (<[id := i_state row]> (c_last_state c)) counts /\
    (forall o, o2i !! o = if c_index_enabled c
       then route_after id (collect_order_ids row) (c_order_to_insight c) (c_insight_to_orders c) o
       else c_order_to_insight c !! o).
Proof.
  intros Hok Hrow. unfold refresh_runtime_tracking. rewrite Hrow.
  destruct (co_rows c Hok _ _ Hrow) as [Hid Hdep].
  destruct (refresh_ok (c_views c) row (co_views c Hok) Hdep) as (v & Hv & Hvok). rewrite Hv.
  destruct (refresh_symbol_form (c <| c_views := v |>) id) as (bs & bi & -> & Hsym & Hbi & Hbk);
    [apply Hok|]. fields.
  set (c1 := c <| c_views := v |> <| c_by_symbol := bs |> <| c_symbol_by_id := bi |>).
  destruct (update_state_tracking_form c1 id (i_state row)) as (counts & -> & Hcnt); [apply Hok|].
  set (c2 := c1 <| c_last_state := _ |> <| c_state_counts := counts |>).
  assert (Hix : exists o2i,
    index_order_ids_for_insight c2 id (if c_index_enabled c then collect_order_ids row else []) =
      c2 <| c_order_to_insight := o2i |> <| c_insight_to_orders :=
        if c_index_enabled c then put_orders id (collect_order_ids row) (c_insight_to_orders c)
        else c_insight_to_orders c |> /\
    (forall o, o2i !! o = if c_index_enabled c
       then route_after id (collect_order_ids row) (c_order_to_insight c) (c_insight_to_orders c) o
       else c_order_to_insight c !! o)).
  { destruct (c_index_enabled c) eqn:En.
    - destruct (index_order_ids_form c2 id (collect_order_ids row)) as (o2i & Hi & Ho);
        [apply Hok|done|eauto].
    - exists (c_order_to_insight c). split; [|done]. unfold index_order_ids_for_insight.
      change (c_index_enabled c2) with (c_index_enabled c). rewrite En. cbn [negb].
      etransitivity; [apply eta_collection_eq|]. symmetry.
      etransitivity; [apply eta_collection_eq|]. unfold eta_collection. fields. reflexivity. }
  destruct Hix as (o2i & -> & Ho2i). exists v, bs, bi, counts, o2i.
  split; [|by repeat (split; [done|])]. f_equal. unfold refreshed.
  subst c2 c1. fields.
  destruct (c_persistence c) eqn:Ep; fields; destruct (is_inactive (i_state row)) eqn:Ei;
    (etransitivity; [apply eta_collection_eq|]); unfold eta_collection; fields; congruence.
Qed.

Lemma refreshed_ok c id row v bs bi counts o2i :
  coll_ok c -> c_insights c !! id = Some row ->
  rv_ok v -> symbols_ok bs bi -> bi !! id = filed_symbol c id ->
  (forall k, k <> id -> bi !! k = c_symbol_by_id c !! k) ->
  states_ok (<[id := i_state row]> (c_last_state c)) counts ->
  (forall o, o2i !! o = if c_index_enabled c
     then route_after id (collect_order_ids row) (c_order_to_insight c) (c_insight_to_orders c) o
     else c_order_to_insight c !! o) ->
  coll_ok (refreshed c id row v bs bi counts o2i).
Proof.
  intros [Hrows Hmat Hact Hord Hter Hfil Hsym Hcnt Hrt Hidx Hvw] Hrow Hv Hs Hbi Hbk Hst Ho.
  unfold filed_symbol in Hbi. rewrite Hrow in Hbi.
  assert (Ho' : c_index_enabled c = false -> o2i = c_order_to_insight c).
  { intros En. apply map_eq. intros o. by rewrite Ho, En. }
  split; cbn; try done.
  - intros k. rewrite tracked_insert. specialize (Hact k).
    destruct (is_inactive (i_state row)), (decide (k = id)); set_solver.
  - by rewrite Hord.
  - intros k. rewrite tracked_insert. specialize (Hter k).
    destruct (is_inactive (i_state row)), (decide (k = id)); set_solver.
  - intros k. specialize (Hfil k). destruct (decide (k = id)) as [->|].
    + rewrite Hbi. destruct (is_inactive (i_state row)); [|set_solver].
      split; [by intros []|set_solver].
    + rewrite Hbk, Hfil by done. destruct (is_inactive (i_state row)); set_solver.
  - destruct (c_index_enabled c); [by eapply routes_ok_index|by rewrite Ho'].
  - intros k. destruct (c_index_enabled c); [by apply put_orders_nonempty|apply Hidx].
Qed.

Lemma refresh_runtime_tracking_spec c id :
  coll_ok c -> exists c', refresh_runtime_tracking c id = Some c' /\ coll_ok c' /\
    c_insights c' = c_insights c /\ c_materialized c' = c_materialized c.
Proof.
  intros Hok. destruct (c_insights c !! id) as [row|] eqn:Hrow.
  - destruct (refresh_form c id row Hok Hrow) as (v & bs & bi & cn & o2i & -> & Hv & Hs & Hb & Hk & Hc & Ho).
    eexists. split; [reflexivity|]. split; [by apply refreshed_ok|done].
  - unfold refresh_runtime_tracking. rewrite Hrow.
    destruct (refresh_symbol_form c id) as (bs & bi & -> & Hs & Hb & Hk); [apply Hok|].
    unfold filed_symbol in Hb. rewrite Hrow in Hb.
    set (c1 := c <| c_by_symbol := bs |> <| c_symbol_by_id := bi |>).
    destruct (replace_spec (c_views c) id [] (co_views c Hok)) as (v & Hv & Hvok & _ & _); [constructor|].
    destruct (remove_symbol_form (c1 <| c_views := v |>) id) as (bs' & Hs' & Hbs'); [done|].
    eexists. split; [exact (remove_tracking_form c1 id v bs' Hv Hs')|]. split; [|done].
    change (coll_ok (untracked c id v bs' (delete id bi))).
    apply untracked_ok; try done; [apply lookup_delete_eq|].
    intros k Hkid. by rewrite lookup_delete_ne, Hk.
Qed.
Lemma refresh_runtime_tracking_ok c id :
  coll_ok c -> exists c', refresh_runtime_tracking c id = Some c' /\ coll_ok c'.
Proof. intros Hok. destruct (refresh_runtime_tracking_spec c id Hok) as (c' & ? & ? & _). eauto. Qed.

(** *** Pruning *)
Lemma row_known c id row :
  coll_ok c -> c_insights c !! id = Some row ->
  i_insight_id row = id /\ deps_ok row /\ id ∈ c_materialized c.
Proof.
  intros Hok Hr. destruct (co_rows c Hok id row Hr) as [? ?]. split; [done|]. split; [done|].
  apply (co_materialized c Hok). eauto.
Qed.

Lemma coll_ok_drop c id :
  coll_ok c -> coll_ok (c <| c_insights := delete id (c_insights c) |>).
Proof.
  intros Hok. apply (coll_ok_frame c); [done| |done]. cbn.
  intros k row [_ Hr]%lookup_delete_Some. by apply row_known.
Qed.

Lemma prune_terminal_insight_ok c id :
  coll_ok c -> exists c', prune_terminal_insight c id = Some c' /\ coll_ok c'.
Proof.
  intros Hok. unfold prune_terminal_insight. destruct (held_for_persistence c id); [eauto|].
  match goal with |- exists c', remove_tracking ?c1 id = _ /\ _ => set (cp := c1) end.
  assert (Hcp : coll_ok cp).
  { pose proof (coll_ok_drop c id Hok) as Hdel.
    unfold cp. destruct (c_insights c !! id) as [row|]; [|done].
    destruct Hdel. split; try done. by apply before_prune_ok. }
  destruct (remove_tracking_ok cp id Hcp) as (c' & -> & Hc' & _). eauto.
Qed.

Lemma prune_each_ok c l :
  coll_ok c -> exists c', prune_each c l = Some c' /\ coll_ok c'.
Proof.
  revert c. induction l as [|id l IH]; intros c Hok; simpl; [eauto|].
  destruct (prune_terminal_insight_ok c id Hok) as (c1 & -> & Hc1). by apply IH.
Qed.

Lemma remove_insight_ok c id :
  coll_ok c -> exists p, remove_insight c id = Some p /\ coll_ok p.1.
Proof.
  intros Hok. unfold remove_insight.
  pose proof (coll_ok_drop c id Hok) as Hdel.
  destruct (c_insights c !! id) as [row|]; [|eauto].
  match goal with |- context [remove_tracking ?c1 id] => set (cp := c1) end.
  destruct (remove_tracking_ok cp id) as (c' & -> & Hc' & _); [|eauto].
  destruct Hdel. split; try done. by apply before_prune_ok.
Qed.

(** ** Reachable collections *)
Inductive CollOp :=
| OpAdd (row : Insight)
| OpRefresh (id : Uuid)
| OpTake (id : Uuid)
| OpRestore (row : Insight) (changed : bool)
| OpGetMut (id : Uuid) (f : Insight -> Insight)
| OpGetInsightMut (id : Uuid) (f : Insight -> Insight)
| OpRemoveDirty (id : Uuid)
| OpTakeDirty
| OpPrune (id : Uuid)
| OpPruneTerminal
| OpPruneInactive (keys : list Uuid)
| OpRemove (id : Uuid)
| OpIndexEnabled (enabled : bool)
| OpPersist
| OpPin (id : Uuid)
| OpUnpin (id : Uuid)
| OpSaved (id : Uuid)
| OpMarkDirty (id : Uuid).

Definition run_coll (c : InsightCollection) (op : CollOp) : option InsightCollection :=
  match op with
  | OpAdd row => add_insight c row
  | OpRefresh id => refresh_runtime_tracking c id
  | OpTake id => Some (take_for_update c id).1
  | OpRestore row changed => restore_after_update c row changed
  | OpGetMut id f => Some (get_mut c id f)
  | OpGetInsightMut id f => Some (get_insight_mut c id f)
  | OpRemoveDirty id => Some (remove_dirty c id)
  | OpTakeDirty => Some (take_dirty_insight_ids c).1
  | OpPrune id => prune_terminal_insight c id
  | OpPruneTerminal => fst <$> prune_terminal_insights_without_aqs c
  | OpPruneInactive keys => prune_inactive_insights c keys
  | OpRemove id => fst <$> remove_insight c id
  | OpIndexEnabled enabled => Some (set_order_id_index_enabled c enabled)
  | OpPersist => Some (enable_execution_persistence c)
  | OpPin id => Some (execution_pin c id)
  | OpUnpin id => Some (execution_unpin c id)
  | OpSaved id => Some (execution_saved c id)
  | OpMarkDirty id => Some (mark_execution_dirty c id)
  end.

(** Callers hand in rows with decodable dependencies, restore rows they took
    and do not change the identity of a borrowed row. *)
Definition op_ok (c : InsightCollection) (op : CollOp) : Prop :=
  match op with
  | OpAdd row => deps_ok row
  | OpRestore row _ => deps_ok row /\ i_insight_id row ∈ c_materialized c
  | OpGetMut id f | OpGetInsightMut id f =>
      forall row, deps_ok row -> i_insight_id row = id -> deps_ok (f row) /\ i_insight_id (f row) = id
  | _ => True
  end.

Fixpoint run_coll_ops (c : InsightCollection) (ops : list CollOp) : option InsightCollection :=
  match ops with
  | [] => Some c
  | op :: ops =>
      match run_coll c op with Some c => run_coll_ops c ops | None => None end
  end.

(** The callers respect [op_ok] at every operation of the sequence. *)
Fixpoint ops_ok (c : InsightCollection) (ops : list CollOp) : Prop :=
  match ops with
  | [] => True
  | op :: ops => op_ok c op /\ forall c', run_coll c op = Some c' -> ops_ok c' ops
  end.

Lemma coll_ok_put c id row :
  coll_ok c -> deps_ok row -> i_insight_id row = id -> id ∈ c_materialized c ->
  coll_ok (c <| c_insights := <[id := row]> (c_insights c) |>).
Proof.
  intros Hok Hd Hi Hm. apply (coll_ok_frame c); [done| |done].
  cbn. intros k r [[<- <-]|[Hne Hr]]%lookup_insert_Some; [done|]. by apply row_known.
Qed.

Lemma coll_ok_alter c id f :
  coll_ok c ->
  (forall row, deps_ok row -> i_insight_id row = id -> deps_ok (f row) /\ i_insight_id (f row) = id) ->
  coll_ok (c <| c_insights := alter f id (c_insights c) |>).
Proof.
  intros Hok Hf. apply (coll_ok_frame c); [done| |done]. intros k r. cbn.
  destruct (decide (k = id)) as [->|].
  - rewrite lookup_alter_eq. intros (r' & Hr' & ->)%fmap_Some.
    destruct (co_rows c Hok id r' Hr') as [Hid Hd]. destruct (Hf r' Hd Hid) as [Hd' Hi'].
    split; [done|]. split; [done|]. apply (co_materialized c Hok). eauto.
  - rewrite lookup_alter_ne by done. intros Hr. by apply row_known.
Qed.

(** Operations that touch neither the rows nor an index of [coll_ok]. *)
Lemma coll_ok_quiet c c' :
  coll_ok c -> c_insights c' = c_insights c -> c_materialized c' = c_materialized c ->
  (c_active c', c_ordered_active c', c_terminal c', c_symbol_by_id c', c_by_symbol c',
   c_last_state c', c_state_counts c', c_order_to_insight c', c_insight_to_orders c', c_views c') =
  (c_active c, c_ordered_active c, c_terminal c, c_symbol_by_id c, c_by_symbol c,
   c_last_state c, c_state_counts c, c_order_to_insight c, c_insight_to_orders c, c_views c) ->
  coll_ok c'.
Proof.
  intros Hok Hi Hm. apply coll_ok_frame; [done|]. rewrite Hi, Hm. intros k r Hr.
  by apply row_known.
Qed.

Lemma add_insight_ok c row :
  coll_ok c -> deps_ok row -> exists c', add_insight c row = Some c' /\ coll_ok c'.
Proof.
  intros Hok Hd. unfold add_insight.
  apply refresh_runtime_tracking_ok.
  apply (coll_ok_frame c); [done| |done]. cbn.
  intros k r [[<- <-]|[Hne Hr]]%lookup_insert_Some; [set_solver|].
  destruct (row_known c k r Hok Hr) as (? & ? & ?). set_solver.
Qed.

Lemma run_coll_ok c op :
  coll_ok c -> op_ok c op -> exists c', run_coll c op = Some c' /\ coll_ok c'.
Proof.
  intros Hok Hop. destruct op; simpl in *;
    try (eexists; split; [reflexivity|]; by apply (coll_ok_quiet c)).
  - by apply add_insight_ok.
  - by apply refresh_runtime_tracking_ok.
  - eexists. split; [reflexivity|]. by apply coll_ok_drop.
  - destruct Hop as [Hd Hm]. unfold restore_after_update.
    pose proof (coll_ok_put c _ row Hok Hd eq_refl Hm) as Hput.
    destruct changed; [by apply refresh_runtime_tracking_ok|eauto].
  - eexists. split; [reflexivity|]. unfold get_mut.
    pose proof (coll_ok_alter c id f Hok Hop) as Halt.
    destruct (c_persistence c && _); [|exact Halt].
    apply (coll_ok_quiet _ _ Halt); reflexivity.
  - eexists. split; [reflexivity|]. by apply coll_ok_alter.
  - by apply prune_terminal_insight_ok.
  - unfold prune_terminal_insights_without_aqs.
    destruct (prune_each_ok c (prune_ids c) Hok) as (c' & -> & Hc'). simpl. eauto.
  - by apply prune_each_ok.
  - destruct (remove_insight_ok c id Hok) as ([c' r] & -> & Hc'). simpl. eauto.
  - eexists. split; [reflexivity|]. unfold set_order_id_index_enabled.
    destruct enabled; [by apply (coll_ok_quiet c)|]. destruct Hok; split; try done.
  - eexists. split; [reflexivity|]. unfold mark_execution_dirty.
    case_match; [by apply (coll_ok_quiet c)|done].
Qed.

Lemma collection_new_ok : coll_ok collection_new.
Proof.
  split; cbn; try done.
  - intros id [? Hr]. by rewrite lookup_empty in Hr.
  - intros id. unfold tracked. rewrite lookup_empty. set_solver.
  - intros id. unfold tracked. rewrite lookup_empty. set_solver.
  - intros id. rewrite lookup_empty. split; [by intros []|set_solver].
  - apply default_views_ok.
Qed.

Lemma run_coll_ops_ok c ops :
  coll_ok c -> ops_ok c ops -> exists c', run_coll_ops c ops = Some c' /\ coll_ok c'.
Proof.
  revert c. induction ops as [|op ops IH]; intros c Hok Hops; simpl; [eauto|].
  destruct Hops as [Hop Hrest]. destruct (run_coll_ok c op Hok Hop) as (c1 & Hr & Hc1).
  rewrite Hr. by apply IH; [|apply Hrest].
Qed.

(** C6 The collection's indexes are consistent in every reachable state: starting from the
    empty collection, no sequence of operations panics, and afterwards the active set (in both
    its copies) holds exactly the ids whose tracked state is not terminal, the terminal set the
    others, every active id is filed under exactly one symbol, the lifetime counts are exact,
    routed order ids belong to the insight they lead to and the recovery reference counts are
    exact. *)
Theorem collection_stays_consistent ops :
  ops_ok collection_new ops ->
  exists c, run_coll_ops collection_new ops = Some c /\ coll_ok c.
Proof.
  apply run_coll_ops_ok, collection_new_ok.
Qed.

(** ** What one refresh records *)

(** Refreshing a materialized row records it as it is now: its state becomes the tracked
    state, it is active or waits for pruning accordingly, it is paged under its own symbol and
    no other exactly while it is active, it is marked for publishing and, when persistence is
    on, for saving; the tracking of every other insight is unchanged. *)
Theorem refresh_tracks_row c id row :
  coll_ok c -> c_insights c !! id = Some row ->
  exists c', refresh_runtime_tracking c id = Some c' /\
    c_last_state c' !! id = Some (i_state row) /\
    (id ∈ c_active c' <-> is_inactive (i_state row) = false) /\
    (id ∈ c_terminal c' <-> is_inactive (i_state row) = true) /\
    (forall sym, id ∈ default ∅ (c_by_symbol c' !! sym) <->
       is_inactive (i_state row) = false /\ i_symbol row = sym) /\
    id ∈ c_dirty c' /\ (c_persistence c = true -> id ∈ c_exec_dirty c') /\
    (forall k, k <> id ->
       c_last_state c' !! k = c_last_state c !! k /\
       (k ∈ c_active c' <-> k ∈ c_active c) /\ (k ∈ c_terminal c' <-> k ∈ c_terminal c) /\
       (forall sym, k ∈ default ∅ (c_by_symbol c' !! sym) <-> k ∈ default ∅ (c_by_symbol c !! sym))).
Proof.
  intros Hok Hrow.
  destruct (refresh_form c id row Hok Hrow) as (v & bs & bi & cn & o2i & -> & Hv & [Hs _] & Hb & Hk & Hc & Ho).
  eexists. split; [reflexivity|]. unfold refreshed; cbn.
  unfold filed_symbol in Hb. rewrite Hrow in Hb.
  split; [apply lookup_insert_eq|]. split; [destruct (is_inactive (i_state row)); set_solver|].
  split; [destruct (is_inactive (i_state row)); set_solver|].
  split; [intros sym; rewrite Hs, Hb; destruct (is_inactive (i_state row)); naive_solver|].
  split; [set_solver|]. split; [intros ->; set_solver|].
  intros k Hne. split; [by rewrite lookup_insert_ne|].
  split; [destruct (is_inactive (i_state row)); set_solver|].
  split; [destruct (is_inactive (i_state row)); set_solver|].
  intros sym. destruct (co_symbols c Hok) as [Hs0 _]. by rewrite Hs, Hs0, Hk.
Qed.

(** ** Order routing *)

(** Every indexed order id leads to the insight it is indexed for. *)
Definition routing_exact (c : InsightCollection) : Prop :=
  forall id o, o ∈ orders_of (c_insight_to_orders c) id -> insight_id_for_order c o = Some id.

(** Order routing is exact while insights do not share order ids: when a refreshed row brings
    no order id that is indexed for another insight, then after the refresh every entry, close
    and leg order id of the row leads to it, the ids it dropped lead nowhere, and the routes of
    every other insight still lead to their owners. *)
Theorem refresh_routes_orders c id row :
  coll_ok c -> c_index_enabled c = true -> routing_exact c -> c_insights c !! id = Some row ->
  (forall o k, o ∈ collect_order_ids row -> k <> id -> o ∉ orders_of (c_insight_to_orders c) k) ->
  exists c', refresh_runtime_tracking c id = Some c' /\ routing_exact c' /\
    (forall o, o ∈ collect_order_ids row -> insight_id_for_order c' o = Some id) /\
    (forall o, o ∈ orders_of (c_insight_to_orders c) id -> o ∉ collect_order_ids row ->
       insight_id_for_order c' o = None).
Proof.
  intros Hok En Hex Hrow Hfresh.
  destruct (refresh_form c id row Hok Hrow) as (v & bs & bi & cn & o2i & -> & _ & _ & _ & _ & _ & Ho).
  eexists. split; [reflexivity|].
  unfold routing_exact, insight_id_for_order, refreshed in *; cbn. rewrite En in *.
  set (l := collect_order_ids row) in *. set (cur := orders_of (c_insight_to_orders c) id) in *.
  assert (Hnew : forall o, o ∈ l -> o2i !! o = Some id).
  { intros o Hl. rewrite Ho. unfold route_after. fold cur. case_decide as Hc; [|by rewrite decide_True].
    apply Hex. fold cur. by rewrite Hc. }
  split; [|split; [done|]].
  - intros k o. rewrite orders_of_put. case_decide as Hkid; [subst k; apply Hnew|].
    intros Hin. rewrite Ho. unfold route_after. fold cur. case_decide; [by apply Hex|].
    rewrite decide_False by (intros Hl; by apply (Hfresh o k Hl)).
    rewrite decide_False; [by apply Hex|]. intros Hcur.
    pose proof (Hex id o Hcur). pose proof (Hex k o Hin). congruence.
  - intros o Hcur Hl. rewrite Ho. unfold route_after. fold cur.
    rewrite decide_False by (intros Hc; by rewrite Hc in Hcur). rewrite decide_False by done.
    by rewrite decide_True.
Qed.

(** ** Pruning *)

Lemma prune_form c id :
  coll_ok c -> held_for_persistence c id = false ->
  exists c', prune_terminal_insight c id = Some c' /\ coll_ok c' /\
    c_insights c' = delete id (c_insights c) /\ c_materialized c' = c_materialized c /\
    (c_persistence c', c_exec_dirty c', c_pins c') = (c_persistence c, c_exec_dirty c, c_pins c) /\
    c_last_state c' = delete id (c_last_state c) /\
    rv_owners (c_views c') = delete id (rv_owners (c_views c)) /\
    (forall k, is_Some (rv_counts (c_views c') !! k) -> k ∈ c_materialized c -> k <> id ->
       rv_retained (c_views c') !! k = rv_retained (c_views c) !! k) /\
    (forall row, is_Some (rv_counts (c_views c') !! id) -> c_insights c !! id = Some row ->
       is_inactive (i_state row) = true ->
       rv_retained (c_views c') !! id = Some (capture row true)).
Proof.
  intros Hok Hheld. unfold prune_terminal_insight. rewrite Hheld.
  match goal with |- exists c', remove_tracking ?c1 id = _ /\ _ => set (cp := c1) end.
  set (v := match c_insights c !! id with
            | Some row => before_prune (c_views c) row (c_materialized c) | None => c_views c end).
  assert (Hcp : coll_ok cp /\ c_insights cp = delete id (c_insights c) /\
    c_materialized cp = c_materialized c /\ c_last_state cp = c_last_state c /\ c_views cp = v /\
    (c_persistence cp, c_exec_dirty cp, c_pins cp) = (c_persistence c, c_exec_dirty c, c_pins c)).
  { pose proof (coll_ok_drop c id Hok) as Hdel. unfold cp, v.
    destruct (c_insights c !! id) as [row|]; [|done].
    split; [destruct Hdel; split; try done; by apply before_prune_ok|done]. }
  destruct Hcp as (Hcp & Hi & Hm & Hl & Hvw & Hfl).
  destruct (remove_tracking_ok cp id Hcp) as (c' & -> & Hc' & Hi' & Hm' & Hl' & Hv' & Hf').
  rewrite Hvw in Hv'.
  assert (Hvok : rv_ok v) by (rewrite <- Hvw; apply Hcp).
  destruct (replace_spec v id [] Hvok) as (v' & Hr & Hvok' & Hown & Hkeep); [constructor|].
  unfold remove_owner in Hv'. rewrite Hr in Hv'. injection Hv' as Hv'.
  assert (Hvo : rv_owners v = rv_owners (c_views c)).
  { unfold v. destruct (c_insights c !! id); [apply before_prune_frame|done]. }
  exists c'. split; [done|]. split; [done|]. rewrite Hi', Hm', Hl', Hf', Hi, Hm, Hl, Hfl, <- Hv'.
  do 4 (split; [done|]). split; [rewrite Hown; unfold owners_after; by rewrite Hvo|]. split.
  - intros k Hk Hmat Hne. rewrite Hkeep by done. unfold v.
    destruct (c_insights c !! id) as [row|] eqn:Er; [|done].
    destruct (row_known c id row Hok Er) as (Hid & _).
    apply before_prune_frame; [done|congruence].
  - intros row Hk Er Hin. rewrite Hkeep by done. unfold v. rewrite Er.
    destruct (row_known c id row Hok Er) as (Hid & _ & Hmat).
    pose proof (before_prune_frame (c_views c) row (c_materialized c)) as (_ & Hbc & _ & Hbr).
    rewrite Hid in Hbr. apply Hbr; [done|done|]. rewrite <- Hbc.
    assert (Hve : before_prune (c_views c) row (c_materialized c) = v) by (unfold v; by rewrite Er).
    rewrite Hve. apply (count_pos v); [by apply rv_ok_counts|].
    rewrite (rv_count v Hvok), (refcount_split _ id).
    apply (count_pos v') in Hk; [|by apply rv_ok_counts].
    rewrite (rv_count v' Hvok'), Hown in Hk. unfold owners_after in Hk. lia.
Qed.

(** Some insight outside [l] recovers through [k]. *)
Definition needed_beyond (c : InsightCollection) (l : list Uuid) (k : Uuid) : Prop :=
  exists o deps, rv_owners (c_views c) !! o = Some deps /\ k ∈ deps /\ o ∉ l.

Lemma prune_each_form c l :
  coll_ok c -> NoDup l -> Forall (fun id => held_for_persistence c id = false) l ->
  exists c', prune_each c l = Some c' /\ coll_ok c' /\
    (forall k, c_insights c' !! k = if decide (k ∈ l) then None else c_insights c !! k) /\
    (forall k, c_last_state c' !! k = if decide (k ∈ l) then None else c_last_state c !! k) /\
    (forall k, needed_beyond c l k -> k ∈ c_materialized c -> k ∉ l ->
       rv_retained (c_views c') !! k = rv_retained (c_views c) !! k) /\
    (forall k row, needed_beyond c l k -> k ∈ l -> c_insights c !! k = Some row ->
       is_inactive (i_state row) = true ->
       rv_retained (c_views c') !! k = Some (capture row true)).
Proof.
  revert c. induction l as [|id l IH]; intros c Hok Hnd Hheld; simpl.
  { exists c. repeat (split; [done|]). intros k row _ Hk. set_solver. }
  apply NoDup_cons in Hnd as [Hni Hnd]. apply Forall_cons in Hheld as [Hid Hheld].
  destruct (prune_form c id Hok Hid) as (c1 & -> & Hok1 & Hi1 & Hm1 & Hf1 & Hl1 & Ho1 & Hr1 & Hc1).
  destruct (IH c1 Hok1 Hnd) as (c' & Hc' & Hok' & Hi' & Hl' & Hr' & Hk').
  { eapply Forall_impl; [exact Hheld|]. unfold held_for_persistence. intros k.
    by injection Hf1 as -> -> ->. }
  assert (Hneed : forall k, needed_beyond c (id :: l) k ->
    needed_beyond c1 l k /\ is_Some (rv_counts (c_views c1) !! k)).
  { intros k (o & deps & Ho & Hd & Hnl). apply not_elem_of_cons in Hnl as [Hne Hnl].
    assert (Hown : rv_owners (c_views c1) !! o = Some deps) by (rewrite Ho1, lookup_delete_ne; done).
    split; [by exists o, deps|]. eapply counted; [apply Hok1|exact Hown|done]. }
  exists c'. split; [done|]. split; [done|]. split; [|split; [|split]].
  - intros k. rewrite Hi', Hi1. destruct (decide (k = id)) as [->|].
    + rewrite lookup_delete_eq. do 2 case_decide; set_solver.
    + rewrite lookup_delete_ne by done. do 2 case_decide; set_solver.
  - intros k. rewrite Hl', Hl1. destruct (decide (k = id)) as [->|].
    + rewrite lookup_delete_eq. do 2 case_decide; set_solver.
    + rewrite lookup_delete_ne by done. do 2 case_decide; set_solver.
  - intros k [Hn1 Hs1]%Hneed Hm Hk. apply not_elem_of_cons in Hk as [Hne Hk].
    rewrite Hr' by (done || by rewrite Hm1). by apply Hr1.
  - intros k row [Hn1 Hs1]%Hneed Hk Hrow Hin. apply elem_of_cons in Hk as [->|Hk].
    + rewrite Hr'; [by apply Hc1|done| |done]. rewrite Hm1. by eapply row_known.
    + apply Hk'; [done|done| |done]. rewrite Hi1, lookup_delete_ne; [done|]. by intros ->.
Qed.

(** Pruning is safe: [prune_terminal_insights_without_aqs] never panics, removes exactly the
    terminal rows that persistence does not hold (unsaved or pinned rows stay, active rows
    stay), and the recovery data of a pruned row that another, unpruned insight depends on is
    still readable afterwards, as it was when the row was pruned. *)
Theorem prune_keeps_what_is_needed c :
  coll_ok c ->
  exists c', prune_terminal_insights_without_aqs c = Some (c', prune_ids c) /\ coll_ok c' /\
    (forall k, k ∈ prune_ids c <->
       tracked (c_last_state c) true k /\ held_for_persistence c k = false) /\
    (forall k, c_insights c' !! k = if decide (k ∈ prune_ids c) then None else c_insights c !! k) /\
    (forall k row, k ∈ prune_ids c -> c_insights c !! k = Some row ->
       is_inactive (i_state row) = true -> needed_beyond c (prune_ids c) k ->
       recovery_view c' k = Some (capture row true)).
Proof.
  intros Hok. unfold prune_terminal_insights_without_aqs.
  assert (Hmem : forall k, k ∈ prune_ids c <->
    tracked (c_last_state c) true k /\ held_for_persistence c k = false).
  { intros k. unfold prune_ids.
    rewrite list_elem_of_filter, elem_of_btree_elements, (co_terminal c Hok). tauto. }
  destruct (prune_each_form c (prune_ids c) Hok) as (c' & -> & Hok' & Hi & Hl & Hr & Hv).
  { apply NoDup_filter, NoDup_btree_elements. }
  { apply Forall_forall. intros k Hk. by apply Hmem. }
  exists c'. do 4 (split; [done|]). intros k row Hk Hrow Hin Hneed. unfold recovery_view.
  rewrite Hi, decide_True by done. by apply Hv.
Qed.
End Invariant.

(** ** Witnesses *)
Definition demo_row (id : Uuid) (symbol : string) (s : InsightState) : Insight :=
  (default_insight id 0%Z) <| i_symbol := symbol |> <| i_state := s |>.
(** Row 7 recovers through row 5. *)
Definition demo_dependent : Insight :=
  (demo_row 7%N "AAPL" Filled)
    <| i_execution_data :=
         match set_recovery_dependencies ∅ [5%N] with Ok d => d | Err _ => ∅ end |>.
Definition demo_ops : list CollOp :=
  [OpAdd ((demo_row 5%N "AAPL" Filled) <| i_order_id := Some "order-5" |>); OpAdd demo_dependent;
   OpGetMut 5%N (fun row => row <| i_state := Closed |>); OpRefresh 5%N].
Definition demo_collection : InsightCollection :=
  default collection_new (run_coll_ops collection_new demo_ops).

Lemma demo_ops_ok : ops_ok collection_new demo_ops.
Proof.
  cbn [ops_ok demo_ops]. split; [by vm_compute|]. intros c1 _. split; [by vm_compute|].
  intros c2 _. split; [|intros c3 _; by split]. intros row Hd Hid. by split.
Qed.

Lemma collection_stays_consistent_witness :
  exists c, run_coll_ops collection_new demo_ops = Some c /\ coll_ok c.
Proof. apply collection_stays_consistent, demo_ops_ok. Defined.

Lemma demo_collection_ok : coll_ok demo_collection.
Proof.
  destruct (run_coll_ops_ok collection_new demo_ops collection_new_ok demo_ops_ok) as (c & Hc & Hok).
  unfold demo_collection. by rewrite Hc.
Qed.

(** Row 5 as the collection holds it after it closed. *)
Definition demo_closed_row : Insight :=
  (demo_row 5%N "AAPL" Closed) <| i_order_id := Some "order-5" |>.
Lemma demo_row_5 : c_insights demo_collection !! 5%N = Some demo_closed_row.
Proof. vm_compute. reflexivity. Qed.

Lemma refresh_tracks_row_witness :
  exists c', refresh_runtime_tracking demo_collection 5%N = Some c' /\ 5%N ∈ c_terminal c'.
Proof.
  destruct (refresh_tracks_row demo_collection 5%N demo_closed_row demo_collection_ok demo_row_5)
    as (c' & Hr & _ & _ & Ht & _).
  exists c'. split; [exact Hr|]. apply Ht. reflexivity.
Defined.

Lemma demo_orders o k :
  o ∈ orders_of (c_insight_to_orders demo_collection) k -> k = 5%N /\ o = "order-5".
Proof.
  assert (Hm : map_to_list (c_insight_to_orders demo_collection) = [(5%N, ["order-5"])])
    by (vm_compute; reflexivity).
  revert Hm. generalize (c_insight_to_orders demo_collection). intros m Hm. unfold orders_of.
  destruct (m !! k) as [l|] eqn:E; [|by intros ?%elem_of_nil].
  apply elem_of_map_to_list in E. rewrite Hm in E.
  apply list_elem_of_singleton in E as [= -> ->]. by intros ->%list_elem_of_singleton.
Qed.

Lemma refresh_routes_orders_witness :
  exists c', refresh_runtime_tracking demo_collection 5%N = Some c' /\
    insight_id_for_order c' "order-5" = Some 5%N.
Proof.
  destruct (refresh_routes_orders demo_collection 5%N demo_closed_row) as (c' & Hr & _ & Hn & _).
  - exact demo_collection_ok.
  - vm_compute. reflexivity.
  - intros id o [-> ->]%demo_orders. vm_compute. reflexivity.
  - exact demo_row_5.
  - intros o k _ Hk Ho. by apply demo_orders in Ho as [-> _].
  - exists c'. split; [exact Hr|]. apply Hn. vm_compute. left.
Defined.

Lemma prune_keeps_what_is_needed_witness :
  exists c', prune_terminal_insights_without_aqs demo_collection = Some (c', [5%N]) /\
    c_insights c' !! 5%N = None /\ recovery_view c' 5%N = Some (capture demo_closed_row true).
Proof.
  destruct (prune_keeps_what_is_needed demo_collection demo_collection_ok)
    as (c' & Hr & _ & _ & Hi & Hv).
  assert (Hp : prune_ids demo_collection = [5%N]) by (vm_compute; reflexivity).
  exists c'. rewrite Hp in Hr. split; [exact Hr|]. split.
  - rewrite Hi, Hp. reflexivity.
  - apply Hv; [rewrite Hp; by left|exact demo_row_5|reflexivity|].
    exists 7%N, [5%N]. rewrite Hp. split; [vm_compute; reflexivity|].
    split; [left|]. by intros ?%list_elem_of_singleton.
Defined.

(** When two insights share an order id, the one that drops it unroutes it for
    the other: row 2 still holds "shared" but nothing leads to it. *)
Example shared_order_id_loses_route :
  let row id o := (demo_row id "AAPL" Filled) <| i_order_id := o |> in
  (fun c => (insight_id_for_order c "shared", orders_of (c_insight_to_orders c) 2%N)) <$>
    run_coll_ops collection_new
      [OpAdd (row 1%N (Some "shared")); OpAdd (row 2%N (Some "shared")); OpAdd (row 1%N None)] =
  Some (None, ["shared"]).
Proof. vm_compute. reflexivity. Qed.
