(* ===== verification/CollectionReaders.v ===== *)
(** * CollectionReaders: pages, sweeps and walks over the collection

    The merged recovery page equals a page of the union of its three indexes;
    following the cursors visits everything once; the bounded live-sync
    selection is a prefix of the full one; the descendant walk terminates on
    any parent references and lists every descendant before its parent. *)
From S2P Require Import Prelude.
From S2P Require Import OrderedSet.
From S2P Require Import Float64.
From S2P Require Import Text.
From S2P Require Import BrokerTypes.
From S2P Require Import TimeFrame.
From S2P Require Import InsightTypes.
From S2P Require Import Commands.
From S2P Require Import ExecutionData.
From S2P Require Import Insight.
From S2P Require Import RecoveryViews.
From S2P Require Import Collection.
From S2P Require Import CollectionInvariant.

(** ** The merged recovery page *)

Definition min_head (a d t : list Uuid) : option Uuid :=
  opt_min (hd_error a) (opt_min (hd_error d) (hd_error t)).

Lemma min_head_None a d t : min_head a d t = None -> a = [] /\ d = [] /\ t = [].
Proof. unfold min_head. destruct a, d, t; simpl; done. Qed.

Lemma sorted_hd (x y : N) l : StronglySorted N.lt (x :: l) -> y ∈ x :: l -> (x <= y)%N.
Proof.
  intros [Hx _]%StronglySorted_cons [->|Hy]%elem_of_cons; [lia|].
  rewrite Forall_forall in Hx. specialize (Hx y Hy). lia.
Qed.

Lemma opt_min_Some a b m :
  opt_min a b = Some m ->
  (a = Some m \/ b = Some m) /\ (forall x, a = Some x \/ b = Some x -> (m <= x)%N).
Proof.
  destruct a as [a|], b as [b|]; simpl; intros [= <-]; (split; [|intros x [[= <-]|[= <-]]; lia]).
  - destruct (N.min_spec a b) as [[_ ->]|[_ ->]]; auto.
  - auto.
  - auto.
Qed.

Lemma hd_error_elem {A} (l : list A) x : hd_error l = Some x -> x ∈ l.
Proof. destruct l; simpl; intros [= ->]. left. Qed.

Lemma hd_error_min l y :
  StronglySorted N.lt l -> y ∈ l -> exists x, hd_error l = Some x /\ (x <= y)%N.
Proof.
  destruct l as [|x l]; [by intros _ ?%elem_of_nil|]. intros Hs Hy.
  exists x. split; [done|]. by eapply sorted_hd.
Qed.

Lemma min_head_Some a d t m :
  StronglySorted N.lt a -> StronglySorted N.lt d -> StronglySorted N.lt t ->
  min_head a d t = Some m ->
  (m ∈ a \/ m ∈ d \/ m ∈ t) /\ (forall y, y ∈ a \/ y ∈ d \/ y ∈ t -> (m <= y)%N).
Proof.
  intros Ha Hd Ht [Hin Hmin]%opt_min_Some. destruct (opt_min (hd_error d) (hd_error t)) as [r|] eqn:E.
  - apply opt_min_Some in E as [Hin' Hmin']. split.
    + destruct Hin as [?|[= ->]]; [left; by apply hd_error_elem|].
      destruct Hin' as [?%hd_error_elem|?%hd_error_elem]; tauto.
    + intros y [Hy|[Hy|Hy]]; apply hd_error_min in Hy as (x & Hx & Hle); try done.
      * specialize (Hmin x (or_introl Hx)). lia.
      * specialize (Hmin' x (or_introl Hx)); specialize (Hmin r (or_intror eq_refl)). lia.
      * specialize (Hmin' x (or_intror Hx)); specialize (Hmin r (or_intror eq_refl)). lia.
  - assert (d = [] /\ t = []) as [-> ->] by (destruct d, t; done).
    destruct Hin as [Hin|?]; [|done]. split; [left; by apply hd_error_elem|].
    intros y [Hy|[Hy|Hy]]; [|by apply elem_of_nil in Hy..].
    apply hd_error_min in Hy as (x & Hx & Hle); [|done]. specialize (Hmin x (or_introl Hx)). lia.
Qed.

Lemma elem_of_advance m l y :
  StronglySorted N.lt l -> (forall y, y ∈ l -> (m <= y)%N) ->
  (y ∈ advance m l <-> y ∈ l /\ y <> m).
Proof.
  intros Hs Hmin. destruct l as [|x l]; simpl; [set_solver|].
  assert (Hx : (m <= x)%N) by (apply Hmin; by left).
  apply StronglySorted_cons in Hs as [Hall Hs]. rewrite Forall_forall in Hall.
  destruct (x =? m)%N eqn:E.
  - assert (x = m) as -> by lia. split.
    + intros Hy. split; [by right|]. specialize (Hall y Hy). lia.
    + intros [[->|Hy]%elem_of_cons Hne]; done.
  - split; [|by intros []]. intros Hy. split; [done|]. intros ->.
    apply elem_of_cons in Hy as [->|Hy]; [lia|]. specialize (Hall m Hy). lia.
Qed.

Lemma advance_sorted m l : StronglySorted N.lt l -> StronglySorted N.lt (advance m l).
Proof.
  destruct l as [|x l]; simpl; [done|]. destruct (x =? m)%N; [|done].
  by intros [_ ?]%StronglySorted_cons.
Qed.

(** Merging sorted lists yields the beginning of their sorted union. *)
Lemma merge_pages_union n a d t u :
  StronglySorted N.lt a -> StronglySorted N.lt d -> StronglySorted N.lt t ->
  StronglySorted N.lt u -> (forall y, y ∈ u <-> y ∈ a \/ y ∈ d \/ y ∈ t) ->
  merge_pages n a d t = take n u.
Proof.
  revert a d t u. induction n as [|n IH]; intros a d t u Ha Hd Ht Hu Hm; simpl; [done|].
  fold (min_head a d t). destruct (min_head a d t) as [m|] eqn:E.
  - destruct (min_head_Some a d t m Ha Hd Ht E) as [Hin Hmin].
    destruct u as [|x u]; [apply Hm in Hin; by apply elem_of_nil in Hin|].
    assert (x = m) as ->.
    { assert (m <= x)%N by (apply Hmin, Hm; by left).
      apply Hm in Hin. pose proof (sorted_hd _ _ _ Hu Hin). lia. }
    simpl. f_equal. pose proof Hu as [Hall Hu']%StronglySorted_cons. rewrite Forall_forall in Hall.
    apply IH; auto using advance_sorted. intros y.
    rewrite !elem_of_advance by (done || (intros ??; apply Hmin; tauto)).
    assert (Hx : y ∈ u <-> y ∈ m :: u /\ y <> m).
    { split; [|by intros [[->|?]%elem_of_cons ?]]. intros Hy. split; [by right|]. intros ->.
      specialize (Hall m Hy). lia. }
    rewrite Hx, Hm. tauto.
  - apply min_head_None in E as (-> & -> & ->). destruct u as [|x u]; [done|].
    destruct (proj1 (Hm x)) as [?|[?|?]]; [by left|set_solver..].
Qed.

(** The rows a cloud recovery sweep covers. *)
Definition recovery_set (c : InsightCollection) : gset Uuid :=
  c_ordered_active c ∪ c_dirty c ∪ c_terminal c.

Lemma cloud_page_union c after upper limit :
  cloud_recovery_page c after upper limit = cursor_page 128 (recovery_set c) after upper limit.
Proof.
  unfold cloud_recovery_page, cursor_page. rewrite orb_comm.
  replace (is_some_and (fun id => upper <=? id)%N after)
    with (match after with Some a => (upper <=? a)%N | None => false end) by (by destruct after).
  destruct (_ || _); [done|]. apply merge_pages_union; auto using btree_range_sorted.
  intros y. rewrite !elem_of_btree_range. unfold recovery_set. set_solver.
Qed.

(** The lazily merged recovery page equals the reference page: three bounded range iterators
    advanced in lockstep yield exactly a cursor page of the union of the active, dirty and
    terminal indexes, capped at 128 ids. *)
Theorem cloud_page_is_union_page c after upper limit :
  cloud_recovery_page c after upper limit = cursor_page 128 (recovery_set c) after upper limit.
Proof. apply cloud_page_union. Qed.

(** ** Sweeps *)

Lemma sweep_ext fuel p q after :
  (forall a, p a = q a) -> sweep fuel p after = sweep fuel q after.
Proof.
  intros Hpq. revert after. induction fuel as [|fuel IH]; intros after; simpl; [done|].
  rewrite Hpq. destruct (last (q after)); [|done]. by rewrite IH.
Qed.

Lemma sweep_all cap X upper limit :
  0 < limit -> 0 < cap -> btree_last X = Some upper ->
  concat (sweep (S (size X)) (fun a => cursor_page cap X a upper limit) None) = btree_elements X.
Proof.
  intros Hl Hc Hu. rewrite sweep_complete; [by apply btree_range_all|done|done|].
  pose proof (length_btree_range None upper X). lia.
Qed.

(** An owner sweep over an unchanged collection visits every active insight exactly once, in
    ascending order: capturing the upper bound and following the cursor page by page yields the
    sorted active ids, in pages of at most 256. *)
Theorem active_sweep_visits_all `{Json} c upper limit :
  coll_ok c -> active_insight_upper_bound c = Some upper -> 0 < limit ->
  concat (sweep (S (active_insight_count c)) (fun a => active_insight_page c a upper limit) None)
    = active_insight_ids c /\
  (forall after, length (active_insight_page c after upper limit) <= Nat.min limit 256).
Proof.
  intros Hok Hu Hl. unfold active_insight_page, active_insight_upper_bound, active_insight_count,
    active_insight_ids in *. rewrite (co_ordered c Hok) in *.
  split; [apply sweep_all; [done|lia|done]|intros; apply cursor_page_bound].
Qed.

Lemma opt_max_Some a b m :
  opt_max a b = Some m ->
  (a = Some m \/ b = Some m) /\ (forall x, a = Some x \/ b = Some x -> (x <= m)%N).
Proof.
  destruct a as [a|], b as [b|]; simpl; intros [= <-]; (split; [|intros x [[= <-]|[= <-]]; lia]).
  - destruct (N.max_spec a b) as [[_ ->]|[_ ->]]; auto.
  - auto.
  - auto.
Qed.

Lemma opt_max_last X Y : opt_max (btree_last X) (btree_last Y) = btree_last (X ∪ Y).
Proof.
  destruct (opt_max (btree_last X) (btree_last Y)) as [m|] eqn:E; symmetry.
  - apply opt_max_Some in E as [Hin Hmax]. apply btree_last_max. split.
    + destruct Hin as [[? _]%btree_last_max|[? _]%btree_last_max]; set_solver.
    + intros x [Hx|Hx]%elem_of_union.
      * destruct (btree_last X) as [k|] eqn:Ek; [|apply btree_last_None in Ek; set_solver].
        specialize (Hmax k (or_introl eq_refl)). apply btree_last_max in Ek as [_ Hk].
        specialize (Hk x Hx). lia.
      * destruct (btree_last Y) as [k|] eqn:Ek; [|apply btree_last_None in Ek; set_solver].
        specialize (Hmax k (or_intror eq_refl)). apply btree_last_max in Ek as [_ Hk].
        specialize (Hk x Hx). lia.
  - apply btree_last_None. destruct (btree_last X) eqn:Ex, (btree_last Y) eqn:Ey; try done.
    apply btree_last_None in Ex, Ey. set_solver.
Qed.

(** A cloud recovery sweep publishes every active, dirty or terminal row exactly once, in
    ascending order, whatever page size is asked for. *)
Theorem cloud_sweep_visits_all c upper limit :
  cloud_recovery_upper_bound c = Some upper -> 0 < limit ->
  concat (sweep (S (size (recovery_set c))) (fun a => cloud_recovery_page c a upper limit) None)
    = btree_elements (recovery_set c).
Proof.
  unfold cloud_recovery_upper_bound. rewrite !opt_max_last, union_assoc_L. intros Hu Hl.
  erewrite sweep_ext; [by apply (sweep_all 128); [|lia|]|].
  intros a. apply cloud_page_union.
Qed.

(** A sweep during which the collection changes: the n-th page is read from the
    n-th collection.  The result is what was read, the cursor, and whether an
    empty page ended the sweep. *)
Fixpoint moving_sweep (limit : nat) (upper : Uuid) (cs : list InsightCollection)
    (after : option Uuid) : list Uuid * option Uuid * bool :=
  match cs with
  | [] => ([], after, false)
  | c :: cs =>
      let page := active_insight_page c after upper limit in
      match last page with
      | None => ([], after, true)
      | Some cursor =>
          let '(seen, cursor, finished) := moving_sweep limit upper cs (Some cursor) in
          (page ++ seen, cursor, finished)
      end
  end.

Lemma in_bounds_Some a upper x : in_bounds (Some a) upper x = true <-> (a < x)%N /\ (x <= upper)%N.
Proof. unfold in_bounds. simpl. lia. Qed.

(** Sweeps tolerate concurrent changes: when rows come and go between the pages of one sweep,
    no id is read twice, ids are read in ascending order, and an id that stays active for the
    whole sweep is never skipped once the cursor passed it or the sweep ended. *)
Theorem moving_sweep_never_skips limit upper cs after seen cursor finished :
  0 < limit -> moving_sweep limit upper cs after = (seen, cursor, finished) ->
  StronglySorted N.lt seen /\
  (forall x, x ∈ seen -> in_bounds after upper x = true) /\
  (forall x, in_bounds after upper x = true -> Forall (fun c => x ∈ c_ordered_active c) cs ->
     finished = true \/ is_some_and (fun k => x <=? k)%N cursor = true -> x ∈ seen).
Proof.
  intros Hl. revert after seen cursor finished.
  induction cs as [|c cs IH]; intros after seen cursor finished; simpl.
  { intros [= <- <- <-]. split; [constructor|]. split; [intros x Hx; by apply elem_of_nil in Hx|].
    intros x Hb _ [?|Hc]; [done|]. destruct after as [a|]; [|done].
    apply in_bounds_Some in Hb. simpl in Hc. lia. }
  unfold active_insight_page. rewrite cursor_page_take by done.
  set (R := btree_range after upper (c_ordered_active c)). set (n := Nat.min limit 256).
  assert (Hn : 0 < n) by (unfold n; lia).
  destruct (last (take n R)) as [l|] eqn:El.
  - destruct (moving_sweep limit upper cs (Some l)) as [[seen' cur'] fin'] eqn:Es.
    intros [= <- <- <-]. destruct (IH _ _ _ _ Es) as (Hs & Hb & Hin).
    pose proof (btree_range_after_page n after upper (c_ordered_active c) l El) as Hdrop. fold R in Hdrop.
    assert (HtR : StronglySorted N.lt (take n R)).
    { apply (StronglySorted_app_1_l _ _ (drop n R)). rewrite take_drop. apply btree_range_sorted. }
    assert (HlR : l ∈ R) by (rewrite <- (take_drop n R); apply elem_of_app; left; by apply last_Some_elem_of).
    apply elem_of_btree_range in HlR as [Hlb _].
    split; [|split].
    + apply StronglySorted_app_2; [|done|done]. intros x y Hx Hy.
      apply Hb, in_bounds_Some in Hy. pose proof (last_Some_max _ _ HtR El x Hx). lia.
    + intros x [Hx|Hx]%elem_of_app.
      * apply (elem_of_btree_range after upper (c_ordered_active c)). rewrite <- (take_drop n (btree_range _ _ _)).
        apply elem_of_app. by left.
      * apply Hb, in_bounds_Some in Hx. unfold in_bounds in *. destruct after; lia.
    + intros x Hx [Hc Hcs]%Forall_cons Hend. apply elem_of_app.
      assert (HxR : x ∈ take n R ++ drop n R) by (rewrite take_drop; by apply elem_of_btree_range).
      apply elem_of_app in HxR as [|HxR]; [by left|right]. rewrite Hdrop in HxR.
      apply elem_of_btree_range in HxR as [? _]. by apply Hin.
  - intros [= <- <- <-]. apply last_None in El. split; [constructor|].
    split; [intros x Hx; by apply elem_of_nil in Hx|]. intros x Hx [Hc _]%Forall_cons _.
    assert (HxR : x ∈ R) by (by apply elem_of_btree_range).
    destruct R as [|y R]; [done|]. destruct n; [lia|done].
Qed.

(** ** Live sync *)

Lemma sort_sorted l : StronglySorted N.lt l -> sort_unstable l = l.
Proof.
  intros Hs. apply sorted_ext; [|done|].
  - apply StronglySorted_strict; [apply (StronglySorted_merge_sort N.le)|].
    unfold sort_unstable. rewrite merge_sort_Permutation. by apply sorted_NoDup.
  - intros x. unfold sort_unstable. by rewrite merge_sort_Permutation.
Qed.

Lemma sorted_take n l : StronglySorted N.lt l -> StronglySorted N.lt (take n l).
Proof. intros Hs. apply (StronglySorted_app_1_l _ _ (drop n l)). by rewrite take_drop. Qed.

Lemma ids_sorted c : StronglySorted N.lt (ids c).
Proof. apply btree_elements_sorted. Qed.

(** The bounded live-sync selection is the beginning of the full one: limiting a flush to [n]
    rows gives the [n] smallest ids of the unlimited flush, and the incremental flush covers
    every dirty row and every terminal row that persistence does not hold, each once and in
    ascending order. *)
Theorem live_sync_limited_is_prefix c full n :
  insight_ids_for_live_sync_limited c full (Some n) = take n (insight_ids_for_live_sync c full) /\
  StronglySorted N.lt (insight_ids_for_live_sync c full) /\
  (forall id, id ∈ insight_ids_for_live_sync c false <->
     id ∈ c_dirty c \/ (id ∈ c_terminal c /\ held_for_persistence c id = false)) /\
  (forall id, id ∈ insight_ids_for_live_sync c true <-> is_Some (c_insights c !! id)).
Proof.
  split; [|split; [|split]].
  - unfold insight_ids_for_live_sync, insight_ids_for_live_sync_limited.
    rewrite (decide_False (P := None = Some 0)) by done.
    case_decide as Hn; [injection Hn as ->; by rewrite take_0|]. destruct full; cbn [negb]; [|done].
    rewrite !(sort_sorted (ids c)) by apply ids_sorted. destruct (n <? length (ids c)) eqn:E.
    + apply sort_sorted, sorted_take, ids_sorted.
    + rewrite sort_sorted by apply ids_sorted. rewrite take_ge; [done|]. lia.
  - unfold insight_ids_for_live_sync, insight_ids_for_live_sync_limited.
    rewrite (decide_False (P := None = Some 0)) by done. destruct full; cbn [negb].
    + rewrite sort_sorted by apply ids_sorted. apply ids_sorted.
    + apply StronglySorted_filter, btree_elements_sorted.
  - intros id. unfold insight_ids_for_live_sync, insight_ids_for_live_sync_limited.
    rewrite (decide_False (P := None = Some 0)) by done. cbn [negb].
    rewrite list_elem_of_filter, elem_of_btree_elements.
    destruct (held_for_persistence c id); case_bool_decide; set_solver.
  - intros id. unfold insight_ids_for_live_sync, insight_ids_for_live_sync_limited.
    rewrite (decide_False (P := None = Some 0)) by done. cbn [negb].
    rewrite sort_sorted by apply ids_sorted.
    change (ids c) with (btree_elements (dom (c_insights c))). by rewrite elem_of_btree_elements, elem_of_dom.
Qed.

(** ** Descendants *)

(** [x] is a tracked row whose chain of parents, through rows outside
    [visited], reaches [frontier]. *)
Inductive descends (c : InsightCollection) (visited frontier : gset Uuid) : Uuid -> Prop :=
| descends_child x p :
    parent_of c x = Some p -> x ∉ visited -> p ∈ frontier -> descends c visited frontier x
| descends_step x p :
    parent_of c x = Some p -> x ∉ visited -> descends c visited frontier p ->
    descends c visited frontier x.

Lemma elem_of_children c parents x :
  x ∈ child_ids_for_parents c parents <-> exists p, parent_of c x = Some p /\ p ∈ parents.
Proof.
  unfold child_ids_for_parents, sort_unstable. rewrite merge_sort_Permutation, list_elem_of_filter, elem_of_elements,
    elem_of_dom, is_some_and_true.
  split.
  - intros [(p & Hp & Hin) _]. exists p. split; [done|]. by apply bool_decide_eq_true in Hin.
  - intros (p & Hp & Hin). split; [exists p; split; [done|by apply bool_decide_eq_true]|].
    unfold parent_of in Hp. destruct (c_insights c !! x); [eauto|done].
Qed.

Lemma children_sorted c parents : StronglySorted N.lt (child_ids_for_parents c parents).
Proof.
  unfold child_ids_for_parents. apply StronglySorted_strict; [apply (StronglySorted_merge_sort N.le)|].
  unfold sort_unstable. rewrite merge_sort_Permutation. apply NoDup_filter, NoDup_elements.
Qed.

(** The generation a turn of the walk adds. *)
Definition generation (c : InsightCollection) (visited frontier : gset Uuid) : list Uuid :=
  filter (fun id => id ∉ visited) (child_ids_for_parents c frontier).

Lemma elem_of_generation c visited frontier x :
  x ∈ generation c visited frontier <->
  (x ∉ visited) /\ (exists p, parent_of c x = Some p /\ p ∈ frontier).
Proof. unfold generation. by rewrite list_elem_of_filter, elem_of_children. Qed.

Lemma descends_generation c visited frontier x :
  let g := generation c visited frontier in
  descends c visited frontier x <->
  x ∈ g \/ descends c (visited ∪ list_to_set g) (list_to_set g) x.
Proof.
  intros g. assert (Hg : forall y, y ∈ g <->
    (y ∉ visited) /\ (exists p, parent_of c y = Some p /\ p ∈ frontier))
    by (intros; apply elem_of_generation).
  split.
  - induction 1 as [x p Hp Hv Hf|x p Hp Hv Hd IH]; [left; apply Hg; eauto|].
    destruct (decide (x ∈ g)) as [|Hx]; [by left|right].
    destruct IH as [Hpg|Hpd]; [eapply descends_child|eapply descends_step]; eauto; set_solver.
  - intros [(Hv & p & Hp & Hf)%Hg|Hd]; [by eapply descends_child|].
    induction Hd as [x p Hp Hv Hf|x p Hp Hv Hd IH].
    + rewrite elem_of_list_to_set in Hf. apply Hg in Hf as (Hpv & q & Hq & Hqf).
      eapply descends_step; [done|set_solver|]. by eapply descends_child.
    + eapply descends_step; [done|set_solver|done].
Qed.

Lemma generation_nil c visited frontier x :
  generation c visited frontier = [] -> ~ descends c visited frontier x.
Proof.
  intros Hn Hd. induction Hd as [x p Hp Hv Hf|]; [|done].
  assert (Hx : x ∈ generation c visited frontier) by (apply elem_of_generation; eauto).
  rewrite Hn in Hx. by apply elem_of_nil in Hx.
Qed.

(** The rows the walk has not visited yet. *)
Definition unvisited (c : InsightCollection) (visited : gset Uuid) : nat :=
  size (dom (c_insights c) ∖ visited).

Lemma unvisited_decreases c visited frontier :
  let g := generation c visited frontier in
  g <> [] -> unvisited c (visited ∪ list_to_set g) < unvisited c visited.
Proof.
  intros g Hg. destruct g as [|x g'] eqn:E; [done|]. apply subset_size.
  assert (Hx : x ∈ generation c visited frontier) by (fold g; rewrite E; left).
  apply elem_of_generation in Hx as (Hv & p & Hp & _).
  assert (Hdom : x ∈ dom (c_insights c)).
  { apply elem_of_dom. unfold parent_of in Hp. destruct (c_insights c !! x); [eauto|done]. }
  split; [set_solver|]. intros Hsub. specialize (Hsub x). set_solver.
Qed.

Lemma generations_spec fuel c visited frontier :
  frontier ⊆ visited -> unvisited c visited < fuel ->
  forall r, r = concat (reverse (generations fuel c visited frontier)) ->
  (forall x, x ∈ r <-> descends c visited frontier x) /\ NoDup r /\
  StronglySorted (fun x y => parent_of c y <> Some x) r.
Proof.
  revert visited frontier. induction fuel as [|fuel IH]; intros visited frontier Hsub Hfuel; [lia|].
  cbn [generations]. fold (generation c visited frontier).
  assert (Hnil : generation c visited frontier = [] \/ frontier = ∅ ->
    forall x, x ∈ concat (reverse ([] : list (list Uuid))) <-> descends c visited frontier x).
  { intros Hor x. split; [by intros ?%elem_of_nil|]. intros Hd.
    destruct Hor as [Hn|He]; [by apply (generation_nil c _ _ x) in Hn|].
    exfalso. induction Hd; [set_solver|done]. }
  case_decide as Hf; [intros r ->; split; [by apply Hnil; right|split; constructor]|].
  destruct (generation c visited frontier) as [|x0 g0] eqn:Eg;
    [intros r ->; split; [by apply Hnil; left|split; constructor]|].
  rewrite <- Eg. set (g := generation c visited frontier) in *. intros r Er.
  pose proof (unvisited_decreases c visited frontier) as Hdec. fold g in Hdec. simpl in Hdec.
  assert (Hgne : g <> []) by (by rewrite Eg).
  destruct (IH (visited ∪ list_to_set g) (list_to_set g)) with
    (r := concat (reverse (generations fuel c (visited ∪ list_to_set g) (list_to_set g))))
    as (Hin & Hnd & Hso); [set_solver|specialize (Hdec Hgne); lia|done|].
  rewrite reverse_cons, concat_app in Er. simpl in Er. rewrite app_nil_r in Er.
  set (r' := concat (reverse (generations fuel c _ _))) in *.
  assert (Hr' : forall y, y ∈ r' -> (y ∉ visited) /\ (y ∉ g)).
  { intros y Hy. apply Hin in Hy. split; destruct Hy; set_solver. }
  rewrite Er. split; [|split].
  - intros x. rewrite elem_of_app, Hin, (descends_generation c visited frontier). fold g. tauto.
  - apply NoDup_app. split; [done|]. split; [intros y Hy; by apply Hr'|].
    apply NoDup_filter, sorted_NoDup, children_sorted.
  - assert (Hgp : forall x y, x ∉ visited -> y ∈ g -> parent_of c y <> Some x).
    { intros x y Hx (Hv & p & Hp & Hpf)%elem_of_generation Hy. set_solver. }
    apply StronglySorted_app_2; [|done|].
    + intros x y Hx Hy. apply Hgp; [by apply Hr'|done].
    + assert (Hall : forall l, l ⊆ g -> StronglySorted (fun x y => parent_of c y <> Some x) l).
      { induction l as [|x l IHl]; intros Hl; [constructor|]. constructor; [apply IHl; set_solver|].
        apply Forall_forall. intros y Hy. apply Hgp; [|set_solver].
        assert (Hx : x ∈ g) by set_solver. by apply elem_of_generation in Hx as [? _]. }
      by apply Hall.
Qed.

(** The descendant walk is complete, terminates on any parent references (cycles included) and
    lists the deepest rows first: the result holds exactly the tracked rows whose chain of
    parents leads to one of the given insights, each once, and every row comes before the row
    that is its parent. *)
Theorem descendants_deepest_first c parents :
  (forall x, x ∈ descendant_ids_for_parents c parents <-> descends c parents parents x) /\
  NoDup (descendant_ids_for_parents c parents) /\
  StronglySorted (fun x y => parent_of c y <> Some x) (descendant_ids_for_parents c parents).
Proof.
  eapply generations_spec; [| |reflexivity]; [done|]. unfold unvisited.
  pose proof (subseteq_size (dom (c_insights c) ∖ parents) (dom (c_insights c))) as Hle.
  rewrite size_dom in Hle. assert (dom (c_insights c) ∖ parents ⊆ dom (c_insights c)) by set_solver.
  lia.
Qed.

(** ** Candidates of a broker event *)

Lemma push_mapped_spec c orders candidates :
  NoDup candidates ->
  NoDup (foldl (push_mapped c) candidates orders) /\
  (forall id, id ∈ foldl (push_mapped c) candidates orders <->
     id ∈ candidates \/ (exists o, o ∈ orders /\ c_order_to_insight c !! o = Some id)).
Proof.
  revert candidates. induction orders as [|o orders IH]; intros cand Hnd; simpl.
  { split; [done|]. intros id. split; [by left|]. intros [?|(o & Ho & _)]; [done|set_solver]. }
  assert (Hp : NoDup (push_mapped c cand o) /\
    forall id, id ∈ push_mapped c cand o <-> id ∈ cand \/ c_order_to_insight c !! o = Some id).
  { unfold push_mapped. destruct (c_order_to_insight c !! o) as [m|]; [|split; [done|naive_solver]].
    case_decide as Hm.
    - split; [done|]. intros id. naive_solver.
    - split.
      + apply NoDup_app. split; [done|]. split; [|apply NoDup_singleton].
        intros x Hx ->%list_elem_of_singleton. done.
      + intros id. rewrite elem_of_app, list_elem_of_singleton. naive_solver. }
  destruct Hp as [Hnd' Hin]. destruct (IH _ Hnd') as [Hnd'' Hin'']. split; [done|].
  intros id. rewrite Hin'', Hin. setoid_rewrite elem_of_cons. naive_solver.
Qed.

(** A broker event is offered to the right insights: the candidates are exactly the insight the
    event names itself and the insights its order id or one of its leg order ids is routed to,
    each at most once. *)
Theorem candidates_are_named_or_routed `{UuidText} c order :
  NoDup (candidate_insight_ids_for_trade_event c order) /\
  (forall id, id ∈ candidate_insight_ids_for_trade_event c order <->
     o_insight_id order ≫= uuid_parse = Some id \/
     (exists o, o ∈ o_order_id order :: match o_legs order with Some l => leg_ids l | None => [] end /\
        insight_id_for_order c o = Some id)).
Proof.
  unfold candidate_insight_ids_for_trade_event, insight_id_for_order.
  destruct (push_mapped_spec c
    (o_order_id order :: match o_legs order with Some l => leg_ids l | None => [] end)
    (option_list (o_insight_id order ≫= uuid_parse))) as [Hnd Hin].
  { destruct (_ ≫= _); [apply NoDup_singleton|constructor]. }
  split; [exact Hnd|]. intros id. rewrite Hin.
  destruct (o_insight_id order ≫= uuid_parse); simpl; set_solver.
Qed.

(** ** Witnesses *)
Lemma active_sweep_visits_all_witness :
  concat (sweep 2 (fun a => active_insight_page demo_collection a 7%N 1) None) = [7%N].
Proof.
  destruct (active_sweep_visits_all demo_collection 7%N 1 demo_collection_ok) as [Hs _];
    [vm_compute; reflexivity|lia|].
  assert (Hn : active_insight_count demo_collection = 1) by (vm_compute; reflexivity).
  rewrite Hn in Hs. rewrite Hs. vm_compute. reflexivity.
Defined.

Lemma cloud_sweep_visits_all_witness :
  concat (sweep (S (size (recovery_set demo_collection)))
    (fun a => cloud_recovery_page demo_collection a 7%N 1) None) = [5%N; 7%N].
Proof.
  rewrite (cloud_sweep_visits_all demo_collection 7%N 1); [|vm_compute; reflexivity|lia].
  vm_compute. reflexivity.
Defined.

Lemma moving_sweep_never_skips_witness :
  7%N ∈ (moving_sweep 1 9%N [demo_collection; demo_collection] None).1.1.
Proof.
  destruct (moving_sweep_never_skips 1 9%N [demo_collection; demo_collection] None
    (moving_sweep 1 9%N [demo_collection; demo_collection] None).1.1
    (moving_sweep 1 9%N [demo_collection; demo_collection] None).1.2
    (moving_sweep 1 9%N [demo_collection; demo_collection] None).2) as (_ & _ & Hin);
    [lia|by destruct (moving_sweep _ _ _ _) as [[? ?] ?]|].
  apply Hin; [reflexivity| |left; vm_compute; reflexivity].
  repeat constructor; apply (bool_decide_unpack _); vm_compute; exact I.
Defined.
