(* ===== verification/AccountLane.v ===== *)
(** * AccountLane: the shared broker slot of an account
    ([src/core/broker/command_worker/account_lane.rs])

    All workers of one account share one mutation slot and the capacity left at
    the broker.  The first part models the reservation ledgers (pending orders,
    symbol quantity, margin), the second the admission of waiters.  Every
    definition is one critical section of the lane's mutex; an [Instant] is a
    [Z] and [Instant::now()] an argument. *)
From S2P Require Import Prelude.
From S2P Require Import OrderedSet.
From S2P Require Import Float64.
From S2P Require Import Text.
From S2P Require Import BrokerTypes.
From S2P Require Import InsightTypes.
From S2P Require Import Commands.

Definition MAX_WAITERS : nat := 4096.
Definition MAX_CAPACITY_RESERVATIONS : nat := 4096.
Definition u64_max : Z := 2 ^ 64 - 1.

Inductive ReservationState := AwaitingProof | Confirmed.
#[export] Instance ReservationState_eq_dec : EqDecision ReservationState.
Proof. solve_decision. Defined.

(** ** Reservation ledgers

    The three capacities keep the same two collections, completion watermarks
    and reservations; [P] is what a reservation holds besides its state. *)
Record Ledger (P : Type) := mkLedger {
  lg_completed : list (string * Z);
  lg_reservations : gmap string (P * ReservationState)
}.
Global Arguments mkLedger {P} _ _.
Global Arguments lg_completed {P} _.
Global Arguments lg_reservations {P} _.

Section Ledgers.
Context {P : Type}.

Definition empty_ledger : Ledger P := mkLedger [] ∅.

(** The loop of [observe]: watermarks older than the observation retire. *)
Fixpoint retire_front (observed : Z) (completed : list (string * Z))
    (reservations : gmap string (P * ReservationState)) : Ledger P :=
  match completed with
  | (id, done) :: rest =>
      if (done <? observed)%Z then retire_front observed rest (delete id reservations)
      else mkLedger completed reservations
  | [] => mkLedger [] reservations
  end.
Definition retire (l : Ledger P) (observed : Z) : Ledger P :=
  retire_front observed (lg_completed l) (lg_reservations l).

Definition ledger_insert (l : Ledger P) (id : string) (p : P) : Ledger P :=
  mkLedger (lg_completed l) (<[id := (p, AwaitingProof)]> (lg_reservations l)).

(** [finish], the same in all three capacities. *)
Definition ledger_finish (l : Ledger P) (now : Z) (id : string) (outcome : BrokerCommandOutcome)
    : Ledger P :=
  match lg_reservations l !! id with
  | Some (p, AwaitingProof) =>
      match outcome with
      | Ambiguous _ => l
      | DeclinedOutcome _ | CancelledBeforeDispatch =>
          mkLedger (lg_completed l) (delete id (lg_reservations l))
      | OrderResponse _ | Acknowledged =>
          mkLedger (lg_completed l ++ [(id, now)])
            (<[id := (p, Confirmed)]> (lg_reservations l))
      end
  | _ => l
  end.

(** The identity and space checks the three [available] functions share. *)
Definition ledger_admits (l : Ledger P) (id : string) : bool :=
  negb (str_is_empty id) && (str_len id <=? 512)
  && is_none (lg_reservations l !! id)
  && (size (lg_reservations l) <? MAX_CAPACITY_RESERVATIONS).
End Ledgers.

(** *** Pending orders *)
Record PendingCapacity := mkPendingCapacity {
  pc_observation : option (Z * Z);
  pc_ledger : Ledger unit
}.
Definition pending_observe (c : PendingCapacity) (count observed : Z) : PendingCapacity :=
  if is_none_or (fun o : Z * Z => o.2 <? observed)%Z (pc_observation c)
  then mkPendingCapacity (Some (count, observed)) (retire (pc_ledger c) observed)
  else c.
Definition pending_available (c : PendingCapacity) (id : string) (limit count : Z) : bool :=
  let count := match pc_observation c with Some (n, _) => n | None => count end in
  ledger_admits (pc_ledger c) id
  && (Z.min (count + Z.of_nat (size (lg_reservations (pc_ledger c)))) u64_max <? limit)%Z.
Definition pending_insert (c : PendingCapacity) (id : string) : PendingCapacity :=
  mkPendingCapacity (pc_observation c) (ledger_insert (pc_ledger c) id tt).
Definition pending_finish (c : PendingCapacity) (now : Z) (id : string)
    (outcome : BrokerCommandOutcome) : PendingCapacity :=
  mkPendingCapacity (pc_observation c) (ledger_finish (pc_ledger c) now id outcome).

(** *** Symbol quantity *)
Record SymbolCapacity := mkSymbolCapacity {
  sc_observations : gmap string (f64 * Z);
  sc_ledger : Ledger (string * f64)
}.
Definition symbol_retires (l : Ledger (string * f64)) (symbol : string) (observed : Z)
    (w : string * Z) : bool :=
  (w.2 <? observed)%Z
  && is_some_and (fun r : string * f64 * ReservationState => String.eqb r.1.1 symbol)
       (lg_reservations l !! w.1).
Definition symbol_observe (c : SymbolCapacity) (symbol : string) (quantity : f64) (observed : Z)
    : SymbolCapacity :=
  if is_none_or (fun o : f64 * Z => o.2 <? observed)%Z (sc_observations c !! symbol)
  then
    let l := sc_ledger c in
    let retired := (filter (fun w => symbol_retires l symbol observed w = true)
                      (lg_completed l)).*1 in
    mkSymbolCapacity (<[symbol := (quantity, observed)]> (sc_observations c))
      (mkLedger (filter (fun w => w.1 ∉ retired) (lg_completed l))
         (foldl (fun m id => delete id m) (lg_reservations l) retired))
  else c.

(** [Iterator::sum]; the order of a hash table's values is open, so the
    callers are given the values in some order. *)
Definition fsum (l : list f64) : f64 := foldl (fun a b => a ⊕ b) f0 l.

Definition symbol_available (c : SymbolCapacity) (values : list (string * f64)) (id symbol : string)
    (requested limit observed : f64) : bool :=
  let observed := match sc_observations c !! symbol with Some (q, _) => q | None => observed end in
  let reserved := fsum (filter (fun r => r.1 = symbol) values).*2 in
  ledger_admits (sc_ledger c) id
  && negb (str_is_empty symbol) && (str_len symbol <=? 128)
  && is_finite requested && (f0 <. requested) && is_finite limit && (f0 <. limit)
  && is_finite observed && is_finite reserved
  && (observed ⊕ reserved ⊕ requested <=. limit).
Definition symbol_insert (c : SymbolCapacity) (id symbol : string) (quantity : f64)
    : SymbolCapacity :=
  mkSymbolCapacity (sc_observations c) (ledger_insert (sc_ledger c) id (symbol, quantity)).
Definition symbol_finish (c : SymbolCapacity) (now : Z) (id : string)
    (outcome : BrokerCommandOutcome) : SymbolCapacity :=
  mkSymbolCapacity (sc_observations c) (ledger_finish (sc_ledger c) now id outcome).

(** *** Margin *)
Record MarginCapacity := mkMarginCapacity {
  mc_observation : option (f64 * Z);
  mc_ledger : Ledger f64
}.
Definition margin_observe (c : MarginCapacity) (available : f64) (observed : Z) : MarginCapacity :=
  if is_none_or (fun o : f64 * Z => o.2 <? observed)%Z (mc_observation c)
  then mkMarginCapacity (Some (available, observed)) (retire (mc_ledger c) observed)
  else c.
Definition margin_available (c : MarginCapacity) (values : list f64) (id : string)
    (required available : f64) : bool :=
  let available := match mc_observation c with Some (v, _) => v | None => available end in
  let reserved := fsum values in
  ledger_admits (mc_ledger c) id
  && is_finite required && (f0 <=. required) && is_finite available && (f0 <=. available)
  && is_finite reserved && (reserved ⊕ required <=. available).
Definition margin_insert (c : MarginCapacity) (id : string) (amount : f64) : MarginCapacity :=
  mkMarginCapacity (mc_observation c) (ledger_insert (mc_ledger c) id amount).
Definition margin_finish (c : MarginCapacity) (now : Z) (id : string)
    (outcome : BrokerCommandOutcome) : MarginCapacity :=
  mkMarginCapacity (mc_observation c) (ledger_finish (mc_ledger c) now id outcome).

(** ** Admission *)
Record EntryReservation := mkEntryReservation { er_pending : bool; er_symbol : bool; er_margin : bool }.
Inductive CapacityRejection := RejPendingOrders | RejSymbolQuantity | RejMargin.

(** The capacities of [Admission]. *)
Record Capacities := mkCapacities {
  cap_pending : PendingCapacity;
  cap_symbol : SymbolCapacity;
  cap_margin : MarginCapacity
}.
Definition default_capacities : Capacities :=
  mkCapacities (mkPendingCapacity None empty_ledger) (mkSymbolCapacity ∅ empty_ledger)
    (mkMarginCapacity None empty_ledger).

(** The optional arguments of [reserve_entry]. *)
Record PendingQuery := mkPendingQuery { pq_limit : Z; pq_count : Z; pq_at : Z }.
Record SymbolQuery := mkSymbolQuery {
  sq_symbol : string; sq_requested : f64; sq_limit : f64; sq_observed : f64; sq_at : Z }.
Record MarginQuery := mkMarginQuery { mq_required : f64; mq_available : f64; mq_at : Z }.

Definition reserved_quantities (c : Capacities) : list (string * f64) :=
  (map_to_list (lg_reservations (sc_ledger (cap_symbol c)))).*2.*1.
Definition reserved_margins (c : Capacities) : list f64 :=
  (map_to_list (lg_reservations (mc_ledger (cap_margin c)))).*2.*1.

(** The three [observe] calls at the start of [reserve_entry]. *)
Definition observe_entry (c : Capacities) (pending : option PendingQuery)
    (symbol : option SymbolQuery) (margin : option MarginQuery) : Capacities :=
  mkCapacities
    (match pending with
     | Some q => pending_observe (cap_pending c) (pq_count q) (pq_at q) | None => cap_pending c end)
    (match symbol with
     | Some q => symbol_observe (cap_symbol c) (sq_symbol q) (sq_observed q) (sq_at q)
     | None => cap_symbol c end)
    (match margin with
     | Some q => margin_observe (cap_margin c) (mq_available q) (mq_at q) | None => cap_margin c end).

(** The three [insert] calls at its end. *)
Definition insert_entry (c : Capacities) (id : string) (pending : option PendingQuery)
    (symbol : option SymbolQuery) (margin : option MarginQuery) : Capacities :=
  mkCapacities
    (match pending with Some _ => pending_insert (cap_pending c) id | None => cap_pending c end)
    (match symbol with
     | Some q => symbol_insert (cap_symbol c) id (sq_symbol q) (sq_requested q)
     | None => cap_symbol c end)
    (match margin with
     | Some q => margin_insert (cap_margin c) id (mq_required q) | None => cap_margin c end).

(** [quantities] and [margins] are the values of the two hash tables in their
    iteration order. *)
Definition reserve_entry (c : Capacities) (quantities : list (string * f64)) (margins : list f64)
    (id : string) (pending : option PendingQuery) (symbol : option SymbolQuery)
    (margin : option MarginQuery) : Capacities * result EntryReservation CapacityRejection :=
  let c := observe_entry c pending symbol margin in
  if is_some_and (fun q => negb (pending_available (cap_pending c) id (pq_limit q) (pq_count q))) pending
  then (c, Err RejPendingOrders)
  else if is_some_and (fun q => negb (symbol_available (cap_symbol c) quantities id (sq_symbol q)
                                        (sq_requested q) (sq_limit q) (sq_observed q))) symbol
  then (c, Err RejSymbolQuantity)
  else if is_some_and (fun q => negb (margin_available (cap_margin c) margins id
                                        (mq_required q) (mq_available q))) margin
  then (c, Err RejMargin)
  else (insert_entry c id pending symbol margin,
        Ok (mkEntryReservation (is_some pending) (is_some symbol) (is_some margin))).

Definition finish_entry (c : Capacities) (now : Z) (id : string) (r : EntryReservation)
    (outcome : BrokerCommandOutcome) : Capacities :=
  mkCapacities
    (if er_pending r then pending_finish (cap_pending c) now id outcome else cap_pending c)
    (if er_symbol r then symbol_finish (cap_symbol c) now id outcome else cap_symbol c)
    (if er_margin r then margin_finish (cap_margin c) now id outcome else cap_margin c).
Definition settle_entry (c : Capacities) (now : Z) (id : string) (outcome : BrokerCommandOutcome)
    : Capacities :=
  finish_entry c now id (mkEntryReservation true true true) outcome.

(** *** The slot and its waiters *)
Record Admission := mkAdmission {
  ad_active : bool;
  ad_sequence : N;
  ad_cleanup : gset N;   (* waiting[0] *)
  ad_normal : gset N;    (* waiting[1] *)
  ad_notified : gset N;  (* waiters whose [Notify] holds a permit *)
  ad_capacities : Capacities
}.
Definition default_admission : Admission := mkAdmission false 0 ∅ ∅ ∅ default_capacities.
Definition eta_admission (a : Admission) : Admission :=
  mkAdmission (ad_active a) (ad_sequence a) (ad_cleanup a) (ad_normal a) (ad_notified a)
    (ad_capacities a).
#[export] Instance set_ad_active : Setter ad_active := ltac:(solve_setter eta_admission).
#[export] Instance set_ad_sequence : Setter ad_sequence := ltac:(solve_setter eta_admission).
#[export] Instance set_ad_cleanup : Setter ad_cleanup := ltac:(solve_setter eta_admission).
#[export] Instance set_ad_normal : Setter ad_normal := ltac:(solve_setter eta_admission).
#[export] Instance set_ad_notified : Setter ad_notified := ltac:(solve_setter eta_admission).
#[export] Instance set_ad_capacities : Setter ad_capacities := ltac:(solve_setter eta_admission).

(** The waiter that goes next; [true] is the cleanup priority. *)
Definition next_waiter (a : Admission) : option (bool * N) :=
  match btree_first (ad_cleanup a) with
  | Some id => Some (true, id)
  | None => match btree_first (ad_normal a) with Some id => Some (false, id) | None => None end
  end.
Definition wake (a : Admission) : Admission :=
  if ad_active a then a
  else match next_waiter a with
       | Some (_, id) => a <| ad_notified := {[id]} ∪ ad_notified a |>
       | None => a
       end.

Definition remove_waiter (a : Admission) (cleanup : bool) (id : N) : Admission :=
  if cleanup then a <| ad_cleanup := ad_cleanup a ∖ {[id]} |>
  else a <| ad_normal := ad_normal a ∖ {[id]} |>.

(** The first critical section of [acquire]: the slot itself, or a ticket. *)
Definition acquire (a : Admission) (cleanup : bool)
    : result (Admission * option N) BrokerCommandError :=
  if negb (ad_active a) && bool_decide (ad_cleanup a = ∅)
     && (cleanup || bool_decide (ad_normal a = ∅))
  then Ok (a <| ad_active := true |>, None)
  else if MAX_WAITERS <=? size (if cleanup then ad_cleanup a else ad_normal a) then Err QueueFull
  else
    let id := ad_sequence a in
    if (Z.of_N id + 1 <=? u64_max)%Z then
      let a := a <| ad_sequence := (id + 1)%N |> in
      let a := if cleanup then a <| ad_cleanup := {[id]} ∪ ad_cleanup a |>
               else a <| ad_normal := {[id]} ∪ ad_normal a |> in
      Ok (wake a, Some id)
    else Err QueueFull.

(** One turn of its loop: a notified waiter takes the slot if it is its turn. *)
Definition poll_waiter (a : Admission) (cleanup : bool) (id : N) : Admission * bool :=
  let a := a <| ad_notified := ad_notified a ∖ {[id]} |> in
  if negb (ad_active a) && bool_decide (next_waiter a = Some (cleanup, id))
  then ((remove_waiter a cleanup id) <| ad_active := true |>, true)
  else (a, false).

(** [Drop] of the permit and of a waiter that gave up. *)
Definition release_permit (a : Admission) : Admission := wake (a <| ad_active := false |>).
Definition drop_waiter (a : Admission) (cleanup : bool) (id : N) : Admission :=
  wake (remove_waiter (a <| ad_notified := ad_notified a ∖ {[id]} |>) cleanup id).

(** ** Ledger invariant *)
Section LedgerFacts.
Context {P : Type}.

(** Exactly the confirmed reservations carry a watermark, each one watermark. *)
Record ledger_ok (l : Ledger P) : Prop := {
  lo_nodup : NoDup (lg_completed l).*1;
  lo_confirmed id : id ∈ (lg_completed l).*1 <->
    exists p, lg_reservations l !! id = Some (p, Confirmed);
  lo_size : size (lg_reservations l) <= MAX_CAPACITY_RESERVATIONS
}.

Lemma size_delete_le {A} (m : gmap string A) id : size (delete id m) <= size m.
Proof.
  destruct (m !! id) as [x|] eqn:E.
  - rewrite map_size_delete_Some by eauto. lia.
  - by rewrite delete_id.
Qed.

Lemma retire_front_ok observed completed (res : gmap string (P * ReservationState)) :
  ledger_ok (mkLedger completed res) -> ledger_ok (retire_front observed completed res).
Proof.
  revert res. induction completed as [|[id d] rest IH]; intros res Hok; simpl; [done|].
  destruct (d <? observed)%Z; [|done]. apply IH. destruct Hok as [Hnd Hc Hs]. simpl in *.
  apply NoDup_cons in Hnd as [Hni Hnd]. split; simpl; [done| |].
  - intros k. destruct (decide (k = id)) as [->|Hk].
    + rewrite lookup_delete_eq. naive_solver.
    + rewrite lookup_delete_ne by done. rewrite <- Hc. set_solver.
  - pose proof (size_delete_le res id). lia.
Qed.

Lemma ledger_insert_ok (l : Ledger P) id p :
  ledger_ok l -> ledger_admits l id = true -> ledger_ok (ledger_insert l id p).
Proof.
  intros [Hnd Hc Hs] Ha. unfold ledger_admits in Ha. break_bool.
  assert (Hn : lg_reservations l !! id = None).
  { unfold is_none, is_some in *. by destruct (lg_reservations l !! id). }
  split; simpl; [done| |].
  - intros k. rewrite Hc. destruct (decide (k = id)) as [->|].
    + rewrite lookup_insert_eq, Hn. naive_solver.
    + by rewrite lookup_insert_ne.
  - rewrite map_size_insert_None by done. lia.
Qed.

Lemma ledger_finish_ok (l : Ledger P) now id outcome :
  ledger_ok l -> ledger_ok (ledger_finish l now id outcome).
Proof.
  intros Hok. pose proof Hok as [Hnd Hc Hs]. unfold ledger_finish.
  destruct (lg_reservations l !! id) as [[p []]|] eqn:E; [|done..].
  assert (Hni : id ∉ (lg_completed l).*1) by (rewrite Hc, E; naive_solver).
  assert (Hdel : ledger_ok (mkLedger (lg_completed l) (delete id (lg_reservations l)))).
  { split; simpl; [done| |].
    - intros k. destruct (decide (k = id)) as [->|].
      + rewrite lookup_delete_eq. split; [done|naive_solver].
      + rewrite lookup_delete_ne by done. apply Hc.
    - pose proof (size_delete_le (lg_reservations l) id). lia. }
  assert (Hcf : ledger_ok (mkLedger (lg_completed l ++ [(id, now)])
                             (<[id := (p, Confirmed)]> (lg_reservations l)))).
  { split; simpl.
    - rewrite fmap_app. apply NoDup_app. split; [done|]. split; [|apply NoDup_singleton].
      intros k Hk ->%list_elem_of_singleton. done.
    - intros k. rewrite fmap_app. simpl. rewrite elem_of_app, list_elem_of_singleton, Hc.
      destruct (decide (k = id)) as [->|].
      + rewrite lookup_insert_eq. naive_solver.
      + rewrite lookup_insert_ne by done. naive_solver.
    - rewrite map_size_insert_Some by eauto. done. }
  by destruct outcome.
Qed.
End LedgerFacts.
