(* ===== verification/BrokerLimit.v ===== *)
(** * BrokerLimit: the pending-order limit of an account is never exceeded

    The lane of [AccountLane] against a broker: the broker accepts entries that
    hold an unproven reservation, ends orders at any time, answers truthfully
    and reports observations, which may be delivered late and in any order.
    [pending_orders_within_limit] shows that the number of orders at the broker
    stays within the limit the workers reserve against. *)
From S2P Require Import Prelude.
From S2P Require Import OrderedSet.
From S2P Require Import Float64.
From S2P Require Import Text.
From S2P Require Import BrokerTypes.
From S2P Require Import InsightTypes.
From S2P Require Import Commands.
From S2P Require Import AccountLane.

(** ** What an observation retires *)
Section Retire.
Context {P : Type}.

Lemma retire_front_lookup observed completed (res : gmap string (P * ReservationState)) k :
  lg_reservations (retire_front observed completed res) !! k = res !! k \/
  (lg_reservations (retire_front observed completed res) !! k = None /\
   exists d, (k, d) ∈ completed /\ (d < observed)%Z).
Proof.
  revert res. induction completed as [|[id d] rest IH]; intros res; simpl; [by left|].
  destruct (d <? observed)%Z eqn:E; [|by left]. destruct (IH (delete id res)) as [Hl|(Hl & d' & Hd & Hlt)].
  - destruct (decide (k = id)) as [->|Hk].
    + right. rewrite Hl, lookup_delete_eq. split; [done|]. exists d. split; [left|lia].
    + left. rewrite Hl. by rewrite lookup_delete_ne.
  - right. split; [done|]. exists d'. split; [by right|done].
Qed.

Lemma retire_front_completed observed completed (res : gmap string (P * ReservationState)) w :
  w ∈ lg_completed (retire_front observed completed res) -> w ∈ completed.
Proof.
  revert res. induction completed as [|[id d] rest IH]; intros res; simpl; [done|].
  destruct (d <? observed)%Z; [|done]. intros Hw. right. by eapply IH.
Qed.
End Retire.

(** ** The account and its broker *)
Record World := mkWorld {
  w_now : Z;
  w_caps : Capacities;
  w_live : gset string;             (* orders pending at the broker *)
  w_birth : gmap string Z;          (* when an order was accepted *)
  w_reports : list (Z * gset string)  (* observations: when, and which orders *)
}.
Definition eta_world (w : World) : World :=
  mkWorld (w_now w) (w_caps w) (w_live w) (w_birth w) (w_reports w).
#[export] Instance set_w_now : Setter w_now := ltac:(solve_setter eta_world).
#[export] Instance set_w_caps : Setter w_caps := ltac:(solve_setter eta_world).
#[export] Instance set_w_live : Setter w_live := ltac:(solve_setter eta_world).
#[export] Instance set_w_birth : Setter w_birth := ltac:(solve_setter eta_world).
#[export] Instance set_w_reports : Setter w_reports := ltac:(solve_setter eta_world).

Definition w_ledger (w : World) : Ledger unit := pc_ledger (cap_pending (w_caps w)).
Definition w_res (w : World) : gmap string (unit * ReservationState) := lg_reservations (w_ledger w).

(** A definite refusal: the entry never reached the broker's book. *)
Definition refuses (outcome : BrokerCommandOutcome) : bool :=
  match outcome with DeclinedOutcome _ | CancelledBeforeDispatch => true | _ => false end.

Section System.
Variable limit : Z.

Inductive world_step : World -> World -> Prop :=
| ws_time w now : (w_now w <= now)%Z -> world_step w (w <| w_now := now |>)
| ws_report w : world_step w (w <| w_reports := (w_now w, w_live w) :: w_reports w |>)
| ws_reserve w id at_ orders qs ms symbol margin caps r :
    (at_, orders) ∈ w_reports w ->
    reserve_entry (w_caps w) qs ms id (Some (mkPendingQuery limit (Z.of_nat (size orders)) at_))
      symbol margin = (caps, r) ->
    world_step w (w <| w_caps := caps |>)
| ws_accept w id :
    w_res w !! id = Some (tt, AwaitingProof) -> w_birth w !! id = None ->
    world_step w (w <| w_live := {[id]} ∪ w_live w |> <| w_birth := <[id := w_now w]> (w_birth w) |>)
| ws_end w id : world_step w (w <| w_live := w_live w ∖ {[id]} |>)
| ws_finish w id r outcome :
    (refuses outcome = true -> id ∉ w_live w) ->
    world_step w (w <| w_caps := finish_entry (w_caps w) (w_now w) id r outcome |>)
| ws_settle w id outcome :
    (refuses outcome = true -> id ∉ w_live w) ->
    world_step w (w <| w_caps := settle_entry (w_caps w) (w_now w) id outcome |>).

(** Entries that may still be accepted. *)
Definition in_flight (w : World) : gset string :=
  dom (filter (fun kv : string * (unit * ReservationState) => kv.2.2 = AwaitingProof) (w_res w))
    ∖ dom (w_birth w).

Record world_ok (w : World) : Prop := {
  wo_ledger : ledger_ok (w_ledger w);
  wo_birth id b : w_birth w !! id = Some b -> (b <= w_now w)%Z;
  wo_live id : id ∈ w_live w -> is_Some (w_birth w !! id);
  wo_report_time o s : (o, s) ∈ w_reports w -> (o <= w_now w)%Z;
  wo_report_old o s id : (o, s) ∈ w_reports w -> id ∈ s ->
    exists b, w_birth w !! id = Some b /\ (b <= o)%Z;
  wo_report_new o s id b : (o, s) ∈ w_reports w -> id ∈ w_live w -> id ∉ s ->
    w_birth w !! id = Some b -> (o <= b)%Z;
  wo_completed id d b : (id, d) ∈ lg_completed (w_ledger w) -> w_birth w !! id = Some b -> (b <= d)%Z;
  wo_unobserved id o s : pc_observation (cap_pending (w_caps w)) = None ->
    id ∈ w_live w -> w_res w !! id = None -> (o, s) ∈ w_reports w -> id ∈ s;
  wo_observation n o : pc_observation (cap_pending (w_caps w)) = Some (n, o) ->
    exists s, (o, s) ∈ w_reports w /\ n = Z.of_nat (size s) /\
      forall id, id ∈ w_live w -> w_res w !! id = None -> id ∈ s;
  wo_limit : (Z.of_nat (size (w_live w ∪ in_flight w)) <= limit)%Z
}.

(** [world_ok] reads the pending ledger only. *)
Lemma world_ok_caps w caps :
  world_ok w -> cap_pending caps = cap_pending (w_caps w) -> world_ok (w <| w_caps := caps |>).
Proof.
  intros [] E. split; unfold w_res, in_flight, w_res, w_ledger in *; cbn in *; rewrite ?E; auto.
Qed.

Lemma in_flight_subset w : in_flight w ⊆ dom (w_res w).
Proof.
  unfold in_flight. intros id [Hid _]%elem_of_difference. apply elem_of_dom in Hid as [v Hv].
  apply map_lookup_filter_Some in Hv as [Hv _]. apply elem_of_dom. eauto.
Qed.

Lemma elem_of_in_flight w id :
  id ∈ in_flight w <-> w_res w !! id = Some (tt, AwaitingProof) /\ w_birth w !! id = None.
Proof.
  unfold in_flight. rewrite elem_of_difference, elem_of_dom, not_elem_of_dom. split.
  - intros [[[[] st] Hv] Hb]. apply map_lookup_filter_Some in Hv as [Hv Hst]. simpl in Hst. by subst st.
  - intros [Hv Hb]. split; [|done]. exists (tt, AwaitingProof). by apply map_lookup_filter_Some.
Qed.

(** Retired reservations are confirmed, so that nothing in flight is lost, and
    whatever was retired and is still at the broker is in the new report. *)
Lemma world_ok_observe w at_ orders caps :
  world_ok w -> (at_, orders) ∈ w_reports w ->
  cap_pending caps = pending_observe (cap_pending (w_caps w)) (Z.of_nat (size orders)) at_ ->
  world_ok (w <| w_caps := caps |>) /\ is_Some (pc_observation (cap_pending caps)).
Proof.
  intros Hw Hrep E. unfold pending_observe in E.
  destruct (is_none_or _ _) eqn:Enew.
  2:{ split; [by apply world_ok_caps|]. rewrite E. by destruct (pc_observation _). }
  split; [|rewrite E; simpl; eauto].
  destruct Hw as [Hl Hb Hlv Ht Ho Hn Hc Hu Hob Hlim].
  set (res' := lg_reservations (retire (w_ledger w) at_)).
  assert (Hgone : forall id, res' !! id = w_res w !! id \/
    (res' !! id = None /\ exists d, (id, d) ∈ lg_completed (w_ledger w) /\ (d < at_)%Z))
    by (intros id; apply retire_front_lookup).
  assert (Hres : w_res (w <| w_caps := caps |>) = res').
  { unfold w_res, w_ledger. cbn. by rewrite E. }
  assert (Hled : w_ledger (w <| w_caps := caps |>) = retire (w_ledger w) at_).
  { unfold w_ledger. cbn. by rewrite E. }
  assert (Hcov : forall id, id ∈ w_live w -> res' !! id = None -> id ∈ orders).
  { intros id Hid Hr. destruct (decide (id ∈ orders)) as [|Hni]; [done|exfalso].
    destruct (Hlv id Hid) as [b Hbid]. pose proof (Hn _ _ _ _ Hrep Hid Hni Hbid) as Hle.
    destruct (Hgone id) as [Heq|(_ & d & Hd & Hlt)].
    - rewrite Heq in Hr. unfold is_none_or in Enew.
      destruct (pc_observation (cap_pending (w_caps w))) as [[n o]|] eqn:Eo.
      + destruct (Hob n o eq_refl) as (s & Hs & _ & Hin). simpl in Enew.
        destruct (Ho _ _ _ Hs (Hin id Hid Hr)) as (b' & Hb' & Hlo). simplify_eq. lia.
      + apply Hni. by apply (Hu id at_ orders).
    - pose proof (Hc _ _ _ Hd Hbid). lia. }
  split; rewrite ?Hres, ?Hled; cbn; try done.
  - by apply retire_front_ok; destruct (w_ledger w).
  - intros id d b Hd. eapply Hc. by eapply retire_front_completed.
  - intros id o s. by rewrite E.
  - intros n o. rewrite E. intros [= <- <-]. exists orders. split; [done|]. split; [done|].
    intros id Hid Hr. by apply Hcov.
  - assert (Hfl : in_flight (w <| w_caps := caps |>) ⊆ in_flight w).
    { intros id [Hi Hbi]%elem_of_in_flight. rewrite Hres in Hi. cbn in Hbi. apply elem_of_in_flight.
      split; [|done]. destruct (Hgone id) as [<-|[Hr _]]; congruence. }
    assert (Hle := subseteq_size (w_live w ∪ in_flight (w <| w_caps := caps |>)) (w_live w ∪ in_flight w)).
    assert (w_live w ∪ in_flight (w <| w_caps := caps |>) ⊆ w_live w ∪ in_flight w) by set_solver.
    lia.
Qed.

Lemma pending_available_spec c id l n m o :
  pending_available c id l n = true -> pc_observation c = Some (m, o) -> (l <= u64_max)%Z ->
  ledger_admits (pc_ledger c) id = true /\
  (m + Z.of_nat (size (lg_reservations (pc_ledger c))) < l)%Z.
Proof.
  unfold pending_available. intros Ha Ho Hl. rewrite Ho in Ha. break_bool. split; [done|]. lia.
Qed.

Lemma ledger_admits_fresh {P} (l : Ledger P) id :
  ledger_admits l id = true -> lg_reservations l !! id = None.
Proof.
  unfold ledger_admits. intros Ha. break_bool. unfold is_none, is_some in *.
  by destruct (lg_reservations l !! id).
Qed.

(** Before a reservation, everything at the broker or in flight is either in
    the latest report or reserved. *)
Lemma exposure_bound w n o :
  world_ok w -> pc_observation (cap_pending (w_caps w)) = Some (n, o) ->
  (Z.of_nat (size (w_live w ∪ in_flight w)) <= n + Z.of_nat (size (w_res w)))%Z.
Proof.
  intros Hw Hob. destruct (wo_observation w Hw n o Hob) as (s & _ & -> & Hin).
  assert (Hsub : w_live w ∪ in_flight w ⊆ s ∪ dom (w_res w)).
  { intros id [Hid|Hid]%elem_of_union.
    - destruct (w_res w !! id) eqn:E; [apply elem_of_union_r, elem_of_dom; eauto|].
      apply elem_of_union_l. by apply Hin.
    - apply elem_of_union_r. by apply in_flight_subset. }
  apply subseteq_size in Hsub. pose proof (size_union_alt s (dom (w_res w))) as Hu.
  pose proof (subseteq_size (dom (w_res w) ∖ s) (dom (w_res w)) ltac:(set_solver)) as Hd.
  rewrite size_dom in Hd. lia.
Qed.

Lemma world_ok_insert w id caps n :
  (limit <= u64_max)%Z -> world_ok w -> is_Some (pc_observation (cap_pending (w_caps w))) ->
  pending_available (cap_pending (w_caps w)) id limit n = true ->
  cap_pending caps = pending_insert (cap_pending (w_caps w)) id ->
  world_ok (w <| w_caps := caps |>).
Proof.
  intros Hmax Hw [[m o] Hob] Hav E.
  destruct (pending_available_spec _ _ _ _ _ _ Hav Hob Hmax) as [Hadm Hlt].
  pose proof (exposure_bound w m o Hw Hob) as Hexp. fold (w_ledger w) in *. fold (w_res w) in Hlt.
  pose proof (ledger_admits_fresh _ _ Hadm) as Hfresh. fold (w_res w) in Hfresh.
  destruct Hw as [Hl Hb Hlv Ht Ho Hn Hc Hu Hobs Hlim].
  assert (Hled : w_ledger (w <| w_caps := caps |>) = ledger_insert (w_ledger w) id tt).
  { unfold w_ledger. cbn. by rewrite E. }
  assert (Hres : w_res (w <| w_caps := caps |>) = <[id := (tt, AwaitingProof)]> (w_res w)).
  { unfold w_res. by rewrite Hled. }
  assert (Hno : forall k, <[id := (tt, AwaitingProof)]> (w_res w) !! k = None -> w_res w !! k = None).
  { intros k. destruct (decide (k = id)) as [->|]; [by rewrite lookup_insert_eq|by rewrite lookup_insert_ne]. }
  split; rewrite ?Hres, ?Hled; cbn; try done.
  - by apply ledger_insert_ok.
  - intros k o' s. rewrite E. simpl. intros Hnone. congruence.
  - intros n' o'. rewrite E. simpl. intros Heq. destruct (Hobs n' o' Heq) as (s & Hs & Hn' & Hin).
    exists s. split; [done|]. split; [done|]. auto.
  - assert (Hsub : w_live w ∪ in_flight (w <| w_caps := caps |>) ⊆ {[id]} ∪ (w_live w ∪ in_flight w)).
    { intros k [Hk|[Hk Hbk]%elem_of_in_flight]%elem_of_union; [set_solver|].
      rewrite Hres in Hk. cbn in Hbk. destruct (decide (k = id)) as [->|Hne]; [set_solver|].
      rewrite lookup_insert_ne in Hk by done.
      do 2 apply elem_of_union_r. by apply elem_of_in_flight. }
    apply subseteq_size in Hsub.
    pose proof (size_union_alt {[id]} (w_live w ∪ in_flight w)) as Hu'. rewrite size_singleton in Hu'.
    pose proof (subseteq_size ((w_live w ∪ in_flight w) ∖ {[id]}) (w_live w ∪ in_flight w) ltac:(set_solver)).
    lia.
Qed.

Lemma world_ok_finish w id caps outcome :
  world_ok w -> (refuses outcome = true -> id ∉ w_live w) ->
  cap_pending caps = pending_finish (cap_pending (w_caps w)) (w_now w) id outcome ->
  world_ok (w <| w_caps := caps |>).
Proof.
  intros Hw Href E. unfold pending_finish in E. fold (w_ledger w) in E.
  pose proof (ledger_finish_ok (w_ledger w) (w_now w) id outcome (wo_ledger w Hw)) as Hlok.
  destruct Hw as [Hl Hb Hlv Ht Ho Hn Hc Hu Hobs Hlim].
  set (l' := ledger_finish (w_ledger w) (w_now w) id outcome) in *.
  assert (Hled : w_ledger (w <| w_caps := caps |>) = l') by (unfold w_ledger; cbn; by rewrite E).
  assert (Hres : w_res (w <| w_caps := caps |>) = lg_reservations l') by (unfold w_res; by rewrite Hled).
  assert (Hkeep : forall k, k ∈ w_live w -> lg_reservations l' !! k = None -> w_res w !! k = None).
  { intros k Hk. unfold l', ledger_finish. fold (w_res w).
    destruct (w_res w !! id) as [[[] []]|] eqn:Er; try done.
    assert (Hdel : refuses outcome = true -> delete id (w_res w) !! k = None -> w_res w !! k = None).
    { intros Hr. rewrite lookup_delete_ne; [done|]. intros ->. by apply Href. }
    assert (Hins : <[id := (tt, Confirmed)]> (w_res w) !! k = None -> w_res w !! k = None).
    { destruct (decide (k = id)) as [->|]; [by rewrite lookup_insert_eq|by rewrite lookup_insert_ne]. }
    destruct outcome; simpl; auto. }
  assert (Hcomp : forall k d, (k, d) ∈ lg_completed l' ->
    (k, d) ∈ lg_completed (w_ledger w) \/ d = w_now w).
  { intros k d. unfold l', ledger_finish. destruct (lg_reservations _ !! id) as [[[] []]|]; try by left.
    destruct outcome; simpl; try by left.
    all: rewrite elem_of_app, list_elem_of_singleton; intros [?|[= -> ->]]; auto. }
  assert (Hfl : in_flight (w <| w_caps := caps |>) ⊆ in_flight w).
  { intros k [Hk Hbk]%elem_of_in_flight. rewrite Hres in Hk. cbn in Hbk. apply elem_of_in_flight.
    split; [|done]. revert Hk. unfold l', ledger_finish. fold (w_res w).
    destruct (w_res w !! id) as [[[] []]|] eqn:Er; try done.
    destruct (decide (k = id)) as [->|Hne]; [done|].
    destruct outcome; simpl; by rewrite ?lookup_delete_ne, ?lookup_insert_ne. }
  split; rewrite ?Hres, ?Hled; cbn; try done.
  - intros k d b Hd Hbk. destruct (Hcomp k d Hd) as [?| ->]; eauto.
  - intros k o s. rewrite E. simpl. eauto.
  - intros n o. rewrite E. simpl. intros Heq. destruct (Hobs n o Heq) as (s & Hs & Hn' & Hin).
    exists s. split; [done|]. split; [done|]. auto.
  - assert (w_live w ∪ in_flight (w <| w_caps := caps |>) ⊆ w_live w ∪ in_flight w) as Hsub by set_solver.
    apply subseteq_size in Hsub. lia.
Qed.

(** ** Every step keeps the invariant *)

Lemma reserve_entry_pending c qs ms id q symbol margin caps r :
  reserve_entry c qs ms id (Some q) symbol margin = (caps, r) ->
  let p := pending_observe (cap_pending c) (pq_count q) (pq_at q) in
  cap_pending caps = p \/
  (cap_pending caps = pending_insert p id /\
   pending_available p id (pq_limit q) (pq_count q) = true).
Proof.
  intros Hr p. unfold reserve_entry in Hr. cbn [is_some_and observe_entry cap_pending] in Hr.
  destruct (pending_available _ id (pq_limit q) (pq_count q)) eqn:Eav; cbn [negb] in Hr.
  - repeat split_match_in Hr; simplify_eq; [by left..|]. right. by split.
  - simplify_eq. by left.
Qed.

Lemma world_ok_reserve w id at_ orders qs ms symbol margin caps r :
  (limit <= u64_max)%Z -> world_ok w -> (at_, orders) ∈ w_reports w ->
  reserve_entry (w_caps w) qs ms id (Some (mkPendingQuery limit (Z.of_nat (size orders)) at_))
    symbol margin = (caps, r) ->
  world_ok (w <| w_caps := caps |>).
Proof.
  intros Hmax Hw Hrep Hr. apply reserve_entry_pending in Hr. cbn in Hr.
  set (p := pending_observe (cap_pending (w_caps w)) (Z.of_nat (size orders)) at_) in *.
  set (c1 := mkCapacities p (cap_symbol (w_caps w)) (cap_margin (w_caps w))).
  destruct (world_ok_observe w at_ orders c1 Hw Hrep eq_refl) as [Hw1 Hob].
  destruct Hr as [E|[E Hav]].
  - by eapply world_ok_observe.
  - exact (world_ok_insert (w <| w_caps := c1 |>) id caps _ Hmax Hw1 Hob Hav E).
Qed.

Lemma world_ok_report w :
  world_ok w -> world_ok (w <| w_reports := (w_now w, w_live w) :: w_reports w |>).
Proof.
  intros Hw.
  destruct Hw as [Hl Hb Hlv Ht Ho Hn Hc Hu Hobs Hlim]. split; try done; cbn.
  - intros o s [[= -> ->]|Hs]%elem_of_cons; [done|eauto].
  - intros o s id [[= -> ->]|Hs]%elem_of_cons Hid; [|eauto].
    destruct (Hlv id Hid) as [b Hbid]. eauto.
  - intros o s id b [[= -> ->]|Hs]%elem_of_cons Hid Hni Hbid; [done|eauto].
  - intros id o s Hnone Hid Hr [[= -> ->]|Hs]%elem_of_cons; [done|eauto].
  - intros n o Heq. destruct (Hobs n o Heq) as (s & Hs & ? & ?). exists s. split; [by right|done].
Qed.

Lemma world_ok_accept w id :
  world_ok w -> w_res w !! id = Some (tt, AwaitingProof) -> w_birth w !! id = None ->
  world_ok (w <| w_live := {[id]} ∪ w_live w |> <| w_birth := <[id := w_now w]> (w_birth w) |>).
Proof.
  intros Hw Hid Hb.
  destruct Hw as [Hl Hbi Hlv Ht Ho Hn Hc Hu Hobs Hlim].
  assert (Hnc : forall d, (id, d) ∉ lg_completed (w_ledger w)).
  { intros d Hd. assert (Hin : id ∈ (lg_completed (w_ledger w)).*1)
      by (apply list_elem_of_fmap; by exists (id, d)).
    apply (lo_confirmed _ Hl) in Hin as [p Hp]. unfold w_res in Hid. congruence. }
  assert (Hbk : forall k b, <[id := w_now w]> (w_birth w) !! k = Some b ->
    (k = id /\ b = w_now w) \/ w_birth w !! k = Some b).
  { intros k b. destruct (decide (k = id)) as [->|];
      [rewrite lookup_insert_eq; intros [= <-]; auto|rewrite lookup_insert_ne by done; auto]. }
  split; try done; cbn.
  - intros k b [[-> ->]|Hk]%Hbk; [done|eauto].
  - intros k. destruct (decide (k = id)) as [->|]; [rewrite lookup_insert_eq; eauto|].
    rewrite lookup_insert_ne by done. intros Hk. apply Hlv. set_solver.
  - intros o s k Hs Hk. destruct (Ho o s k Hs Hk) as (b & Hkb & Hle).
    exists b. rewrite lookup_insert_ne by congruence. done.
  - intros o s k b Hs Hk Hni [[-> ->]|Hkb]%Hbk; [by eapply Ht|].
    apply (Hn o s k b); try done. assert (k <> id) by congruence. set_solver.
  - intros k d b Hd [[-> ->]|Hkb]%Hbk; [by destruct (Hnc d)|eauto].
  - intros k o s Hnone Hk Hr Hs. apply (Hu k o s); try done.
    assert (Hr0 : w_res w !! k = None) by exact Hr.
    assert (k <> id) by (intros ->; congruence). set_solver.
  - intros n o Heq. destruct (Hobs n o Heq) as (s & Hs & ? & Hin). exists s. split; [done|].
    split; [done|]. intros k Hk Hr. apply Hin; [|done].
    assert (Hr0 : w_res w !! k = None) by exact Hr.
    assert (k <> id) by (intros ->; congruence). set_solver.
  - match goal with |- context [in_flight ?w1] => set (w' := w1) end.
    assert (Hsub : {[id]} ∪ w_live w ∪ in_flight w' ⊆ w_live w ∪ in_flight w).
    { intros k [[->%elem_of_singleton|Hk]%elem_of_union|[Hk Hkb]%elem_of_in_flight]%elem_of_union.
      + apply elem_of_union_r. by apply elem_of_in_flight.
      + by apply elem_of_union_l.
      + apply elem_of_union_r, elem_of_in_flight. split; [done|]. unfold w' in Hkb. cbn in Hkb.
        destruct (decide (k = id)) as [->|]; [by rewrite lookup_insert_eq in Hkb|].
        by rewrite lookup_insert_ne in Hkb. }
    apply subseteq_size in Hsub. lia.
Qed.

Lemma world_ok_end w id : world_ok w -> world_ok (w <| w_live := w_live w ∖ {[id]} |>).
Proof.
  intros Hw.
  destruct Hw as [Hl Hbi Hlv Ht Ho Hn Hc Hu Hobs Hlim]. split; try done; cbn.
  - intros k Hk. apply Hlv. set_solver.
  - intros o s k b Hs Hk. apply Hn; [done|set_solver].
  - intros k o s Hnone Hk. apply Hu; [done|set_solver].
  - intros n o Heq. destruct (Hobs n o Heq) as (s & Hs & ? & Hin). exists s. split; [done|].
    split; [done|]. intros k Hk. apply Hin. set_solver.
  - match goal with |- context [in_flight ?w1] => change (in_flight w1) with (in_flight w) end.
    assert (w_live w ∖ {[id]} ∪ in_flight w ⊆ w_live w ∪ in_flight w) as Hsub by set_solver.
    apply subseteq_size in Hsub. lia.
Qed.

Lemma world_step_ok w w' :
  (limit <= u64_max)%Z -> world_ok w -> world_step w w' -> world_ok w'.
Proof.
  intros Hmax Hw Hs. destruct Hs as [w now Hnow|w|w id at_ orders qs ms sy ma caps r Hrep Hr
    |w id Hid Hb|w id|w id r outcome Href|w id outcome Href].
  - destruct Hw. split; try done; cbn.
    + intros id b Hb. etransitivity; eauto.
    + intros o s Hs. etransitivity; eauto.
  - by apply world_ok_report.
  - by eapply world_ok_reserve.
  - by apply world_ok_accept.
  - by apply world_ok_end.
  - unfold finish_entry. destruct (er_pending r) eqn:Er.
    + by eapply world_ok_finish.
    + by apply world_ok_caps.
  - by eapply world_ok_finish.
Qed.
End System.

(** The account when its lane is created: some orders may already be pending. *)
Definition initial_world (now : Z) (live : gset string) (birth : gmap string Z) : World :=
  mkWorld now default_capacities live birth [].

Lemma initial_world_ok limit now live birth :
  (forall id, id ∈ live -> is_Some (birth !! id)) ->
  (forall id b, birth !! id = Some b -> (b <= now)%Z) ->
  (Z.of_nat (size live) <= limit)%Z ->
  world_ok limit (initial_world now live birth).
Proof.
  intros Hlv Hb Hlim. split; cbn; try done.
  - split; cbn; [constructor| |vm_compute; lia]. intros id. rewrite lookup_empty. set_solver.
  - intros o s Hs. by apply elem_of_nil in Hs.
  - intros o s id Hs. by apply elem_of_nil in Hs.
  - intros o s id b Hs. by apply elem_of_nil in Hs.
  - intros id d b Hs. by apply elem_of_nil in Hs.
  - intros id o s _ _ _ Hs. by apply elem_of_nil in Hs.
  - match goal with |- context [in_flight ?w] => assert (Hf : in_flight w = ∅) end.
    { apply set_eq. intros id. rewrite elem_of_in_flight. unfold w_res. cbn. rewrite lookup_empty.
      set_solver. }
    rewrite Hf. by rewrite union_empty_r_L.
Qed.

(** C28 The pending-order limit of an account holds against the broker: whatever the workers
    reserve, however the broker's answers and reports are delayed and reordered, and whatever is
    left ambiguous, the number of orders at the broker never exceeds the limit reservations are
    made against, as long as the broker accepts only reserved entries and its definite answers
    and reports are truthful. *)
Theorem pending_orders_within_limit limit now live birth w :
  (limit <= u64_max)%Z ->
  (forall id, id ∈ live -> is_Some (birth !! id)) ->
  (forall id b, birth !! id = Some b -> (b <= now)%Z) ->
  (Z.of_nat (size live) <= limit)%Z ->
  rtc (world_step limit) (initial_world now live birth) w ->
  (Z.of_nat (size (w_live w)) <= limit)%Z.
Proof.
  intros Hmax Hlv Hb Hlim Hsteps.
  assert (Hok : world_ok limit w).
  { pose proof (initial_world_ok limit now live birth Hlv Hb Hlim) as H0. revert H0.
    induction Hsteps as [|x y z Hxy Hyz IH]; [done|]. intros Hx. apply IH. by eapply world_step_ok. }
  pose proof (wo_limit limit w Hok) as Hl.
  pose proof (subseteq_size (w_live w) (w_live w ∪ in_flight w) ltac:(set_solver)). lia.
Qed.

(** One order is reserved, accepted and acknowledged under a limit of one. *)
Definition demo_world : World :=
  let w := initial_world 0 ∅ ∅ in
  let w := w <| w_reports := [(0%Z, ∅)] |> in
  let caps := (reserve_entry (w_caps w) [] [] "entry-a" (Some (mkPendingQuery 1 0 0)) None None).1 in
  let w := w <| w_caps := caps |> in
  w <| w_live := {["entry-a"]} ∪ w_live w |> <| w_birth := <["entry-a" := 0%Z]> (w_birth w) |>.

Lemma pending_orders_within_limit_witness :
  w_live demo_world = {["entry-a"]} /\ (Z.of_nat (size (w_live demo_world)) <= 1)%Z.
Proof.
  split; [vm_compute; reflexivity|].
  apply (pending_orders_within_limit 1 0 ∅ ∅ demo_world).
  - vm_compute. discriminate.
  - intros id Hid. exfalso. by apply not_elem_of_empty in Hid.
  - intros id b Hb. by rewrite lookup_empty in Hb.
  - vm_compute. discriminate.
  - unfold demo_world. eapply rtc_l; [apply ws_report|].
    eapply rtc_l; [eapply (ws_reserve _ _ "entry-a" 0 ∅ [] [] None None);
      [left|apply surjective_pairing]|].
    eapply rtc_l; [apply (ws_accept _ _ "entry-a"); vm_compute; reflexivity|]. apply rtc_refl.
Defined.
