(* ===== verification/LaneSchedule.v ===== *)
(** * LaneSchedule: mutual exclusion and fair service of the account lane

    The critical sections of [AccountLane] as a step relation: at most one
    permit exists, no wake-up is lost, and waiters are served cleanup first and
    in arrival order. *)
From S2P Require Import Prelude.
From S2P Require Import OrderedSet.
From S2P Require Import Commands.
From S2P Require Import AccountLane.

(** The waiters of one priority. *)
Definition waiting (a : Admission) (cleanup : bool) : gset N :=
  if cleanup then ad_cleanup a else ad_normal a.

Record queues_ok (a : Admission) : Prop := {
  qo_disjoint : ad_cleanup a ## ad_normal a;
  qo_tickets p id : id ∈ waiting a p -> (id < ad_sequence a)%N;
  qo_sequence : (Z.of_N (ad_sequence a) <= u64_max)%Z;
  qo_size p : size (waiting a p) <= MAX_WAITERS;
  qo_notified id : id ∈ ad_notified a -> exists p, id ∈ waiting a p
}.

(** An idle slot has told the waiter that goes next. *)
Definition head_notified (a : Admission) : Prop :=
  ad_active a = false -> forall p id, next_waiter a = Some (p, id) -> id ∈ ad_notified a.

Definition lane_ok (a : Admission) : Prop := queues_ok a /\ head_notified a.

Lemma next_waiter_elem a p id : next_waiter a = Some (p, id) -> id ∈ waiting a p.
Proof.
  unfold next_waiter, waiting. destruct (btree_first (ad_cleanup a)) as [c|] eqn:Ec.
  - intros [= <- <-]. by apply btree_first_elem.
  - destruct (btree_first (ad_normal a)) as [n|] eqn:En; intros [= <- <-]. by apply btree_first_elem.
Qed.

Lemma wake_active a : ad_active (wake a) = ad_active a.
Proof.
  unfold wake. destruct (ad_active a) eqn:E; [done|]. destruct (next_waiter a) as [[? ?]|]; exact E.
Qed.

Lemma wake_ok a : queues_ok a -> lane_ok (wake a).
Proof.
  intros Hq. unfold wake. destruct (ad_active a) eqn:Ea; [split; [done|intros ?; congruence]|].
  destruct (next_waiter a) as [[p id]|] eqn:En; [|split; [done|intros _ p id; congruence]].
  pose proof (next_waiter_elem _ _ _ En) as Hin.
  split.
  - destruct Hq as [Hd Ht Hs Hz Hn]. split; try done. cbn.
    intros k [->%elem_of_singleton|Hk]%elem_of_union; [by exists p|by apply Hn].
  - intros _ p' id' Hn. cbn. assert (Heq : next_waiter a = Some (p', id')) by exact Hn.
    rewrite En in Heq. simplify_eq. set_solver.
Qed.

Lemma remove_waiter_waiting a p id p' :
  waiting (remove_waiter a p id) p' = if decide (p = p') then waiting a p' ∖ {[id]} else waiting a p'.
Proof. by destruct p, p'. Qed.

Lemma queues_ok_remove a p id :
  queues_ok a -> id ∈ waiting a p ->
  queues_ok (remove_waiter (a <| ad_notified := ad_notified a ∖ {[id]} |>) p id).
Proof.
  intros [Hd Ht Hs Hz Hn] Hin. set (a1 := a <| ad_notified := ad_notified a ∖ {[id]} |>).
  assert (Hsub : forall p', waiting (remove_waiter a1 p id) p' ⊆ waiting a p').
  { intros p'. rewrite remove_waiter_waiting. change (waiting a1 p') with (waiting a p').
    case_decide; set_solver. }
  split.
  - pose proof (Hsub true); pose proof (Hsub false). unfold waiting in *. set_solver.
  - intros p' k Hk. replace (ad_sequence (remove_waiter a1 p id)) with (ad_sequence a) by (by destruct p).
    by eapply Ht, Hsub.
  - by destruct p.
  - intros p'. pose proof (subseteq_size _ _ (Hsub p')). specialize (Hz p'). lia.
  - intros k Hk. assert (Hk' : k ∈ ad_notified a ∖ {[id]}) by (by destruct p).
    apply elem_of_difference in Hk' as [Hk1 Hk2]. destruct (Hn k Hk1) as [p' Hp'].
    exists p'. rewrite remove_waiter_waiting. change (waiting a1 p') with (waiting a p').
    case_decide; set_solver.
Qed.

Lemma acquire_ok a p a' t :
  lane_ok a -> acquire a p = Ok (a', t) -> lane_ok a' /\ (t = None -> ad_active a = false /\ ad_active a' = true)
    /\ (t <> None -> ad_active a' = ad_active a).
Proof.
  intros [Hq Hh] Ha. unfold acquire in Ha. destruct (negb (ad_active a) && _ && _) eqn:Efast.
  { simplify_eq. break_bool. split; [|done]. split; [|by intros ?].
    destruct Hq. by split. }
  destruct (MAX_WAITERS <=? _) eqn:Ez; [done|].
  destruct (Z.of_N (ad_sequence a) + 1 <=? u64_max)%Z eqn:Es; [|done].
  injection Ha as <- <-. set (a1 := a <| ad_sequence := (ad_sequence a + 1)%N |>).
  set (a2 := if p then _ else _).
  assert (Hw : forall p', waiting a2 p' = if decide (p = p') then {[ad_sequence a]} ∪ waiting a p' else waiting a p').
  { intros p'. unfold a2. by destruct p, p'. }
  assert (Hseq : ad_sequence a2 = (ad_sequence a + 1)%N) by (unfold a2; by destruct p).
  assert (Hnot : ad_notified a2 = ad_notified a) by (unfold a2; by destruct p).
  assert (Hact : ad_active a2 = ad_active a) by (unfold a2; by destruct p).
  destruct Hq as [Hd Ht Hs Hz Hn].
  assert (Hq2 : queues_ok a2).
  { assert (Hnew : forall p', ad_sequence a ∉ waiting a p') by (intros p' Hk; specialize (Ht p' _ Hk); lia).
    split.
    - change (waiting a2 true ## waiting a2 false). rewrite !Hw.
      pose proof (Hnew true); pose proof (Hnew false). unfold waiting in *. destruct p; simpl; set_solver.
    - intros p' k. rewrite Hw, Hseq. intros Hk.
      assert (k = ad_sequence a \/ k ∈ waiting a p') as [->|Hk']
        by (destruct (decide (p = p')); set_solver); [lia|].
      specialize (Ht p' k Hk'). lia.
    - rewrite Hseq. lia.
    - intros p'. rewrite Hw. destruct (decide (p = p')) as [<-|]; [|apply Hz].
      rewrite size_union by (pose proof (Hnew p); set_solver). rewrite size_singleton.
      fold (waiting a p) in Ez. lia.
    - intros k. rewrite Hnot. intros Hk. destruct (Hn k Hk) as [p' Hp']. exists p'. rewrite Hw.
      destruct (decide (p = p')); set_solver. }
  split; [by apply wake_ok|]. split; [done|]. intros _. by rewrite wake_active.
Qed.

Lemma poll_waiter_ok a p id a' g :
  lane_ok a -> id ∈ waiting a p -> poll_waiter a p id = (a', g) ->
  lane_ok a' /\ (g = true -> ad_active a = false /\ ad_active a' = true /\
                   next_waiter a = Some (p, id) /\ a' = (remove_waiter (a <| ad_notified := ad_notified a ∖ {[id]} |>) p id) <| ad_active := true |>)
  /\ (g = false -> ad_active a' = ad_active a).
Proof.
  intros [Hq Hh] Hin Hp. unfold poll_waiter in Hp.
  set (a1 := a <| ad_notified := ad_notified a ∖ {[id]} |>) in *.
  destruct (negb (ad_active a1) && bool_decide (next_waiter a1 = Some (p, id))) eqn:E; injection Hp as <- <-.
  - apply andb_true_iff in E as [Ea En%bool_decide_eq_true]. apply negb_true_iff in Ea.
    change (next_waiter a1) with (next_waiter a) in En. split; [|split; [|done]].
    + pose proof (queues_ok_remove a p id Hq Hin) as Hr. fold a1 in Hr.
      split; [|by intros ?; destruct p]. destruct Hr. by split.
    + intros _. by split.
  - split; [|split; [done|done]]. split.
    + destruct Hq as [Hd Ht Hs Hz Hn]. split; try done. cbn. intros k Hk. apply Hn. set_solver.
    + intros Ha p' k Hk. change (next_waiter a1) with (next_waiter a) in Hk.
      change (ad_notified a1) with (ad_notified a ∖ {[id]}).
      apply elem_of_difference. split; [by apply (Hh Ha p')|]. intros ->%elem_of_singleton.
      assert (p' = p) as ->.
      { pose proof (next_waiter_elem _ _ _ Hk) as Hin'. pose proof (qo_disjoint a Hq) as Hd.
        unfold waiting in *. destruct p, p'; set_solver. }
      change (ad_active a1) with (ad_active a) in *. rewrite Ha in E. simpl in E.
      apply bool_decide_eq_false in E. done.
Qed.

Lemma release_ok a : lane_ok a -> lane_ok (release_permit a) /\ ad_active (release_permit a) = false.
Proof.
  intros [Hq _]. unfold release_permit. set (a1 := a <| ad_active := false |>).
  assert (Hq1 : queues_ok a1) by (destruct Hq; by split). split; [by apply wake_ok|].
  by rewrite wake_active.
Qed.

Lemma drop_waiter_ok a p id :
  lane_ok a -> id ∈ waiting a p -> lane_ok (drop_waiter a p id) /\ ad_active (drop_waiter a p id) = ad_active a.
Proof.
  intros [Hq _] Hin. unfold drop_waiter. split; [by apply wake_ok, queues_ok_remove|].
  set (a1 := remove_waiter _ p id). assert (Ha : ad_active a1 = ad_active a) by (unfold a1; by destruct p).
  by rewrite wake_active.
Qed.

(** ** The lane and its permits *)
Record Lane := mkLane { ln_admission : Admission; ln_permits : nat }.

Definition granted (b : bool) : nat := if b then 1 else 0.

Inductive lane_step : Lane -> Lane -> Prop :=
| lane_acquire a n p a' t :
    acquire a p = Ok (a', t) -> lane_step (mkLane a n) (mkLane a' (n + granted (is_none t)))
| lane_poll a n p id a' g :
    id ∈ waiting a p -> id ∈ ad_notified a -> poll_waiter a p id = (a', g) ->
    lane_step (mkLane a n) (mkLane a' (n + granted g))
| lane_release a n : lane_step (mkLane a (S n)) (mkLane (release_permit a) n)
| lane_drop a n p id : id ∈ waiting a p -> lane_step (mkLane a n) (mkLane (drop_waiter a p id) n)
| lane_capacity a n c : lane_step (mkLane a n) (mkLane (a <| ad_capacities := c |>) n).

Definition lane_inv (l : Lane) : Prop :=
  lane_ok (ln_admission l) /\ ln_permits l = granted (ad_active (ln_admission l)).

Lemma lane_step_inv l l' : lane_inv l -> lane_step l l' -> lane_inv l'.
Proof.
  intros [Hok Hn] Hs. destruct Hs as [a n p a' t Ha|a n p id a' g Hin _ Hp|a n|a n p id Hin|a n c];
    unfold lane_inv in *; simpl in *.
  - destruct (acquire_ok a p a' t Hok Ha) as (Hok' & Hnow & Hlater). split; [done|].
    destruct t as [t|]; simpl.
    + rewrite Hlater by done. lia.
    + destruct Hnow as [E E']; [done|]. rewrite Hn, E, E'. done.
  - destruct (poll_waiter_ok a p id a' g Hok Hin Hp) as (Hok' & Hg & Hng). split; [done|].
    destruct g; simpl.
    + destruct Hg as (E & E' & _); [done|]. rewrite Hn, E, E'. done.
    + rewrite Hng by done. lia.
  - destruct (release_ok a Hok) as [Hok' ->]. split; [done|]. unfold granted in *.
    destruct (ad_active a); simpl; lia.
  - destruct (drop_waiter_ok a p id Hok Hin) as [Hok' ->]. done.
  - split; [|done]. destruct Hok as [[] Hh]. by split; [split|].
Qed.

Lemma default_lane_inv : lane_inv (mkLane default_admission 0).
Proof.
  split; [|done]. split.
  - split; cbn; try done; try (intros [] ?; cbn; set_solver).
    + intros []; cbn; rewrite size_empty; apply Nat.le_0_l.
  - intros _ p id Hn. apply next_waiter_elem in Hn. destruct p; cbn in Hn; set_solver.
Qed.

(** C30 The account lane is a lock: in every reachable state at most one worker holds the
    mutation slot, the waiting lines stay within their bounds, and no wake-up is lost, that is,
    whenever the slot is free and somebody waits, the waiter whose turn it is has been woken. *)
Theorem lane_mutual_exclusion a n :
  rtc lane_step (mkLane default_admission 0) (mkLane a n) ->
  n <= 1 /\ (n = 1 <-> ad_active a = true) /\
  size (ad_cleanup a) <= MAX_WAITERS /\ size (ad_normal a) <= MAX_WAITERS /\
  (ad_active a = false -> forall p id, next_waiter a = Some (p, id) -> id ∈ ad_notified a).
Proof.
  intros Hs. assert (Hi : lane_inv (mkLane a n)).
  { revert Hs. generalize default_lane_inv. generalize (mkLane default_admission 0). intros l0 H0 Hs.
    induction Hs as [|x y z Hxy Hyz IH]; [done|]. apply IH. by eapply lane_step_inv. }
  destruct Hi as [[Hq Hh] Hn]. simpl in *. pose proof (qo_size a Hq true); pose proof (qo_size a Hq false).
  unfold head_notified, granted in *. cbn [waiting] in *.
  split; [destruct (ad_active a); lia|]. split; [|by repeat split].
  destruct (ad_active a); subst n; split; [done|done|lia|done].
Qed.

(** A worker takes the slot and another one waits for it. *)
Definition after_acquire (a : Admission) (p : bool) : Admission :=
  match acquire a p with Ok (a, _) => a | Err _ => a end.
Definition demo_busy : Admission := after_acquire default_admission false.
Definition demo_waiting : Admission := after_acquire demo_busy false.

Lemma lane_mutual_exclusion_witness :
  ad_active demo_waiting = true /\ ad_normal demo_waiting = {[0%N]} /\
  (1 = 1 <-> ad_active demo_waiting = true).
Proof.
  split; [vm_compute; reflexivity|]. split; [vm_compute; reflexivity|].
  refine (proj1 (proj2 (lane_mutual_exclusion demo_waiting 1 _))).
  eapply rtc_l; [apply (lane_acquire default_admission 0 false demo_busy None); vm_compute; reflexivity|].
  eapply rtc_l; [apply (lane_acquire demo_busy 1 false demo_waiting (Some 0%N)); vm_compute; reflexivity|].
  apply rtc_refl.
Defined.

(** ** Service order *)

(** The waiters in the order of their turns. *)
Definition service_order (a : Admission) : list N :=
  btree_elements (ad_cleanup a) ++ btree_elements (ad_normal a).

(** One hand-over: the holder releases the slot and the woken waiter takes it. *)
Definition hand_over (a : Admission) : option (N * Admission) :=
  let a := if ad_active a then release_permit a else a in
  match next_waiter a with
  | Some (p, id) =>
      if decide (id ∈ ad_notified a) then
        match poll_waiter a p id with
        | (a', true) => Some (id, a')
        | _ => None
        end
      else None
  | None => None
  end.
Fixpoint serve (n : nat) (a : Admission) : list N :=
  match n with
  | O => []
  | S n => match hand_over a with Some (id, a') => id :: serve n a' | None => [] end
  end.

Lemma next_waiter_order a p id :
  next_waiter a = Some (p, id) -> head (service_order a) = Some id.
Proof.
  unfold next_waiter, service_order, btree_first.
  destruct (btree_elements (ad_cleanup a)) as [|c l]; simpl.
  - destruct (btree_elements (ad_normal a)); simpl; congruence.
  - congruence.
Qed.

Lemma next_waiter_None a : next_waiter a = None -> service_order a = [].
Proof.
  unfold next_waiter, service_order, btree_first.
  destruct (btree_elements (ad_cleanup a)); [|done]. destruct (btree_elements (ad_normal a)); done.
Qed.

Lemma btree_elements_remove_first X x l :
  btree_elements X = x :: l -> btree_elements (X ∖ {[x]}) = l.
Proof.
  intros E. pose proof (btree_elements_sorted X) as Hs. rewrite E in Hs.
  apply StronglySorted_cons in Hs as [Hall Hs]. rewrite Forall_forall in Hall.
  apply sorted_ext; [apply btree_elements_sorted|done|].
  intros y. rewrite elem_of_btree_elements, elem_of_difference, not_elem_of_singleton,
    <- elem_of_btree_elements, E, elem_of_cons.
  split; [naive_solver|]. intros Hy. split; [by right|]. specialize (Hall y Hy). lia.
Qed.

Lemma service_order_remove a p id :
  next_waiter a = Some (p, id) -> service_order (remove_waiter a p id) = tail (service_order a).
Proof.
  unfold next_waiter, service_order, btree_first.
  destruct (btree_elements (ad_cleanup a)) as [|c l] eqn:Ec; simpl.
  - destruct (btree_elements (ad_normal a)) as [|m k] eqn:Em; simpl; [done|]. intros [= <- <-]. cbn.
    rewrite Ec. simpl. by apply btree_elements_remove_first.
  - intros [= <- <-]. cbn. by rewrite (btree_elements_remove_first _ _ _ Ec).
Qed.

Lemma hand_over_spec a :
  lane_ok a ->
  match service_order a with
  | [] => hand_over a = None
  | id :: rest => exists a', hand_over a = Some (id, a') /\ lane_ok a' /\ service_order a' = rest
  end.
Proof.
  intros Hok. unfold hand_over.
  set (a1 := if ad_active a then release_permit a else a).
  assert (H1 : lane_ok a1 /\ ad_active a1 = false /\ service_order a1 = service_order a).
  { unfold a1. destruct (ad_active a) eqn:E; [|done]. destruct (release_ok a Hok) as [? ?].
    split; [done|]. split; [done|]. unfold release_permit, wake.
    match goal with |- context [next_waiter ?x] => destruct (next_waiter x) as [[? ?]|] end; done. }
  destruct H1 as (Hok1 & Ha1 & <-). destruct (next_waiter a1) as [[p id]|] eqn:En.
  2:{ by rewrite (next_waiter_None _ En). }
  pose proof (next_waiter_order _ _ _ En) as Hhd.
  destruct (service_order a1) as [|x rest] eqn:Eo; simplify_eq/=.
  rewrite decide_True by (by eapply Hok1).
  pose proof (next_waiter_elem _ _ _ En) as Hin.
  destruct (poll_waiter a1 p id) as [a' g] eqn:Ep.
  destruct (poll_waiter_ok a1 p id a' g Hok1 Hin Ep) as (Hok' & Hg & Hng).
  destruct g.
  - exists a'. split; [done|]. split; [done|]. destruct Hg as (_ & _ & _ & ->); [done|].
    set (a2 := a1 <| ad_notified := ad_notified a1 ∖ {[id]} |>).
    change (service_order (remove_waiter a2 p id) = rest).
    rewrite (service_order_remove a2 p id En). change (service_order a2) with (service_order a1).
    by rewrite Eo.
  - exfalso. unfold poll_waiter in Ep. change (ad_active (a1 <| ad_notified := _ |>)) with (ad_active a1) in Ep.
    rewrite Ha1 in Ep. cbn [negb andb] in Ep. rewrite bool_decide_eq_true_2 in Ep by exact En. done.
Qed.


