(* ===== verification/Checkpoint.v ===== *)
(** * Checkpoint: the durable form of an insight
    ([src/core/insight/execution_checkpoint.rs])

    A checkpoint is a flat copy of one insight: children are saved as rows of
    their own and referenced by identity.  The hash that fingerprints the source
    row ([snapshot_fingerprint_hash], a [DefaultHasher]) is a parameter: the
    model compares fingerprints only. *)
From S2P Require Import Prelude.
From S2P Require Import Float64.
From S2P Require Import Text.
From S2P Require Import BrokerTypes.
From S2P Require Import TimeFrame.
From S2P Require Import InsightTypes.
From S2P Require Import Commands.
From S2P Require Import ExecutionData.
From S2P Require Import Insight.

Definition EXECUTION_CHECKPOINT_VERSION : Z := 6.

(** ** Suspended pipes ([src/core/pipeline/mod.rs], [src/core/strategy/types/mod.rs]) *)
Inductive InsightPipeDeferral :=
| DeferBrokerCommand (receipt : BrokerCommandReceipt)
| DeferBrokerOperationGroup (group : BrokerOperationGroup)
| DeferBrokerQueueCapacity
| DeferAccountSnapshot
| DeferPositionSnapshot
| DeferQuoteSnapshot (symbol : string).
#[export] Instance InsightPipeDeferral_eq_dec : EqDecision InsightPipeDeferral.
Proof. solve_decision. Defined.

Inductive PipeContinuationCheckpoint := mkContinuation {
  pcc_state : InsightState;
  pcc_index : nat;
  pcc_nested : option PipeContinuationCheckpoint
}.
#[export] Instance PipeContinuationCheckpoint_eq_dec : EqDecision PipeContinuationCheckpoint.
Proof.
  refine (fix go x y {struct x} : Decision (x = y) :=
    match x, y with
    | mkContinuation s i None, mkContinuation s' i' None =>
        cast_if_and (decide (s = s')) (decide (i = i'))
    | mkContinuation s i (Some n), mkContinuation s' i' (Some n') =>
        cast_if_and3 (decide (s = s')) (decide (i = i')) (go n n')
    | _, _ => right _
    end); abstract congruence.
Defined.

Record InsightPipelineCheckpoint := mkPipelineCheckpoint {
  ipc_state : InsightState;
  ipc_index : nat;
  ipc_dependency : InsightPipeDeferral;
  ipc_layout : list string;
  ipc_nested : option PipeContinuationCheckpoint
}.
#[export] Instance InsightPipelineCheckpoint_eq_dec : EqDecision InsightPipelineCheckpoint.
Proof. solve_decision. Defined.

(** ** The row *)
Record InsightExecutionCheckpoint := mkCheckpoint {
  x_version : Z;
  x_revision : Z;
  x_materialized : bool;
  x_owner_receipts : list BrokerCommandReceipt;
  x_source_fingerprint : Z;
  x_child_ids : list Uuid;
  x_pipeline : option InsightPipelineCheckpoint;
  x_insight_id : Uuid;
  x_parent_id : option Uuid;
  x_is_split_insight : bool;
  x_state : InsightState;
  x_order_id : option string;
  x_side : OrderSide;
  x_symbol : string;
  x_quantity : option f64;
  x_contracts : option f64;
  x_order_type : OrderType;
  x_order_class : OrderClass;
  x_limit_price : option f64;
  x_stop_price : option f64;
  x_take_profit_levels : option (list f64);
  x_stop_loss_levels : option (list f64);
  x_trailing_stop_price : option f64;
  x_strategy_type : StrategyType;
  x_confidence : Z;
  x_timeframe : TimeFrame;
  x_period_unfilled : option Z;
  x_period_till_tp : option Z;
  x_execution_depends : list StrategyDependentConfirmation;
  x_filled_price : option f64;
  x_close_order_id : option string;
  x_close_price : option f64;
  x_broker_realized_pnl : option f64;
  x_position_accounting : option PositionCloseAccounting;
  x_commission : option f64;
  x_swap : option f64;
  x_partial_closes : list PartialCloseResult;
  x_created_at : DateTime;
  x_updated_at : DateTime;
  x_filled_at : option DateTime;
  x_closed_at : option DateTime;
  x_legs : OrderLegs;
  x_market_changed : bool;
  x_submitted : bool;
  x_pending_mutations : list PendingInsightMutation;
  x_execution_data : ExecutionData;
  x_suppress_child_entries : bool;
  x_cancelling : bool;
  x_closing : bool;
  x_first_on_fill : bool;
  x_entry_filled_quantity : option f64;
  x_partial_filled_quantity : option f64;
  x_state_history : list (DateTime * InsightState * option text);
  x_state_history_kinds : list InsightHistoryKind
}.

Definition with_owner_receipts (c : InsightExecutionCheckpoint) (l : list BrokerCommandReceipt)
    : InsightExecutionCheckpoint :=
  mkCheckpoint (x_version c) (x_revision c) (x_materialized c) l (x_source_fingerprint c)
    (x_child_ids c) (x_pipeline c)
    (x_insight_id c) (x_parent_id c) (x_is_split_insight c) (x_state c) (x_order_id c)
    (x_side c) (x_symbol c) (x_quantity c) (x_contracts c) (x_order_type c) (x_order_class c)
    (x_limit_price c) (x_stop_price c) (x_take_profit_levels c) (x_stop_loss_levels c)
    (x_trailing_stop_price c) (x_strategy_type c) (x_confidence c) (x_timeframe c)
    (x_period_unfilled c) (x_period_till_tp c) (x_execution_depends c) (x_filled_price c)
    (x_close_order_id c) (x_close_price c) (x_broker_realized_pnl c) (x_position_accounting c)
    (x_commission c) (x_swap c) (x_partial_closes c) (x_created_at c) (x_updated_at c)
    (x_filled_at c) (x_closed_at c) (x_legs c) (x_market_changed c) (x_submitted c)
    (x_pending_mutations c) (x_execution_data c) (x_suppress_child_entries c) (x_cancelling c)
    (x_closing c) (x_first_on_fill c) (x_entry_filled_quantity c) (x_partial_filled_quantity c)
    (x_state_history c) (x_state_history_kinds c).

(** [snapshot_fingerprint_hash]. *)
Class Fingerprint := snapshot_fingerprint_hash : Insight -> Z.

Section Checkpoints.
Context `{UuidText} `{Json} `{Fingerprint}.

Definition capture (i : Insight) (revision : Z) (materialized : bool)
    (pipeline : option InsightPipelineCheckpoint) : InsightExecutionCheckpoint :=
  mkCheckpoint EXECUTION_CHECKPOINT_VERSION revision materialized []
    (snapshot_fingerprint_hash i) (i_insight_id <$> i_children i) pipeline
    (i_insight_id i) (i_parent_id i) (i_is_split_insight i) (i_state i) (i_order_id i)
    (i_side i) (i_symbol i) (i_quantity i) (i_contracts i) (i_order_type i) (i_order_class i)
    (i_limit_price i) (i_stop_price i) (i_take_profit_levels i) (i_stop_loss_levels i)
    (i_trailing_stop_price i) (i_strategy_type i) (i_confidence i) (i_timeframe i)
    (i_period_unfilled i) (i_period_till_tp i) (i_execution_depends i) (i_filled_price i)
    (i_close_order_id i) (i_close_price i) (i_broker_realized_pnl i) (i_position_accounting i)
    (i_commission i) (i_swap i) (i_partial_closes i) (i_created_at i) (i_updated_at i)
    (i_filled_at i) (i_closed_at i) (i_legs i) (i_market_changed i) (i_submitted i)
    (i_pending_mutations i) (i_execution_data i) (i_suppress_child_entries i) (i_cancelling i)
    (i_closing i) (i_first_on_fill i) (i_entry_filled_quantity i) (i_partial_filled_quantity i)
    (i_state_history i) (i_state_history_kinds i).

(** [into_parts]; the runtime clock ([context]) is not part of the record. *)
Definition into_parts (c : InsightExecutionCheckpoint)
    : Insight * list Uuid * option InsightPipelineCheckpoint * bool :=
  (mkInsight
    (x_insight_id c) (x_parent_id c) (x_is_split_insight c) (x_state c) [] (x_order_id c)
    (x_side c) (x_symbol c) (x_quantity c) (x_contracts c) (x_order_type c) (x_order_class c)
    (x_limit_price c) (x_stop_price c) (x_take_profit_levels c) (x_stop_loss_levels c)
    (x_trailing_stop_price c) (x_strategy_type c) (x_confidence c) (x_timeframe c)
    (x_period_unfilled c) (x_period_till_tp c) (x_execution_depends c) (x_filled_price c)
    (x_close_order_id c) (x_close_price c) (x_broker_realized_pnl c) (x_position_accounting c)
    (x_commission c) (x_swap c) (x_partial_closes c) (x_created_at c) (x_updated_at c)
    (x_filled_at c) (x_closed_at c) (x_legs c) (x_market_changed c) (x_submitted c)
    (x_pending_mutations c) (x_execution_data c) (x_suppress_child_entries c) (x_cancelling c)
    (x_closing c) (x_first_on_fill c) (x_entry_filled_quantity c) (x_partial_filled_quantity c)
    (x_state_history c) (x_state_history_kinds c),
   x_child_ids c, x_pipeline c, x_materialized c).

(** What stays of a materialised child inside its parent. *)
Fixpoint recovery_structure_reference (i : Insight) : Insight :=
  mkInsight
    (i_insight_id i) (i_parent_id i) (i_is_split_insight i) (i_state i)
    (map recovery_structure_reference (i_children i)) (i_order_id i) (i_side i) (i_symbol i)
    (i_quantity i) (i_contracts i) (i_order_type i) (i_order_class i) (i_limit_price i)
    (i_stop_price i) (i_take_profit_levels i) (i_stop_loss_levels i) (i_trailing_stop_price i)
    (i_strategy_type i) (i_confidence i) (i_timeframe i) (i_period_unfilled i)
    (i_period_till_tp i) (i_execution_depends i) (i_filled_price i) (i_close_order_id i)
    (i_close_price i) (i_broker_realized_pnl i) (i_position_accounting i) (i_commission i)
    (i_swap i) (i_partial_closes i) (i_created_at i) (i_updated_at i) (i_filled_at i)
    (i_closed_at i) (i_legs i) (i_market_changed i) (i_submitted i) [] ∅
    (i_suppress_child_entries i) (i_cancelling i) (i_closing i) (i_first_on_fill i)
    (i_entry_filled_quantity i) (i_partial_filled_quantity i) [] [].

Definition retains (c : InsightExecutionCheckpoint) (r : BrokerCommandReceipt) : bool :=
  existsb (fun p => String.eqb (rcpt_id (pm_receipt p)) (rcpt_id r)) (x_pending_mutations c)
  || existsb (fun o => String.eqb (rcpt_id o) (rcpt_id r)) (x_owner_receipts c).

(** *** Validation *)

(** The scalar numbers of a row: the twelve options, then levels, partial
    closes and legs. *)
Definition scalar_numbers (c : InsightExecutionCheckpoint) : list (option f64) :=
  [x_quantity c; x_contracts c; x_limit_price c; x_stop_price c; x_trailing_stop_price c;
   x_filled_price c; x_close_price c; x_broker_realized_pnl c; x_commission c; x_swap c;
   x_entry_filled_quantity c; x_partial_filled_quantity c].
Definition level_numbers (c : InsightExecutionCheckpoint) : list f64 :=
  unwrap_or (x_take_profit_levels c) [] ++ unwrap_or (x_stop_loss_levels c) [].
Definition partial_numbers (p : PartialCloseResult) : list (option f64) :=
  [Some (pc_quantity p); Some (pc_entry_price p); pc_filled_price p].
Definition leg_numbers (l : OrderLeg) : list (option f64) :=
  [leg_limit_price l; leg_trail_price l; leg_filled_price l].
Definition checkpoint_numbers (c : InsightExecutionCheckpoint) : list f64 :=
  omap id (scalar_numbers c) ++ level_numbers c
  ++ (p ← x_partial_closes c; omap id (partial_numbers p))
  ++ (l ← omap id [take_profit (x_legs c); stop_loss (x_legs c); trailing_stop (x_legs c)];
      omap id (leg_numbers l)).

Definition kind_matches (p : PendingInsightMutation) : bool :=
  match pm_kind p, pm_effect p with
  | KSubmit, EffSubmit | KCancel, EffCancel | KClose, EffClose _
  | KTakeProfit, EffTakeProfit _ | KStopLoss, EffStopLoss _ | KReplace, EffReplace _ _
  | KAmendEntry, EffAmendEntry _ _ => true
  | _, _ => false
  end.
Definition effect_finite (e : MutationEffect) : bool :=
  match e with
  | EffAmendEntry limit_price stop_price =>
      (is_some limit_price || is_some stop_price)
      && forallb (fun x => is_finite x && (f0 <. x)) (option_list limit_price ++ option_list stop_price)
  | EffClose price => is_none_or is_finite price
  | EffReplace price quantity => is_finite price && is_finite quantity
  | EffTakeProfit levels | EffStopLoss levels => forallb is_finite (unwrap_or levels [])
  | EffSubmit | EffCancel => true
  end.

(** The loop over [owner_receipts]; [owned] is its hash map. *)
Fixpoint validate_owned (materialized : bool) (owner : string)
    (owned : gmap string BrokerCommandReceipt) (l : list BrokerCommandReceipt)
    : result (gmap string BrokerCommandReceipt) BrokerCommandError :=
  match l with
  | [] => Ok owned
  | r :: rest =>
      if negb materialized || negb (String.eqb (rcpt_insight_id r) owner)
         || is_some (owned !! rcpt_id r)
      then Err (invalid "execution checkpoint contains an invalid owner receipt")
      else validate_owned materialized owner (<[rcpt_id r := r]> owned) rest
  end.

(** The loop over [pending_mutations]; [commands] is its hash set. *)
Fixpoint validate_pending (owner : string) (owned : gmap string BrokerCommandReceipt)
    (commands : gset string) (l : list PendingInsightMutation) : result unit BrokerCommandError :=
  match l with
  | [] => Ok ()
  | p :: rest =>
      let r := pm_receipt p in
      if negb (kind_matches p) then Err (invalid "pending mutation kind/effect mismatch")
      else if negb (effect_finite (pm_effect p))
      then Err (invalid "pending mutation contains a non-finite number")
      else if negb (String.eqb (rcpt_insight_id r) owner) || bool_decide (rcpt_id r ∈ commands)
              || is_some_and (fun o => negb (bool_decide (o = r))) (owned !! rcpt_id r)
      then Err (invalid "execution checkpoint contains a mismatched/duplicate receipt")
      else validate_pending owner owned ({[rcpt_id r]} ∪ commands) rest
  end.

Definition accounting_belongs (c : InsightExecutionCheckpoint) (a : PositionCloseAccounting)
    : result unit BrokerCommandError :=
  match validate_accounting a with
  | Err message => Err (invalid message)
  | Ok _ =>
      if negb (bool_decide (x_state c = Closed)) || negb (is_some_and (owns_order a) (x_order_id c))
      then Err (invalid "position accounting must belong to this closed insight")
      else Ok ()
  end.

Definition checkpoint_validate (c : InsightExecutionCheckpoint) : result unit BrokerCommandError :=
  if negb (x_version c =? EXECUTION_CHECKPOINT_VERSION)%Z || (x_revision c =? 0)%Z
     || (i64_max <? x_revision c)%Z
  then Err (invalid "unsupported execution checkpoint version/revision")
  else
    let? _ := data_validate (x_execution_data c) in
    let? _ := match x_position_accounting c with
              | Some a => accounting_belongs c a
              | None => Ok ()
              end in
    if bool_decide (x_parent_id c = Some (x_insight_id c))
       || bool_decide (x_insight_id c ∈ x_child_ids c)
    then Err (invalid "execution checkpoint contains a self-parent/child")
    else if negb (bool_decide (NoDup (x_child_ids c)))
    then Err (invalid "execution checkpoint contains duplicate children")
    else if is_blank (x_symbol c)
    then Err (invalid "execution checkpoint is missing its symbol")
    else if existsb (fun n => negb (is_finite n)) (checkpoint_numbers c)
    then Err (invalid "execution checkpoint contains a non-finite number")
    else if (256 <? length (x_owner_receipts c)) || (256 <? length (x_pending_mutations c))
    then Err (invalid "execution checkpoint exceeds receipt limit")
    else
      let owner := uuid_to_string (x_insight_id c) in
      let? owned := validate_owned (x_materialized c) owner ∅ (x_owner_receipts c) in
      validate_pending owner owned ∅ (x_pending_mutations c).
End Checkpoints.
