(* ===== verification/Journal.v ===== *)
(** * Journal: durable ownership of broker mutations
    ([src/core/broker/command_journal.rs] with [checkpoints.rs],
    [reconciliation.rs], [cancellation_recovery.rs] and [lifecycle.rs])

    The tables of the journal as finite maps, and each operation as the SQL
    statements it runs.  A JSON column is kept as the value it encodes, with the
    text beside it where the code compares texts.  One worker owns the journal,
    so that no statement races another; a failing database call leaves the
    tables as they are and is a step of the worker, not of these functions.
    Operations thread the tables through a state and error monad. *)
From S2P Require Import Prelude.
From S2P Require Import Float64.
From S2P Require Import Text.
From S2P Require Import BrokerTypes.
From S2P Require Import TimeFrame.
From S2P Require Import InsightTypes.
From S2P Require Import Commands.
From S2P Require Import ExecutionData.
From S2P Require Import Insight.
From S2P Require Import Checkpoint.

(** ** Equality of commands: the derived [PartialEq] *)
Definition request_eqb (a b : BrokerOrderRequest) : bool :=
  String.eqb (rq_client_order_id a) (rq_client_order_id b)
  && String.eqb (rq_insight_id a) (rq_insight_id b)
  && String.eqb (rq_strategy_type a) (rq_strategy_type b)
  && String.eqb (rq_symbol a) (rq_symbol b)
  && opt_feq (rq_quantity a) (rq_quantity b)
  && bool_decide (rq_side a = rq_side b)
  && bool_decide (rq_order_type a = rq_order_type b)
  && bool_decide (rq_order_class a = rq_order_class b)
  && opt_feq (rq_limit_price a) (rq_limit_price b)
  && opt_feq (rq_stop_price a) (rq_stop_price b)
  && opt_list_feq (rq_take_profit_levels a) (rq_take_profit_levels b)
  && opt_list_feq (rq_stop_loss_levels a) (rq_stop_loss_levels b)
  && opt_feq (rq_trailing_stop_price a) (rq_trailing_stop_price b).
Definition action_eqb (a b : BrokerCommandAction) : bool :=
  match a, b with
  | ActAmendEntry i l s, ActAmendEntry i' l' s' => String.eqb i i' && opt_feq l l' && opt_feq s s'
  | ActSubmit r, ActSubmit r' => request_eqb r r'
  | ActCancel i, ActCancel i' => String.eqb i i'
  | ActClose i q p, ActClose i' q' p' => String.eqb i i' && (q ==. q') && opt_feq p p'
  | ActReplace i p q, ActReplace i' p' q' | ActTakeProfit i p q, ActTakeProfit i' p' q'
  | ActStopLoss i p q, ActStopLoss i' p' q' => String.eqb i i' && (p ==. p') && (q ==. q')
  | _, _ => false
  end.
Definition command_eqb (a b : BrokerCommand) : bool :=
  (cmd_version a =? cmd_version b)%Z && String.eqb (cmd_id a) (cmd_id b)
  && String.eqb (cmd_strategy_id a) (cmd_strategy_id b)
  && String.eqb (cmd_account_id a) (cmd_account_id b)
  && String.eqb (cmd_insight_id a) (cmd_insight_id b)
  && bool_decide (cmd_group a = cmd_group b)
  && opt_feq (max_total_symbol_quantity (cmd_dispatch_constraints a))
       (max_total_symbol_quantity (cmd_dispatch_constraints b))
  && action_eqb (cmd_action a) (cmd_action b).

Definition is_ambiguous (o : BrokerCommandOutcome) : bool :=
  match o with Ambiguous _ => true | _ => false end.

(** ** Tables *)
Inductive JournalCommandState := JQueued | JDispatching | JCompleted | JApplied.
#[export] Instance JournalCommandState_eq_dec : EqDecision JournalCommandState.
Proof. solve_decision. Defined.

Record JournalCommandRecord := mkRecord {
  rec_sequence : Z;
  rec_command : BrokerCommand;
  rec_state : JournalCommandState;
  rec_queued_at_us : Z;
  rec_dispatched_at_us : option Z;
  rec_completion : option BrokerCommandCompletion
}.

Inductive ExecutionPhase := PhaseRunning | PhaseStopping | PhaseStopped.
#[export] Instance ExecutionPhase_eq_dec : EqDecision ExecutionPhase.
Proof. solve_decision. Defined.
Record ExecutionLifecycle := mkLifecycle {
  el_epoch : Z;
  el_phase : ExecutionPhase;
  el_stop_requested_at_us : option Z
}.

Record InsightRecoveryMetadata := mkMetadata {
  md_id : Uuid;
  md_revision : Z;
  md_parent : option Uuid;
  md_children : list Uuid;
  md_materialized : bool;
  md_recovery_seed : bool;
  md_dependencies : list Uuid
}.
#[export] Instance InsightRecoveryMetadata_eq_dec : EqDecision InsightRecoveryMetadata.
Proof. solve_decision. Defined.

(** A row of [broker_insight_checkpoints]. *)
Record SavedCheckpoint := mkSavedCheckpoint {
  sv_revision : Z;
  sv_json : string;
  sv_row : InsightExecutionCheckpoint;
  sv_execution_epoch : Z
}.

(** A row of [broker_cancel_recovery_attempts]. *)
Record RecoveryAttempt := mkAttempt {
  ra_attempted_at_us : Z;
  ra_pending_evidence : OrderLifecycleSnapshot;
  ra_previous_completion : BrokerCommandCompletion;
  ra_result : option BrokerCommandCompletion
}.

Record Journal := mkJournal {
  j_strategy_id : string;
  j_account_id : string;
  j_sequence : Z;                                   (* last row id of [broker_commands] *)
  j_commands : gmap string JournalCommandRecord;    (* [broker_commands] *)
  j_admission : gmap string Z;                      (* [broker_command_admission] *)
  j_checkpoints : gmap string SavedCheckpoint;      (* [broker_insight_checkpoints] *)
  j_graph : gmap string InsightRecoveryMetadata;    (* [broker_execution_graph] *)
  j_attempts : gmap (string * Z) RecoveryAttempt;   (* [broker_cancel_recovery_attempts] *)
  j_lifecycle_row : ExecutionLifecycle;             (* [broker_execution_lifecycle] *)
  j_lifecycle : ExecutionLifecycle                  (* its copy in memory *)
}.
Definition eta_journal (j : Journal) : Journal :=
  mkJournal (j_strategy_id j) (j_account_id j) (j_sequence j) (j_commands j) (j_admission j)
    (j_checkpoints j) (j_graph j) (j_attempts j) (j_lifecycle_row j) (j_lifecycle j).
#[export] Instance set_j_sequence : Setter j_sequence := ltac:(solve_setter eta_journal).
#[export] Instance set_j_commands : Setter j_commands := ltac:(solve_setter eta_journal).
#[export] Instance set_j_admission : Setter j_admission := ltac:(solve_setter eta_journal).
#[export] Instance set_j_checkpoints : Setter j_checkpoints := ltac:(solve_setter eta_journal).
#[export] Instance set_j_graph : Setter j_graph := ltac:(solve_setter eta_journal).
#[export] Instance set_j_attempts : Setter j_attempts := ltac:(solve_setter eta_journal).
#[export] Instance set_j_lifecycle_row : Setter j_lifecycle_row := ltac:(solve_setter eta_journal).
#[export] Instance set_j_lifecycle : Setter j_lifecycle := ltac:(solve_setter eta_journal).

(** The journal of a strategy and account that was never used. *)
Definition new_journal (strategy_id account_id : string) : Journal :=
  let running := mkLifecycle 1 PhaseRunning None in
  mkJournal strategy_id account_id 0 ∅ ∅ ∅ ∅ ∅ running running.

(** ** The monad of journal operations *)
Definition JM (A : Type) : Type := Journal -> Journal * result A BrokerCommandError.
Definition jret {A} (a : A) : JM A := fun j => (j, Ok a).
Definition jfail {A} (e : BrokerCommandError) : JM A := fun j => (j, Err e).
Definition jbind {A B} (m : JM A) (k : A -> JM B) : JM B :=
  fun j => match m j with
           | (j, Ok a) => k a j
           | (j, Err e) => (j, Err e)
           end.
Definition jlift {A} (r : result A BrokerCommandError) : JM A := fun j => (j, r).
Definition jread {A} (f : Journal -> A) : JM A := fun j => (j, Ok (f j)).
Definition jmodify (f : Journal -> Journal) : JM unit := fun j => (f j, Ok ()).
(** A transaction: an error leaves the tables as they were. *)
Definition transaction {A} (m : JM A) : JM A :=
  fun j => match m j with
           | (j', Ok a) => (j', Ok a)
           | (_, Err e) => (j, Err e)
           end.
Declare Scope journal_scope.
Delimit Scope journal_scope with journal.
Notation "x <-? m ; k" := (jbind m (fun x => k))
  (at level 100, m at next level, right associativity) : journal_scope.
Notation "m ;; k" := (jbind m (fun _ => k))
  (at level 100, right associativity) : journal_scope.
Local Open Scope journal_scope.

(** A loop over a list, with [?] in its body. *)
Fixpoint jfor {A} (l : list A) (body : A -> JM unit) : JM unit :=
  match l with
  | [] => jret ()
  | x :: rest => body x ;; jfor rest body
  end.

Definition journal_error (message : string) : BrokerCommandError := JournalError message.

(** JSON texts ([serde_json::to_string]). *)
Class JournalJson := {
  command_json : BrokerCommand -> result string string;
  completion_json : BrokerCommandCompletion -> string;
  order_json : Order -> string;
  receipts_json : list BrokerCommandReceipt -> string;
  checkpoint_json : InsightExecutionCheckpoint -> string;
  metadata_json : InsightRecoveryMetadata -> string
}.

Section Operations.
Context `{UuidText} `{Json} `{CommandIds} `{JournalJson}.

(** [BrokerCommand::encode]. *)
Definition encode (c : BrokerCommand) : result string BrokerCommandError :=
  let? _ := command_validate c in
  match command_json c with
  | Err reason => Err (invalid reason)
  | Ok json =>
      if (MAX_BROKER_COMMAND_BYTES <? Z.of_nat (str_len json))%Z then Err TooLarge else Ok json
  end.

(** ** Commands *)

(** [decode]: a row is checked on every read. *)
Definition decode (r : JournalCommandRecord) : result JournalCommandRecord BrokerCommandError :=
  let? _ := command_validate (rec_command r) in
  if negb (Bool.eqb (match rec_state r with JCompleted | JApplied => true | _ => false end)
                    (is_some (rec_completion r)))
  then Err (journal_error "inconsistent journal completion")
  else Ok r.

Definition get (id : string) : JM (option JournalCommandRecord) :=
  fun j => (j, match j_commands j !! id with
               | None => Ok None
               | Some r => let? r := decode r in Ok (Some r)
               end).
Definition get_or (id : string) (e : BrokerCommandError) : JM JournalCommandRecord :=
  o <-? get id;
  match o with Some r => jret r | None => jfail e end.

(** [INSERT INTO broker_commands ... 'queued']. *)
Definition insert_queued (c : BrokerCommand) (queued_at_us : Z) : JM JournalCommandRecord :=
  fun j =>
    let r := mkRecord (j_sequence j + 1) c JQueued queued_at_us None None in
    (j <| j_sequence := (j_sequence j + 1)%Z |> <| j_commands := <[cmd_id c := r]> (j_commands j) |>,
     Ok r).

Definition prepare (c : BrokerCommand) (queued_at_us : Z) : JM JournalCommandRecord :=
  scope <-? jread (fun j => (j_strategy_id j, j_account_id j));
  if negb (String.eqb (cmd_strategy_id c) scope.1) || negb (String.eqb (cmd_account_id c) scope.2)
  then jfail (journal_error "command does not match journal scope")
  else
    jlift (encode c) ;;
    found <-? jread (fun j => is_some (j_commands j !! cmd_id c));
    if negb found then insert_queued c queued_at_us
    else
      r <-? get_or (cmd_id c) (journal_error "prepared intent not found");
      if command_eqb (rec_command r) c then jret r else jfail IdentityConflict.

(** [UPDATE broker_commands ... WHERE command_id AND guard]; [false] when no
    row changed. *)
Definition update_command (id : string) (guard : JournalCommandRecord -> bool)
    (f : JournalCommandRecord -> JournalCommandRecord) : JM bool :=
  fun j => match j_commands j !! id with
           | Some r => if guard r then (j <| j_commands := <[id := f r]> (j_commands j) |>, Ok true)
                       else (j, Ok false)
           | None => (j, Ok false)
           end.
Definition changed_one (m : JM bool) (e : BrokerCommandError) : JM unit :=
  changed <-? m;
  if (changed : bool) then jret () else jfail e.

Definition mark_dispatched (id : string) (at_us : Z) : JM unit :=
  changed_one
    (update_command id (fun r => bool_decide (rec_state r = JQueued))
       (fun r => mkRecord (rec_sequence r) (rec_command r) JDispatching (rec_queued_at_us r)
                   (Some at_us) (rec_completion r)))
    (journal_error "dispatch requires a queued durable intent").

Definition defer_unpolled_dispatch (id : string) (dispatched_at_us : Z) : JM unit :=
  changed_one
    (update_command id
       (fun r => bool_decide (rec_state r = JDispatching)
                 && bool_decide (rec_dispatched_at_us r = Some dispatched_at_us)
                 && is_none (rec_completion r))
       (fun r => mkRecord (rec_sequence r) (rec_command r) JQueued (rec_queued_at_us r) None
                   (rec_completion r)))
    (journal_error "deferral lost unpolled dispatch ownership").

Definition complete (c : BrokerCommandCompletion) : JM unit :=
  let id := rcpt_id (cmp_receipt c) in
  r <-? get_or id (journal_error "completion without intent");
  let cancelled_without_dispatch :=
    match cmp_outcome c with CancelledBeforeDispatch => true | _ => false end
    && is_none (cmp_dispatched_at_us c) in
  if negb (bool_decide (receipt (rec_command r) = cmp_receipt c))
     || negb (rec_queued_at_us r =? cmp_queued_at_us c)%Z
     || (negb (bool_decide (rec_dispatched_at_us r = cmp_dispatched_at_us c))
         && negb cancelled_without_dispatch)
  then jfail IdentityConflict
  else
    match rec_completion r with
    | Some existing =>
        if String.eqb (completion_json existing) (completion_json c) then jret ()
        else jfail IdentityConflict
    | None =>
        changed_one
          (update_command id
             (fun r => match rec_state r with JQueued | JDispatching => true | _ => false end)
             (fun r => mkRecord (rec_sequence r) (rec_command r) JCompleted (rec_queued_at_us r)
                         (cmp_dispatched_at_us c) (Some c)))
          (journal_error "completion lost journal ownership")
    end.

(** [UPDATE ... SET completion_json WHERE state='completed' AND completion_json=before]. *)
Definition replace_completion (id : string) (before after : BrokerCommandCompletion) : JM unit :=
  changed_one
    (update_command id
       (fun r => bool_decide (rec_state r = JCompleted)
                 && is_some_and (fun c => String.eqb (completion_json c) (completion_json before))
                      (rec_completion r))
       (fun r => mkRecord (rec_sequence r) (rec_command r) (rec_state r) (rec_queued_at_us r)
                   (rec_dispatched_at_us r) (Some after)))
    IdentityConflict.

(** ** Reconciliation ([reconciliation.rs]) *)
Definition out_of_scope (c : BrokerCommand) (j : Journal) : bool :=
  negb (String.eqb (cmd_strategy_id c) (j_strategy_id j))
  || negb (String.eqb (cmd_account_id c) (j_account_id j)).

Definition confirm_ambiguous_submission (expected : BrokerCommand) (order : Order) (now_us : Z)
    : JM BrokerCommandCompletion :=
  r <-? get_or (cmd_id expected) IdentityConflict;
  foreign <-? jread (out_of_scope expected);
  match cmd_action expected with
  | ActSubmit request =>
      if negb (command_eqb (rec_command r) expected) || foreign || is_blank (o_order_id order)
         || negb (bool_decide (o_insight_id order = Some (rq_insight_id request)))
         || negb (String.eqb (a_symbol (o_asset order)) (rq_symbol request))
         || negb (bool_decide (o_side order = rq_side request))
      then jfail IdentityConflict
      else
        match rec_completion r with
        | None => jfail IdentityConflict
        | Some existing =>
            if match cmp_outcome existing with
               | OrderResponse saved => String.eqb (order_json saved) (order_json order)
               | _ => false
               end
            then jret existing
            else if negb (bool_decide (rec_state r = JCompleted))
                    || negb (is_ambiguous (cmp_outcome existing))
            then jfail IdentityConflict
            else
              let confirmed :=
                mkCompletion (cmp_receipt existing) (cmp_queued_at_us existing)
                  (cmp_dispatched_at_us existing) (Z.max now_us (cmp_completed_at_us existing))
                  (OrderResponse order) in
              replace_completion (cmd_id expected) existing confirmed ;;
              jret confirmed
        end
  | _ => jfail IdentityConflict
  end.

(** ** Cancellation recovery ([cancellation_recovery.rs]) *)

(** [COALESCE(MAX(attempt),0)] over the attempts of one command. *)
Definition last_attempt (id : string) (attempts : gmap (string * Z) RecoveryAttempt) : Z :=
  foldr (fun kv acc => if String.eqb kv.1.1 id then Z.max kv.1.2 acc else acc) 0%Z
    (map_to_list attempts).

Definition begin_cancellation_recovery (expected : BrokerCommand) (proof : OrderLifecycleSnapshot)
    (at_us : Z) : JM (option Z) :=
  r <-? get_or (cmd_id expected) IdentityConflict;
  foreign <-? jread (out_of_scope expected);
  match cmd_action expected with
  | ActCancel order_id =>
      if negb (command_eqb (rec_command r) expected) || foreign || str_is_empty order_id
         || negb (String.eqb (ls_order_id proof) order_id)
         || negb (bool_decide (ls_status proof = LcPending))
         || is_some (ls_position_id proof) || is_some (ls_position_qty proof)
         || is_none_or is_blank (ls_symbol proof)
      then jfail IdentityConflict
      else if bool_decide (rec_state r = JApplied) then jret None
      else
        match rec_completion r with
        | None => jfail IdentityConflict
        | Some old =>
            if negb (bool_decide (rec_state r = JCompleted)) || negb (is_ambiguous (cmp_outcome old))
            then jret None
            else
              fun j =>
                let attempt := (last_attempt (cmd_id expected) (j_attempts j) + 1)%Z in
                (j <| j_attempts := <[(cmd_id expected, attempt) := mkAttempt at_us proof old None]>
                                      (j_attempts j) |>,
                 Ok (Some attempt))
        end
  | _ => jfail IdentityConflict
  end.

(** [UPDATE broker_cancel_recovery_attempts SET result_json ... AND result_json IS NULL]. *)
Definition record_attempt_result (id : string) (attempt : Z) (result : BrokerCommandCompletion)
    : JM bool :=
  fun j => match j_attempts j !! (id, attempt) with
           | Some (mkAttempt at_us proof old None) =>
               (j <| j_attempts := <[(id, attempt) := mkAttempt at_us proof old (Some result)]>
                                     (j_attempts j) |>, Ok true)
           | _ => (j, Ok false)
           end.

Definition finish_cancellation_recovery (expected : BrokerCommand) (attempt : Z)
    (result : BrokerCommandCompletion) : JM (option BrokerCommandCompletion) :=
  r <-? get_or (cmd_id expected) IdentityConflict;
  foreign <-? jread (out_of_scope expected);
  if negb (command_eqb (rec_command r) expected)
     || match cmd_action expected with ActCancel _ => false | _ => true end
     || foreign || negb (bool_decide (cmp_receipt result = receipt expected))
     || negb (cmp_queued_at_us result =? rec_queued_at_us r)%Z
     || negb (bool_decide (cmp_dispatched_at_us result = rec_dispatched_at_us r))
  then jfail IdentityConflict
  else
    changed_one (record_attempt_result (cmd_id expected) attempt result) IdentityConflict ;;
    if bool_decide (rec_state r = JApplied) then jret None
    else
      match rec_completion r with
      | None => jfail IdentityConflict
      | Some old =>
          if negb (bool_decide (rec_state r = JCompleted)) || negb (is_ambiguous (cmp_outcome old))
          then jfail IdentityConflict
          else
            match cmp_outcome result with
            | Acknowledged =>
                replace_completion (cmd_id expected) old result ;;
                jret (Some result)
            | _ => jret (Some old)
            end
      end.

(** ** Checkpoints ([checkpoints.rs]) *)
Definition MAX_CHECKPOINT_ROWS : nat := 32.
Definition MAX_CHECKPOINT_BYTES : Z := 1024 * 1024.
Definition json_len (json : string) : Z := Z.of_nat (str_len json).

(** [InsightRecoveryMetadata::from_row]; it is called on validated rows only,
    whose dependencies decode. *)
Definition metadata_from_row (c : InsightExecutionCheckpoint) : InsightRecoveryMetadata :=
  mkMetadata (x_insight_id c) (x_revision c) (x_parent_id c) (x_child_ids c) (x_materialized c)
    (x_materialized c
     && (is_active (x_state c) || negb (bool_decide (x_owner_receipts c = []))
         || match x_pending_mutations c with [] => false | _ => true end))
    (if is_active (x_state c)
     then match recovery_dependencies (x_execution_data c) with Ok ids => ids | Err _ => [] end
     else []).

Record ExecutionIntent := mkIntent {
  in_command : BrokerCommand;
  in_queued_at_us : Z;
  in_admission_order : Z
}.
Record EncodedCheckpoint := mkEncoded {
  ec_id : string;
  ec_revision : Z;
  ec_json : string;
  ec_row : InsightExecutionCheckpoint;
  ec_metadata : InsightRecoveryMetadata
}.
Record ExecutionCheckpointBatch := mkBatch {
  b_rows : list EncodedCheckpoint;
  b_applied : list BrokerCommandReceipt;
  b_intents : list ExecutionIntent
}.

Definition row_of (rows : list InsightExecutionCheckpoint) (insight_id : string)
    : option InsightExecutionCheckpoint :=
  find (fun row => String.eqb (uuid_to_string (x_insight_id row)) insight_id) rows.

(** The loop over [applied]; [commands] is its hash set. *)
Fixpoint check_applied (rows : list InsightExecutionCheckpoint) (commands : gset string)
    (applied : list BrokerCommandReceipt) : result (gset string) BrokerCommandError :=
  match applied with
  | [] => Ok commands
  | r :: rest =>
      match row_of rows (rcpt_insight_id r) with
      | None => Err (journal_error "applied receipt is missing its reduced insight checkpoint")
      | Some row =>
          if retains row r || bool_decide (rcpt_id r ∈ commands) || negb (x_materialized row)
          then Err (journal_error "applied receipt is still pending, duplicated, or unmaterialized")
          else check_applied rows ({[rcpt_id r]} ∪ commands) rest
      end
  end.

(** The loop over [intents]; [remaining] is the byte budget left. *)
Fixpoint check_intents (rows : list InsightExecutionCheckpoint) (commands : gset string)
    (remaining : Z) (intents : list ExecutionIntent) : result Z BrokerCommandError :=
  match intents with
  | [] => Ok remaining
  | i :: rest =>
      let r := receipt (in_command i) in
      if (i64_max <? in_admission_order i)%Z
      then Err (journal_error "out of range integral type conversion attempted")
      else if (in_admission_order i =? 0)%Z
      then Err (journal_error "invalid owner admission order")
      else if bool_decide (rcpt_id r ∈ commands)
      then Err (journal_error "duplicate or already applied checkpoint intent")
      else
        match row_of rows (rcpt_insight_id r) with
        | None => Err (journal_error "intent is missing its pending insight checkpoint")
        | Some row =>
            if negb (x_materialized row)
               || (negb (existsb (fun p => bool_decide (pm_receipt p = r)) (x_pending_mutations row))
                   && negb (bool_decide (r ∈ x_owner_receipts row)))
            then Err (journal_error "intent is not retained by its insight checkpoint")
            else
              let? json := encode (in_command i) in
              if (remaining <? json_len json)%Z
              then Err (journal_error "execution checkpoint exceeds byte limit")
              else check_intents rows ({[rcpt_id r]} ∪ commands) (remaining - json_len json)%Z rest
        end
  end.

(** The loop over [rows]; [ids] is its hash set. *)
Fixpoint encode_rows (ids : gset string) (remaining : Z) (rows : list InsightExecutionCheckpoint)
    : result (list EncodedCheckpoint) BrokerCommandError :=
  match rows with
  | [] => Ok []
  | row :: rest =>
      let? _ := checkpoint_validate row in
      let id := uuid_to_string (x_insight_id row) in
      if bool_decide (id ∈ ids) then Err (journal_error "duplicate checkpoint row")
      else
        let metadata := metadata_from_row row in
        let used := json_len (metadata_json metadata) in
        if (remaining <? used)%Z
        then Err (journal_error "execution checkpoint metadata exceeds byte limit")
        else
          let json := checkpoint_json row in
          if (remaining - used <? json_len json)%Z
          then Err (journal_error "execution checkpoint exceeds byte limit")
          else
            let? encoded := encode_rows ({[id]} ∪ ids) (remaining - used - json_len json)%Z rest in
            Ok (mkEncoded id (x_revision row) json row metadata :: encoded)
  end.

Definition with_intents (rows : list InsightExecutionCheckpoint)
    (applied : list BrokerCommandReceipt) (intents : list ExecutionIntent)
    : result ExecutionCheckpointBatch BrokerCommandError :=
  if (length rows =? 0) || (MAX_CHECKPOINT_ROWS <? length rows) || (256 <? length applied)
  then Err (invalid "execution checkpoint batch exceeds row/receipt limit")
  else
    let? commands := check_applied rows ∅ applied in
    let used := json_len (receipts_json applied) in
    if (MAX_CHECKPOINT_BYTES <? used)%Z
    then Err (journal_error "execution checkpoint exceeds byte limit")
    else if 256 <? length intents then Err (journal_error "too many checkpoint intents")
    else
      let? remaining := check_intents rows commands (MAX_CHECKPOINT_BYTES - used)%Z intents in
      let? encoded := encode_rows ∅ remaining rows in
      Ok (mkBatch encoded applied intents).

(** One intent of a batch: its admission order, then its row. *)
Definition persist_intent (i : ExecutionIntent) : JM unit :=
  let id := cmd_id (in_command i) in
  existing <-? jread (fun j => j_admission j !! id);
  match existing with
  | Some order =>
      if negb (order =? in_admission_order i)%Z then jfail IdentityConflict else jret ()
  | None =>
      fun j =>
        if bool_decide (map_Forall (fun _ order => order <> in_admission_order i) (j_admission j))
        then (j <| j_admission := <[id := in_admission_order i]> (j_admission j) |>, Ok ())
        else (j, Err (journal_error "UNIQUE constraint failed"))
  end ;;
  saved <-? jread (fun j => j_commands j !! id);
  match saved with
  | Some r => if command_eqb (rec_command r) (in_command i) then jret () else jfail IdentityConflict
  | None => insert_queued (in_command i) (in_queued_at_us i) ;; jret ()
  end.

(** One checkpoint of a batch, with its row of the recovery graph. *)
Definition persist_row (c : EncodedCheckpoint) : JM unit :=
  existing <-? jread (fun j => j_checkpoints j !! ec_id c);
  let '(previous, unchanged) :=
    match existing with
    | Some saved =>
        (sv_revision saved,
         (sv_revision saved =? ec_revision c)%Z && String.eqb (sv_json saved) (ec_json c))
    | None => (0%Z, false)
    end in
  if unchanged then jret ()
  else if negb ((previous + 1 <=? i64_max)%Z && (previous + 1 =? ec_revision c)%Z)
  then jfail (journal_error "stale/conflicting execution checkpoint revision")
  else
    jmodify (fun j =>
      let epoch := if x_materialized (ec_row c) then el_epoch (j_lifecycle j) else 0%Z in
      let kept := match existing with
                  | Some saved => if (0 <? sv_execution_epoch saved)%Z
                                  then sv_execution_epoch saved else epoch
                  | None => epoch
                  end in
      j <| j_checkpoints := <[ec_id c := mkSavedCheckpoint (ec_revision c) (ec_json c) (ec_row c) kept]>
                              (j_checkpoints j) |>
        <| j_graph := <[ec_id c := ec_metadata c]> (j_graph j) |>).

(** One applied receipt of a batch. *)
Definition persist_applied (rows : list EncodedCheckpoint) (r : BrokerCommandReceipt) : JM unit :=
  record <-? get_or (rcpt_id r) (journal_error "cannot apply an unknown command");
  if negb (bool_decide (receipt (rec_command record) = r)) then jfail IdentityConflict
  else
    let ambiguous := is_some_and (fun c => is_ambiguous (cmp_outcome c)) (rec_completion record) in
    let terminal_settlement :=
      ambiguous
      && is_some_and (fun c => settled_by_terminal (cmd_action (rec_command record))
                                 (x_order_id (ec_row c)) (x_state (ec_row c)))
           (find (fun c => String.eqb (ec_id c) (rcpt_insight_id r)) rows) in
    if is_none_or (fun c => is_ambiguous (cmp_outcome c) && negb terminal_settlement)
         (rec_completion record)
    then jfail (journal_error "unresolved broker command cannot be marked applied")
    else
      update_command (rcpt_id r) (fun r => bool_decide (rec_state r = JCompleted))
        (fun r => mkRecord (rec_sequence r) (rec_command r) JApplied (rec_queued_at_us r)
                    (rec_dispatched_at_us r) (rec_completion r)) ;;
      jret ().

Definition persist_execution_batch (batch : ExecutionCheckpointBatch) : JM unit :=
  foreign <-? jread (fun j => existsb (fun i => out_of_scope (in_command i) j) (b_intents batch));
  if (foreign : bool) then jfail (journal_error "checkpoint intent does not match journal scope")
  else transaction
         (jfor (b_intents batch) persist_intent ;;
          jfor (b_rows batch) persist_row ;;
          jfor (b_applied batch) (persist_applied (b_rows batch))).

(** ** Life cycle of an execution epoch ([lifecycle.rs]) *)
Definition request_execution_stop (now_us : Z) : JM unit :=
  fun j =>
    if negb (bool_decide (el_phase (j_lifecycle j) = PhaseRunning)) then (j, Ok ())
    else if (el_epoch (j_lifecycle_row j) =? el_epoch (j_lifecycle j))%Z
            && bool_decide (el_phase (j_lifecycle_row j) = PhaseRunning)
    then
      let stopping e := mkLifecycle (el_epoch e) PhaseStopping (Some now_us) in
      (j <| j_lifecycle_row := stopping (j_lifecycle_row j) |>
         <| j_lifecycle := stopping (j_lifecycle j) |>, Ok ())
    else (j, Err (journal_error "execution stop fence changed unexpectedly")).

Definition unsettled_state (r : JournalCommandRecord) : bool :=
  match rec_state r with JQueued | JDispatching | JCompleted => true | JApplied => false end.
Definition settled (j : Journal) : bool :=
  bool_decide (map_Forall (fun _ r => unsettled_state r = false) (j_commands j))
  && bool_decide (map_Forall (fun _ m => md_recovery_seed m = false) (j_graph j)).

(** [ensure_execution_graph_index] is the identity on a journal whose graph was
    written with its checkpoints, as [persist_row] does. *)
Definition complete_execution_stop : JM bool :=
  fun j =>
    if bool_decide (el_phase (j_lifecycle j) = PhaseRunning)
    then (j, Err (journal_error "execution stop was not durably requested"))
    else if negb (settled j) then (j, Ok false)
    else if (el_epoch (j_lifecycle_row j) =? el_epoch (j_lifecycle j))%Z
            && negb (bool_decide (el_phase (j_lifecycle_row j) = PhaseRunning))
    then
      let stopped e := mkLifecycle (el_epoch e) PhaseStopped (el_stop_requested_at_us e) in
      (j <| j_lifecycle_row := stopped (j_lifecycle_row j) |>
         <| j_lifecycle := stopped (j_lifecycle j) |>, Ok true)
    else (j, Err (journal_error "execution stop completion fence changed unexpectedly")).

Definition begin_execution_epoch : JM ExecutionLifecycle :=
  fun j =>
    let l := j_lifecycle j in
    if negb (bool_decide (el_phase l = PhaseStopped)) then (j, Ok l)
    else if (i64_max <? el_epoch l + 1)%Z then (j, Err (journal_error "execution epoch exhausted"))
    else if negb (settled j)
    then (j, Err (journal_error "stopped execution epoch still owns unresolved work"))
    else if (el_epoch (j_lifecycle_row j) =? el_epoch l)%Z
            && bool_decide (el_phase (j_lifecycle_row j) = PhaseStopped)
    then
      let next := mkLifecycle (el_epoch l + 1) PhaseRunning None in
      (j <| j_lifecycle_row := next |> <| j_lifecycle := next |>, Ok next)
    else (j, Err (journal_error "execution epoch fence changed unexpectedly")).
End Operations.
