(* ===== verification/JournalFacts.v ===== *)
(** * JournalFacts: what the journal guarantees

    Every operation of [Journal] moves each command along one life cycle
    (queued, dispatching, completed, applied); nothing definite is ever
    rewritten, checkpoints are saved all or nothing, and an epoch ends only when
    its work is settled. *)
From S2P Require Import Prelude.
From S2P Require Import Float64.
From S2P Require Import Text.
From S2P Require Import BrokerTypes.
From S2P Require Import TimeFrame.
From S2P Require Import InsightTypes.
From S2P Require Import Commands.
From S2P Require Import ExecutionData.
From S2P Require Import Insight.
From S2P Require Import Checkpoint.
From S2P Require Import Journal.
From S2P Require Import InsightInvariant.
From S2P Require Import Operations.
From S2P Require Import Scripted.
Local Open Scope journal_scope.

Section Facts.
Context `{UuidText} `{Json} `{CommandIds} `{JournalJson}.

(** ** The life cycle of one command *)
Inductive record_step (id : string) : option JournalCommandRecord -> option JournalCommandRecord -> Prop :=
| rs_queue n c q : cmd_id c = id -> record_step id None (Some (mkRecord n c JQueued q None None))
| rs_dispatch n c q d k t :
    record_step id (Some (mkRecord n c JQueued q d k)) (Some (mkRecord n c JDispatching q (Some t) k))
| rs_defer n c q d :
    record_step id (Some (mkRecord n c JDispatching q d None)) (Some (mkRecord n c JQueued q None None))
| rs_complete n c s q d d' k :
    s = JQueued \/ s = JDispatching -> cmp_receipt k = receipt c ->
    record_step id (Some (mkRecord n c s q d None)) (Some (mkRecord n c JCompleted q d' (Some k)))
| rs_settle n c q d k k' :
    is_ambiguous (cmp_outcome k) = true -> is_ambiguous (cmp_outcome k') = false ->
    cmp_receipt k' = cmp_receipt k \/ cmp_receipt k' = receipt c ->
    record_step id (Some (mkRecord n c JCompleted q d (Some k)))
                (Some (mkRecord n c JCompleted q d (Some k')))
| rs_apply n c q d k :
    record_step id (Some (mkRecord n c JCompleted q d k)) (Some (mkRecord n c JApplied q d k)).

(** Every row of [j'] comes from its row of [j] by steps of the life cycle. *)
Definition evolves (j j' : Journal) : Prop :=
  j_strategy_id j' = j_strategy_id j /\ j_account_id j' = j_account_id j /\
  forall id, rtc (record_step id) (j_commands j !! id) (j_commands j' !! id).

#[export] Instance evolves_preorder : PreOrder evolves.
Proof.
  split.
  - intros j. split; [done|]. split; [done|]. intros id. apply rtc_refl.
  - intros j1 j2 j3 (Hs & Ha & Hr) (Hs' & Ha' & Hr'). split; [congruence|]. split; [congruence|].
    intros id. etrans; [apply Hr|apply Hr'].
Qed.

Lemma evolves_same j j' :
  j_commands j' = j_commands j -> j_strategy_id j' = j_strategy_id j ->
  j_account_id j' = j_account_id j -> evolves j j'.
Proof. intros Hc Hs Ha. split; [done|]. split; [done|]. intros id. rewrite Hc. apply rtc_refl. Qed.

(** An operation on the row of [id] alone. *)
Lemma evolves_insert j id r :
  rtc (record_step id) (j_commands j !! id) (Some r) ->
  evolves j (j <| j_commands := <[id := r]> (j_commands j) |>).
Proof.
  intros Hr. split; [done|]. split; [done|]. intros id'. cbn.
  destruct (decide (id = id')) as [<-|]; [by rewrite lookup_insert_eq|by rewrite lookup_insert_ne].
Qed.

(** An operation whose effect on the tables is in [R]. *)
Definition respects (R : relation Journal) {A} (m : JM A) : Prop := forall j, R j (m j).1.

Section Respects.
Context (R : relation Journal) `{!PreOrder R}.
Lemma respects_jret {A} (a : A) : respects R (jret a).
Proof. intros j. reflexivity. Qed.
Lemma respects_jfail {A} e : respects R (@jfail A e).
Proof. intros j. reflexivity. Qed.
Lemma respects_jlift {A} (r : result A BrokerCommandError) : respects R (jlift r).
Proof. intros j. reflexivity. Qed.
Lemma respects_jread {A} (f : Journal -> A) : respects R (jread f).
Proof. intros j. reflexivity. Qed.
Lemma respects_get id : respects R (get id).
Proof. intros j. reflexivity. Qed.
Lemma respects_bind {A B} (m : JM A) (k : A -> JM B) :
  respects R m -> (forall a, respects R (k a)) -> respects R (jbind m k).
Proof.
  intros Hm Hk j. unfold jbind. specialize (Hm j). destruct (m j) as [j1 [a|e]]; simpl in *; [|done].
  etrans; [exact Hm|apply Hk].
Qed.
Lemma respects_for {A} (l : list A) body :
  (forall x, respects R (body x)) -> respects R (jfor l body).
Proof.
  intros Hb. induction l as [|x l IH]; simpl; [apply respects_jret|]. apply respects_bind; auto.
Qed.
Lemma respects_transaction {A} (m : JM A) : respects R m -> respects R (transaction m).
Proof. intros Hm j. specialize (Hm j). unfold transaction. by destruct (m j) as [? []]. Qed.
End Respects.
Hint Resolve respects_jret respects_jfail respects_jlift respects_jread respects_get respects_bind
  respects_for respects_transaction evolves_preorder : aqe.

Abbreviation tracked := (respects evolves).
Lemma tracked_same {A} (m : JM A) :
  (forall j, j_commands (m j).1 = j_commands j /\ j_strategy_id (m j).1 = j_strategy_id j /\
             j_account_id (m j).1 = j_account_id j) -> tracked m.
Proof. intros Hm j. destruct (Hm j) as (? & ? & ?). by apply evolves_same. Qed.

Lemma tracked_update id guard f :
  (forall r, guard r = true -> rtc (record_step id) (Some r) (Some (f r))) ->
  tracked (update_command id guard f).
Proof.
  intros Hf j. unfold update_command. destruct (j_commands j !! id) as [r|] eqn:E; [|reflexivity].
  destruct (guard r) eqn:Eg; [|reflexivity]. apply evolves_insert. rewrite E. by apply Hf.
Qed.
Lemma tracked_changed m e : tracked m -> tracked (changed_one m e).
Proof. intros Hm. apply respects_bind; [apply _|done|]. intros []; auto with aqe. Qed.
Hint Resolve tracked_changed : aqe.

(** What a read returns. *)
Lemma get_or_Ok id e j j' r :
  get_or id e j = (j', Ok r) -> j' = j /\ j_commands j !! id = Some r /\ decode r = Ok r.
Proof.
  unfold get_or, jbind, get, jret, jfail.
  destruct (j_commands j !! id) as [r'|] eqn:E; simpl; [|intros; simplify_eq].
  destruct (decode r') as [r''|] eqn:Ed; simpl; intros; simplify_eq. 
  assert (r' = r) as ->; [|done]. unfold decode in Ed.
  destruct (command_validate (rec_command r')); [|done]. split_match_in Ed; by simplify_eq.
Qed.
Lemma get_or_fst id e j : (get_or id e j).1 = j.
Proof.
  unfold get_or, jbind, get. destruct (j_commands j !! id) as [r|]; [|done]. by destruct (decode r).
Qed.

(** Continue from the row just read. *)
Lemma evolves_get_or {B} id e (k : JournalCommandRecord -> JM B) j :
  (forall r, j_commands j !! id = Some r -> decode r = Ok r -> evolves j (k r j).1) ->
  evolves j (jbind (get_or id e) k j).1.
Proof.
  intros Hk. unfold jbind. pose proof (get_or_fst id e j) as Hf.
  destruct (get_or id e j) as [j1 [r|]] eqn:E; simpl in *; subst; [|reflexivity].
  apply get_or_Ok in E as (_ & Hr & Hd). by apply Hk.
Qed.

Lemma decode_completion r :
  decode r = Ok r ->
  (match rec_state r with JCompleted | JApplied => true | _ => false end) = is_some (rec_completion r).
Proof.
  unfold decode. destruct (command_validate _); [|done].
  destruct (negb _) eqn:E; [done|]. intros _. apply negb_false_iff in E. by apply eqb_prop.
Qed.

(** ** Each operation *)
Lemma insert_queued_tracked c q j :
  j_commands j !! cmd_id c = None -> evolves j (insert_queued c q j).1.
Proof.
  intros Hn. unfold insert_queued. cbn [fst].
  set (j1 := j <| j_sequence := (j_sequence j + 1)%Z |>).
  change (evolves j (j1 <| j_commands := <[cmd_id c := mkRecord (j_sequence j + 1) c JQueued q None None]>
                             (j_commands j1) |>)).
  transitivity j1; [by apply evolves_same|]. apply evolves_insert. change (j_commands j1) with (j_commands j).
  rewrite Hn. by apply rtc_once, rs_queue.
Qed.

Lemma prepare_tracked c q : tracked (prepare c q).
Proof.
  unfold prepare. apply respects_bind; [apply _|auto with aqe|]. intros scope. destruct (_ || _); [auto with aqe|].
  apply respects_bind; [apply _|auto with aqe|]. intros _ j. unfold jbind at 1, jread. 
  destruct (j_commands j !! cmd_id c) as [r|] eqn:E; simpl.
  - apply evolves_get_or. intros r' _ _. by destruct (command_eqb _ _).
  - by apply insert_queued_tracked.
Qed.

Lemma mark_dispatched_tracked id t : tracked (mark_dispatched id t).
Proof.
  apply tracked_changed, tracked_update. intros [n c s q d k] Hs%bool_decide_eq_true. simpl in *. subst.
  apply rtc_once, rs_dispatch.
Qed.

Lemma defer_tracked id t : tracked (defer_unpolled_dispatch id t).
Proof.
  apply tracked_changed, tracked_update. intros [n c s q d [k|]]; simpl.
  - by rewrite andb_false_r.
  - rewrite !andb_true_iff. intros [[Hs%bool_decide_eq_true _] _]. subst. apply rtc_once, rs_defer.
Qed.

Lemma complete_tracked k : tracked (complete k).
Proof.
  intros j. unfold complete. apply evolves_get_or. intros r Hr Hd.
  destruct (_ || _) eqn:Eg; [reflexivity|]. destruct (rec_completion r) as [old|] eqn:Ek.
  { by destruct (String.eqb _ _). }
  unfold changed_one, jbind, update_command. rewrite Hr.
  destruct (rec_state r) eqn:Es; [| |reflexivity..]; simpl.
  all: apply evolves_insert; rewrite Hr; destruct r as [n c s q d k0]; simpl in *; subst;
    apply rtc_once, rs_complete; [by auto|]; break_bool;
    repeat match goal with Hx : bool_decide _ = true |- _ => apply bool_decide_eq_true in Hx end; done.
Qed.

Lemma replace_completion_evolves j id r before after :
  j_commands j !! id = Some r -> rec_completion r = Some before ->
  is_ambiguous (cmp_outcome before) = true -> is_ambiguous (cmp_outcome after) = false ->
  cmp_receipt after = cmp_receipt before \/ cmp_receipt after = receipt (rec_command r) ->
  evolves j (replace_completion id before after j).1.
Proof.
  intros Hr Hc Hb Ha Hrc. unfold replace_completion, changed_one, jbind, update_command. rewrite Hr, Hc. simpl.
  rewrite String.eqb_refl, andb_true_r. destruct (bool_decide (rec_state r = JCompleted)) eqn:Es; [|reflexivity].
  apply bool_decide_eq_true in Es. simpl. apply evolves_insert. rewrite Hr.
  destruct r as [n c s q d k]; simpl in *; subst. by apply rtc_once, rs_settle.
Qed.

Lemma evolves_jread {A B} (f : Journal -> A) (k : A -> JM B) j :
  evolves j (k (f j) j).1 -> evolves j (jbind (jread f) k j).1.
Proof. done. Qed.

Lemma evolves_then {A B} (m : JM A) (k : A -> JM B) j :
  evolves j (m j).1 -> (forall a, tracked (k a)) -> evolves j (jbind m k j).1.
Proof.
  intros Hm Hk. unfold jbind. destruct (m j) as [j1 [a|e]]; simpl in *; [|done]. etrans; [done|apply Hk].
Qed.

Lemma confirm_tracked c o now : tracked (confirm_ambiguous_submission c o now).
Proof.
  intros j. unfold confirm_ambiguous_submission. apply evolves_get_or. intros r Hr Hd.
  apply evolves_jread. destruct (cmd_action c); try reflexivity.
  destruct (_ || _); [reflexivity|]. destruct (rec_completion r) as [old|] eqn:Ek; [|reflexivity].
  match goal with |- context [if ?b then jret old else _] => destruct b end; [reflexivity|].
  destruct (negb (bool_decide (rec_state r = JCompleted)) || _) eqn:Eg; [reflexivity|].
  break_bool. apply evolves_then; [|auto with aqe].
  eapply replace_completion_evolves; eauto.
Qed.

Lemma begin_recovery_tracked c p t : tracked (begin_cancellation_recovery c p t).
Proof.
  intros j. unfold begin_cancellation_recovery. apply evolves_get_or. intros r Hr Hd.
  apply evolves_jread. destruct (cmd_action c); try reflexivity.
  destruct (_ || _); [reflexivity|]. destruct (bool_decide (rec_state r = JApplied)); [reflexivity|].
  destruct (rec_completion r); [|reflexivity]. destruct (_ || _); [reflexivity|by apply evolves_same].
Qed.

Lemma record_attempt_tracked id n k : tracked (record_attempt_result id n k).
Proof.
  apply tracked_same. intros j. unfold record_attempt_result.
  destruct (j_attempts j !! (id, n)) as [[? ? ? []]|]; done.
Qed.

Lemma record_attempt_changed id n k j :
  evolves j (changed_one (record_attempt_result id n k) IdentityConflict j).1 /\
  j_commands (changed_one (record_attempt_result id n k) IdentityConflict j).1 = j_commands j.
Proof.
  split; [apply tracked_changed, record_attempt_tracked|].
  unfold changed_one, jbind, record_attempt_result.
  by destruct (j_attempts j !! (id, n)) as [[? ? ? []]|].
Qed.

Lemma finish_recovery_tracked c n k : tracked (finish_cancellation_recovery c n k).
Proof.
  intros j. unfold finish_cancellation_recovery. apply evolves_get_or. intros r Hr Hd.
  apply evolves_jread. destruct (_ || _) eqn:Eg; [reflexivity|]. break_bool.
  unfold jbind at 1. pose proof (record_attempt_changed (cmd_id c) n k j) as [He Hc].
  destruct (changed_one _ _ j) as [j1 [[]|e]]; simpl in *; [|done].
  etrans; [exact He|]. rewrite <- Hc in Hr.
  destruct (bool_decide (rec_state r = JApplied)); [reflexivity|].
  destruct (rec_completion r) as [old|] eqn:Ek; [|reflexivity].
  destruct (negb (bool_decide (rec_state r = JCompleted)) || _) eqn:Eg2; [reflexivity|]. break_bool.
  destruct (cmp_outcome k) eqn:Eo; try reflexivity.
  apply evolves_then; [|auto with aqe]. eapply replace_completion_evolves; eauto; [by rewrite Eo|].
  right. repeat match goal with Hx : bool_decide _ = true |- _ => apply bool_decide_eq_true in Hx end.
  assert (receipt (rec_command r) = receipt c) as ->; [|done].
  match goal with Hx : command_eqb _ _ = true |- _ => unfold command_eqb in Hx end. break_bool.
  repeat match goal with Hx : String.eqb _ _ = true |- _ => apply String.eqb_eq in Hx
                    | Hx : bool_decide _ = true |- _ => apply bool_decide_eq_true in Hx end.
  unfold receipt. congruence.
Qed.

Lemma persist_intent_tracked i : tracked (persist_intent i).
Proof.
  unfold persist_intent. apply respects_bind; [apply _|auto with aqe|]. intros existing.
  apply respects_bind; [apply _| |].
  - destruct existing as [o|]; [destruct (negb _); auto with aqe|].
    apply tracked_same. intros j. by destruct (bool_decide _).
  - intros _ j. apply evolves_jread. destruct (j_commands j !! _) as [r|] eqn:E.
    + by destruct (command_eqb _ _).
    + apply evolves_then; [by apply insert_queued_tracked|auto with aqe].
Qed.

Lemma persist_row_tracked c : tracked (persist_row c).
Proof.
  unfold persist_row. apply respects_bind; [apply _|auto with aqe|]. intros existing.
  destruct (match existing with Some _ => _ | None => _ end) as [previous unchanged].
  destruct unchanged; [auto with aqe|]. destruct (negb _); [auto with aqe|].
  by apply tracked_same.
Qed.

Lemma persist_applied_tracked rows r : tracked (persist_applied rows r).
Proof.
  intros j. unfold persist_applied. apply evolves_get_or. intros rec Hr Hd.
  destruct (negb (bool_decide _)); [reflexivity|]. destruct (is_none_or _ _); [reflexivity|].
  apply evolves_then; [|auto with aqe]. apply tracked_update.
  intros [n c s q d k] Hs%bool_decide_eq_true. simpl in *. subst. apply rtc_once, rs_apply.
Qed.

Lemma persist_batch_tracked b : tracked (persist_execution_batch b).
Proof.
  unfold persist_execution_batch. apply respects_bind; [apply _|auto with aqe|]. intros [|]; [auto with aqe|].
  auto 10 using persist_intent_tracked, persist_row_tracked, persist_applied_tracked with aqe.
Qed.

Lemma request_stop_tracked now : tracked (request_execution_stop now).
Proof.
  apply tracked_same. intros j. unfold request_execution_stop. destruct (negb _); [done|]. by destruct (_ && _).
Qed.
Lemma complete_stop_tracked : tracked complete_execution_stop.
Proof.
  apply tracked_same. intros j. unfold complete_execution_stop. repeat (destruct (bool_decide _) || destruct (negb _); try done).
  all: by destruct (_ && _).
Qed.
Lemma begin_epoch_tracked : tracked begin_execution_epoch.
Proof.
  apply tracked_same. intros j. unfold begin_execution_epoch. destruct (negb (bool_decide _)); [done|].
  destruct (i64_max <? _)%Z; [done|]. destruct (negb _); [done|]. by destruct (_ && _).
Qed.

(** ** Loops *)
Lemma jbind_Ok {A B} (m : JM A) (k : A -> JM B) j j' b :
  jbind m k j = (j', Ok b) -> exists j1 a, m j = (j1, Ok a) /\ k a j1 = (j', Ok b).
Proof. unfold jbind. destruct (m j) as [j1 [a|e]]; naive_solver. Qed.

Lemma jfor_ensures {A K} (key : A -> K) (body : A -> JM unit) (Q : A -> Journal -> Prop) l j j' :
  (forall x j1 j2, body x j1 = (j2, Ok ()) -> Q x j2) ->
  (forall x y j1 j2, key x <> key y -> body y j1 = (j2, Ok ()) -> Q x j1 -> Q x j2) ->
  NoDup (key <$> l) -> jfor l body j = (j', Ok ()) -> forall x, x ∈ l -> Q x j'.
Proof.
  intros Hset Hkeep Hnd Hrun x Hx. revert j Hnd Hrun.
  induction l as [|y l IH]; intros j Hnd Hrun; [by apply elem_of_nil in Hx|].
  apply NoDup_cons in Hnd as [Hni Hnd]. apply jbind_Ok in Hrun as (j1 & [] & Hy & Hl).
  apply elem_of_cons in Hx as [->|Hx]; [|by apply (IH Hx j1)].
  assert (Hq : Q y j1) by (by eapply Hset). clear IH Hy Hnd.
  revert j1 Hq Hl. induction l as [|z l IH]; intros j1 Hq Hl; simpl in *; [by unfold jret in Hl; simplify_eq|].
  apply jbind_Ok in Hl as (j2 & [] & Hz & Hl). apply not_elem_of_cons in Hni as [Hne Hni].
  eapply (IH Hni); [|exact Hl]. by eapply Hkeep.
Qed.

Lemma jfor_keeps {A} (body : A -> JM unit) (Q : Journal -> Prop) l j j' :
  (forall x j1 j2, x ∈ l -> body x j1 = (j2, Ok ()) -> Q j1 -> Q j2) ->
  jfor l body j = (j', Ok ()) -> Q j -> Q j'.
Proof.
  revert j. induction l as [|x l IH]; intros j Hk Hrun Hq; simpl in Hrun.
  - by unfold jret in Hrun; simplify_eq.
  - apply jbind_Ok in Hrun as (j1 & [] & Hx & Hl). eapply IH; [|exact Hl|].
    + intros y j2 j3 Hy. apply Hk. by right.
    + eapply Hk; [left|done|done].
Qed.

(** ** The parts of a batch *)
Lemma persist_intent_spec i j j' :
  persist_intent i j = (j', Ok ()) ->
  let id := cmd_id (in_command i) in
  j_admission j' !! id = Some (in_admission_order i) /\
  (exists r, j_commands j' !! id = Some r /\ command_eqb (rec_command r) (in_command i) = true
     \/ j_commands j' !! id = Some r /\ rec_command r = in_command i /\ rec_state r = JQueued) /\
  (forall id', id' <> id -> j_commands j' !! id' = j_commands j !! id' /\
                            j_admission j' !! id' = j_admission j !! id') /\
  (forall r, j_commands j !! id = Some r -> j_commands j' !! id = Some r) /\
  j_checkpoints j' = j_checkpoints j /\ j_graph j' = j_graph j.
Proof.
  intros Hp. unfold persist_intent in Hp. apply jbind_Ok in Hp as (j1 & existing & Hr & Hp).
  unfold jread in Hr. injection Hr as <- <-. apply jbind_Ok in Hp as (j1 & [] & Ha & Hp).
  assert (Hj1 : j_admission j1 !! cmd_id (in_command i) = Some (in_admission_order i) /\
            (forall id', id' <> cmd_id (in_command i) -> j_admission j1 !! id' = j_admission j !! id') /\
            j_commands j1 = j_commands j /\ j_checkpoints j1 = j_checkpoints j /\ j_graph j1 = j_graph j).
  { destruct (j_admission j !! cmd_id (in_command i)) as [o|] eqn:Eo.
    - destruct (negb (o =? _)%Z) eqn:Ez; unfold jret, jfail in Ha; simplify_eq.
      assert (o = in_admission_order i) as -> by lia. done.
    - destruct (bool_decide _); simplify_eq. cbn. split; [by rewrite lookup_insert_eq|].
      split; [intros id' Hne; by rewrite lookup_insert_ne|done]. }
  destruct Hj1 as (Had & Hado & Hcm & Hck & Hg). apply jbind_Ok in Hp as (j2 & saved & Hr & Hp).
  unfold jread in Hr. injection Hr as <- <-. rewrite <- Hcm. simpl.
  destruct (j_commands j1 !! cmd_id (in_command i)) as [r|] eqn:Er.
  - destruct (command_eqb _ _) eqn:Ec; unfold jret, jfail in Hp; simplify_eq.
    split; [done|]. split; [exists r; by left|]. split; [auto|]. split; [naive_solver|done].
  - apply jbind_Ok in Hp as (j2 & r & Hi & Hp). unfold jret in Hp. simplify_eq.
    unfold insert_queued in Hi. simplify_eq. cbn. rewrite lookup_insert_eq.
    split; [done|]. split; [eexists; right; by split|].
    split; [intros id' Hne; rewrite lookup_insert_ne by done; auto|]. split; [done|done].
Qed.

Lemma persist_row_spec c j j' :
  persist_row c j = (j', Ok ()) ->
  (exists s, j_checkpoints j' !! ec_id c = Some s /\ sv_revision s = ec_revision c /\
             sv_json s = ec_json c /\
             (forall old, j_checkpoints j !! ec_id c = Some old ->
                sv_revision s = sv_revision old \/ sv_revision s = (sv_revision old + 1)%Z)) /\
  (forall id, id <> ec_id c -> j_checkpoints j' !! id = j_checkpoints j !! id) /\
  j_commands j' = j_commands j /\ j_admission j' = j_admission j.
Proof.
  unfold persist_row. intros Hp. apply jbind_Ok in Hp as (j1 & existing & Hr & Hp).
  unfold jread in Hr. injection Hr as <- <-.
  destruct (match j_checkpoints j !! ec_id c with Some _ => _ | None => _ end)
    as [previous unchanged] eqn:Epu. destruct unchanged.
  - unfold jret in Hp. injection Hp as <-. destruct (j_checkpoints j !! ec_id c) as [old|] eqn:E; [|done].
    injection Epu as <- Hu. break_bool. match goal with Hx : String.eqb _ _ = true |- _ => apply String.eqb_eq in Hx end.
    split; [|done]. exists old. split; [done|]. split; [lia|]. split; [done|]. intros o [= <-]. by left.
  - destruct (negb _) eqn:En; [done|]. break_bool. unfold jmodify in Hp. injection Hp as <-. cbn.
    split; [|split; [intros id Hne; by rewrite lookup_insert_ne|done]].
    eexists. split; [by rewrite lookup_insert_eq|]. cbn. split; [done|]. split; [done|].
    intros old Hold. rewrite Hold in Epu. injection Epu as <- _. right. lia.
Qed.

(** The condition under which a receipt may be marked applied. *)
Definition may_apply (rows : list EncodedCheckpoint) (r : BrokerCommandReceipt)
    (rec : JournalCommandRecord) : Prop :=
  receipt (rec_command rec) = r /\
  exists k, rec_completion rec = Some k /\
    (is_ambiguous (cmp_outcome k) = false \/
     exists c, c ∈ rows /\ ec_id c = rcpt_insight_id r /\
       settled_by_terminal (cmd_action (rec_command rec)) (x_order_id (ec_row c)) (x_state (ec_row c)) = true).

Lemma find_Some_elem {A} (f : A -> bool) l x : find f l = Some x -> x ∈ l /\ f x = true.
Proof. intros Hf. apply find_some in Hf as [Hin Hx]. by rewrite list_elem_of_In. Qed.

Lemma persist_applied_spec rows r j j' :
  persist_applied rows r j = (j', Ok ()) ->
  (exists rec, j_commands j' !! rcpt_id r = Some rec /\ rec_state rec = JApplied /\ may_apply rows r rec) /\
  (forall id, id <> rcpt_id r -> j_commands j' !! id = j_commands j !! id) /\
  (forall id rec, j_commands j !! id = Some rec ->
     exists rec', j_commands j' !! id = Some rec' /\ rec_command rec' = rec_command rec) /\
  j_checkpoints j' = j_checkpoints j /\ j_admission j' = j_admission j.
Proof.
  unfold persist_applied. intros Hp. apply jbind_Ok in Hp as (j1 & rec & Hg & Hp).
  apply get_or_Ok in Hg as (-> & Hr & Hd). destruct (negb (bool_decide _)) eqn:Erc; [done|].
  break_bool. apply bool_decide_eq_true in Erc. destruct (is_none_or _ _) eqn:En; [done|].
  apply jbind_Ok in Hp as (j2 & b & Hu & Hp). unfold jret in Hp. injection Hp as <-.
  pose proof (decode_completion rec Hd) as Hc.
  destruct (rec_completion rec) as [k|] eqn:Ek; [|done]. simpl in *.
  assert (Hmay : forall s, may_apply rows r (mkRecord (rec_sequence rec) (rec_command rec) s
                     (rec_queued_at_us rec) (rec_dispatched_at_us rec) (Some k))).
  { intros s. split; [done|]. exists k. split; [done|]. destruct (is_ambiguous (cmp_outcome k)); [|by left].
    right. simpl in En. apply negb_false_iff, is_some_and_true in En as (c & Hf & Hset).
    apply find_Some_elem in Hf as [Hin Heq%String.eqb_eq]. by exists c. }
  unfold update_command in Hu. rewrite Hr in Hu.
  destruct (bool_decide (rec_state rec = JCompleted)) eqn:Es; injection Hu as <- <-; cbn.
  - split; [rewrite lookup_insert_eq; eexists; split; [done|]; split; [done|]; rewrite Ek; apply Hmay|].
    split; [intros id Hne; by rewrite lookup_insert_ne|]. split; [|done]. intros id rec0 Hrec0.
    destruct (decide (id = rcpt_id r)) as [->|]; [rewrite lookup_insert_eq; simplify_eq; eauto|].
    rewrite lookup_insert_ne by done. eauto.
  - apply bool_decide_eq_false in Es. split; [|split; [done|split; [by eauto|done]]].
    exists rec. split; [done|]. split; [by destruct (rec_state rec)|].
    pose proof (Hmay (rec_state rec)) as Hm. destruct rec; simpl in *; by subst.
Qed.

(** ** The journal over time *)
Inductive journal_step : Journal -> Journal -> Prop :=
| js_prepare c q j : journal_step j (prepare c q j).1
| js_dispatch id t j : journal_step j (mark_dispatched id t j).1
| js_defer id t j : journal_step j (defer_unpolled_dispatch id t j).1
| js_complete k j : journal_step j (complete k j).1
| js_confirm c o now j : journal_step j (confirm_ambiguous_submission c o now j).1
| js_begin_recovery c p t j : journal_step j (begin_cancellation_recovery c p t j).1
| js_finish_recovery c n k j : journal_step j (finish_cancellation_recovery c n k j).1
| js_persist b j : journal_step j (persist_execution_batch b j).1
| js_request_stop now j : journal_step j (request_execution_stop now j).1
| js_complete_stop j : journal_step j (complete_execution_stop j).1
| js_begin_epoch j : journal_step j (begin_execution_epoch j).1.

Lemma journal_step_evolves j j' : journal_step j j' -> evolves j j'.
Proof.
  intros []; [apply prepare_tracked|apply mark_dispatched_tracked|apply defer_tracked
    |apply complete_tracked|apply confirm_tracked|apply begin_recovery_tracked
    |apply finish_recovery_tracked|apply persist_batch_tracked|apply request_stop_tracked
    |apply complete_stop_tracked|apply begin_epoch_tracked].
Qed.

Lemma journal_steps_evolve j j' : rtc journal_step j j' -> evolves j j'.
Proof. induction 1 as [|x y z Hs _ IH]; [reflexivity|]. etrans; [by apply journal_step_evolves|done]. Qed.

(** What never changes in the row of a command. *)
Definition settled_fact (r r' : JournalCommandRecord) : Prop :=
  rec_command r' = rec_command r /\ rec_queued_at_us r' = rec_queued_at_us r /\
  rec_sequence r' = rec_sequence r /\
  (rec_state r = JApplied -> r' = r) /\
  (forall k, rec_completion r = Some k ->
     (rec_state r' = JCompleted \/ rec_state r' = JApplied) /\
     rec_dispatched_at_us r' = rec_dispatched_at_us r /\
     exists k', rec_completion r' = Some k' /\
       (is_ambiguous (cmp_outcome k) = false -> k' = k)).

Lemma settled_fact_trans r1 r2 r3 :
  settled_fact r1 r2 -> settled_fact r2 r3 -> settled_fact r1 r3.
Proof.
  intros (A1 & A2 & A3 & A4 & A5) (B1 & B2 & B3 & B4 & B5).
  split; [congruence|]. split; [congruence|]. split; [congruence|]. split.
  - intros Ha. specialize (A4 Ha) as ->. by apply B4.
  - intros k Hk. destruct (A5 k Hk) as (Hs & Hd & k' & Hk' & Hd'). destruct (B5 k' Hk') as (Hs2 & Hd2 & k2 & Hk2 & Hd2').
    split; [done|]. split; [congruence|]. exists k2. split; [done|]. intros Hna. rewrite Hd2'; [by apply Hd'|].
    by rewrite (Hd' Hna).
Qed.

Lemma record_step_keeps id r r' :
  (is_Some (rec_completion r) -> rec_state r = JCompleted \/ rec_state r = JApplied) ->
  record_step id (Some r) (Some r') ->
  settled_fact r r' /\
  (is_Some (rec_completion r') -> rec_state r' = JCompleted \/ rec_state r' = JApplied).
Proof.
  intros Hc Hst.
  inversion Hst as [|n c q d k t|n c q d|n c s q d d' k Hs' Hrk|n c q d k k' Hk Hk' Hrk|n c q d k];
    subst; simpl in Hc; unfold settled_fact; simpl.
  - assert (k = None) as -> by (destruct k; naive_solver). naive_solver.
  - naive_solver.
  - split; [|by left]. repeat split; try done. intros ->. naive_solver.
  - split; [|by left]. do 4 (split; [done|]). intros k0 [= <-]. split; [by left|]. split; [done|].
    exists k'. split; [done|]. congruence.
  - split; [|by right]. do 4 (split; [done|]). intros k0 ->. eauto 10.
Qed.

Lemma record_steps_keep id o o' r :
  rtc (record_step id) o o' -> o = Some r ->
  (is_Some (rec_completion r) -> rec_state r = JCompleted \/ rec_state r = JApplied) ->
  exists r', o' = Some r' /\ settled_fact r r' /\
    (is_Some (rec_completion r') -> rec_state r' = JCompleted \/ rec_state r' = JApplied).
Proof.
  intros Hs. revert r. induction Hs as [o|o1 o2 o3 Hst _ IH]; intros r -> Hc.
  { exists r. split; [done|]. split; [|done]. repeat split; eauto. }
  assert (Hstep : forall r2, o2 = Some r2 ->
            settled_fact r r2 /\ (is_Some (rec_completion r2) -> rec_state r2 = JCompleted \/ rec_state r2 = JApplied)).
  { intros r2 ->. by apply (record_step_keeps id). }
  destruct o2 as [r2|]; [|inversion Hst]. destruct (Hstep r2 eq_refl) as [Hf Hc2].
  destruct (IH r2 eq_refl Hc2) as (r' & -> & Hf' & Hc'). exists r'. split; [done|]. split; [|done].
  by eapply settled_fact_trans.
Qed.

(** The rows of a journal. *)
Record record_ok (id : string) (r : JournalCommandRecord) : Prop := {
  ro_id : cmd_id (rec_command r) = id;
  ro_completion : is_Some (rec_completion r) <-> rec_state r = JCompleted \/ rec_state r = JApplied;
  ro_receipt k : rec_completion r = Some k -> cmp_receipt k = receipt (rec_command r)
}.
Definition journal_ok (j : Journal) : Prop := map_Forall record_ok (j_commands j).

Lemma record_step_ok id o o' :
  record_step id o o' -> (forall r, o = Some r -> record_ok id r) ->
  forall r, o' = Some r -> record_ok id r.
Proof.
  intros Hst Hok r ->.
  inversion Hst as [n c q Hid|n c q d k t|n c q d|n c s q d d' k Hs' Hrk|n c q d k k' Hk Hk' Hrk|n c q d k]; subst.
  { split; simpl; [done|naive_solver|naive_solver]. }
  all: destruct (Hok _ eq_refl) as [Hi Hc Hr]; simpl in *; split; simpl; try done.
  - naive_solver.
  - naive_solver.
  - split; [by left|eauto].
  - intros k0 [= <-]. done.
  - split; [by left|eauto].
  - intros k0 [= <-]. destruct Hrk as [->|]; [by apply Hr|done].
  - split; [by right|]. intros _. apply Hc. by left.
Qed.

Lemma evolves_ok j j' : evolves j j' -> journal_ok j -> journal_ok j'.
Proof.
  intros (_ & _ & Hr) Hok id r Hl. specialize (Hr id). 
  assert (H0' : forall r, j_commands j !! id = Some r -> record_ok id r) by (intros; by apply Hok).
  revert Hl. generalize r. clear r. revert H0'.
  induction Hr as [o|o1 o2 o3 Hst _ IH]; [done|]. intros Ho. apply IH. by eapply record_step_ok.
Qed.

Lemma journal_ok_new s a : journal_ok (new_journal s a).
Proof. apply map_Forall_empty. Qed.

(** C25 The journal never forgets: whatever operations run from an empty journal on, a recorded
    command keeps its contents, its place and its queue time; once a completion is recorded the
    command is never dispatched again and its dispatch time is fixed; a definite completion is
    never replaced (an ambiguous one only by a definite one) and an applied row never changes. *)
Theorem journal_never_forgets s a j j' id r :
  rtc journal_step (new_journal s a) j -> rtc journal_step j j' -> j_commands j !! id = Some r ->
  exists r', j_commands j' !! id = Some r' /\
    rec_command r' = rec_command r /\ rec_queued_at_us r' = rec_queued_at_us r /\
    rec_sequence r' = rec_sequence r /\ cmd_id (rec_command r) = id /\
    (rec_state r = JApplied -> r' = r) /\
    (forall k, rec_completion r = Some k ->
       (rec_state r' = JCompleted \/ rec_state r' = JApplied) /\
       rec_dispatched_at_us r' = rec_dispatched_at_us r /\
       exists k', rec_completion r' = Some k' /\ cmp_receipt k' = cmp_receipt k /\
         (is_ambiguous (cmp_outcome k) = false -> k' = k)).
Proof.
  intros H1s H2s Hr. pose proof (evolves_ok _ _ (journal_steps_evolve _ _ H1s) (journal_ok_new s a)) as Hok.
  pose proof (Hok id r Hr) as [Hid Hc Hrc]. pose proof (journal_steps_evolve _ _ H2s) as He.
  pose proof (evolves_ok _ _ He Hok) as Hok'. destruct He as (_ & _ & Hst). specialize (Hst id).
  destruct (record_steps_keep id _ _ r Hst Hr) as (r' & Hr' & (F1 & F2 & F3 & F4 & F5) & _).
  { intros Hs. by apply Hc. }
  exists r'. do 4 (split; [done|]). split; [done|]. split; [done|]. intros k Hk.
  destruct (F5 k Hk) as (? & ? & k' & Hk' & ?). split; [done|]. split; [done|]. exists k'. split; [done|].
  split; [|done]. rewrite (Hrc k Hk), (ro_receipt _ _ (Hok' id r' Hr') k' Hk'). congruence.
Qed.

(** ** Batches *)
Lemma check_applied_spec rows commands applied commands' :
  check_applied rows commands applied = Ok commands' ->
  NoDup (rcpt_id <$> applied) /\ (forall r, r ∈ applied -> rcpt_id r ∉ commands) /\
  (forall r, r ∈ applied -> exists row, row ∈ rows /\
     uuid_to_string (x_insight_id row) = rcpt_insight_id r /\ retains row r = false /\
     x_materialized row = true) /\
  (forall r, r ∈ applied -> rcpt_id r ∈ commands') /\ commands ⊆ commands'.
Proof.
  revert commands. induction applied as [|r rest IH]; intros commands Hc; simpl in *.
  { simplify_eq. split; [constructor|]. set_solver. }
  destruct (row_of rows (rcpt_insight_id r)) as [row|] eqn:Ef; [|done].
  destruct (_ || _) eqn:Eg; [done|]. break_bool.
  match goal with Hx : bool_decide _ = false |- _ => apply bool_decide_eq_false in Hx end.
  destruct (IH _ Hc) as (Hnd & Hni & Hrow & Hin & Hsub).
  apply find_Some_elem in Ef as [Hin' Heq%String.eqb_eq].
  split; [constructor; [|done]; intros (r' & Heq' & Hr')%list_elem_of_fmap; specialize (Hni r' Hr'); set_solver|].
  split; [intros r' [->|Hr']%elem_of_cons; [done|specialize (Hni r' Hr'); set_solver]|].
  split; [intros r' [->|Hr']%elem_of_cons; [by exists row|by apply Hrow]|].
  split; [intros r' [->|Hr']%elem_of_cons; [set_solver|by apply Hin]|set_solver].
Qed.

Lemma check_intents_spec rows commands n intents m :
  check_intents rows commands n intents = Ok m ->
  NoDup ((cmd_id ∘ in_command) <$> intents) /\
  (forall i, i ∈ intents -> cmd_id (in_command i) ∉ commands) /\
  (forall i, i ∈ intents -> exists row, row ∈ rows /\
     uuid_to_string (x_insight_id row) = cmd_insight_id (in_command i) /\
     x_materialized row = true /\ retains row (receipt (in_command i)) = true) /\
  (forall i, i ∈ intents -> is_ok (encode (in_command i)) = true).
Proof.
  revert commands n. induction intents as [|i rest IH]; intros commands n Hc; simpl in *.
  { split; [constructor|]. set_solver. }
  destruct (_ <? _)%Z; [done|]. destruct (_ =? _)%Z; [done|].
  destruct (bool_decide _) eqn:Eb; [done|]. apply bool_decide_eq_false in Eb.
  destruct (row_of rows _) as [row|] eqn:Ef; [|done]. destruct (negb _ || _) eqn:Eg; [done|].
  apply orb_false_iff in Eg as [Em Er]. apply negb_false_iff in Em.
  destruct (encode (in_command i)) as [json|] eqn:Ee; [|done]. destruct (_ <? _)%Z; [done|].
  destruct (IH _ _ Hc) as (Hnd & Hni & Hrow & Hval).
  apply find_Some_elem in Ef as [Hin' Heq%String.eqb_eq].
  assert (Hret : retains row (receipt (in_command i)) = true).
  { unfold retains. apply andb_false_iff in Er as [Er|Er]; apply negb_false_iff in Er.
    - apply orb_true_iff. left. apply existsb_exists in Er as (p & Hp & Hpe%bool_decide_eq_true).
      apply existsb_exists. exists p. split; [done|]. by rewrite Hpe, String.eqb_refl.
    - apply orb_true_iff. right. apply bool_decide_eq_true in Er. apply existsb_exists.
      eexists. split; [by apply list_elem_of_In|]. by rewrite String.eqb_refl. }
  split; [constructor; [|done]; intros (i' & Heq' & Hi')%list_elem_of_fmap; specialize (Hni i' Hi');
          simpl in *; set_solver|].
  split; [intros i' [->|Hi']%elem_of_cons; [done|specialize (Hni i' Hi'); set_solver]|].
  split; [intros i' [->|Hi']%elem_of_cons; [by exists row|by apply Hrow]|].
  intros i' [->|Hi']%elem_of_cons; [by rewrite Ee|by apply Hval].
Qed.

Lemma encode_rows_spec ids n rows encoded :
  encode_rows ids n rows = Ok encoded ->
  NoDup (ec_id <$> encoded) /\ (forall c, c ∈ encoded -> ec_id c ∉ ids) /\ ec_row <$> encoded = rows /\
  (forall c, c ∈ encoded -> ec_id c = uuid_to_string (x_insight_id (ec_row c)) /\
     ec_revision c = x_revision (ec_row c) /\ ec_json c = checkpoint_json (ec_row c) /\
     checkpoint_validate (ec_row c) = Ok ()).
Proof.
  revert ids n encoded. induction rows as [|row rest IH]; intros ids n encoded Hc; simpl in *.
  { simplify_eq. split; [constructor|]. set_solver. }
  destruct (checkpoint_validate row) as [[]|] eqn:Ev; [|done]. destruct (bool_decide _) eqn:Eb; [done|].
  apply bool_decide_eq_false in Eb. destruct (_ <? _)%Z; [done|]. destruct (_ <? _)%Z; [done|].
  destruct (encode_rows _ _ rest) as [enc|] eqn:Ee; [|done]. injection Hc as <-.
  destruct (IH _ _ _ Ee) as (Hnd & Hni & Hrow & Hall). simpl.
  split; [constructor; [|done]; intros (c & Heq & Hin)%list_elem_of_fmap; specialize (Hni c Hin); set_solver|].
  split; [intros c [->|Hin]%elem_of_cons; [done|specialize (Hni c Hin); set_solver]|].
  split; [by f_equal|]. intros c [->|Hin]%elem_of_cons; [done|by apply Hall].
Qed.

(** A row still belongs to the command of an intent. *)
Definition intent_recorded (i : ExecutionIntent) (j : Journal) : Prop :=
  j_admission j !! cmd_id (in_command i) = Some (in_admission_order i) /\
  exists r, j_commands j !! cmd_id (in_command i) = Some r /\
    (command_eqb (rec_command r) (in_command i) = true \/ rec_command r = in_command i).
Definition row_saved (row : InsightExecutionCheckpoint) (j : Journal) : Prop :=
  exists s, j_checkpoints j !! uuid_to_string (x_insight_id row) = Some s /\
    sv_revision s = x_revision row /\ sv_json s = checkpoint_json row.
Definition command_applied (rows : list InsightExecutionCheckpoint) (r : BrokerCommandReceipt)
    (j : Journal) : Prop :=
  exists rec k row, j_commands j !! rcpt_id r = Some rec /\ rec_state rec = JApplied /\
    receipt (rec_command rec) = r /\ rec_completion rec = Some k /\
    row ∈ rows /\ uuid_to_string (x_insight_id row) = rcpt_insight_id r /\
    retains row r = false /\
    (is_ambiguous (cmp_outcome k) = false \/
     exists row', row' ∈ rows /\ uuid_to_string (x_insight_id row') = rcpt_insight_id r /\
       settled_by_terminal (cmd_action (rec_command rec)) (x_order_id row') (x_state row') = true).

Lemma persist_Ok b j j' :
  persist_execution_batch b j = (j', Ok ()) ->
  exists j1 j2, jfor (b_intents b) persist_intent j = (j1, Ok ()) /\
    jfor (b_rows b) persist_row j1 = (j2, Ok ()) /\
    jfor (b_applied b) (persist_applied (b_rows b)) j2 = (j', Ok ()).
Proof.
  unfold persist_execution_batch. intros Hp. apply jbind_Ok in Hp as (j0 & foreign & Hr & Hp).
  unfold jread in Hr. injection Hr as <- <-. destruct (existsb _ _); [done|].
  unfold transaction in Hp. destruct (jbind _ _ j) as [jx [[]|]] eqn:E; simplify_eq.
  apply jbind_Ok in E as (j1 & [] & Hi & E). apply jbind_Ok in E as (j2 & [] & Hr & E). eauto.
Qed.

Lemma intents_recorded l j j' :
  NoDup ((cmd_id ∘ in_command) <$> l) -> jfor l persist_intent j = (j', Ok ()) ->
  forall i, i ∈ l -> intent_recorded i j'.
Proof.
  intros Hnd Hrun. apply (jfor_ensures (cmd_id ∘ in_command) persist_intent intent_recorded l j j'); [| |done|done].
  - intros i j1 j2 (Ha & (r & [[Hr He]|(Hr & He & _)]) & _)%persist_intent_spec; (split; [done|]); eauto.
  - intros i i' j1 j2 Hne (_ & _ & Hf & _)%persist_intent_spec [Ha (r & Hr & He)].
    simpl in Hne. destruct (Hf (cmd_id (in_command i)) Hne) as [Hc Ha']. split; [by rewrite Ha'|].
    exists r. by rewrite Hc.
Qed.

Lemma rows_recorded l j j' :
  NoDup (ec_id <$> l) -> jfor l persist_row j = (j', Ok ()) ->
  forall c, c ∈ l -> exists s, j_checkpoints j' !! ec_id c = Some s /\ sv_revision s = ec_revision c /\
                       sv_json s = ec_json c.
Proof.
  intros Hnd Hrun.
  apply (jfor_ensures ec_id persist_row
           (fun c j => exists s, j_checkpoints j !! ec_id c = Some s /\ sv_revision s = ec_revision c /\
                       sv_json s = ec_json c) l j j'); [| |done|done].
  - intros c j1 j2 ((s & ? & ? & ? & _) & _)%persist_row_spec. eauto.
  - intros c c' j1 j2 Hne (_ & Hf & _)%persist_row_spec (s & Hs & Hx). exists s. by rewrite Hf.
Qed.

Lemma applied_marked rows l j j' :
  NoDup (rcpt_id <$> l) -> jfor l (persist_applied rows) j = (j', Ok ()) ->
  forall r, r ∈ l -> exists rec, j_commands j' !! rcpt_id r = Some rec /\ rec_state rec = JApplied /\
                       may_apply rows r rec.
Proof.
  intros Hnd Hrun.
  apply (jfor_ensures rcpt_id (persist_applied rows)
           (fun r j => exists rec, j_commands j !! rcpt_id r = Some rec /\ rec_state rec = JApplied /\
                       may_apply rows r rec) l j j'); [| |done|done].
  - intros r j1 j2 (Hr & _)%persist_applied_spec. done.
  - intros r r' j1 j2 Hne (_ & Hf & _)%persist_applied_spec (rec & Hr & Hs). exists rec. by rewrite Hf.
Qed.

Lemma commands_untouched intents enc rows applied j j1 j2 j3 :
  jfor intents persist_intent j = (j1, Ok ()) -> jfor enc persist_row j1 = (j2, Ok ()) ->
  jfor applied (persist_applied rows) j2 = (j3, Ok ()) ->
  forall id, id ∉ (cmd_id ∘ in_command) <$> intents -> id ∉ rcpt_id <$> applied ->
    j_commands j3 !! id = j_commands j !! id.
Proof.
  intros Hi Hr Ha id Hni Hna. trans (j_commands j1 !! id); [trans (j_commands j2 !! id)|].
  - eapply (jfor_keeps _ (fun jx => j_commands jx !! id = j_commands j2 !! id)); [|exact Ha|done].
    intros r jx jy Hin (_ & Hf & _)%persist_applied_spec <-. apply Hf. intros ->. apply Hna. by apply list_elem_of_fmap_2.
  - eapply (jfor_keeps _ (fun jx => j_commands jx !! id = j_commands j1 !! id)); [|exact Hr|done].
    intros c jx jy _ (_ & _ & Hc & _)%persist_row_spec <-. by rewrite Hc.
  - eapply (jfor_keeps _ (fun jx => j_commands jx !! id = j_commands j !! id)); [|exact Hi|done].
    intros i jx jy Hin (_ & _ & Hf & _)%persist_intent_spec <-. apply Hf. intros ->. apply Hni.
    by apply (list_elem_of_fmap_2 (cmd_id ∘ in_command)).
Qed.


(** Operations that do not touch the life cycle. *)
Definition same_lifecycle (j j' : Journal) : Prop :=
  j_lifecycle j' = j_lifecycle j /\ j_lifecycle_row j' = j_lifecycle_row j.
#[export] Instance same_lifecycle_preorder : PreOrder same_lifecycle.
Proof. split; [by intros j|]. intros j1 j2 j3 [? ?] [? ?]. split; congruence. Qed.
Hint Resolve same_lifecycle_preorder : aqe.

Ltac lifecycle :=
  repeat first
    [ solve [auto with aqe]
    | apply respects_bind; [apply _| |intros ?]
    | apply respects_for; [apply _|intros ?]
    | match goal with |- respects _ (match ?x with _ => _ end) => destruct x end
    | intros ?; by repeat split_match ].

Lemma update_lifecycle id guard f : respects same_lifecycle (update_command id guard f).
Proof. intros j. unfold update_command. by repeat split_match. Qed.
Lemma changed_lifecycle m e : respects same_lifecycle m -> respects same_lifecycle (changed_one m e).
Proof. intros Hm. unfold changed_one. apply respects_bind; [apply _|done|]. intros []; auto with aqe. Qed.
Lemma replace_lifecycle id b a : respects same_lifecycle (replace_completion id b a).
Proof. apply changed_lifecycle, update_lifecycle. Qed.
Lemma attempt_lifecycle id n k : respects same_lifecycle (record_attempt_result id n k).
Proof. intros j. unfold record_attempt_result. by repeat split_match. Qed.
Lemma get_or_lifecycle id e : respects same_lifecycle (get_or id e).
Proof. intros j. by rewrite get_or_fst. Qed.
Lemma insert_lifecycle c q : respects same_lifecycle (insert_queued c q).
Proof. done. Qed.
Hint Resolve update_lifecycle changed_lifecycle replace_lifecycle attempt_lifecycle get_or_lifecycle
  insert_lifecycle : aqe.

Lemma prepare_lifecycle c q : respects same_lifecycle (prepare c q).
Proof. unfold prepare. lifecycle. Qed.
Lemma dispatch_lifecycle id t : respects same_lifecycle (mark_dispatched id t).
Proof. apply changed_lifecycle, update_lifecycle. Qed.
Lemma defer_lifecycle id t : respects same_lifecycle (defer_unpolled_dispatch id t).
Proof. apply changed_lifecycle, update_lifecycle. Qed.
Lemma complete_lifecycle k : respects same_lifecycle (complete k).
Proof. unfold complete. lifecycle. Qed.
Lemma confirm_lifecycle c o now : respects same_lifecycle (confirm_ambiguous_submission c o now).
Proof. unfold confirm_ambiguous_submission. lifecycle. Qed.
Lemma begin_recovery_lifecycle c p t : respects same_lifecycle (begin_cancellation_recovery c p t).
Proof. unfold begin_cancellation_recovery. lifecycle. Qed.
Lemma finish_recovery_lifecycle c n k : respects same_lifecycle (finish_cancellation_recovery c n k).
Proof. unfold finish_cancellation_recovery. lifecycle. Qed.
Lemma persist_lifecycle b : respects same_lifecycle (persist_execution_batch b).
Proof.
  unfold persist_execution_batch. apply respects_bind; [apply _|auto with aqe|]. intros [|]; [auto with aqe|].
  apply respects_transaction; [apply _|]. unfold persist_intent, persist_row, persist_applied. lifecycle.
Qed.

Lemma commands_keep_lifecycle j j' :
  journal_step j j' -> same_lifecycle j j' \/ (exists now, j' = (request_execution_stop now j).1) \/
  j' = (complete_execution_stop j).1 \/ j' = (begin_execution_epoch j).1.
Proof.
  intros []; try (by right; eauto); left;
    [apply prepare_lifecycle|apply dispatch_lifecycle|apply defer_lifecycle|apply complete_lifecycle
    |apply confirm_lifecycle|apply begin_recovery_lifecycle|apply finish_recovery_lifecycle
    |apply persist_lifecycle].
Qed.

(** One step of the life cycle. *)
Definition lifecycle_step (j j' : Journal) : Prop :=
  j_lifecycle_row j' = j_lifecycle j' /\
  (el_epoch (j_lifecycle j') = el_epoch (j_lifecycle j) /\
   (el_phase (j_lifecycle j') = el_phase (j_lifecycle j) \/
    el_phase (j_lifecycle j) = PhaseRunning /\ el_phase (j_lifecycle j') = PhaseStopping \/
    el_phase (j_lifecycle j) <> PhaseRunning /\ el_phase (j_lifecycle j') = PhaseStopped /\ Journal.settled j = true)
   \/ el_epoch (j_lifecycle j') = (el_epoch (j_lifecycle j) + 1)%Z /\
       el_phase (j_lifecycle j) = PhaseStopped /\ el_phase (j_lifecycle j') = PhaseRunning /\
       Journal.settled j = true).

Lemma lifecycle_stays j j' :
  j_lifecycle_row j' = j_lifecycle j' -> j_lifecycle j' = j_lifecycle j -> lifecycle_step j j'.
Proof. intros Hr Hl. split; [done|]. left. rewrite Hl. by auto. Qed.

(** An execution epoch ends only when its work is settled: an operation changes the epoch
    only from a stopped one to the next, a stop is completed only after it was requested, and
    both only when every recorded command is applied and no saved insight still needs recovery. *)
Theorem epoch_ends_settled j j' :
  journal_step j j' -> j_lifecycle_row j = j_lifecycle j -> lifecycle_step j j'.
Proof.
  intros Hs He. destruct (commands_keep_lifecycle j j' Hs) as [[Hl Hr]|[(now & ->)|[->| ->]]].
  1: by apply lifecycle_stays; rewrite ?Hl, ?Hr.
  all: unfold request_execution_stop, complete_execution_stop, begin_execution_epoch; rewrite He;
    destruct (bool_decide _) eqn:Ep; simpl; try (by apply lifecycle_stays).
  - apply bool_decide_eq_true in Ep. rewrite Z.eqb_refl. split; [done|]. left. split; [done|]. right. by left.
  - apply bool_decide_eq_false in Ep. destruct (Journal.settled j) eqn:Est; [|by apply lifecycle_stays].
    rewrite Z.eqb_refl. split; [done|]. left. split; [done|]. right. by right.
  - apply bool_decide_eq_true in Ep. destruct (i64_max <? _)%Z; [by apply lifecycle_stays|].
    destruct (Journal.settled j) eqn:Est; [|by apply lifecycle_stays]. rewrite Z.eqb_refl. split; [done|]. by right.
Qed.
End Facts.

(** ** A journal with one command *)
#[export] Instance plain_json : JournalJson := {
  command_json c := Ok (cmd_id c);
  completion_json k := rcpt_id (cmp_receipt k);
  order_json o := o_order_id o;
  receipts_json l := "[]";
  checkpoint_json c := "{}";
  metadata_json m := "{}"
}.
Definition demo_journal : Journal :=
  (prepare demo_command 1 (new_journal "strategy" "account")).1.
Definition demo_completion : BrokerCommandCompletion :=
  mkCompletion (receipt demo_command) 1 (Some 2%Z) 3 Acknowledged.
Definition demo_dispatched : Journal := (mark_dispatched (cmd_id demo_command) 2 demo_journal).1.
Definition demo_completed : Journal := (complete demo_completion demo_dispatched).1.

Lemma journal_never_forgets_witness :
  exists r', j_commands demo_completed !! cmd_id demo_command = Some r' /\
    rec_command r' = demo_command /\ rec_state r' = JCompleted.
Proof.
  destruct (journal_never_forgets "strategy" "account" demo_journal demo_completed
              (cmd_id demo_command) (mkRecord 1 demo_command JQueued 1 None None))
    as (r' & Hr & Hc & _).
  - eapply rtc_l; [apply (js_prepare demo_command 1)|]. apply rtc_refl.
  - eapply rtc_l; [apply (js_dispatch (cmd_id demo_command) 2)|].
    eapply rtc_l; [apply (js_complete demo_completion)|]. apply rtc_refl.
  - vm_compute. reflexivity.
  - exists r'. split; [done|]. split; [done|].
    assert (E : rec_state <$> (j_commands demo_completed !! cmd_id demo_command) = Some JCompleted)
      by (vm_compute; reflexivity).
    rewrite Hr in E. by injection E.
Defined.

Lemma epoch_ends_settled_witness :
  lifecycle_step demo_journal (request_execution_stop 5 demo_journal).1.
Proof. apply epoch_ends_settled; [apply js_request_stop|vm_compute; reflexivity]. Defined.

(** A batch that admits an entry with the row that waits for it. *)
Definition demo_fingerprint : Fingerprint := fun _ => 7%Z.
Definition demo_owner : Insight := demo_new <| i_symbol := "BTCUSD"%string |>.
Definition demo_entry : BrokerCommand :=
  command_new "strategy" "account" (uuid_to_string (i_insight_id demo_owner))
    (ActSubmit (mkOrderRequest "client" (uuid_to_string (i_insight_id demo_owner)) "Manual" "BTCUSD"
                  (Some 2%float) Buy Market Simple None None None None None)) None "fresh".
Definition demo_row : InsightExecutionCheckpoint :=
  with_owner_receipts (@capture demo_fingerprint demo_owner 1 true None) [receipt demo_entry].
Definition demo_intent : ExecutionIntent := mkIntent demo_entry 1 1.
Definition demo_batch : ExecutionCheckpointBatch :=
  match with_intents (H0 := ids_json) [demo_row] [] [demo_intent] with
  | Ok b => b
  | Err _ => mkBatch [] [] []
  end.
Definition demo_admitted : Journal :=
  (persist_execution_batch demo_batch (new_journal "strategy" "account")).1.

