(* ===== verification/CommandWorker.v ===== *)
(** * CommandWorker: the task that talks to the broker
    ([src/core/broker/command_worker.rs] and its [stop.rs])

    The task [run] owns the journal and the transport; the strategy reaches it
    through a sender (two bounded queues, the entry gate and the stop fence).
    [Stage] names the places where [run] waits; each function below is the code
    between two waits, with the answers of the outside world (broker, snapshot
    cache, clock, account lane) as arguments.  A database failure, which ends
    the task, is the step [WsCrash] of [CommandWorkerFacts]. *)
From S2P Require Import Prelude.
From S2P Require Import Float64.
From S2P Require Import Text.
From S2P Require Import BrokerTypes.
From S2P Require Import TimeFrame.
From S2P Require Import InsightTypes.
From S2P Require Import Commands.
From S2P Require Import ExecutionData.
From S2P Require Import Insight.
From S2P Require Import Checkpoint.
From S2P Require Import Journal.
From S2P Require Import AccountLane.

(** ** The gate of entries and the stop fence *)
Record EntryGate := mkGate {
  g_stopped : bool;
  g_cancelled : gset string;
  g_deadlines : gmap string DateTime;
  g_snapshots : bool   (* a snapshot guard is installed *)
}.
Definition eta_gate (g : EntryGate) : EntryGate :=
  mkGate (g_stopped g) (g_cancelled g) (g_deadlines g) (g_snapshots g).
#[export] Instance set_g_stopped : Setter g_stopped := ltac:(solve_setter eta_gate).
#[export] Instance set_g_cancelled : Setter g_cancelled := ltac:(solve_setter eta_gate).
#[export] Instance set_g_deadlines : Setter g_deadlines := ltac:(solve_setter eta_gate).
#[export] Instance set_g_snapshots : Setter g_snapshots := ltac:(solve_setter eta_gate).

Definition cancels_entry (g : EntryGate) (id : string) (now : DateTime) : bool :=
  g_stopped g || bool_decide (id ∈ g_cancelled g)
  || is_some_and (fun deadline => (deadline <=? now)%Z) (g_deadlines g !! id).

Record StopFence := mkFence {
  sf_requested : bool;
  sf_persisted : bool;
  sf_failure : option BrokerCommandError
}.
Definition fence_new (phase : ExecutionPhase) : StopFence :=
  let stopped := negb (bool_decide (phase = PhaseRunning)) in
  mkFence stopped stopped None.
Definition fence_request (f : StopFence) : StopFence := mkFence true (sf_persisted f) (sf_failure f).
Definition fence_pending (f : StopFence) : bool := sf_requested f && negb (sf_persisted f).
Definition fence_error (f : StopFence) : option BrokerCommandError :=
  if fence_pending f then sf_failure f else None.

(** [StopFence::persist], with the journal it writes. *)
Definition fence_persist (f : StopFence) (now_us : Z) (j : Journal)
    : Journal * StopFence * result unit BrokerCommandError :=
  if negb (fence_pending f) then (j, f, Ok ())
  else match fence_error f with
       | Some e => (j, f, Err e)
       | None =>
           match request_execution_stop now_us j with
           | (j, Ok _) => (j, mkFence (sf_requested f) true (sf_failure f), Ok ())
           | (j, Err e) => (j, mkFence (sf_requested f) (sf_persisted f) (Some e), Err e)
           end
       end.

(** ** Admission checks *)
Definition entry_account_rejection (a : BrokerCommandAction) (account : Account) : option string :=
  match a with
  | ActSubmit request =>
      if negb (is_finite (ac_equity account)) || (ac_equity account <=. f0)
      then Some "entry refused: account equity is not positive"
      else if negb (is_finite (ac_buying_power account)) || (ac_buying_power account <=. f0)
      then Some "entry refused: account buying power is exhausted"
      else if bool_decide (rq_side request = Sell) && negb (ac_shorting_enabled account)
      then Some "entry refused: account shorting is disabled"
      else None
  | _ => None
  end%string.

Inductive SnapshotUnavailable :=
| SnapMissing | SnapStale | SnapInvalid | AccountChanged | UntrackedSymbol.
#[export] Instance SnapshotUnavailable_eq_dec : EqDecision SnapshotUnavailable.
Proof. solve_decision. Defined.

Inductive BrokerError :=
| UnsupportedOperation (reason : string)
| SubmissionRejected (reason : string)
| OtherBrokerError (message : string).   (* the other variants, as displayed *)

Inductive MarginPreflight :=
| MarginUnsupported
| MarginRequired (required : f64)
| MarginDeclined (reason : string).

(** The margin question of an entry; [None] is its two-second timeout. *)
Definition margin_preflight (c : BrokerCommand) (record : JournalCommandRecord) (cancelled : bool)
    (answer : option (result (option f64) string)) : MarginPreflight :=
  if negb (bool_decide (rec_state record = JDispatching)) && negb cancelled
     && is_entry (cmd_action c)
  then match answer with
       | Some (Ok (Some value)) =>
           if is_finite value && (f0 <=. value) then MarginRequired value
           else MarginDeclined "entry refused: broker returned an invalid margin estimate"
       | Some (Ok None) => MarginUnsupported
       | Some (Err error) =>
           MarginDeclined ("entry refused: authoritative broker margin estimate failed: " +:+ error)
       | None => MarginDeclined "entry refused: authoritative broker margin estimate timed out"
       end
  else MarginUnsupported.

(** The order management provider's answers and [execute]'s reading of them. *)
Inductive BrokerReply :=
| SubmitReply (r : result Order BrokerError)
| MutationReply (r : result bool BrokerError).
Definition broker_error_text (e : BrokerError) : string :=
  match e with
  | UnsupportedOperation m => "Unsupported broker operation: " +:+ m
  | SubmissionRejected m => "Submission rejected: " +:+ m
  | OtherBrokerError m => m
  end.
Definition execute_outcome (r : BrokerReply) : BrokerCommandOutcome :=
  match r with
  | SubmitReply (Ok order) => OrderResponse order
  | SubmitReply (Err (UnsupportedOperation reason)) | SubmitReply (Err (SubmissionRejected reason)) =>
      DeclinedOutcome reason
  | SubmitReply (Err error) => Ambiguous (broker_error_text error)
  | MutationReply (Ok true) => Acknowledged
  | MutationReply (Ok false) => DeclinedOutcome "broker did not acknowledge the mutation"
  | MutationReply (Err (UnsupportedOperation reason)) => DeclinedOutcome reason
  | MutationReply (Err error) => Ambiguous (broker_error_text error)
  end.
Definition retry_outcome (r : result bool BrokerError) : BrokerCommandOutcome :=
  match r with
  | Ok true => Acknowledged
  | Ok false => Ambiguous "cancellation still lacks terminal broker evidence"
  | Err error => Ambiguous (broker_error_text error)
  end.

(** ** Scheduled reconciliations of ambiguous commands *)
Definition MAX_COMMAND_RECONCILIATIONS : nat := 256.
Definition MAX_CANCEL_RECOVERY_ATTEMPTS : nat := 6.
Definition COMMAND_RECONCILIATION_DELAYS : list Z :=
  [1 * ns_second; 2 * ns_second; 5 * ns_second; 15 * ns_second; 30 * ns_second; 60 * ns_second]%Z.
Record Reconciliation := mkReconciliation { rn_command : BrokerCommand; rn_attempt : nat; rn_due : Z }.

Definition schedule_command_reconciliation (pending : list Reconciliation) (c : BrokerCommand) (now : Z)
    : list Reconciliation :=
  if (MAX_COMMAND_RECONCILIATIONS <=? length pending)
     || existsb (fun i => String.eqb (cmd_id (rn_command i)) (cmd_id c)) pending
     || negb (match cmd_action c with ActSubmit _ | ActCancel _ => true | _ => false end)
  then pending
  else pending ++ [mkReconciliation c 0 (now + ns_second)].

(** [min_by_key] over the due items: the first one of smallest due time. *)
Fixpoint earliest_due (now : Z) (index : nat) (pending : list Reconciliation)
    : option (nat * Reconciliation) :=
  match pending with
  | [] => None
  | i :: rest =>
      let later := earliest_due now (S index) rest in
      if (rn_due i <=? now)%Z then
        match later with
        | Some (k, i') => if (rn_due i' <? rn_due i)%Z then Some (k, i') else Some (index, i)
        | None => Some (index, i)
        end
      else later
  end.
Definition take_due_command_reconciliation (pending : list Reconciliation) (now : Z)
    : option (Reconciliation * list Reconciliation) :=
  match earliest_due now 0 pending with
  | Some (k, i) => Some (i, take k pending ++ drop (S k) pending)
  | None => None
  end.
Definition reschedule_command_reconciliation (pending : list Reconciliation) (i : Reconciliation)
    (now : Z) : list Reconciliation :=
  match COMMAND_RECONCILIATION_DELAYS !! S (rn_attempt i) with
  | Some delay => pending ++ [mkReconciliation (rn_command i) (S (rn_attempt i)) (now + delay)]
  | None => pending
  end.

(** ** The task *)
Record QueuedCommand := mkQueued { qc_command : BrokerCommand; qc_queued_at_us : Z }.
Inductive BrokerCommandWorkerEvent :=
| CompletionEvent (completion : BrokerCommandCompletion)
| FailedEvent (receipt : BrokerCommandReceipt) (error : BrokerCommandError).

(** Where [run] waits. *)
Inductive Stage :=
| Selecting                                        (* the outer [select!] *)
| Preparing (q : QueuedCommand)
| Replaying (q : QueuedCommand) (record : JournalCommandRecord) (completion : BrokerCommandCompletion)
| Deciding (q : QueuedCommand) (record : JournalCommandRecord) (proof : option OrderLifecycleSnapshot)
| Preflighted (q : QueuedCommand) (record : JournalCommandRecord)
    (proof : option OrderLifecycleSnapshot) (margin : MarginPreflight)
| Dispatched (q : QueuedCommand) (record : JournalCommandRecord) (margin : MarginPreflight)
    (at_us : Z) (retry : option Z)                 (* durable, not yet polled *)
| InFlight (q : QueuedCommand) (record : JournalCommandRecord) (at_us : Z) (retry : option Z)
| Finishing (q : QueuedCommand) (record : JournalCommandRecord) (dispatched_at_us : option Z)
    (retry : option Z) (outcome : BrokerCommandOutcome)
| Delivering (event : BrokerCommandWorkerEvent) (fatal : option BrokerCommandError)
| Halted (error : option BrokerCommandError).

Record BrokerCommandWorkerConfig := mkWorkerConfig {
  wc_entry_capacity : nat;
  wc_control_capacity : nat;
  wc_completion_capacity : nat
}.

Record Worker := mkWorker {
  w_config : BrokerCommandWorkerConfig;
  w_journal : Journal;
  w_gate : EntryGate;
  w_stop : StopFence;
  w_entries : list QueuedCommand;
  w_controls : list QueuedCommand;
  w_parked_entry : option QueuedCommand;
  w_parked_control : option QueuedCommand;
  w_reconciliations : list Reconciliation;
  w_cancel_attempts : gmap string nat;
  w_stage : Stage;
  w_events : list BrokerCommandWorkerEvent
}.
Definition eta_worker (w : Worker) : Worker :=
  mkWorker (w_config w) (w_journal w) (w_gate w) (w_stop w) (w_entries w) (w_controls w)
    (w_parked_entry w) (w_parked_control w) (w_reconciliations w) (w_cancel_attempts w)
    (w_stage w) (w_events w).
#[export] Instance set_w_journal : Setter w_journal := ltac:(solve_setter eta_worker).
#[export] Instance set_w_gate : Setter w_gate := ltac:(solve_setter eta_worker).
#[export] Instance set_w_stop : Setter w_stop := ltac:(solve_setter eta_worker).
#[export] Instance set_w_entries : Setter w_entries := ltac:(solve_setter eta_worker).
#[export] Instance set_w_controls : Setter w_controls := ltac:(solve_setter eta_worker).
#[export] Instance set_w_parked_entry : Setter w_parked_entry := ltac:(solve_setter eta_worker).
#[export] Instance set_w_parked_control : Setter w_parked_control := ltac:(solve_setter eta_worker).
#[export] Instance set_w_reconciliations : Setter w_reconciliations := ltac:(solve_setter eta_worker).
#[export] Instance set_w_cancel_attempts : Setter w_cancel_attempts := ltac:(solve_setter eta_worker).
#[export] Instance set_w_stage : Setter w_stage := ltac:(solve_setter eta_worker).
#[export] Instance set_w_events : Setter w_events := ltac:(solve_setter eta_worker).

(** [start_executor_with_lane]: the state of a new task over a journal. *)
Definition config_valid (c : BrokerCommandWorkerConfig) : bool :=
  forallb (fun n => (0 <? n) && (n <=? 4096))
    [wc_entry_capacity c; wc_control_capacity c; wc_completion_capacity c].
Definition start_worker (config : BrokerCommandWorkerConfig) (j : Journal) : Worker :=
  let phase := el_phase (j_lifecycle j) in
  mkWorker config j (mkGate (negb (bool_decide (phase = PhaseRunning))) ∅ ∅ false)
    (fence_new phase) [] [] None None [] ∅ Selecting [].

(** ** The sender: what the strategy may do at any time *)
Section Sender.
Context `{UuidText} `{Json} `{CommandIds} `{JournalJson}.

Definition stop_entries (w : Worker) : Worker := w <| w_gate := (w_gate w) <| g_stopped := true |> |>.
Definition entries_stopped (w : Worker) : bool := g_stopped (w_gate w).
Definition entry_is_gated (w : Worker) (id : string) : bool :=
  g_stopped (w_gate w) || bool_decide (id ∈ g_cancelled (w_gate w)).
Definition sender_cancel_pending_entry (w : Worker) (id : string) : Worker :=
  w <| w_gate := (w_gate w) <| g_cancelled := {[id]} ∪ g_cancelled (w_gate w) |> |>.
Definition release_entry_identity (w : Worker) (id : string) : Worker :=
  w <| w_gate := (w_gate w) <| g_cancelled := g_cancelled (w_gate w) ∖ {[id]} |>
                            <| g_deadlines := delete id (g_deadlines (w_gate w)) |> |>.
Definition set_entry_deadline (w : Worker) (id : string) (deadline : option DateTime) : Worker :=
  w <| w_gate := (w_gate w) <| g_deadlines :=
         match deadline with
         | Some d => <[id := d]> (g_deadlines (w_gate w))
         | None => delete id (g_deadlines (w_gate w))
         end |> |>.
Definition sender_request_execution_stop (w : Worker) : Worker :=
  (stop_entries w) <| w_stop := fence_request (w_stop w) |>.
Definition execution_stop_pending (w : Worker) : bool := fence_pending (w_stop w).
Definition execution_stop_error (w : Worker) : option BrokerCommandError := fence_error (w_stop w).
Definition is_halted (w : Worker) : bool :=
  match w_stage w with Halted _ => true | _ => false end.

(** [try_enqueue_inner] on one of the two bounded channels. *)
Definition try_enqueue_inner (w : Worker) (c : BrokerCommand) (prepared : bool) (now_us : Z)
    : Worker * result BrokerCommandReceipt BrokerCommandError :=
  match encode c with
  | Err e => (w, Err e)
  | Ok _ =>
      if negb (String.eqb (cmd_strategy_id c) (j_strategy_id (w_journal w)))
         || negb (String.eqb (cmd_account_id c) (j_account_id (w_journal w)))
      then (w, Err (invalid "command belongs to another worker scope"))
      else if g_stopped (w_gate w) && is_entry (cmd_action c) && negb prepared
      then (w, Err Stopping)
      else
        let q := mkQueued c now_us in
        if is_halted w then (w, Err ClosedError)
        else if is_teardown (cmd_action c) then
          if wc_control_capacity (w_config w) <=? length (w_controls w) then (w, Err QueueFull)
          else (w <| w_controls := w_controls w ++ [q] |>, Ok (receipt c))
        else
          if wc_entry_capacity (w_config w) <=? length (w_entries w) then (w, Err QueueFull)
          else (w <| w_entries := w_entries w ++ [q] |>, Ok (receipt c))
  end.
Definition try_enqueue (w : Worker) (c : BrokerCommand) (now_us : Z) := try_enqueue_inner w c false now_us.
Definition try_enqueue_prepared (w : Worker) (c : BrokerCommand) (now_us : Z) :=
  try_enqueue_inner w c true now_us.

(** ** One turn of [run] *)
Definition at_stage (w : Worker) (s : Stage) : Worker := w <| w_stage := s |>.
Definition with_journal (w : Worker) (j : Journal) : Worker := w <| w_journal := j |>.

(** The command goes back to the one slot of its lane. *)
Definition park (w : Worker) (q : QueuedCommand) : Worker :=
  let w := if is_teardown (cmd_action (qc_command q)) then w <| w_parked_control := Some q |>
           else w <| w_parked_entry := Some q |> in
  at_stage w Selecting.

(** The branches of the outer [select!] that yield a command, in its order. *)
Inductive Source := FromParkedControl | FromControls | FromParkedEntry | FromEntries.
Definition select_command (w : Worker) (source : Source) : option Worker :=
  match source with
  | FromParkedControl =>
      match w_parked_control w with
      | Some q => Some (at_stage (w <| w_parked_control := None |>) (Preparing q))
      | None => None
      end
  | FromControls =>
      match w_parked_control w, w_controls w with
      | None, q :: rest => Some (at_stage (w <| w_controls := rest |>) (Preparing q))
      | _, _ => None
      end
  | FromParkedEntry =>
      match w_parked_entry w with
      | Some q => Some (at_stage (w <| w_parked_entry := None |>) (Preparing q))
      | None => None
      end
  | FromEntries =>
      match w_parked_entry w, w_entries w with
      | None, q :: rest => Some (at_stage (w <| w_entries := rest |>) (Preparing q))
      | _, _ => None
      end
  end.

Definition prepare_command (w : Worker) (q : QueuedCommand) : Worker :=
  match prepare (qc_command q) (qc_queued_at_us q) (w_journal w) with
  | (j, Ok record) =>
      at_stage (with_journal w j)
        (match rec_completion record with
         | Some completion => Replaying q record completion
         | None => Deciding q record None
         end)
  | (j, Err error) =>
      at_stage (with_journal w j)
        (Delivering (FailedEvent (receipt (qc_command q)) error)
           (match error with JournalError _ => Some error | _ => None end))
  end.

(** [reconcile_ambiguous_submission]; the lookup timed out or failed with
    [None]. *)
Inductive SubmissionResolution := ResUnsupported | ResUnknown | ResConfirmed (order : Order).
Definition reconcile_ambiguous_submission (c : BrokerCommand) (completion : BrokerCommandCompletion)
    (answer : option SubmissionResolution) (now_us : Z) : JM BrokerCommandCompletion :=
  if negb (is_ambiguous (cmp_outcome completion)) then jret completion
  else match cmd_action c with
       | ActSubmit _ =>
           match answer with
           | Some (ResConfirmed order) => confirm_ambiguous_submission c order now_us
           | _ => jret completion
           end
       | _ => jret completion
       end.

Definition attempts_of (w : Worker) (id : string) : nat := unwrap_or (w_cancel_attempts w !! id) 0.
Definition may_reconcile (w : Worker) (c : BrokerCommand) (completion : BrokerCommandCompletion) : bool :=
  is_ambiguous (cmp_outcome completion) && (attempts_of w (cmd_id c) <? MAX_CANCEL_RECOVERY_ATTEMPTS).
Definition schedule_if (w : Worker) (c : BrokerCommand) (completion : BrokerCommandCompletion) (now : Z)
    : Worker :=
  if may_reconcile w c completion
  then w <| w_reconciliations := schedule_command_reconciliation (w_reconciliations w) c now |>
  else w.

(** A recorded completion is delivered again, or an ambiguous cancellation
    the broker proves still pending is tried again. *)
Definition replay_command (w : Worker) (q : QueuedCommand) (record : JournalCommandRecord)
    (completion : BrokerCommandCompletion) (answer : option SubmissionResolution)
    (read : option OrderLifecycleSnapshot) (now_us now : Z) : Worker :=
  let c := qc_command q in
  match reconcile_ambiguous_submission c completion answer now_us (w_journal w) with
  | (j, Err error) => at_stage (with_journal w j) (Halted (Some error))
  | (j, Ok completion) =>
      let w := with_journal w j in
      let proof :=
        match cmd_action c with
        | ActCancel order_id =>
            if may_reconcile w c completion
               && (is_some (w_cancel_attempts w !! cmd_id c)
                   || (size (w_cancel_attempts w) <? MAX_COMMAND_RECONCILIATIONS))
            then match read with
                 | Some p => if String.eqb (ls_order_id p) order_id
                                && bool_decide (ls_status p = LcPending) then Some p else None
                 | None => None
                 end
            else None
        | _ => None
        end in
      match proof with
      | None => at_stage (schedule_if w c completion now) (Delivering (CompletionEvent completion) None)
      | Some _ => at_stage w (Deciding q record proof)
      end
  end.

(** The margin question, asked before the decision unless the entry is already
    cancelled. *)
Definition preflight_command (w : Worker) (q : QueuedCommand) (record : JournalCommandRecord)
    (proof : option OrderLifecycleSnapshot) (events_closed : bool) (now : DateTime)
    (answer : option (result (option f64) string)) : Worker :=
  let c := qc_command q in
  let w := if events_closed then stop_entries w else w in
  let cancelled := is_entry (cmd_action c) && cancels_entry (w_gate w) (cmd_id c) now in
  at_stage w (Preflighted q record proof (margin_preflight c record cancelled answer)).

(** The waits for the account lane and the lock of the host. *)
Inductive LaneAnswer :=
| LaneGranted
| LaneClosed                              (* the strategy dropped its receiver *)
| LaneStopped                             (* a stop arrived while an entry waited *)
| LanePreempted                           (* a cleanup command arrived *)
| LaneRefused (error : BrokerCommandError)
| HostBusy.

(** What the outside world answers before dispatch. *)
Record DecideEnv := mkDecideEnv {
  de_now : DateTime;                              (* [executor.current_time()] *)
  de_fresh : result unit SnapshotUnavailable;     (* [with_fresh_account] *)
  de_connected : bool;
  de_lane : LaneAnswer;
  de_dispatch_us : Z
}.
Definition account_fresh (w : Worker) (env : DecideEnv) : result unit SnapshotUnavailable :=
  if g_snapshots (w_gate w)
  then match de_fresh env with
       | Err reason => Err reason
       | Ok _ => if de_connected env then Ok () else Err SnapMissing
       end
  else Ok ().

(** The account changed under the worker: stop for good. *)
Definition account_changed (w : Worker) (now_us : Z) (message : string) : Worker :=
  let w := w <| w_gate := (w_gate w) <| g_stopped := true |> |> <| w_stop := fence_request (w_stop w) |> in
  match fence_persist (w_stop w) now_us (w_journal w) with
  | (j, f, Err error) => at_stage ((with_journal w j) <| w_stop := f |>) (Halted (Some error))
  | (j, f, Ok _) => at_stage ((with_journal w j) <| w_stop := f |>) (Halted (Some (invalid message)))
  end.

Definition dispatch_command (w : Worker) (q : QueuedCommand) (record : JournalCommandRecord)
    (margin : MarginPreflight) (proof : option OrderLifecycleSnapshot) (at_us : Z) : Worker :=
  let c := qc_command q in
  match proof with
  | Some p =>
      match begin_cancellation_recovery c p at_us (w_journal w) with
      | (j, Err error) => at_stage (with_journal w j) (Halted (Some error))
      | (j, Ok None) =>
          at_stage ((with_journal w j) <| w_cancel_attempts := delete (cmd_id c) (w_cancel_attempts w) |>)
            Selecting
      | (j, Ok (Some attempt)) =>
          at_stage ((with_journal w j) <| w_cancel_attempts :=
                      <[cmd_id c := S (attempts_of w (cmd_id c))]> (w_cancel_attempts w) |>)
            (Dispatched q record margin at_us (Some attempt))
      end
  | None =>
      match mark_dispatched (cmd_id c) at_us (w_journal w) with
      | (j, Err error) => at_stage (with_journal w j) (Halted (Some error))
      | (j, Ok _) => at_stage (with_journal w j) (Dispatched q record margin at_us None)
      end
  end.

(** The lane was not obtained: the command is parked. *)
Definition lane_lost (w : Worker) (q : QueuedCommand) (a : LaneAnswer) : Worker :=
  match a with
  | LaneClosed => park (stop_entries w) q
  | LanePreempted =>
      match w_parked_control w, w_controls w with
      | None, control :: rest =>
          park (w <| w_parked_control := Some control |> <| w_controls := rest |>) q
      | _, _ => park w q
      end
  | LaneRefused error => at_stage w (Halted (Some error))
  | _ => park w q
  end.

Definition decide_command (w : Worker) (q : QueuedCommand) (record : JournalCommandRecord)
    (proof : option OrderLifecycleSnapshot) (margin : MarginPreflight) (env : DecideEnv) : Worker :=
  let c := qc_command q in
  let finish outcome := at_stage w (Finishing q record (rec_dispatched_at_us record) None outcome) in
  if bool_decide (rec_state record = JDispatching)
  then finish (Ambiguous "recovered dispatched intent; broker reconciliation is required")
  else if is_entry (cmd_action c) && cancels_entry (w_gate w) (cmd_id c) (de_now env)
  then finish CancelledBeforeDispatch
  else match margin with
       | MarginDeclined reason => finish (DeclinedOutcome reason)
       | _ =>
           match account_fresh w env with
           | Err AccountChanged =>
               account_changed w (de_dispatch_us env) "broker account changed; mutation dispatch refused"
           | Err _ => park w q
           | Ok _ =>
               match de_lane env with
               | LaneGranted => dispatch_command w q record margin proof (de_dispatch_us env)
               | lost => lane_lost w q lost
               end
           end
       end.

(** *** The first poll of the broker's future *)

(** What the snapshot cache hands to the closure of [with_fresh_entry_capacity]. *)
Record EntryView := mkEntryView {
  ev_account : Account;
  ev_account_at : Z;
  ev_pending : option (Z * Z);
  ev_symbol : option (f64 * Z)
}.
Record PollEnv := mkPollEnv {
  pe_now : DateTime;
  pe_events_closed : bool;
  pe_connected : bool;
  pe_view : result EntryView SnapshotUnavailable;
  (** [reserve_entry] of the lane, if the worker has one *)
  pe_reserve : option (option PendingQuery -> option SymbolQuery -> option MarginQuery ->
                       result EntryReservation CapacityRejection);
  pe_at_us : Z
}.
Inductive FirstPoll := PollStarted | PollRefused (outcome : BrokerCommandOutcome) | PollUnavailable (reason : SnapshotUnavailable).

Definition pending_query (v : EntryView) : option PendingQuery :=
  match ac_max_total_orders (ev_account v), ev_pending v with
  | Some limit, Some (count, observed) => Some (mkPendingQuery (Z.of_nat limit) count observed)
  | _, _ => None
  end.
Definition symbol_query (c : BrokerCommand) (v : EntryView) : option SymbolQuery :=
  match cmd_action c, max_total_symbol_quantity (cmd_dispatch_constraints c), ev_symbol v with
  | ActSubmit request, Some limit, Some (observed, at_) =>
      Some (mkSymbolQuery (rq_symbol request) (unwrap_or (rq_quantity request) f0) limit observed at_)
  | _, _, _ => None
  end.
Definition margin_query (m : MarginPreflight) (v : EntryView) : option MarginQuery :=
  match m with
  | MarginRequired required =>
      Some (mkMarginQuery required (ac_buying_power (ev_account v)) (ev_account_at v))
  | _ => None
  end.

(** Without a lane the three limits are checked against the snapshot alone. *)
Definition local_reserve (pending : option PendingQuery) (symbol : option SymbolQuery)
    (margin : option MarginQuery) : result EntryReservation CapacityRejection :=
  if is_some_and (fun q => (pq_limit q <=? pq_count q)%Z) pending then Err RejPendingOrders
  else if is_some_and (fun q => sq_limit q <. sq_observed q ⊕ sq_requested q) symbol
  then Err RejSymbolQuantity
  else if is_some_and (fun q => mq_available q <. mq_required q) margin then Err RejMargin
  else Ok (mkEntryReservation false false false).

Definition rejection_reason (r : CapacityRejection) : string :=
  match r with
  | RejPendingOrders => "entry refused: broker pending-order limit reached (including local reservations)"
  | RejSymbolQuantity => "entry refused: broker aggregate symbol quantity limit reached (including pending orders and local reservations)"
  | RejMargin => "entry refused: authoritative broker margin requirement exceeds available buying power (including local reservations)"
  end.

Definition first_poll (g : EntryGate) (c : BrokerCommand) (margin : MarginPreflight) (env : PollEnv)
    : FirstPoll :=
  if is_entry (cmd_action c) && (cancels_entry g (cmd_id c) (pe_now env) || pe_events_closed env)
  then PollRefused CancelledBeforeDispatch
  else if negb (g_snapshots g) then PollStarted
  else if negb (pe_connected env) then PollUnavailable SnapMissing
  else match pe_view env with
       | Err reason => PollUnavailable reason
       | Ok v =>
           match entry_account_rejection (cmd_action c) (ev_account v) with
           | Some reason => PollRefused (DeclinedOutcome reason)
           | None =>
               let reserve := unwrap_or (pe_reserve env) local_reserve in
               match reserve (pending_query v) (symbol_query c v) (margin_query margin v) with
               | Err rejection => PollRefused (DeclinedOutcome (rejection_reason rejection))
               | Ok _ => PollStarted
               end
           end
       end.

(** A dispatch that was never polled goes back to its queued state. *)
Definition defer_dispatch (w : Worker) (q : QueuedCommand) (at_us : Z) (retry : option Z)
    (next : Worker -> Worker) : Worker :=
  match retry with
  | Some _ => next w
  | None =>
      match defer_unpolled_dispatch (cmd_id (qc_command q)) at_us (w_journal w) with
      | (j, Err error) => at_stage (with_journal w j) (Halted (Some error))
      | (j, Ok _) => next (with_journal w j)
      end
  end.

(** The result says whether the broker was called. *)
Definition poll_command (w : Worker) (q : QueuedCommand) (record : JournalCommandRecord)
    (margin : MarginPreflight) (at_us : Z) (retry : option Z) (env : PollEnv) : Worker * bool :=
  match first_poll (w_gate w) (qc_command q) margin env with
  | PollStarted => (at_stage w (InFlight q record at_us retry), true)
  | PollRefused outcome =>
      (defer_dispatch w q at_us retry (fun w =>
         at_stage w (Finishing q record
                       (match retry with Some _ => rec_dispatched_at_us record | None => None end)
                       retry outcome)), false)
  | PollUnavailable reason =>
      (defer_dispatch w q at_us retry (fun w =>
         if bool_decide (reason = AccountChanged)
         then account_changed w (pe_at_us env) "broker account changed before mutation poll"
         else park w q), false)
  end.

(** The broker answered, or the mutation timed out ([None]). *)
Definition answer_command (w : Worker) (q : QueuedCommand) (record : JournalCommandRecord)
    (at_us : Z) (retry : option Z) (answer : option BrokerCommandOutcome) : Worker :=
  let outcome := unwrap_or answer
                   (Ambiguous "broker mutation timed out; reconciliation is required") in
  at_stage w (Finishing q record
                (match retry with Some _ => rec_dispatched_at_us record | None => Some at_us end)
                retry outcome).

(** The result becomes durable, then it is delivered. *)
Definition finish_command (w : Worker) (q : QueuedCommand) (record : JournalCommandRecord)
    (dispatched_at_us retry : option Z) (outcome : BrokerCommandOutcome)
    (answer : option SubmissionResolution) (now_us now : Z) : Worker :=
  let c := qc_command q in
  let dispatched_at_us := match outcome with CancelledBeforeDispatch => None | _ => dispatched_at_us end in
  let completion := mkCompletion (receipt c) (rec_queued_at_us record) dispatched_at_us now_us outcome in
  let forget w := w <| w_cancel_attempts := delete (cmd_id c) (w_cancel_attempts w) |> in
  let deliver w completion :=
    match reconcile_ambiguous_submission c completion answer now_us (w_journal w) with
    | (j, Err error) => at_stage (with_journal w j) (Halted (Some error))
    | (j, Ok completion) =>
        at_stage (schedule_if (with_journal w j) c completion now)
          (Delivering (CompletionEvent completion) None)
    end in
  match retry with
  | Some attempt =>
      match finish_cancellation_recovery c attempt completion (w_journal w) with
      | (j, Err error) => at_stage (with_journal w j) (Halted (Some error))
      | (j, Ok None) => at_stage (forget (with_journal w j)) Selecting
      | (j, Ok (Some completion)) =>
          let w := with_journal w j in
          deliver (if is_ambiguous (cmp_outcome completion) then w else forget w) completion
      end
  | None =>
      match complete completion (w_journal w) with
      | (j, Err error) => at_stage (with_journal w j) (Halted (Some error))
      | (j, Ok _) => deliver (with_journal w j) completion
      end
  end.

(** The end of [run]: no entry is dispatched any more, and a requested stop is
    saved. *)
Definition shut_down (w : Worker) (now_us : Z) : Worker :=
  let w := stop_entries w in
  match fence_persist (w_stop w) now_us (w_journal w) with
  | (j, f, Err error) => at_stage ((with_journal w j) <| w_stop := f |>) (Halted (Some error))
  | (j, f, Ok _) => at_stage ((with_journal w j) <| w_stop := f |>) (Halted None)
  end.

(** [deliver_event]: into the bounded channel, unless the owner went away. *)
Definition deliver_event (w : Worker) (event : BrokerCommandWorkerEvent)
    (fatal : option BrokerCommandError) (open : bool) (now_us : Z) : option Worker :=
  let after := match fatal with Some error => Halted (Some error) | None => Selecting end in
  if open
  then if wc_completion_capacity (w_config w) <=? length (w_events w) then None
       else Some (at_stage (w <| w_events := w_events w ++ [event] |>) after)
  else match event with
       | FailedEvent _ _ => Some (at_stage w after)
       | CompletionEvent _ => Some (shut_down w now_us)
       end.

(** *** The reconciliation timer *)
Definition still_ambiguous (saved : option JournalCommandRecord) : bool :=
  is_some_and (fun r => bool_decide (rec_state r = JCompleted)
                        && is_some_and (fun k => is_ambiguous (cmp_outcome k)) (rec_completion r)) saved.
Definition reconcile_due (w : Worker) (answer : option SubmissionResolution) (now_us now : Z) : Worker :=
  match take_due_command_reconciliation (w_reconciliations w) now with
  | None => w
  | Some (item, rest) =>
      let w := w <| w_reconciliations := rest |> in
      let c := rn_command item in
      let again w := w <| w_reconciliations :=
                       reschedule_command_reconciliation (w_reconciliations w) item now |> in
      match get (cmd_id c) (w_journal w) with
      | (_, Err error) => at_stage w (Halted (Some error))
      | (_, Ok saved) =>
          if negb (still_ambiguous saved)
          then w <| w_cancel_attempts := delete (cmd_id c) (w_cancel_attempts w) |>
          else
            match cmd_action c with
            | ActCancel _ =>
                again (match w_parked_control w, saved with
                       | None, Some r => w <| w_parked_control := Some (mkQueued c (rec_queued_at_us r)) |>
                       | _, _ => w
                       end)
            | ActSubmit _ =>
                match answer with
                | Some (ResConfirmed order) =>
                    match confirm_ambiguous_submission c order now_us (w_journal w) with
                    | (j, Err error) => at_stage (with_journal w j) (Halted (Some error))
                    | (j, Ok completion) =>
                        at_stage (with_journal w j) (Delivering (CompletionEvent completion) None)
                    end
                | Some ResUnsupported => w
                | Some ResUnknown | None => again w
                end
            | _ => w
            end
      end
  end.

(** *** Requests to the journal owner, served at any wait *)
Definition serve_checkpoint (w : Worker) (batch : ExecutionCheckpointBatch)
    : Worker * result unit BrokerCommandError :=
  match persist_execution_batch batch (w_journal w) with (j, r) => (with_journal w j, r) end.
Definition serve_complete_stop (w : Worker) : Worker * result bool BrokerCommandError :=
  match complete_execution_stop (w_journal w) with (j, r) => (with_journal w j, r) end.
Definition serve_stop (w : Worker) (now_us : Z) : Worker :=
  match fence_persist (w_stop w) now_us (w_journal w) with
  | (j, f, r) =>
      let w := (with_journal w j) <| w_stop := f |> in
      match r, w_stage w with
      | Err _, InFlight _ _ _ _ | Ok _, _ => w   (* a call in flight is not aborted *)
      | Err error, _ => at_stage w (Halted (Some error))
      end
  end.

(** A new process: the epoch is reopened if it was stopped, then the task starts. *)
Definition restart_worker (w : Worker) : Worker :=
  start_worker (w_config w) (begin_execution_epoch (w_journal w)).1.
End Sender.
