(* ===== verification/CommandWorkerFacts.v ===== *)
(** * CommandWorkerFacts: at most one broker call per command

    The worker of [CommandWorker] as a step relation, with crashes and restarts
    at any point and commands queued any number of times.  Shown: the broker is
    called at most once for a command, nothing is sent that is not durably
    marked, no entry is sent once a stop was requested, and results are durable
    before the strategy sees them. *)
From S2P Require Import Prelude.
From S2P Require Import Float64.
From S2P Require Import Text.
From S2P Require Import BrokerTypes.
From S2P Require Import TimeFrame.
From S2P Require Import InsightTypes.
From S2P Require Import Commands.
From S2P Require Import ExecutionData.
From S2P Require Import Insight.
From S2P Require Import Checkpoint.
From S2P Require Import Journal.
From S2P Require Import JournalFacts.
From S2P Require Import AccountLane.
From S2P Require Import CommandWorker.
Local Open Scope journal_scope.

Section Worker.
Context `{UuidText} `{Json} `{CommandIds} `{JournalJson}.

(** ** What the journal keeps *)

(** A command that left its queue never returns to it. *)
Definition stays (j j' : Journal) : Prop :=
  forall id r, j_commands j !! id = Some r -> rec_state r <> JQueued ->
  exists r', j_commands j' !! id = Some r' /\ rec_state r' <> JQueued.
(** A command without a completion is left alone. *)
Definition leaves_open (j j' : Journal) : Prop :=
  forall id r, j_commands j !! id = Some r -> rec_completion r = None -> j_commands j' !! id = Some r.
Definition quiet (j j' : Journal) : Prop := stays j j' /\ leaves_open j j'.

#[local] Instance stays_preorder : PreOrder stays.
Proof.
  split; [intros j id r; eauto|]. intros j1 j2 j3 H12 H23 id r Hr Hs.
  destruct (H12 id r Hr Hs) as (r' & ? & ?). by eapply H23.
Qed.
#[local] Instance quiet_preorder : PreOrder quiet.
Proof.
  split; [intros j; split; [reflexivity|by intros id r]|].
  intros j1 j2 j3 [S12 L12] [S23 L23]. split; [by etrans|]. intros id r Hr Hc.
  by apply (L23 id r (L12 id r Hr Hc)).
Qed.

Lemma quiet_same j j' : j_commands j' = j_commands j -> quiet j j'.
Proof. intros Hc. split; intros id r; rewrite Hc; eauto. Qed.

(** A change of one row. *)
Lemma stays_insert j id r :
  rec_state r <> JQueued -> stays j (j <| j_commands := <[id := r]> (j_commands j) |>).
Proof.
  intros Hs id' r' Hr Hs'. cbn. destruct (decide (id = id')) as [<-|].
  - rewrite lookup_insert_eq. eauto.
  - rewrite lookup_insert_ne by done. eauto.
Qed.
Lemma quiet_update j id r f :
  j_commands j !! id = Some r -> is_Some (rec_completion r) -> rec_state f <> JQueued ->
  quiet j (j <| j_commands := <[id := f]> (j_commands j) |>).
Proof.
  intros Hr Hc Hs. split; [by apply stays_insert|]. intros id' r' Hr' Hn. cbn.
  destruct (decide (id = id')) as [<-|]; [|by rewrite lookup_insert_ne].
  rewrite Hr in Hr'. simplify_eq. destruct Hc. congruence.
Qed.
Lemma quiet_new j id r : j_commands j !! id = None -> quiet j (j <| j_commands := <[id := r]> (j_commands j) |>).
Proof.
  intros Hn. split; intros id' r' Hr'; cbn; (destruct (decide (id = id')) as [<-|];
    [congruence|rewrite lookup_insert_ne by done; eauto]).
Qed.

Lemma insert_queued_quiet c q j : j_commands j !! cmd_id c = None -> quiet j (insert_queued c q j).1.
Proof.
  intros Hn. unfold insert_queued. cbn [fst]. set (j1 := j <| j_sequence := (j_sequence j + 1)%Z |>).
  transitivity j1; [by apply quiet_same|]. by apply (quiet_new j1).
Qed.

Lemma quiet_get_or {B} id e (k : JournalCommandRecord -> JM B) j :
  (forall r, j_commands j !! id = Some r -> decode r = Ok r -> quiet j (k r j).1) ->
  quiet j (jbind (get_or id e) k j).1.
Proof.
  intros Hk. unfold jbind. pose proof (get_or_fst id e j) as Hf.
  destruct (get_or id e j) as [j1 [r|]] eqn:E; simpl in *; subst; [|reflexivity].
  apply get_or_Ok in E as (_ & Hr & Hd). by apply Hk.
Qed.
Lemma quiet_then {A B} (m : JM A) (k : A -> JM B) j :
  quiet j (m j).1 -> (forall a, respects quiet (k a)) -> quiet j (jbind m k j).1.
Proof.
  intros Hm Hk. unfold jbind. destruct (m j) as [j1 [a|e]]; simpl in *; [|done]. etrans; [done|apply Hk].
Qed.

Lemma prepare_quiet c q : respects quiet (prepare c q).
Proof.
  unfold prepare. apply respects_bind; [apply _|apply respects_jread; apply _|]. intros scope.
  destruct (_ || _); [apply respects_jfail; apply _|].
  apply respects_bind; [apply _|apply respects_jlift; apply _|]. intros _ j. unfold jbind at 1, jread.
  destruct (j_commands j !! cmd_id c) as [r|] eqn:E; simpl.
  - apply quiet_get_or. intros r' _ _. by destruct (command_eqb _ _).
  - by apply insert_queued_quiet.
Qed.

Lemma replace_completion_quiet j id r before after :
  j_commands j !! id = Some r -> rec_completion r = Some before ->
  quiet j (replace_completion id before after j).1.
Proof.
  intros Hr Hc. unfold replace_completion, changed_one, jbind, update_command. rewrite Hr.
  destruct (_ && _) eqn:Eg; [|reflexivity]. apply andb_true_iff in Eg as [Es%bool_decide_eq_true _].
  eapply quiet_update; [done|by rewrite Hc|]. simpl. by rewrite Es.
Qed.

Lemma confirm_quiet c o now : respects quiet (confirm_ambiguous_submission c o now).
Proof.
  intros j. unfold confirm_ambiguous_submission. apply quiet_get_or. intros r Hr Hd. unfold jbind at 1, jread.
  destruct (cmd_action c); try reflexivity. destruct (_ || _); [reflexivity|].
  destruct (rec_completion r) as [old|] eqn:Ek; [|reflexivity].
  match goal with |- context [if ?b then jret old else _] => destruct b end; [reflexivity|].
  destruct (negb (bool_decide (rec_state r = JCompleted)) || _); [reflexivity|].
  apply quiet_then; [by eapply replace_completion_quiet|]. intros a. apply respects_jret. apply _.
Qed.

Lemma begin_recovery_quiet c p t : respects quiet (begin_cancellation_recovery c p t).
Proof.
  intros j. unfold begin_cancellation_recovery. apply quiet_get_or. intros r Hr Hd. unfold jbind at 1, jread.
  destruct (cmd_action c); try reflexivity. destruct (_ || _); [reflexivity|].
  destruct (bool_decide (rec_state r = JApplied)); [reflexivity|].
  destruct (rec_completion r); [|reflexivity]. destruct (_ || _); [reflexivity|by apply quiet_same].
Qed.

Lemma finish_recovery_quiet c n k : respects quiet (finish_cancellation_recovery c n k).
Proof.
  intros j. unfold finish_cancellation_recovery. apply quiet_get_or. intros r Hr Hd. unfold jbind at 1, jread.
  destruct (_ || _); [reflexivity|]. unfold jbind at 1.
  pose proof (proj2 (record_attempt_changed (cmd_id c) n k j)) as Hc.
  destruct (changed_one _ _ j) as [j1 [[]|e]]; simpl in *; [|by apply quiet_same].
  transitivity j1; [by apply quiet_same|]. rewrite <- Hc in Hr.
  destruct (bool_decide (rec_state r = JApplied)); [reflexivity|].
  destruct (rec_completion r) as [old|] eqn:Ek; [|reflexivity].
  destruct (negb (bool_decide (rec_state r = JCompleted)) || _); [reflexivity|].
  destruct (cmp_outcome k); try reflexivity.
  apply quiet_then; [by eapply replace_completion_quiet|]. intros a. apply respects_jret. apply _.
Qed.

Lemma persist_applied_quiet rows r : respects quiet (persist_applied rows r).
Proof.
  intros j. unfold persist_applied. apply quiet_get_or. intros rec Hr Hd.
  destruct (negb (bool_decide _)); [reflexivity|].
  destruct (rec_completion rec) as [k|] eqn:Ek; [|reflexivity].
  match goal with |- context [if ?b then jfail _ else _] => destruct b end; [reflexivity|].
  apply quiet_then; [|intros a; apply respects_jret; apply _].
  unfold update_command. rewrite Hr. destruct (bool_decide _); [|reflexivity].
  eapply quiet_update; [done|by rewrite Ek|done].
Qed.

Lemma persist_intent_quiet i : respects quiet (persist_intent i).
Proof.
  unfold persist_intent. apply respects_bind; [apply _|apply respects_jread; apply _|]. intros existing.
  apply respects_bind; [apply _| |].
  - destruct existing as [o|].
    + destruct (negb _); [apply respects_jfail; apply _|apply respects_jret; apply _].
    + intros j. destruct (bool_decide _); [by apply quiet_same|reflexivity].
  - intros _ j. unfold jbind at 1, jread. destruct (j_commands j !! _) as [r|] eqn:E.
    + by destruct (command_eqb _ _).
    + apply quiet_then; [by apply insert_queued_quiet|]. intros a. apply respects_jret. apply _.
Qed.

Lemma persist_row_quiet c : respects quiet (persist_row c).
Proof.
  unfold persist_row. apply respects_bind; [apply _|apply respects_jread; apply _|]. intros existing.
  destruct (match existing with Some _ => _ | None => _ end) as [previous unchanged].
  destruct unchanged; [apply respects_jret; apply _|]. destruct (negb _); [apply respects_jfail; apply _|].
  intros j. by apply quiet_same.
Qed.

Lemma persist_batch_quiet b : respects quiet (persist_execution_batch b).
Proof.
  unfold persist_execution_batch. apply respects_bind; [apply _|apply respects_jread; apply _|].
  intros [|]; [apply respects_jfail; apply _|]. apply respects_transaction; [apply _|].
  repeat (apply respects_bind; [apply _| |intros _]); (apply respects_for; [apply _|intros ?]);
    auto using persist_intent_quiet, persist_row_quiet, persist_applied_quiet.
Qed.

(** ** Results of the journal operations *)

(** The row of a command that has no completion yet. *)
Definition open_row (j : Journal) (id : string) : Prop :=
  exists r, j_commands j !! id = Some r /\ rec_completion r = None.
(** A completion the strategy may see. *)
Definition durable (j : Journal) (k : BrokerCommandCompletion) : Prop :=
  exists r k', j_commands j !! rcpt_id (cmp_receipt k) = Some r /\ rec_completion r = Some k' /\
    (is_ambiguous (cmp_outcome k) = false -> k' = k).

Lemma open_row_quiet j j' id : quiet j j' -> open_row j id -> open_row j' id.
Proof. intros [_ Hl] (r & Hr & Hc). exists r. auto. Qed.

Lemma durable_evolves j j' k : journal_ok j -> evolves j j' -> durable j k -> durable j' k.
Proof.
  intros Hok (_ & _ & Hs) (r & k' & Hr & Hk & Hd). specialize (Hs (rcpt_id (cmp_receipt k))).
  destruct (record_steps_keep _ _ _ r Hs Hr) as (r' & Hr' & (_ & _ & _ & _ & F5) & _).
  { intros _. apply (ro_completion _ _ (Hok _ _ Hr)). by rewrite Hk. }
  destruct (F5 k' Hk) as (_ & _ & k2 & Hk2 & Hd2). exists r', k2. split; [done|]. split; [done|].
  intros Ha. specialize (Hd Ha) as ->. by apply Hd2.
Qed.

Lemma durable_row j id r k :
  journal_ok j -> j_commands j !! id = Some r -> rec_completion r = Some k -> durable j k.
Proof.
  intros Hok Hr Hk. destruct (Hok id r Hr) as [Hid _ Hrc].
  exists r, k. rewrite (Hrc k Hk). simpl. by rewrite Hid.
Qed.

Lemma prepare_Ok c q j j' r :
  journal_ok j -> prepare c q j = (j', Ok r) ->
  j_commands j' !! cmd_id c = Some r /\
  (rec_completion r = None \/ rec_state r = JCompleted \/ rec_state r = JApplied).
Proof.
  intros Hok. unfold prepare. intros Hp. apply jbind_Ok in Hp as (j1 & scope & Hr & Hp).
  unfold jread in Hr. injection Hr as <- <-. destruct (_ || _); [done|].
  apply jbind_Ok in Hp as (j1 & json & Hl & Hp). unfold jlift in Hl.
  destruct (encode c); simplify_eq. apply jbind_Ok in Hp as (j2 & found & Hr & Hp).
  unfold jread in Hr. injection Hr as <- <-.
  destruct (j_commands j1 !! cmd_id c) as [r0|] eqn:E; simpl in Hp.
  - apply jbind_Ok in Hp as (j2 & r1 & Hg & Hp). apply get_or_Ok in Hg as (-> & Hr1 & _).
    destruct (command_eqb _ _); unfold jret, jfail in Hp; [|done]. injection Hp as <- <-. split; [done|].
    rewrite E in Hr1. injection Hr1 as <-. destruct (rec_completion r0) eqn:Ek; [|by left]. right. apply (ro_completion _ _ (Hok _ _ E)). by rewrite Ek.
  - unfold insert_queued in Hp. simplify_eq. cbn. rewrite lookup_insert_eq. auto.
Qed.

Lemma changed_update_Ok id guard f e j j' :
  changed_one (update_command id guard f) e j = (j', Ok ()) ->
  exists r, j_commands j !! id = Some r /\ guard r = true /\
    j' = j <| j_commands := <[id := f r]> (j_commands j) |>.
Proof.
  unfold changed_one, jbind, update_command. destruct (j_commands j !! id) as [r|]; [|done].
  destruct (guard r) eqn:Eg; [|done]. unfold jret. intros [= <-]. eauto.
Qed.

Lemma changed_update_Err id guard f e j j' e' :
  changed_one (update_command id guard f) e j = (j', Err e') -> j' = j.
Proof.
  unfold changed_one, jbind, update_command. destruct (j_commands j !! id) as [r|].
  - destruct (guard r); unfold jret, jfail; naive_solver.
  - unfold jfail. naive_solver.
Qed.

Lemma mark_dispatched_Ok id t j j' :
  journal_ok j -> mark_dispatched id t j = (j', Ok ()) ->
  (exists r, j_commands j !! id = Some r /\ rec_state r = JQueued) /\ stays j j' /\
  (exists r', j_commands j' !! id = Some r' /\ rec_state r' = JDispatching /\
     rec_dispatched_at_us r' = Some t /\ rec_completion r' = None) /\
  (forall id', id' <> id -> j_commands j' !! id' = j_commands j !! id').
Proof.
  intros Hok (r & Hr & Hg%bool_decide_eq_true & ->)%changed_update_Ok. split; [eauto|].
  split; [by apply stays_insert|]. cbn. rewrite lookup_insert_eq.
  split; [|intros id' Hne; by rewrite lookup_insert_ne]. eexists. split; [done|]. split; [done|]. split; [done|].
  simpl. destruct (rec_completion r) eqn:Ek; [|done]. destruct (Hok id r Hr) as [_ Hc _].
  rewrite Hg, Ek in Hc. destruct Hc as [Hc _]. destruct Hc; [by eauto|done..].
Qed.

Lemma defer_Ok id t j j' :
  defer_unpolled_dispatch id t j = (j', Ok ()) ->
  (exists r', j_commands j' !! id = Some r' /\ rec_completion r' = None) /\
  (forall id', id' <> id -> j_commands j' !! id' = j_commands j !! id').
Proof.
  intros (r & Hr & Hg & ->)%changed_update_Ok. cbn. rewrite lookup_insert_eq.
  split; [|intros id' Hne; by rewrite lookup_insert_ne]. eexists. split; [done|]. simpl.
  apply andb_true_iff in Hg as [_ Hg]. unfold is_none, is_some in Hg. by destruct (rec_completion r).
Qed.

Lemma complete_Ok k j j' :
  open_row j (rcpt_id (cmp_receipt k)) -> complete k j = (j', Ok ()) ->
  stays j j' /\ durable j' k.
Proof.
  intros (r & Hr & Hc) Hk. unfold complete in Hk. apply jbind_Ok in Hk as (j1 & r' & Hg & Hk).
  apply get_or_Ok in Hg as (-> & Hr' & _). rewrite Hr in Hr'. simplify_eq. destruct (_ || _); [done|].
  rewrite Hc in Hk. apply changed_update_Ok in Hk as (r & Hr1 & _ & ->). split; [by apply stays_insert|].
  eexists _, k. cbn. rewrite lookup_insert_eq. done.
Qed.

Lemma complete_Err k j j' e : complete k j = (j', Err e) -> j' = j.
Proof.
  unfold complete, jbind at 1. pose proof (get_or_fst (rcpt_id (cmp_receipt k)) (journal_error "completion without intent") j) as Hf.
  destruct (get_or _ _ j) as [j1 [r|]]; simpl in Hf; subst; [|naive_solver].
  destruct (_ || _); [unfold jfail; naive_solver|]. destruct (rec_completion r).
  - destruct (String.eqb _ _); unfold jret, jfail; naive_solver.
  - apply changed_update_Err.
Qed.

Lemma confirm_Ok c o now j j' k :
  journal_ok j -> confirm_ambiguous_submission c o now j = (j', Ok k) -> durable j' k.
Proof.
  intros Hok Hk. pose proof (confirm_tracked c o now j) as He. rewrite Hk in He. simpl in He.
  pose proof (evolves_ok _ _ He Hok) as Hok'. clear He.
  unfold confirm_ambiguous_submission in Hk. apply jbind_Ok in Hk as (j1 & r & Hg & Hk).
  apply get_or_Ok in Hg as (-> & Hr & _). apply jbind_Ok in Hk as (j1 & foreign & Hf & Hk).
  unfold jread in Hf. injection Hf as <- <-. destruct (cmd_action c); try done. destruct (_ || _); [done|].
  destruct (rec_completion r) as [old|] eqn:Ek; [|done].
  match type of Hk with context [if ?b then jret old else _] => destruct b end.
  { unfold jret in Hk. simplify_eq. by eapply durable_row. }
  destruct (_ || _); [done|]. apply jbind_Ok in Hk as (j2 & [] & Hrep & Hk). unfold jret in Hk. simplify_eq.
  apply changed_update_Ok in Hrep as (r' & Hr' & _ & ->).
  eapply (durable_row _ (cmd_id c)); [done|cbn; by rewrite lookup_insert_eq|done].
Qed.

Lemma finish_recovery_Ok c n k j j' k' :
  journal_ok j -> finish_cancellation_recovery c n k j = (j', Ok (Some k')) -> durable j' k'.
Proof.
  intros Hok Hk. pose proof (finish_recovery_tracked c n k j) as He. rewrite Hk in He. simpl in He.
  pose proof (evolves_ok _ _ He Hok) as Hok'. clear He.
  unfold finish_cancellation_recovery in Hk. apply jbind_Ok in Hk as (j1 & r & Hg & Hk).
  apply get_or_Ok in Hg as (-> & Hr & _). apply jbind_Ok in Hk as (j1 & foreign & Hf & Hk).
  unfold jread in Hf. injection Hf as <- <-. destruct (_ || _); [done|].
  apply jbind_Ok in Hk as (j1 & [] & Hch & Hk).
  pose proof (proj2 (record_attempt_changed (cmd_id c) n k j)) as Hc. rewrite Hch in Hc. simpl in Hc.
  rewrite <- Hc in Hr. destruct (bool_decide (rec_state r = JApplied)); [done|].
  destruct (rec_completion r) as [old|] eqn:Ek; [|done]. destruct (_ || _); [done|].
  destruct (cmp_outcome k).
  2:{ apply jbind_Ok in Hk as (j2 & [] & Hrep & Hk). unfold jret in Hk. simplify_eq.
      apply changed_update_Ok in Hrep as (r' & Hr' & _ & ->).
      eapply (durable_row _ (cmd_id c)); [done|cbn; by rewrite lookup_insert_eq|done]. }
  all: unfold jret in Hk; simplify_eq; by eapply durable_row.
Qed.

Lemma begin_recovery_Ok c p t j j' n :
  begin_cancellation_recovery c p t j = (j', Ok (Some n)) -> exists id, cmd_action c = ActCancel id.
Proof.
  unfold begin_cancellation_recovery. intros Hk. apply jbind_Ok in Hk as (j1 & r & Hg & Hk).
  apply jbind_Ok in Hk as (j2 & foreign & Hf & Hk). destruct (cmd_action c); try done. eauto.
Qed.

(** ** The worker and its broker calls *)
Record Call := mkCall { call_command : BrokerCommand; call_retry : bool }.
(** The calls for one command, guarded retries of a cancellation apart. *)
Definition is_call_of (id : string) (c : Call) : bool :=
  String.eqb (cmd_id (call_command c)) id && negb (call_retry c).
Definition calls_of (id : string) (calls : list Call) : nat :=
  length (List.filter (is_call_of id) calls).
Definition is_cancel (q : QueuedCommand) : Prop := exists id, cmd_action (qc_command q) = ActCancel id.

Definition System : Type := Worker * list Call.
Inductive worker_step : System -> System -> Prop :=
(* the strategy *)
| WsStopEntries w l : worker_step (w, l) (stop_entries w, l)
| WsCancelPending w l id : worker_step (w, l) (sender_cancel_pending_entry w id, l)
| WsRelease w l id : worker_step (w, l) (release_entry_identity w id, l)
| WsDeadline w l id d : worker_step (w, l) (set_entry_deadline w id d, l)
| WsRequestStop w l : worker_step (w, l) (sender_request_execution_stop w, l)
| WsGuard w l : worker_step (w, l) (w <| w_gate := (w_gate w) <| g_snapshots := true |> |>, l)
| WsEnqueue w l c prepared now : worker_step (w, l) ((try_enqueue_inner w c prepared now).1, l)
| WsReceive w l e rest : w_events w = e :: rest -> worker_step (w, l) (w <| w_events := rest |>, l)
(* the task *)
| WsSelect w w' l source :
    w_stage w = Selecting -> select_command w source = Some w' -> worker_step (w, l) (w', l)
| WsPrepare w l q : w_stage w = Preparing q -> worker_step (w, l) (prepare_command w q, l)
| WsReplay w l q r k answer read now_us now :
    w_stage w = Replaying q r k -> worker_step (w, l) (replay_command w q r k answer read now_us now, l)
| WsPreflight w l q r p closed now answer :
    w_stage w = Deciding q r p -> worker_step (w, l) (preflight_command w q r p closed now answer, l)
| WsDecide w l q r p m env :
    w_stage w = Preflighted q r p m -> worker_step (w, l) (decide_command w q r p m env, l)
| WsPoll w w' l q r m at_us retry env called :
    w_stage w = Dispatched q r m at_us retry -> poll_command w q r m at_us retry env = (w', called) ->
    worker_step (w, l) (w', if called then l ++ [mkCall (qc_command q) (is_some retry)] else l)
| WsAnswer w l q r at_us retry answer :
    w_stage w = InFlight q r at_us retry -> worker_step (w, l) (answer_command w q r at_us retry answer, l)
| WsFinish w l q r d retry o answer now_us now :
    w_stage w = Finishing q r d retry o ->
    worker_step (w, l) (finish_command w q r d retry o answer now_us now, l)
| WsDeliver w w' l e fatal open now_us :
    w_stage w = Delivering e fatal -> deliver_event w e fatal open now_us = Some w' ->
    worker_step (w, l) (w', l)
| WsReconcile w l answer now_us now :
    w_stage w = Selecting -> worker_step (w, l) (reconcile_due w answer now_us now, l)
| WsClosed w l now_us : w_stage w = Selecting -> worker_step (w, l) (shut_down w now_us, l)
| WsCheckpoint w l b : worker_step (w, l) ((serve_checkpoint w b).1, l)
| WsCompleteStop w l : worker_step (w, l) ((serve_complete_stop w).1, l)
| WsServeStop w l now_us : worker_step (w, l) (serve_stop w now_us, l)
(* a crash or a failing database, then a new process *)
| WsCrash w l : worker_step (w, l) (restart_worker w, l).

Definition stage_ok (j : Journal) (l : list Call) (s : Stage) : Prop :=
  match s with
  | Replaying q r k => durable j k /\ (rec_state r = JCompleted \/ rec_state r = JApplied)
  | Deciding q _ None | Preflighted q _ None _ | InFlight q _ _ None | Finishing q _ _ None _ =>
      open_row j (cmd_id (qc_command q))
  | Deciding q r (Some _) => is_cancel q /\ rec_state r <> JDispatching
  | Preflighted q r (Some _) m => is_cancel q /\ rec_state r <> JDispatching /\ m = MarginUnsupported
  | Dispatched q _ _ _ None =>
      (exists r, j_commands j !! cmd_id (qc_command q) = Some r /\ rec_state r = JDispatching /\
         rec_completion r = None) /\ calls_of (cmd_id (qc_command q)) l = 0
  | Dispatched q _ _ _ (Some _) | InFlight q _ _ (Some _) => is_cancel q
  | Delivering (CompletionEvent k) _ => durable j k
  | _ => True
  end.

Record winv (w : Worker) (l : list Call) : Prop := {
  wi_journal : journal_ok (w_journal w);
  wi_called id : calls_of id l <> 0 ->
    exists r, j_commands (w_journal w) !! id = Some r /\ rec_state r <> JQueued;
  wi_once id : calls_of id l <= 1;
  wi_retry c : c ∈ l -> call_retry c = true -> exists id, cmd_action (call_command c) = ActCancel id;
  wi_stage : stage_ok (w_journal w) l (w_stage w);
  wi_events k : CompletionEvent k ∈ w_events w -> durable (w_journal w) k;
  wi_phase : el_phase (j_lifecycle (w_journal w)) <> PhaseRunning -> g_stopped (w_gate w) = true;
  wi_requested : sf_requested (w_stop w) = true -> g_stopped (w_gate w) = true
}.

Lemma stage_ok_quiet j j' l s :
  journal_ok j -> evolves j j' -> quiet j j' -> stage_ok j l s -> stage_ok j' l s.
Proof.
  intros Hok He Hq Hs.
  destruct s as [| | |q r [p|]|q r [p|] m|q r m t [n|]|q r t [n|]|q r d [n|] o|[k|] f|]; simpl in *;
    eauto using open_row_quiet, durable_evolves.
  - destruct Hs as [? ?]. eauto using durable_evolves.
  - destruct Hs as [(r' & Hr & Hd & Hc) Hz]. split; [|done]. exists r'. split; [|done]. by apply Hq.
Qed.

(** A step that changes the journal by [evolves] and keeps the calls. *)
Lemma winv_update w w' l :
  winv w l -> evolves (w_journal w) (w_journal w') -> stays (w_journal w) (w_journal w') ->
  (el_phase (j_lifecycle (w_journal w')) = el_phase (j_lifecycle (w_journal w)) \/ g_stopped (w_gate w') = true) ->
  (g_stopped (w_gate w) = true -> g_stopped (w_gate w') = true) ->
  (sf_requested (w_stop w') = true -> sf_requested (w_stop w) = true \/ g_stopped (w_gate w') = true) ->
  (forall k, CompletionEvent k ∈ w_events w' -> CompletionEvent k ∈ w_events w \/ durable (w_journal w') k) ->
  stage_ok (w_journal w') l (w_stage w') -> winv w' l.
Proof.
  intros [Hj Hc Ho Hr Hst He Hp Hq] Hev Hstays Hph Hg Hrq Hevs Hstage.
  split; [by eapply evolves_ok| |done|done|done| | |].
  - intros id Hid. destruct (Hc id Hid) as (r & Hl & Hs). by eapply Hstays.
  - intros k Hk. destruct (Hevs k Hk) as [Hk'|]; [|done]. eapply durable_evolves; eauto.
  - intros Hn. destruct Hph as [Hph|]; [|done]. apply Hg, Hp. by rewrite <- Hph.
  - intros Hs. destruct (Hrq Hs) as [?|]; [|done]. auto.
Qed.

Definition calm (j j' : Journal) : Prop := evolves j j' /\ stays j j' /\ same_lifecycle j j'.

Lemma calm_refl j : calm j j.
Proof. split; [reflexivity|]. split; reflexivity. Qed.
Lemma calm_trans j1 j2 j3 : calm j1 j2 -> calm j2 j3 -> calm j1 j3.
Proof. intros (? & ? & ?) (? & ? & ?). split; [by etrans|]. split; by etrans. Qed.

Lemma winv_next w w' l :
  winv w l -> calm (w_journal w) (w_journal w') -> w_events w' = w_events w -> w_stop w' = w_stop w ->
  (g_stopped (w_gate w) = true -> g_stopped (w_gate w') = true) ->
  stage_ok (w_journal w') l (w_stage w') -> winv w' l.
Proof.
  intros Hi (He & Hs & Hl & _) Hev Hst Hg Hstage. eapply winv_update; eauto.
  - left. by rewrite Hl.
  - rewrite Hst. auto.
  - rewrite Hev. auto.
Qed.

Lemma prepare_calm c q j : calm j (prepare c q j).1.
Proof. split; [apply prepare_tracked|]. split; [apply (prepare_quiet c q j)|apply prepare_lifecycle]. Qed.
Lemma confirm_calm c o now j : calm j (confirm_ambiguous_submission c o now j).1.
Proof. split; [apply confirm_tracked|]. split; [apply (confirm_quiet c o now j)|apply confirm_lifecycle]. Qed.
Lemma begin_recovery_calm c p t j : calm j (begin_cancellation_recovery c p t j).1.
Proof. split; [apply begin_recovery_tracked|]. split; [apply (begin_recovery_quiet c p t j)|apply begin_recovery_lifecycle]. Qed.
Lemma finish_recovery_calm c n k j : calm j (finish_cancellation_recovery c n k j).1.
Proof. split; [apply finish_recovery_tracked|]. split; [apply (finish_recovery_quiet c n k j)|apply finish_recovery_lifecycle]. Qed.

Lemma reconcile_Ok c k answer now j :
  journal_ok j -> durable j k ->
  calm j (reconcile_ambiguous_submission c k answer now j).1 /\
  forall j' k', reconcile_ambiguous_submission c k answer now j = (j', Ok k') -> durable j' k'.
Proof.
  intros Hok Hd. unfold reconcile_ambiguous_submission.
  destruct (negb _); [split; [apply calm_refl|unfold jret; naive_solver]|].
  destruct (cmd_action c); try (split; [apply calm_refl|unfold jret; naive_solver]).
  destruct answer as [[]|]; try (split; [apply calm_refl|unfold jret; naive_solver]).
  split; [apply confirm_calm|]. intros j' k'. by apply confirm_Ok.
Qed.

Lemma fence_persist_spec f now j j' f' r :
  fence_persist f now j = (j', f', r) ->
  evolves j j' /\ quiet j j' /\ sf_requested f' = sf_requested f /\
  (j_lifecycle j' = j_lifecycle j \/ sf_requested f = true).
Proof.
  unfold fence_persist. destruct (fence_pending f) eqn:Ep; simpl.
  2:{ intros [= <- <- <-]. split; [reflexivity|]. split; [reflexivity|]. auto. }
  apply andb_true_iff in Ep as [Er _]. destruct (fence_error f).
  { intros [= <- <- <-]. split; [reflexivity|]. split; [reflexivity|]. auto. }
  pose proof (request_stop_tracked now j) as Ht.
  assert (Hc : j_commands (request_execution_stop now j).1 = j_commands j).
  { unfold request_execution_stop. destruct (negb _); [done|]. by destruct (_ && _). }
  destruct (request_execution_stop now j) as [j1 [|]]; simpl in *; intros [= <- <- <-];
    (split; [done|]); (split; [by apply quiet_same|]); auto.
Qed.

(** The steps that save a stop. *)
Lemma winv_fence w l now j f r s g :
  winv w l -> fence_persist (w_stop w) now (w_journal w) = (j, f, r) ->
  g_stopped g = g_stopped (w_gate w) ->
  (s = w_stage w \/ stage_ok j l s) ->
  winv (w <| w_gate := g |> <| w_journal := j |> <| w_stop := f |> <| w_stage := s |>) l.
Proof.
  intros Hi Hf Hg Hs. destruct (fence_persist_spec _ _ _ _ _ _ Hf) as (He & Hq & Hr & Hl).
  apply (winv_update w); [exact Hi|exact He|apply Hq|..]; cbn.
  - destruct Hl as [->|Hl]; [by left|]. right. rewrite Hg. by apply (wi_requested w l Hi).
  - by rewrite Hg.
  - rewrite Hr. auto.
  - auto.
  - destruct Hs as [->|Hs]; [|done]. eapply stage_ok_quiet; [apply Hi|done|done|apply Hi].
Qed.

Lemma winv_stop w l :
  winv w l -> winv (w <| w_gate := (w_gate w) <| g_stopped := true |> |>
                      <| w_stop := fence_request (w_stop w) |>) l.
Proof.
  intros Hi. eapply winv_update; eauto; cbn; auto; try reflexivity. apply Hi.
Qed.
Lemma winv_stop_entries w l : winv w l -> winv (stop_entries w) l.
Proof. intros Hi. eapply winv_next; eauto using calm_refl. apply Hi. Qed.

Lemma account_changed_winv w l now m : winv w l -> winv (account_changed w now m) l.
Proof.
  intros Hi%winv_stop. unfold account_changed. set (w1 := w <| w_gate := _ |> <| w_stop := _ |>) in *.
  destruct (fence_persist (w_stop w1) now (w_journal w1)) as [[j f] r] eqn:Ef.
  destruct r as [[]|e]; apply (winv_fence w1 l now j f _ _ (w_gate w1) Hi Ef); auto; by right.
Qed.
Lemma shut_down_winv w l now : winv w l -> winv (shut_down w now) l.
Proof.
  intros Hi%winv_stop_entries. unfold shut_down. set (w1 := stop_entries w) in *.
  destruct (fence_persist (w_stop w1) now (w_journal w1)) as [[j f] r] eqn:Ef.
  destruct r as [[]|e]; apply (winv_fence w1 l now j f _ _ (w_gate w1) Hi Ef); auto; by right.
Qed.
Lemma serve_stop_winv w l now : winv w l -> winv (serve_stop w now) l.
Proof.
  intros Hi. unfold serve_stop. destruct (fence_persist (w_stop w) now (w_journal w)) as [[j f] r] eqn:Ef.
  assert (Hk : winv ((with_journal w j) <| w_stop := f |>) l)
    by (apply (winv_fence w l now j f r (w_stage w) (w_gate w) Hi Ef); auto).
  destruct r as [[]|e]; [done|].
  assert (Hh : winv (at_stage ((with_journal w j) <| w_stop := f |>) (Halted (Some e))) l)
    by (apply (winv_fence w l now j f _ _ (w_gate w) Hi Ef); auto; by right).
  destruct (w_stage _); done.
Qed.

Lemma park_winv w l q : winv w l -> winv (park w q) l.
Proof.
  intros Hi. unfold park. destruct (is_teardown _); (eapply winv_next; eauto using calm_refl; exact I).
Qed.

Ltac next_stage Hi := eapply (winv_next _ _ _ Hi); cbn; eauto using calm_refl.

Lemma halt_winv w l j e : winv w l -> calm (w_journal w) j -> winv (at_stage (with_journal w j) (Halted e)) l.
Proof. intros Hi Hc. next_stage Hi. Qed.

Lemma select_winv w w' l source :
  winv w l -> select_command w source = Some w' -> winv w' l.
Proof.
  intros Hi Hs. destruct source; simpl in Hs; repeat (split_match_in Hs; try done); simplify_eq; next_stage Hi.
Qed.

Lemma prepare_winv w l q : winv w l -> winv (prepare_command w q) l.
Proof.
  intros Hi. unfold prepare_command. pose proof (prepare_calm (qc_command q) (qc_queued_at_us q) (w_journal w)) as Hc.
  destruct (prepare _ _ _) as [j [r|e]] eqn:Ep; simpl in Hc; [|next_stage Hi].
  destruct (prepare_Ok _ _ _ _ _ (wi_journal w l Hi) Ep) as [Hr Hst].
  pose proof (evolves_ok _ _ (proj1 Hc) (wi_journal w l Hi)) as Hok.
  destruct (rec_completion r) as [k|] eqn:Ek; next_stage Hi.
  - split; [by eapply durable_row|]. destruct Hst as [|]; [congruence|done].
  - exists r. done.
Qed.

Lemma schedule_if_frame w c k now :
  w_journal (schedule_if w c k now) = w_journal w /\ w_gate (schedule_if w c k now) = w_gate w /\
  w_stop (schedule_if w c k now) = w_stop w /\ w_events (schedule_if w c k now) = w_events w.
Proof. unfold schedule_if. by destruct (may_reconcile _ _ _). Qed.

Lemma deliver_stage_winv w w1 l k c now :
  winv w l -> calm (w_journal w) (w_journal w1) -> w_gate w1 = w_gate w -> w_stop w1 = w_stop w ->
  w_events w1 = w_events w -> durable (w_journal w1) k ->
  winv (at_stage (schedule_if w1 c k now) (Delivering (CompletionEvent k) None)) l.
Proof.
  intros Hi Hc Hg Hs He Hd. destruct (schedule_if_frame w1 c k now) as (Fj & Fg & Fs & Fe).
  eapply winv_next; [exact Hi|..]; cbn; rewrite ?Fj, ?Fg, ?Fs, ?Fe; rewrite ?Hg, ?Hs, ?He; auto.
Qed.

Lemma replay_winv w l q r k answer read now_us now :
  w_stage w = Replaying q r k -> winv w l -> winv (replay_command w q r k answer read now_us now) l.
Proof.
  intros Est Hi. pose proof (wi_stage w l Hi) as Hs. rewrite Est in Hs. destruct Hs as [Hd Hst].
  unfold replay_command.
  destruct (reconcile_Ok (qc_command q) k answer now_us (w_journal w) (wi_journal w l Hi) Hd) as [Hc Hok].
  destruct (reconcile_ambiguous_submission _ _ _ _ _) as [j [k'|e]] eqn:Er; simpl in Hc; [|by apply halt_winv].
  specialize (Hok j k' eq_refl).
  match goal with |- context [match ?x with None => _ | Some _ => _ end] => destruct x as [p|] eqn:Ep end.
  - next_stage Hi. destruct (cmd_action (qc_command q)) eqn:Ea; try done. split; [by exists order_id|].
    destruct Hst as [->| ->]; done.
  - by apply (deliver_stage_winv w (with_journal w j)).
Qed.

Lemma preflight_winv w l q r p closed now answer :
  w_stage w = Deciding q r p -> winv w l -> winv (preflight_command w q r p closed now answer) l.
Proof.
  intros Est Hi. pose proof (wi_stage w l Hi) as Hs. rewrite Est in Hs. unfold preflight_command.
  set (w1 := if closed then stop_entries w else w).
  assert (Hi1 : winv w1 l) by (unfold w1; destruct closed; [by apply winv_stop_entries|done]).
  assert (Hj : w_journal w1 = w_journal w) by (unfold w1; by destruct closed).
  next_stage Hi1. rewrite Hj. destruct p as [p|]; simpl in *; [|done]. destruct Hs as [[id Hid] Hst].
  split; [by exists id|]. split; [done|]. unfold margin_preflight. rewrite Hid. simpl.
  by rewrite andb_false_r.
Qed.

Lemma dispatch_winv w l q r m p t :
  winv w l -> match p with Some _ => is_cancel q | None => open_row (w_journal w) (cmd_id (qc_command q)) end ->
  winv (dispatch_command w q r m p t) l.
Proof.
  intros Hi Hp. unfold dispatch_command. destruct p as [p|].
  - pose proof (begin_recovery_calm (qc_command q) p t (w_journal w)) as Hc.
    destruct (begin_cancellation_recovery _ _ _ _) as [j [[n|]|e]]; simpl in Hc;
      [next_stage Hi|next_stage Hi|by apply halt_winv].
  - pose proof (mark_dispatched_tracked (cmd_id (qc_command q)) t (w_journal w)) as He.
    pose proof (dispatch_lifecycle (cmd_id (qc_command q)) t (w_journal w)) as Hl.
    destruct (mark_dispatched _ _ _) as [j [[]|e]] eqn:Em; simpl in He, Hl.
    2:{ apply halt_winv; [done|]. assert (j = w_journal w) as ->; [|apply calm_refl].
        by apply changed_update_Err in Em. }
    destruct (mark_dispatched_Ok _ _ _ _ (wi_journal w l Hi) Em) as ((r0 & Hr0 & Hq0) & Hst & (r' & Hr' & Hd' & _ & Hc') & _).
    eapply (winv_next _ _ _ Hi); cbn; auto; [by split|]. split; [by exists r'|].
    destruct (calls_of (cmd_id (qc_command q)) l) eqn:Ec; [done|].
    destruct (wi_called w l Hi (cmd_id (qc_command q))) as (r1 & Hr1 & Hn1); [by rewrite Ec|]. congruence.
Qed.

Lemma lane_lost_winv w l q a : winv w l -> winv (lane_lost w q a) l.
Proof.
  intros Hi. destruct a; simpl; try (by apply park_winv).
  - by apply park_winv, winv_stop_entries.
  - destruct (w_parked_control w), (w_controls w); try (by apply park_winv). apply park_winv.
    eapply (winv_next _ _ _ Hi); cbn; auto using calm_refl. apply Hi.
  - next_stage Hi.
Qed.

Lemma decide_winv w l q r p m env :
  w_stage w = Preflighted q r p m -> winv w l -> winv (decide_command w q r p m env) l.
Proof.
  intros Est Hi. pose proof (wi_stage w l Hi) as Hs. rewrite Est in Hs. unfold decide_command.
  assert (Hfin : forall o, p = None -> winv (at_stage w (Finishing q r (rec_dispatched_at_us r) None o)) l).
  { intros o ->. next_stage Hi. }
  assert (Hgo : winv (match account_fresh w env with
                      | Err AccountChanged => account_changed w (de_dispatch_us env)
                          "broker account changed; mutation dispatch refused"
                      | Err _ => park w q
                      | Ok _ => match de_lane env with
                                | LaneGranted => dispatch_command w q r m p (de_dispatch_us env)
                                | lost => lane_lost w q lost
                                end
                      end) l).
  { destruct (account_fresh w env) as [[]|[]]; auto using park_winv, account_changed_winv.
    destruct (de_lane env); auto using lane_lost_winv. apply dispatch_winv; [done|].
    destruct p; simpl in Hs; [by destruct Hs|done]. }
  destruct p as [p|].
  - destruct Hs as ([id Hid] & Hst & ->). rewrite bool_decide_eq_false_2 by done. rewrite Hid. exact Hgo.
  - destruct (bool_decide _); [auto|]. destruct (_ && _); [auto|]. destruct m; auto.
Qed.

Lemma calls_of_snoc id l c : calls_of id (l ++ [c]) = calls_of id l + (if is_call_of id c then 1 else 0).
Proof. unfold calls_of. rewrite List.filter_app, length_app. simpl. by destruct (is_call_of id c). Qed.

(** A deferred dispatch was never called. *)
Lemma deferred_winv w l q r m t j s :
  w_stage w = Dispatched q r m t None -> winv w l ->
  defer_unpolled_dispatch (cmd_id (qc_command q)) t (w_journal w) = (j, Ok ()) ->
  (open_row j (cmd_id (qc_command q)) -> stage_ok j l s) -> winv (at_stage (with_journal w j) s) l.
Proof.
  intros Est Hi Hd Hs. destruct Hi as [Hj Hc Ho Hr Hst He Hp Hq]. rewrite Est in Hst. destruct Hst as [_ Hz].
  pose proof (defer_tracked (cmd_id (qc_command q)) t (w_journal w)) as Hev.
  pose proof (defer_lifecycle (cmd_id (qc_command q)) t (w_journal w)) as [Hl _].
  rewrite Hd in Hev, Hl. simpl in Hev, Hl. destruct (defer_Ok _ _ _ _ Hd) as [(r' & Hr' & Hc') Hother].
  split; cbn; try done.
  - by eapply evolves_ok.
  - intros id Hid. rewrite Hother by (intros ->; lia). by apply Hc.
  - apply Hs. by exists r'.
  - intros k Hk. eapply durable_evolves; eauto.
  - by rewrite Hl.
Qed.

Lemma poll_winv w w' l q r m t n env called :
  w_stage w = Dispatched q r m t n -> winv w l -> poll_command w q r m t n env = (w', called) ->
  winv w' (if called then l ++ [mkCall (qc_command q) (is_some n)] else l).
Proof.
  intros Est Hi Hp. unfold poll_command in Hp. pose proof (wi_stage w l Hi) as Hs. rewrite Est in Hs.
  assert (Hdefer : forall next,
            (forall w0, winv w0 l -> winv (next w0) l) ->
            (forall w1 s, next (at_stage w1 s) = next w1) -> winv (defer_dispatch w q t n next) l).
  { intros next Hn Hsame. unfold defer_dispatch. destruct n as [n|]; [by apply Hn|].
    destruct (defer_unpolled_dispatch _ _ _) as [j [[]|e]] eqn:Ed.
    - rewrite <- (Hsame _ Selecting). apply Hn. by eapply deferred_winv.
    - apply changed_update_Err in Ed as ->. next_stage Hi. }
  destruct (first_poll _ _ _ _) as [|o|reason] eqn:Ef; injection Hp as <- <-.
  - destruct Hi as [Hj Hc Ho Hr Hst He Hp Hq]. destruct n as [n|]; simpl in *.
    + assert (Hz : forall id, calls_of id (l ++ [mkCall (qc_command q) true]) = calls_of id l).
      { intros id. rewrite calls_of_snoc. unfold is_call_of. simpl. rewrite andb_false_r. lia. }
      split; cbn; try done; try (intros id; rewrite Hz; auto).
      intros c [Hc'| ->%list_elem_of_singleton]%elem_of_app; [by apply Hr|by intros _].
    + destruct Hs as [(r' & Hr' & Hd' & Hc') Hz]. split; cbn; try done.
      * intros id. rewrite calls_of_snoc. unfold is_call_of. simpl. rewrite andb_true_r.
        destruct (String.eqb_spec (cmd_id (qc_command q)) id) as [<-|]; [|rewrite Nat.add_0_r; apply Hc].
        intros _. exists r'. by rewrite Hd'.
      * intros id. rewrite calls_of_snoc. unfold is_call_of. simpl. rewrite andb_true_r.
        destruct (String.eqb_spec (cmd_id (qc_command q)) id) as [<-|]; [lia|rewrite Nat.add_0_r; apply Ho].
      * intros c [Hin| ->%list_elem_of_singleton]%elem_of_app; [by apply Hr|done].
      * by exists r'.
  - unfold defer_dispatch. destruct n as [n|]; [next_stage Hi|].
    destruct (defer_unpolled_dispatch _ _ _) as [j [[]|e]] eqn:Ed.
    + by eapply deferred_winv.
    + apply changed_update_Err in Ed as ->. next_stage Hi.
  - apply Hdefer.
    + intros w0 Hi0. destruct (bool_decide _); [by apply account_changed_winv|by apply park_winv].
    + intros w1 s. destruct (bool_decide _); [unfold account_changed|unfold park].
      * change (w_journal (at_stage w1 s)) with (w_journal w1). cbn.
        by destruct (fence_persist _ _ _) as [[? ?] []].
      * by destruct (is_teardown _).
Qed.

Lemma finish_winv w l q r d n o answer now_us now :
  w_stage w = Finishing q r d n o -> winv w l -> winv (finish_command w q r d n o answer now_us now) l.
Proof.
  intros Est Hi. pose proof (wi_stage w l Hi) as Hs. rewrite Est in Hs. unfold finish_command.
  set (k := mkCompletion (receipt (qc_command q)) _ _ _ _).
  assert (Hdeliver : forall w1 k1, calm (w_journal w) (w_journal w1) -> w_gate w1 = w_gate w ->
            w_stop w1 = w_stop w -> w_events w1 = w_events w -> durable (w_journal w1) k1 ->
            winv (match reconcile_ambiguous_submission (qc_command q) k1 answer now_us (w_journal w1) with
                  | (j, Err error) => at_stage (with_journal w1 j) (Halted (Some error))
                  | (j, Ok completion) => at_stage (schedule_if (with_journal w1 j) (qc_command q) completion now)
                                            (Delivering (CompletionEvent completion) None)
                  end) l).
  { intros w1 k1 Hc Hg Hst He Hd.
    pose proof (evolves_ok _ _ (proj1 Hc) (wi_journal w l Hi)) as Hok.
    destruct (reconcile_Ok (qc_command q) k1 answer now_us (w_journal w1) Hok Hd) as [Hc1 Hd1].
    destruct (reconcile_ambiguous_submission _ _ _ _ _) as [j [k2|e]]; simpl in Hc1.
    - apply (deliver_stage_winv w (with_journal w1 j)); auto. by eapply calm_trans.
    - eapply (winv_next w); [exact Hi|..]; cbn; rewrite ?Hg, ?Hst, ?He; auto. by eapply calm_trans. }
  destruct n as [n|].
  - pose proof (finish_recovery_calm (qc_command q) n k (w_journal w)) as Hc.
    destruct (finish_cancellation_recovery _ _ _ _) as [j [[k1|]|e]] eqn:Ef; simpl in Hc;
      [|next_stage Hi|by apply halt_winv].
    pose proof (finish_recovery_Ok _ _ _ _ _ _ (wi_journal w l Hi) Ef) as Hd.
    destruct (is_ambiguous (cmp_outcome k1)); by apply Hdeliver.
  - pose proof (complete_tracked k (w_journal w)) as He. pose proof (complete_lifecycle k (w_journal w)) as Hl.
    destruct (complete k (w_journal w)) as [j [[]|e]] eqn:Ec; simpl in He, Hl.
    + destruct (complete_Ok k _ _ Hs Ec) as [Hst Hd]. by apply Hdeliver.
    + apply halt_winv; [done|]. assert (j = w_journal w) as ->; [|apply calm_refl].
      by apply complete_Err in Ec.
Qed.

Lemma deliver_winv w w' l e fatal op now :
  w_stage w = Delivering e fatal -> winv w l -> deliver_event w e fatal op now = Some w' -> winv w' l.
Proof.
  intros Est Hi Hd. pose proof (wi_stage w l Hi) as Hs. rewrite Est in Hs. unfold deliver_event in Hd.
  destruct op.
  - destruct (_ <=? _); [done|]. injection Hd as <-.
    apply (winv_update w); cbn; auto; try reflexivity.
    + intros k [Hk|Hk%list_elem_of_singleton]%elem_of_app; [by left|]. subst. by right.
    + by destruct fatal.
  - destruct e; injection Hd as <-; [by apply shut_down_winv|]. next_stage Hi. by destruct fatal.
Qed.

Lemma reconcile_due_winv w l answer now_us now :
  w_stage w = Selecting -> winv w l -> winv (reconcile_due w answer now_us now) l.
Proof.
  intros Est Hi. unfold reconcile_due. destruct (take_due_command_reconciliation _ _) as [[item rest]|]; [|done].
  set (w1 := w <| w_reconciliations := rest |>).
  assert (Hi1 : winv w1 l) by (next_stage Hi; by rewrite Est).
  assert (Hst : stage_ok (w_journal w1) l (w_stage w1)) by apply Hi1.
  destruct (get _ _) as [j0 [saved|e]]; [|next_stage Hi1].
  destruct (negb (still_ambiguous saved)); [next_stage Hi1|].
  destruct (cmd_action (rn_command item)); try done.
  - destruct answer as [[]|]; [done|next_stage Hi1| |next_stage Hi1].
    pose proof (confirm_calm (rn_command item) order now_us (w_journal w1)) as Hc.
    destruct (confirm_ambiguous_submission _ _ _ _) as [j [k|e]] eqn:Ec; simpl in Hc; [|by apply halt_winv].
    next_stage Hi1. by apply (confirm_Ok _ _ _ _ _ _ (wi_journal _ _ Hi1) Ec).
  - destruct (w_parked_control w1), saved; next_stage Hi1.
Qed.

Lemma checkpoint_winv w l b : winv w l -> winv (serve_checkpoint w b).1 l.
Proof.
  intros Hi. unfold serve_checkpoint. pose proof (persist_batch_tracked b (w_journal w)) as He.
  pose proof (persist_batch_quiet b (w_journal w)) as Hq. pose proof (persist_lifecycle b (w_journal w)) as Hl.
  destruct (persist_execution_batch b (w_journal w)) as [j r]; simpl in *.
  eapply (winv_next _ _ _ Hi); cbn; auto; [split; [done|split; [apply Hq|done]]|].
  eapply stage_ok_quiet; [apply Hi|done|done|apply Hi].
Qed.

Lemma complete_stop_winv w l : winv w l -> winv (serve_complete_stop w).1 l.
Proof.
  intros Hi. unfold serve_complete_stop. pose proof (complete_stop_tracked (w_journal w)) as He.
  assert (Hc : j_commands (complete_execution_stop (w_journal w)).1 = j_commands (w_journal w) /\
            (j_lifecycle (complete_execution_stop (w_journal w)).1 = j_lifecycle (w_journal w) \/
             el_phase (j_lifecycle (w_journal w)) <> PhaseRunning)).
  { unfold complete_execution_stop. destruct (bool_decide _) eqn:E; [by auto|]. apply bool_decide_eq_false in E.
    destruct (negb _); [by auto|]. destruct (_ && _); by auto. }
  destruct (complete_execution_stop (w_journal w)) as [j r]; simpl in *. destruct Hc as [Hc Hp].
  apply (winv_update w); cbn; auto.
  - by apply quiet_same.
  - destruct Hp as [->|Hp]; [by left|]. right. by apply (wi_phase w l Hi).
  - eapply stage_ok_quiet; [apply Hi|done|by apply quiet_same|apply Hi].
Qed.

Lemma restart_winv w l : winv w l -> winv (restart_worker w) l.
Proof.
  intros Hi. unfold restart_worker, start_worker. pose proof (begin_epoch_tracked (w_journal w)) as He.
  assert (Hc : j_commands (begin_execution_epoch (w_journal w)).1 = j_commands (w_journal w)).
  { unfold begin_execution_epoch. destruct (negb _); [done|]. destruct (_ <? _)%Z; [done|].
    destruct (negb _); [done|]. by destruct (_ && _). }
  destruct (begin_execution_epoch (w_journal w)) as [j r]; simpl in *. destruct Hi as [Hj Hcl Ho Hr Hst Hev Hp Hq].
  split; cbn; try done.
  - by eapply evolves_ok.
  - by rewrite Hc.
  - intros k Hk. by apply elem_of_nil in Hk.
  - intros Hn. by rewrite bool_decide_eq_false_2.
Qed.

Lemma worker_step_winv s s' : worker_step s s' -> winv s.1 s.2 -> winv s'.1 s'.2.
Proof.
  intros Hs Hi. destruct Hs; simpl in *;
    eauto using winv_stop_entries, winv_stop, select_winv, prepare_winv, replay_winv, preflight_winv,
      decide_winv, poll_winv, finish_winv, deliver_winv, reconcile_due_winv, shut_down_winv,
      checkpoint_winv, complete_stop_winv, serve_stop_winv, restart_winv.
  - eapply (winv_next _ _ _ Hi); cbn; auto using calm_refl. apply Hi.
  - eapply (winv_next _ _ _ Hi); cbn; auto using calm_refl. apply Hi.
  - eapply (winv_next _ _ _ Hi); cbn; auto using calm_refl. apply Hi.
  - eapply (winv_next _ _ _ Hi); cbn; auto using calm_refl. apply Hi.
  - unfold try_enqueue_inner. repeat (split_match; simpl; try done);
      (eapply (winv_next _ _ _ Hi); cbn; auto using calm_refl; apply Hi).
  - apply (winv_update w); cbn; auto; try reflexivity; [|apply Hi].
    intros k Hk. left. rewrite H3. by right.
  - pose proof (wi_stage w l Hi) as Hst. rewrite H3 in Hst. unfold answer_command.
    next_stage Hi. by destruct retry.
Qed.

Lemma reachable_winv config s a s' :
  rtc worker_step (start_worker config (new_journal s a), []) s' -> winv s'.1 s'.2.
Proof.
  intros Hs. assert (H0i : winv (start_worker config (new_journal s a)) []).
  { split; [apply journal_ok_new|done|intros id; apply Nat.le_0_l|intros c Hc; by apply elem_of_nil in Hc
           |done|intros k Hk; by apply elem_of_nil in Hk|done|done]. }
  revert H0i. change (winv (start_worker config (new_journal s a)) []) with
    (winv (start_worker config (new_journal s a), @nil Call).1 (start_worker config (new_journal s a), @nil Call).2).
  induction Hs as [|x y z Hxy _ IH]; [done|]. intros Hi. apply IH. by eapply worker_step_winv.
Qed.


(** C27 Stopping is effective: when a reachable worker calls the broker with an entry, no stop
    has been requested and the durable phase of the epoch is running; so once a stop was
    requested, and across every restart until the stopped epoch is settled and reopened, no
    entry reaches the broker. *)
Theorem no_entry_after_stop config s a w l w' c l' :
  rtc worker_step (start_worker config (new_journal s a), []) (w, l) ->
  worker_step (w, l) (w', l') -> l' = l ++ [c] -> is_entry (cmd_action (call_command c)) = true ->
  g_stopped (w_gate w) = false /\ sf_requested (w_stop w) = false /\
  el_phase (j_lifecycle (w_journal w)) = PhaseRunning /\
  exists r, j_commands (w_journal w) !! cmd_id (call_command c) = Some r /\ rec_state r = JDispatching.
Proof.
  intros Hs Hst Hl He. pose proof (reachable_winv config s a _ Hs) as Hi. simpl in Hi.
  assert (Hne : forall x, l <> l ++ [x]) by (intros x E; apply (f_equal length) in E; rewrite length_app in E; simpl in E; lia).
  inversion Hst; subst; try (by exfalso; eapply Hne).
  destruct called; [|by exfalso; eapply Hne].
  match goal with Hx : l ++ [_] = l ++ [_] |- _ => apply app_inj_2 in Hx as [_ [= <-]]; [|done] end. simpl in He.
  match goal with Hx : w_stage w = _ |- _ => pose proof (wi_stage w l Hi) as Hok; rewrite Hx in Hok end.
  destruct retry as [n|]; simpl in Hok; [destruct Hok as [id Hid]; by rewrite Hid in He|].
  destruct Hok as [(r0 & Hr0 & Hd0 & _) _].
  assert (Hg : g_stopped (w_gate w) = false).
  { match goal with Hx : poll_command _ _ _ _ _ _ _ = _ |- _ => rename Hx into Hp end.
    unfold poll_command in Hp. destruct (first_poll _ _ _ _) eqn:Ef; simplify_eq.
    unfold first_poll in Ef. rewrite He in Ef. simpl in Ef. destruct (_ || _) eqn:Eo; [done|].
    apply orb_false_iff in Eo as [Eo _]. unfold cancels_entry in Eo. by destruct (g_stopped _). }
  split; [done|]. split; [destruct (sf_requested _) eqn:E; [|done]; rewrite (wi_requested w l Hi E) in Hg; done|].
  split; [|eauto]. destruct (decide (el_phase (j_lifecycle (w_journal w)) = PhaseRunning)) as [|Hn]; [done|].
  by rewrite (wi_phase w l Hi Hn) in Hg.
Qed.

(** Results are durable before they are seen: every completion waiting for the strategy, in
    the channel or being delivered, is recorded in the journal, and a definite one exactly as it
    is delivered, whatever happens to the process afterwards. *)
Theorem completions_are_durable config s a w l k :
  rtc worker_step (start_worker config (new_journal s a), []) (w, l) ->
  CompletionEvent k ∈ w_events w \/ (exists fatal, w_stage w = Delivering (CompletionEvent k) fatal) ->
  exists r k', j_commands (w_journal w) !! rcpt_id (cmp_receipt k) = Some r /\ rec_completion r = Some k' /\
    (is_ambiguous (cmp_outcome k) = false -> k' = k).
Proof.
  intros Hs Hk. pose proof (reachable_winv config s a _ Hs) as Hi. simpl in Hi.
  destruct Hk as [Hk|[fatal Hk]]; [by apply (wi_events w l Hi)|].
  pose proof (wi_stage w l Hi) as Hst. by rewrite Hk in Hst.
Qed.
End Worker.

(** ** One entry, from the queue to its completion *)
Definition demo_config : BrokerCommandWorkerConfig := mkWorkerConfig 4 4 4.
Definition demo_idle : Worker := start_worker demo_config (new_journal "strategy" "account").
Definition demo_queued : Worker := (try_enqueue_inner demo_idle demo_command true 1).1.
Definition demo_q : QueuedCommand := mkQueued demo_command 1.
Definition demo_record : JournalCommandRecord := mkRecord 1 demo_command JQueued 1 None None.
Definition demo_taken : Worker := default demo_queued (select_command demo_queued FromEntries).
Definition demo_prepared : Worker := prepare_command demo_taken demo_q.
Definition demo_preflighted : Worker :=
  preflight_command demo_prepared demo_q demo_record None false 0 (Some (Ok None)).
Definition demo_decided : Worker :=
  decide_command demo_preflighted demo_q demo_record None MarginUnsupported
    (mkDecideEnv 0 (Ok ()) true LaneGranted 2).
Definition demo_poll_env : PollEnv :=
  mkPollEnv 0 false true (Err SnapMissing) None 2.
Definition demo_sent : Worker :=
  (poll_command demo_decided demo_q demo_record MarginUnsupported 2 None demo_poll_env).1.
Definition demo_calls : list Call := [mkCall demo_command false].
Definition demo_answered : Worker := answer_command demo_sent demo_q demo_record 2 None (Some Acknowledged).
Definition demo_finished : Worker :=
  finish_command demo_answered demo_q demo_record (Some 2%Z) None Acknowledged None 3 3.

Lemma demo_reaches_dispatch : rtc worker_step (demo_idle, []) (demo_decided, []).
Proof.
  eapply rtc_l; [apply (WsEnqueue demo_idle [] demo_command true 1)|].
  eapply rtc_l; [apply (WsSelect demo_queued demo_taken [] FromEntries); vm_compute; reflexivity|].
  eapply rtc_l; [apply (WsPrepare demo_taken [] demo_q); vm_compute; reflexivity|].
  eapply rtc_l; [apply (WsPreflight demo_prepared [] demo_q demo_record None false 0 (Some (Ok None)));
                 vm_compute; reflexivity|].
  eapply rtc_l; [apply (WsDecide demo_preflighted [] demo_q demo_record None MarginUnsupported
                          (mkDecideEnv 0 (Ok ()) true LaneGranted 2)); vm_compute; reflexivity|].
  apply rtc_refl.
Qed.

Lemma demo_call_step : worker_step (demo_decided, []) (demo_sent, demo_calls).
Proof.
  apply (WsPoll demo_decided demo_sent [] demo_q demo_record MarginUnsupported 2 None demo_poll_env true);
    vm_compute; reflexivity.
Qed.


Lemma no_entry_after_stop_witness :
  g_stopped (w_gate demo_decided) = false /\
  el_phase (j_lifecycle (w_journal demo_decided)) = PhaseRunning.
Proof.
  destruct (no_entry_after_stop demo_config "strategy" "account" demo_decided [] demo_sent
              (mkCall demo_command false) demo_calls demo_reaches_dispatch demo_call_step)
    as (Hg & _ & Hp & _); [reflexivity|vm_compute; reflexivity|]. by split.
Defined.

Lemma completions_are_durable_witness :
  exists r k', j_commands (w_journal demo_finished) !! cmd_id demo_command = Some r /\
    rec_completion r = Some k' /\ k' = mkCompletion (receipt demo_command) 1 (Some 2%Z) 3 Acknowledged.
Proof.
  destruct (completions_are_durable demo_config "strategy" "account" demo_finished demo_calls
              (mkCompletion (receipt demo_command) 1 (Some 2%Z) 3 Acknowledged)) as (r & k' & Hr & Hk & Hd).
  - eapply rtc_r; [eapply rtc_r; [eapply rtc_r; [exact demo_reaches_dispatch|exact demo_call_step]|]|].
    + apply (WsAnswer demo_sent demo_calls demo_q demo_record 2 None (Some Acknowledged)). vm_compute. reflexivity.
    + apply (WsFinish demo_answered demo_calls demo_q demo_record (Some 2%Z) None Acknowledged None 3 3).
      vm_compute. reflexivity.
  - right. exists None. vm_compute. reflexivity.
  - exists r, k'. split; [done|]. split; [done|]. by apply Hd.
Defined.
