(* ===== verification/CommandDriver.v ===== *)
(** * CommandDriver: the strategy's side of broker commands
    ([src/core/strategy/command_driver.rs])

    The driver stages commands in memory, saves them with the insights that wait
    for them, hands them to the worker and keeps their results until they are
    durably applied.  [None] is a panic of the source (a failed [expect] or a
    counter below zero).  The worker is the one of [CommandWorker]; the answer of
    a pending journal request is part of the state ([ps_reply]).  The iteration
    order of a hash map, where it matters, is an argument. *)
From S2P Require Import Prelude.
From S2P Require Import Float64.
From S2P Require Import Text.
From S2P Require Import BrokerTypes.
From S2P Require Import TimeFrame.
From S2P Require Import InsightTypes.
From S2P Require Import Commands.
From S2P Require Import ExecutionData.
From S2P Require Import Insight.
From S2P Require Import Operations.
From S2P Require Import Checkpoint.
From S2P Require Import Journal.
From S2P Require Import CommandWorker.

Record PendingCommand := mkPendingCommand {
  pd_owner_id : Uuid;
  pd_command : BrokerCommand;
  pd_progress : BrokerCommandProgress;
  pd_reduced : bool;
  pd_applying : bool;
  pd_queued_at_us : Z;
  pd_admission_order : Z;
  pd_durable : bool;
  pd_dispatch_queued : bool;
  pd_recovery_replay : bool
}.
Definition eta_pending (p : PendingCommand) : PendingCommand :=
  mkPendingCommand (pd_owner_id p) (pd_command p) (pd_progress p) (pd_reduced p) (pd_applying p)
    (pd_queued_at_us p) (pd_admission_order p) (pd_durable p) (pd_dispatch_queued p)
    (pd_recovery_replay p).
#[export] Instance set_pd_progress : Setter pd_progress := ltac:(solve_setter eta_pending).
#[export] Instance set_pd_reduced : Setter pd_reduced := ltac:(solve_setter eta_pending).
#[export] Instance set_pd_applying : Setter pd_applying := ltac:(solve_setter eta_pending).
#[export] Instance set_pd_durable : Setter pd_durable := ltac:(solve_setter eta_pending).
#[export] Instance set_pd_dispatch_queued : Setter pd_dispatch_queued := ltac:(solve_setter eta_pending).

Record SavedExecutionRow := mkSavedRow {
  sr_revision : Z;
  sr_fingerprint : Z;
  sr_parent : option Uuid;
  sr_children : gset Uuid;
  sr_materialized : bool;
  sr_pipeline : option InsightPipelineCheckpoint;
  sr_entry_deadline : option DateTime
}.

Record PersistingExecution := mkPersisting {
  ps_applied : list string;
  ps_prepared : list string;
  ps_rows : list (Uuid * SavedExecutionRow);
  ps_reply : option (option (result unit BrokerCommandError));
    (* [None]: consumed; [Some None]: not answered yet *)
  ps_batch : ExecutionCheckpointBatch   (* what the journal was asked to save *)
}.

Record Driver := mkDriver {
  d_worker : Worker;
  d_pending : gmap string PendingCommand;
  d_persisting : option PersistingExecution;
  d_by_insight : gmap Uuid (list string);
  d_entry_admission : list string;
  d_control_admission : list string;
  d_saved_rows : gmap Uuid SavedExecutionRow;
  d_max_pending : nat;
  d_ordinary_pending : nat;
  d_max_ordinary_pending : nat;
  d_awaiting_completion : nat;
  d_progress_revision : Z;
  d_last_admission_order : Z;
  d_restoring : bool
}.
Definition eta_driver (d : Driver) : Driver :=
  mkDriver (d_worker d) (d_pending d) (d_persisting d) (d_by_insight d) (d_entry_admission d)
    (d_control_admission d) (d_saved_rows d) (d_max_pending d) (d_ordinary_pending d)
    (d_max_ordinary_pending d) (d_awaiting_completion d) (d_progress_revision d)
    (d_last_admission_order d) (d_restoring d).
#[export] Instance set_d_worker : Setter d_worker := ltac:(solve_setter eta_driver).
#[export] Instance set_d_pending : Setter d_pending := ltac:(solve_setter eta_driver).
#[export] Instance set_d_persisting : Setter d_persisting := ltac:(solve_setter eta_driver).
#[export] Instance set_d_by_insight : Setter d_by_insight := ltac:(solve_setter eta_driver).
#[export] Instance set_d_entry_admission : Setter d_entry_admission := ltac:(solve_setter eta_driver).
#[export] Instance set_d_control_admission : Setter d_control_admission := ltac:(solve_setter eta_driver).
#[export] Instance set_d_saved_rows : Setter d_saved_rows := ltac:(solve_setter eta_driver).
#[export] Instance set_d_ordinary_pending : Setter d_ordinary_pending := ltac:(solve_setter eta_driver).
#[export] Instance set_d_awaiting_completion : Setter d_awaiting_completion := ltac:(solve_setter eta_driver).
#[export] Instance set_d_progress_revision : Setter d_progress_revision := ltac:(solve_setter eta_driver).
#[export] Instance set_d_last_admission_order : Setter d_last_admission_order := ltac:(solve_setter eta_driver).
#[export] Instance set_d_restoring : Setter d_restoring := ltac:(solve_setter eta_driver).

Definition u64_wrap (z : Z) : Z := (z mod 2 ^ 64)%Z.
Definition is_progress_queued (p : BrokerCommandProgress) : bool :=
  match p with ProgressQueued => true | _ => false end.
Definition awaits (p : PendingCommand) : bool := is_progress_queued (pd_progress p).
Definition is_ordinary (p : PendingCommand) : bool := negb (is_teardown (cmd_action (pd_command p))).

(** A change of one pending command. *)
Definition update_pending (d : Driver) (id : string) (f : PendingCommand -> PendingCommand)
    : option Driver :=
  match d_pending d !! id with
  | Some p => Some (d <| d_pending := <[id := f p]> (d_pending d) |>)
  | None => None
  end.
(** [counter -= 1], which panics at zero. *)
Definition decrement (n : nat) : option nat := match n with O => None | S m => Some m end.

Section Driver.
Context `{UuidText} `{Json} `{CommandIds} `{JournalJson} `{Chrono}.

Definition saved_from_checkpoint (row : InsightExecutionCheckpoint) : SavedExecutionRow :=
  mkSavedRow (x_revision row) (x_source_fingerprint row) (x_parent_id row)
    (list_to_set (x_child_ids row)) (x_materialized row) (x_pipeline row)
    (match x_period_unfilled row with
     | Some periods =>
         Some (match add_time_increment (x_timeframe row) (x_created_at row) periods with
               | Ok t => t
               | Err _ => x_created_at row
               end)
     | None => None
     end).

(** [from_journal]: an owner without commands. *)
Definition from_journal (w : Worker) (last_admission_order : Z) : Driver :=
  let c := w_config w in
  mkDriver w ∅ None ∅ [] [] ∅
    (wc_entry_capacity c + wc_control_capacity c + wc_completion_capacity c) 0
    (wc_entry_capacity c + wc_completion_capacity c) 0 0 last_admission_order false.

(** ** Readers *)
Definition pending_count (d : Driver) : nat := size (d_pending d).
Definition has_in_flight_work (d : Driver) : bool :=
  negb (d_awaiting_completion d =? 0) || is_some (d_persisting d) || execution_stop_pending (d_worker d).
Definition has_admission_capacity (d : Driver) : bool :=
  (size (d_pending d) <? d_max_pending d) && (d_ordinary_pending d <? d_max_ordinary_pending d).
Definition has_external_execution_work (d : Driver) : bool :=
  is_some (d_persisting d) || execution_stop_pending (d_worker d)
  || existsb (fun kv => pd_dispatch_queued kv.2 && awaits kv.2) (map_to_list (d_pending d)).
Definition operation_group_ready (d : Driver) (group : BrokerOperationGroup) : bool :=
  let members := List.filter (fun kv => bool_decide (cmd_group (pd_command kv.2) = Some group))
                   (map_to_list (d_pending d)) in
  match members with [] => false | _ => forallb (fun kv => negb (awaits kv.2)) members end.

(** [values] is [pending.values()] in its iteration order. *)
Definition failure_of (include_ambiguous : bool) (p : PendingCommand) : option BrokerCommandError :=
  match pd_progress p with
  | ProgressFailed error => Some error
  | ProgressCompleted k =>
      if include_ambiguous && negb (pd_reduced p) && is_ambiguous (cmp_outcome k)
      then Some (InvalidCommand [Lit "command "; Lit (cmd_id (pd_command p));
                   Lit " has an ambiguous outcome; broker reconciliation is required"])
      else None
  | ProgressQueued => None
  end.
Fixpoint find_map_failure (include_ambiguous : bool) (values : list PendingCommand)
    : option BrokerCommandError :=
  match values with
  | [] => None
  | p :: rest =>
      match failure_of include_ambiguous p with
      | Some error => Some error
      | None => find_map_failure include_ambiguous rest
      end
  end.
Definition execution_failure (d : Driver) (values : list PendingCommand) (include_ambiguous : bool)
    : option BrokerCommandError :=
  match execution_stop_error (d_worker d) with
  | Some error => Some error
  | None => find_map_failure include_ambiguous values
  end.

(** [complete_execution_stop] up to the journal request, [Ok true] when it is sent. *)
Definition may_complete_stop (d : Driver) (values : list PendingCommand)
    : result bool BrokerCommandError :=
  match execution_failure d values true with
  | Some error => Err error
  | None =>
      if negb (bool_decide (d_pending d = ∅)) || has_in_flight_work d || d_restoring d
      then Ok false else Ok true
  end.

Definition progress (d : Driver) (r : BrokerCommandReceipt) : option BrokerCommandProgress :=
  match d_pending d !! rcpt_id r with
  | Some p => if bool_decide (receipt (pd_command p) = r) then Some (pd_progress p) else None
  | None => None
  end.
Definition checkpoint_revision (d : Driver) (id : Uuid) : Z :=
  match d_saved_rows d !! id with Some row => sr_revision row | None => 0%Z end.
Definition checkpoint_execution_matches (d : Driver) (id : Uuid) (fingerprint : Z)
    (materialized : bool) (pipeline : option InsightPipelineCheckpoint) : bool :=
  is_some_and (fun row => (sr_fingerprint row =? fingerprint)%Z
                          && Bool.eqb (sr_materialized row) materialized
                          && bool_decide (sr_pipeline row = pipeline)) (d_saved_rows d !! id).
Definition commands_of (d : Driver) (owner : Uuid) : list string :=
  unwrap_or (d_by_insight d !! owner) [].
Definition has_unpersisted_intents (d : Driver) (owner : Uuid) : bool :=
  existsb (fun id => is_some_and (fun p => negb (pd_durable p)) (d_pending d !! id))
    (commands_of d owner).

(** A receipt whose result was reduced and is not being saved yet. *)
Definition consumable (p : PendingCommand) : bool :=
  pd_reduced p && negb (pd_applying p)
  && match pd_progress p with
     | ProgressCompleted k => negb (is_ambiguous (cmp_outcome k)) || pd_reduced p
     | _ => false
     end.
Definition pending_owner_ids (d : Driver) : list Uuid :=
  (List.filter (fun kv => existsb (fun id => is_some_and (fun p => negb (pd_durable p) || consumable p)
                                          (d_pending d !! id)) kv.2)
     (map_to_list (d_by_insight d))).*1.
Definition has_pending_owner (d : Driver) (owner : Uuid) : bool := is_some (d_by_insight d !! owner).
Definition has_consumable_receipts (d : Driver) (i : Insight) : bool :=
  existsb (fun id => is_some_and
             (fun p => consumable p
                       && negb (existsb (fun m => String.eqb (rcpt_id (pm_receipt m)) (cmd_id (pd_command p)))
                                  (i_pending_mutations i))) (d_pending d !! id))
    (commands_of d (i_insight_id i)).
Definition consumable_receipts (d : Driver) (row : InsightExecutionCheckpoint)
    : list BrokerCommandReceipt :=
  (fun p => receipt (pd_command p)) <$>
  List.filter (fun p => consumable p && negb (retains row (receipt (pd_command p))))
    (omap (fun id => d_pending d !! id) (commands_of d (x_insight_id row))).

(** ** Admission *)
Definition driver_cancel_pending_entry (d : Driver) (r : BrokerCommandReceipt)
    : Driver * result unit BrokerCommandError :=
  match d_pending d !! rcpt_id r with
  | Some p =>
      if bool_decide (receipt (pd_command p) = r) && is_entry (cmd_action (pd_command p))
      then (d <| d_worker := sender_cancel_pending_entry (d_worker d) (cmd_id (pd_command p)) |>, Ok ())
      else (d, Err IdentityConflict)
  | None => (d, Err IdentityConflict)
  end.

(** The row of a command that was just admitted. *)
Definition new_pending (owner : Uuid) (c : BrokerCommand) (now_us order : Z) : PendingCommand :=
  mkPendingCommand owner c ProgressQueued false false now_us order false false false.
Definition admit_pending (d : Driver) (owner : Uuid) (c : BrokerCommand) (p : PendingCommand) : Driver :=
  let id := cmd_id c in
  let d := d <| d_by_insight := <[owner := commands_of d owner ++ [id]]> (d_by_insight d) |> in
  let d := if is_teardown (cmd_action c)
           then d <| d_control_admission := d_control_admission d ++ [id] |>
           else d <| d_ordinary_pending := S (d_ordinary_pending d) |>
                  <| d_entry_admission := d_entry_admission d ++ [id] |> in
  d <| d_pending := <[id := p]> (d_pending d) |>
    <| d_awaiting_completion := S (d_awaiting_completion d) |>.

Definition enqueue_command (d : Driver) (c : BrokerCommand) (now_us : Z)
    : Driver * result BrokerCommandReceipt BrokerCommandError :=
  let w := d_worker d in
  if d_restoring d then (d, Err (invalid "execution recovery is not installed"))
  else
    match encode c with
    | Err error => (d, Err error)
    | Ok _ =>
        match uuid_parse (cmd_insight_id c) with
        | None => (d, Err (invalid "command owner is not an Insight UUID"))
        | Some owner =>
            if negb (String.eqb (cmd_strategy_id c) (j_strategy_id (w_journal w)))
               || negb (String.eqb (cmd_account_id c) (j_account_id (w_journal w)))
            then (d, Err (invalid "command belongs to another driver scope"))
            else
              match d_pending d !! cmd_id c with
              | Some existing =>
                  if command_eqb (pd_command existing) c
                  then (d, Ok (receipt (pd_command existing))) else (d, Err IdentityConflict)
              | None =>
                  if (d_max_pending d <=? size (d_pending d))
                     || (negb (is_teardown (cmd_action c))
                         && (d_max_ordinary_pending d <=? d_ordinary_pending d))
                  then (d, Err QueueFull)
                  else if is_halted w then (d, Err ClosedError)
                  else if is_entry (cmd_action c) && entries_stopped w then (d, Err Stopping)
                  else
                    let order := (d_last_admission_order d + 1)%Z in
                    if (i64_max <? order)%Z
                    then (d, Err (invalid "owner admission order exhausted"))
                    else (admit_pending (d <| d_last_admission_order := order |>) owner c
                            (new_pending owner c now_us order), Ok (receipt c))
              end
        end
    end.

(** [fresh] is the UUID a command other than an entry takes. *)
Definition enqueue_with_constraints (d : Driver) (insight_id : string) (action : BrokerCommandAction)
    (group : option BrokerOperationGroup) (constraints : BrokerDispatchConstraints)
    (fresh : string) (now_us : Z) : Driver * result BrokerCommandReceipt BrokerCommandError :=
  let w := d_worker d in
  enqueue_command d
    (command_new_with_constraints (j_strategy_id (w_journal w)) (j_account_id (w_journal w))
       insight_id action group constraints fresh) now_us.
Definition enqueue (d : Driver) (insight_id : string) (action : BrokerCommandAction)
    (group : option BrokerOperationGroup) (fresh : string) (now_us : Z) :=
  enqueue_with_constraints d insight_id action group default_constraints fresh now_us.

(** ** Results *)
Record BrokerCommandEvidence := mkEvidence {
  ce_command : BrokerCommand;
  ce_progress : BrokerCommandProgress
}.
Definition request_stop (d : Driver) : Driver :=
  d <| d_worker := sender_request_execution_stop (d_worker d) |>.

(** [next_ready]: one event of the worker. *)
Definition next_ready (d : Driver)
    : option (Driver * result (option BrokerCommandEvidence) BrokerCommandError) :=
  match execution_stop_error (d_worker d) with
  | Some error => Some (d, Err error)
  | None =>
      match w_events (d_worker d) with
      | [] => if is_halted (d_worker d) then Some (request_stop d, Err ClosedError) else Some (d, Ok None)
      | event :: rest =>
          let d := d <| d_worker := (d_worker d) <| w_events := rest |> |> in
          let '(r, progress) := match event with
                                | CompletionEvent k => (cmp_receipt k, ProgressCompleted k)
                                | FailedEvent r error => (r, ProgressFailed error)
                                end in
          match d_pending d !! rcpt_id r with
          | None => Some (request_stop d, Err IdentityConflict)
          | Some p =>
              if negb (bool_decide (receipt (pd_command p) = r))
              then Some (request_stop d, Err IdentityConflict)
              else
                match (if awaits p then decrement (d_awaiting_completion d)
                       else Some (d_awaiting_completion d)) with
                | None => None
                | Some awaiting =>
                    Some (d <| d_awaiting_completion := awaiting |>
                            <| d_pending := <[rcpt_id r := p <| pd_progress := progress |>]> (d_pending d) |>
                            <| d_progress_revision := u64_wrap (d_progress_revision d + 1) |>,
                          Ok (Some (mkEvidence (pd_command p) progress)))
                end
          end
      end
  end.

Definition mark_reduced (d : Driver) (r : BrokerCommandReceipt) : Driver * result unit BrokerCommandError :=
  match d_pending d !! rcpt_id r with
  | Some p =>
      if negb (bool_decide (receipt (pd_command p) = r)) then (d, Err IdentityConflict)
      else match pd_progress p with
           | ProgressCompleted _ =>
               (d <| d_pending := <[rcpt_id r := p <| pd_reduced := true |>]> (d_pending d) |>, Ok ())
           | _ => (d, Err (invalid "command has no completion to reduce"))
           end
  | None => (d, Err IdentityConflict)
  end.

(** ** Checkpoints *)

(** The checks of the receipts a batch applies, in order. *)
Fixpoint check_receipts (d : Driver) (rows : list InsightExecutionCheckpoint)
    (receipts : list BrokerCommandReceipt) : result unit BrokerCommandError :=
  match receipts with
  | [] => Ok ()
  | r :: rest =>
      match d_pending d !! rcpt_id r with
      | None => Err IdentityConflict
      | Some p =>
          if negb (bool_decide (receipt (pd_command p) = r)) then Err IdentityConflict
          else if negb (pd_reduced p) || pd_applying p
          then Err (invalid "command has not been reduced or is already persisting")
          else if negb (match pd_progress p with
                        | ProgressCompleted k =>
                            negb (is_ambiguous (cmp_outcome k))
                            || existsb (fun row =>
                                 String.eqb (uuid_to_string (x_insight_id row)) (rcpt_insight_id r)
                                 && settled_by_terminal (cmd_action (pd_command p)) (x_order_id row) (x_state row))
                                 rows
                        | _ => false
                        end)
          then Err (invalid "ambiguous command requires broker reconciliation")
          else check_receipts d rows rest
      end
  end.

(** The loop that fills [owner_receipts] and collects the new intents; [None]
    is the panic on an indexed command that is not owned. *)
Fixpoint pending_of (d : Driver) (ids : list string) : option (list PendingCommand) :=
  match ids with
  | [] => Some []
  | id :: rest =>
      match d_pending d !! id, pending_of d rest with
      | Some p, Some l => Some (p :: l)
      | _, _ => None
      end
  end.
Definition stage_row (d : Driver) (applied : gset string) (row : InsightExecutionCheckpoint)
    : option (InsightExecutionCheckpoint * list ExecutionIntent) :=
  match pending_of d (commands_of d (x_insight_id row)) with
  | None => None
  | Some owned =>
      Some (with_owner_receipts row
              ((fun p => receipt (pd_command p)) <$>
               List.filter (fun p => negb (bool_decide (cmd_id (pd_command p) ∈ applied))) owned),
            (fun p => mkIntent (pd_command p) (pd_queued_at_us p) (pd_admission_order p)) <$>
            List.filter (fun p => negb (pd_durable p)) owned)
  end.
Fixpoint stage_rows (d : Driver) (applied : gset string) (rows : list InsightExecutionCheckpoint)
    : option (list InsightExecutionCheckpoint * list ExecutionIntent) :=
  match rows with
  | [] => Some ([], [])
  | row :: rest =>
      match stage_row d applied row, stage_rows d applied rest with
      | Some (row, intents), Some (rows, more) => Some (row :: rows, intents ++ more)
      | _, _ => None
      end
  end.

(** A change of several pending commands, each of which must be there. *)
Fixpoint mark_all (f : PendingCommand -> PendingCommand) (ids : list string)
    (pending : gmap string PendingCommand) : option (gmap string PendingCommand) :=
  match ids with
  | [] => Some pending
  | id :: rest =>
      match pending !! id with
      | Some p => mark_all f rest (<[id := f p]> pending)
      | None => None
      end
  end.
Definition mark_applying (ids : list string) (b : bool) :=
  mark_all (fun p => p <| pd_applying := b |>) ids.

(** [submit] is the answer of [try_persist_execution]: the request was taken,
    or its channel is full or closed. *)
Definition persist_execution_checkpoints (d : Driver) (rows : list InsightExecutionCheckpoint)
    (receipts : list BrokerCommandReceipt) (submit : result unit BrokerCommandError)
    : option (Driver * result unit BrokerCommandError) :=
  if is_some (d_persisting d) then Some (d, Err QueueFull)
  else
    match check_receipts d rows receipts with
    | Err error => Some (d, Err error)
    | Ok _ =>
        match stage_rows d (list_to_set (rcpt_id <$> receipts)) rows with
        | None => None
        | Some (rows, intents) =>
            match with_intents rows receipts intents with
            | Err error => Some (d, Err error)
            | Ok batch =>
                match submit with
                | Err error => Some (d, Err error)
                | Ok _ =>
                    let ids := rcpt_id <$> receipts in
                    match mark_applying ids true (d_pending d) with
                    | None => None
                    | Some pending =>
                        Some (d <| d_pending := pending |>
                                <| d_persisting := Some (mkPersisting ids
                                     ((fun i => cmd_id (in_command i)) <$> intents)
                                     ((fun row => (x_insight_id row, saved_from_checkpoint row)) <$> rows)
                                     (Some None) batch) |>, Ok ())
                    end
                end
            end
        end
    end.

(** The new deadline of the entries of one saved row. *)
Definition set_deadlines (d : Driver) (owner : Uuid) (deadline : option DateTime) : Driver :=
  foldl (fun d id =>
           if is_some_and (fun p => is_entry (cmd_action (pd_command p))) (d_pending d !! id)
           then d <| d_worker := set_entry_deadline (d_worker d) id deadline |> else d)
    d (commands_of d owner).
Definition install_row (d : Driver) (row : Uuid * SavedExecutionRow) : Driver :=
  let d := set_deadlines d row.1 (sr_entry_deadline row.2) in
  d <| d_saved_rows := <[row.1 := row.2]> (d_saved_rows d) |>.
Definition mark_durable (ids : list string) := mark_all (fun p => p <| pd_durable := true |>) ids.

(** One applied command leaves the driver. *)
Definition release_command (d : Driver) (id : string) : option Driver :=
  match d_pending d !! id with
  | None => None
  | Some p =>
      match (if is_ordinary p then decrement (d_ordinary_pending d) else Some (d_ordinary_pending d)) with
      | None => None
      | Some ordinary =>
          let owner := pd_owner_id p in
          let by_insight :=
            match d_by_insight d !! owner with
            | Some ids =>
                match List.filter (fun existing => negb (String.eqb existing id)) ids with
                | [] => delete owner (d_by_insight d)
                | rest => <[owner := rest]> (d_by_insight d)
                end
            | None => d_by_insight d
            end in
          Some (d <| d_pending := delete id (d_pending d) |>
                  <| d_ordinary_pending := ordinary |>
                  <| d_by_insight := by_insight |>
                  <| d_worker := release_entry_identity (d_worker d) id |>)
      end
  end.
Fixpoint release_commands (d : Driver) (ids : list string) : option Driver :=
  match ids with
  | [] => Some d
  | id :: rest => match release_command d id with Some d => release_commands d rest | None => None end
  end.

(** The saved batch takes effect: rows, deadlines and durability. *)
Definition acknowledge (d : Driver) (ps : PersistingExecution) : option (Driver * PersistingExecution) :=
  let d := foldl install_row d (ps_rows ps) in
  match mark_durable (ps_prepared ps) (d_pending d) with
  | None => None
  | Some pending =>
      Some (d <| d_pending := pending |>, mkPersisting (ps_applied ps) [] [] None (ps_batch ps))
  end.
Definition release_applied (d : Driver) (ps : PersistingExecution) (max_events : nat)
    : option (Driver * result nat BrokerCommandError) :=
  let applied := Nat.min (Nat.min (length (ps_applied ps)) max_events) 256 in
  match release_commands d (take applied (ps_applied ps)) with
  | None => None
  | Some d =>
      let rest := drop applied (ps_applied ps) in
      let d := d <| d_persisting := match rest with
                                    | [] => None
                                    | _ => Some (mkPersisting rest (ps_prepared ps) (ps_rows ps)
                                                   (ps_reply ps) (ps_batch ps))
                                    end |> in
      let d := if applied =? 0 then d
               else d <| d_progress_revision := u64_wrap (d_progress_revision d + 1) |> in
      Some (d, Ok applied)
  end.

Definition poll_acknowledgements (d : Driver) (max_events : nat)
    : option (Driver * result nat BrokerCommandError) :=
  if max_events =? 0 then Some (d, Ok 0)
  else
    match d_persisting d with
    | None => Some (d, Ok 0)
    | Some ps =>
        match ps_reply ps with
        | None => release_applied d ps max_events
        | Some None => Some (d, Ok 0)
        | Some (Some (Err error)) =>
            match mark_applying (ps_applied ps) false (d_pending d) with
            | None => None
            | Some pending =>
                Some (request_stop (d <| d_persisting := None |> <| d_pending := pending |>), Err error)
            end
        | Some (Some (Ok _)) =>
            match acknowledge d ps with
            | None => None
            | Some (d, ps) => release_applied d ps max_events
            end
        end
    end.

(** ** Dispatch *)

(** The walk along the parents, at most 64 long. *)
Fixpoint chain_saved (fuel : nat) (rows : gmap Uuid SavedExecutionRow) (id : Uuid) : bool :=
  match fuel with
  | O => false
  | S fuel =>
      match rows !! id with
      | None => false
      | Some row =>
          match sr_parent row with
          | None => true
          | Some parent =>
              if is_some_and (fun row => bool_decide (id ∈ sr_children row)) (rows !! parent)
              then chain_saved fuel rows parent
              else false
          end
      end
  end.
Definition checkpoint_chain_ready (d : Driver) (p : PendingCommand) : bool :=
  if negb (pd_durable p) then false
  else if pd_recovery_replay p then true
  else if is_teardown (cmd_action (pd_command p))
  then is_some_and sr_materialized (d_saved_rows d !! pd_owner_id p)
  else chain_saved 64 (d_saved_rows d) (pd_owner_id p).

Definition next_dispatch_id (d : Driver) (allow_entries : bool) : option string :=
  if d_restoring d then None
  else
    let front l ready :=
      match head l with
      | Some id => if is_some_and ready (d_pending d !! id) then Some id else None
      | None => None
      end in
    opt_or (front (d_control_admission d) (checkpoint_chain_ready d))
      (front (d_entry_admission d)
         (fun p => checkpoint_chain_ready d p
                   && (allow_entries || negb (is_entry (cmd_action (pd_command p)))
                       || pd_recovery_replay p
                       || entry_is_gated (d_worker d) (cmd_id (pd_command p))))).

(** One turn of the dispatch loop: [Ok false] ends it. *)
Definition dispatch_one (d : Driver) (allow_entries : bool) (now_us : Z)
    : option (Driver * result bool BrokerCommandError) :=
  match next_dispatch_id d allow_entries with
  | None => Some (d, Ok false)
  | Some id =>
      match d_pending d !! id with
      | None => None
      | Some p =>
          if negb (pd_durable p)
          then Some (request_stop d, Err (journal_error "dispatch without checkpoint ownership"))
          else
            let d := if is_entry (cmd_action (pd_command p))
                     then d <| d_worker := set_entry_deadline (d_worker d) id
                                 (match d_saved_rows d !! pd_owner_id p with
                                  | Some row => sr_entry_deadline row | None => None end) |>
                     else d in
            match try_enqueue_prepared (d_worker d) (pd_command p) now_us with
            | (w, Ok _) =>
                let d := d <| d_worker := w |>
                           <| d_pending := <[id := p <| pd_dispatch_queued := true |>]> (d_pending d) |> in
                Some (if is_teardown (cmd_action (pd_command p))
                      then d <| d_control_admission := tail (d_control_admission d) |>
                      else d <| d_entry_admission := tail (d_entry_admission d) |>, Ok true)
            | (w, Err QueueFull) => Some (d <| d_worker := w |>, Ok false)
            | (w, Err error) => Some (request_stop (d <| d_worker := w |>), Err error)
            end
      end
  end.
Fixpoint dispatch_loop (fuel : nat) (d : Driver) (allow_entries : bool) (now_us : Z) (dispatched : nat)
    : option (Driver * result nat BrokerCommandError) :=
  match fuel with
  | O => Some (d, Ok dispatched)
  | S fuel =>
      match dispatch_one d allow_entries now_us with
      | None => None
      | Some (d, Ok true) => dispatch_loop fuel d allow_entries now_us (S dispatched)
      | Some (d, Ok false) => Some (d, Ok dispatched)
      | Some (d, Err error) => Some (d, Err error)
      end
  end.
Definition dispatch_prepared_with_admission (d : Driver) (max_events : nat) (allow_entries : bool)
    (now_us : Z) : option (Driver * result nat BrokerCommandError) :=
  dispatch_loop (Nat.min max_events 256) d allow_entries now_us 0.

(** [drain_ready]; [turns] is how many events its time budget allows. *)
Fixpoint drain_loop (turns : nat) (d : Driver) (ready : list BrokerCommandEvidence)
    : option (Driver * result (list BrokerCommandEvidence) BrokerCommandError) :=
  match turns with
  | O => Some (d, Ok ready)
  | S turns =>
      match next_ready d with
      | None => None
      | Some (d, Ok (Some e)) => drain_loop turns d (ready ++ [e])
      | Some (d, Ok None) => Some (d, Ok ready)
      | Some (d, Err error) =>
          match error, ready with
          | ClosedError, _ :: _ => Some (d, Ok ready)
          | _, _ => Some (d, Err error)
          end
      end
  end.
Definition drain_ready (d : Driver) (max_events budget_turns : nat) (now_us : Z)
    : option (Driver * result (list BrokerCommandEvidence) BrokerCommandError) :=
  let go d := drain_loop (Nat.min (Nat.min max_events 256) (Nat.max 1 budget_turns)) d [] in
  if max_events =? 0 then go d
  else
    match poll_acknowledgements d max_events with
    | None => None
    | Some (d, Err error) => Some (d, Err error)
    | Some (d, Ok _) =>
        match dispatch_prepared_with_admission d max_events true now_us with
        | None => None
        | Some (d, Err error) => Some (d, Err error)
        | Some (d, Ok _) => go d
        end
    end.

(** ** Recovery *)
Record RecoveryCommand := mkRecoveryCommand { rcv_record : JournalCommandRecord; rcv_order : Z }.

(** One recovered command; [cancel_entry] when its stack may not enter. *)
Definition restore_command (d : Driver) (cancel_entry : bool) (c : RecoveryCommand)
    : result Driver BrokerCommandError :=
  let r := rcv_record c in
  match uuid_parse (cmd_insight_id (rec_command r)) with
  | None => Err (journal_error "invalid UUID")
  | Some owner =>
      let id := cmd_id (rec_command r) in
      let d := if cancel_entry then d <| d_worker := sender_cancel_pending_entry (d_worker d) id |> else d in
      Ok (admit_pending d owner (rec_command r)
            (mkPendingCommand owner (rec_command r) ProgressQueued false false (rec_queued_at_us r)
               (rcv_order c) true false
               (cancel_entry || negb (bool_decide (rec_state r = JQueued)))))
  end.
Definition finish_recovery (d : Driver) : Driver := d <| d_restoring := false |>.
End Driver.
