(* ===== verification/CommandDriverFacts.v ===== *)
(** * CommandDriverFacts: the driver never loses a command

    The invariant of [CommandDriver]'s state: exact counters and indexes,
    bounded queues, and for every command the order admitted, saved, handed to
    the worker, answered, consumed, released.  Every operation keeps it and none
    panics. *)
From S2P Require Import Prelude.
From S2P Require Import Float64.
From S2P Require Import Text.
From S2P Require Import BrokerTypes.
From S2P Require Import TimeFrame.
From S2P Require Import InsightTypes.
From S2P Require Import Commands.
From S2P Require Import ExecutionData.
From S2P Require Import Insight.
From S2P Require Import Operations.
From S2P Require Import Checkpoint.
From S2P Require Import Journal.
From S2P Require Import JournalFacts.
From S2P Require Import CommandWorker.
From S2P Require Import CommandDriver.

Section Facts.
Context `{UuidText} `{Json} `{CommandIds} `{JournalJson} `{Chrono}.

(** ** Invariant *)

(** The lists of [by_insight] are the pending commands of each owner. *)
Definition indexed (by_insight : gmap Uuid (list string)) (pending : gmap string PendingCommand) : Prop :=
  (forall o l, by_insight !! o = Some l -> l <> [] /\ NoDup l) /\
  (forall o id, id ∈ unwrap_or (by_insight !! o) [] <->
     exists p, pending !! id = Some p /\ pd_owner_id p = o).

(** A queue holds exactly the commands of its kind that were not handed over. *)
Definition queued (queue : list string) (ordinary : bool) (pending : gmap string PendingCommand) : Prop :=
  NoDup queue /\
  forall id, id ∈ queue <->
    exists p, pending !! id = Some p /\ is_ordinary p = ordinary /\ pd_dispatch_queued p = false.

(** The order in which one command passes its stations. *)
Record pending_ok (id : string) (p : PendingCommand) : Prop := {
  po_id : cmd_id (pd_command p) = id;
  po_handed : pd_dispatch_queued p = true -> pd_durable p = true;
  po_answered : awaits p = false -> pd_dispatch_queued p = true;
  po_reduced : pd_reduced p = true -> awaits p = false;
  po_applying : pd_applying p = true -> pd_reduced p = true
}.

Record persisting_ok (pending : gmap string PendingCommand) (ps : PersistingExecution) : Prop := {
  pso_nodup : NoDup (ps_applied ps);
  pso_applied id : id ∈ ps_applied ps -> exists p, pending !! id = Some p /\ pd_applying p = true;
  pso_prepared id : id ∈ ps_prepared ps -> is_Some (pending !! id);
  pso_consumed : ps_reply ps = None -> ps_prepared ps = []
}.

(** Every command being saved belongs to the batch in flight. *)
Definition applying_in (pending : gmap string PendingCommand) (o : option PersistingExecution) : Prop :=
  forall id p, pending !! id = Some p -> pd_applying p = true -> exists ps, o = Some ps /\ id ∈ ps_applied ps.

Record core_ok (d : Driver) : Prop := {
  do_pending : map_Forall pending_ok (d_pending d);
  do_indexed : indexed (d_by_insight d) (d_pending d);
  do_entries : queued (d_entry_admission d) true (d_pending d);
  do_controls : queued (d_control_admission d) false (d_pending d);
  do_ordinary : d_ordinary_pending d = count_where is_ordinary (d_pending d);
  do_awaiting : d_awaiting_completion d = count_where awaits (d_pending d);
  do_capacity : size (d_pending d) <= d_max_pending d;
  do_ordinary_capacity : d_ordinary_pending d <= d_max_ordinary_pending d
}.
Record driver_ok (d : Driver) : Prop := {
  do_core :> core_ok d;
  do_persisting ps : d_persisting d = Some ps -> persisting_ok (d_pending d) ps;
  do_applying : applying_in (d_pending d) (d_persisting d)
}.

(** The worker reports only about commands that were handed to it. *)
Definition event_receipt (e : BrokerCommandWorkerEvent) : BrokerCommandReceipt :=
  match e with CompletionEvent k => cmp_receipt k | FailedEvent r _ => r end.
Definition events_handed (d : Driver) : Prop :=
  forall e p, e ∈ w_events (d_worker d) -> d_pending d !! rcpt_id (event_receipt e) = Some p ->
  pd_dispatch_queued p = true.

(** ** Changing one pending command *)

(** What the indexes see of a command. *)
Definition index_view (p : PendingCommand) : Uuid * bool * bool :=
  (pd_owner_id p, is_ordinary p, pd_dispatch_queued p).

Lemma indexed_insert by_insight pending id p p' :
  indexed by_insight pending -> pending !! id = Some p -> pd_owner_id p' = pd_owner_id p ->
  indexed by_insight (<[id := p']> pending).
Proof.
  intros [Hl Hi] Hp Ho. split; [done|]. intros o id'. rewrite Hi.
  destruct (decide (id = id')) as [<-|]; [|by rewrite lookup_insert_ne].
  rewrite lookup_insert_eq. split; intros (q & Hq & <-); simplify_eq; eauto.
Qed.

Lemma queued_insert queue b pending id p p' :
  queued queue b pending -> pending !! id = Some p -> is_ordinary p' = is_ordinary p ->
  pd_dispatch_queued p' = pd_dispatch_queued p -> queued queue b (<[id := p']> pending).
Proof.
  intros [Hn Hq] Hp Ho Hd. split; [done|]. intros id'. rewrite Hq.
  destruct (decide (id = id')) as [<-|]; [|by rewrite lookup_insert_ne].
  rewrite lookup_insert_eq. split; intros (q & Hq' & <- & Hf); simplify_eq; eauto 6.
Qed.

Lemma count_where_same {V} (f : V -> bool) (m : gmap string V) id p p' :
  m !! id = Some p -> f p' = f p -> count_where f (<[id := p']> m) = count_where f m.
Proof.
  intros Hp Hf. rewrite count_where_insert, (count_where_split f m id), Hp. unfold counts_one. simpl.
  by rewrite Hf.
Qed.

Lemma persisting_insert pending ps id p p' :
  persisting_ok pending ps -> pending !! id = Some p -> pd_applying p' = pd_applying p ->
  persisting_ok (<[id := p']> pending) ps.
Proof.
  intros [A B C D] Hp Ha. split; [done| | |done].
  - intros id' Hid. destruct (B id' Hid) as (q & Hq & Hqa).
    destruct (decide (id' = id)) as [->|]; [rewrite lookup_insert_eq; simplify_eq; eauto using eq_trans|].
    rewrite lookup_insert_ne by done. eauto.
  - intros id' Hid. apply lookup_insert_is_Some'. right. by apply C.
Qed.

Lemma applying_insert pending o id p p' :
  applying_in pending o -> pending !! id = Some p -> pd_applying p' = pd_applying p ->
  applying_in (<[id := p']> pending) o.
Proof.
  intros Hin Hp Ha id' q. destruct (decide (id' = id)) as [->|].
  - rewrite lookup_insert_eq. intros [= <-] Hq. apply (Hin id p Hp). congruence.
  - rewrite lookup_insert_ne by done. apply Hin.
Qed.

(** An update that keeps owner, kind and progress station of one command. *)
Lemma core_ok_update d id p p' :
  core_ok d -> d_pending d !! id = Some p -> pending_ok id p' -> index_view p' = index_view p ->
  awaits p' = awaits p -> core_ok (d <| d_pending := <[id := p']> (d_pending d) |>).
Proof.
  intros [Hp Hi He Hc Ho Ha Hcap Hocap] Hl Hok [= Hown Hord Hdis] Haw.
  split; cbn; try done.
  - by apply map_Forall_insert_2.
  - by eapply indexed_insert.
  - by eapply queued_insert.
  - by eapply queued_insert.
  - by rewrite (count_where_same is_ordinary _ _ p).
  - by rewrite (count_where_same awaits _ _ p).
  - by rewrite map_size_insert_Some by eauto.
Qed.

Lemma core_ok_frame d d' :
  core_ok d -> d_pending d' = d_pending d ->
  d_by_insight d' = d_by_insight d -> d_entry_admission d' = d_entry_admission d ->
  d_control_admission d' = d_control_admission d -> d_ordinary_pending d' = d_ordinary_pending d ->
  d_awaiting_completion d' = d_awaiting_completion d -> d_max_pending d' = d_max_pending d ->
  d_max_ordinary_pending d' = d_max_ordinary_pending d -> core_ok d'.
Proof.
  intros [] E1 E3 E4 E5 E6 E7 E8 E9. split; rewrite ?E1, ?E3, ?E4, ?E5, ?E6, ?E7, ?E8, ?E9; done.
Qed.

Lemma driver_ok_frame d d' :
  driver_ok d -> d_pending d' = d_pending d -> d_persisting d' = d_persisting d ->
  d_by_insight d' = d_by_insight d -> d_entry_admission d' = d_entry_admission d ->
  d_control_admission d' = d_control_admission d -> d_ordinary_pending d' = d_ordinary_pending d ->
  d_awaiting_completion d' = d_awaiting_completion d -> d_max_pending d' = d_max_pending d ->
  d_max_ordinary_pending d' = d_max_ordinary_pending d -> driver_ok d'.
Proof.
  intros [Hc Hp Ha] E1 E2 E3 E4 E5 E6 E7 E8 E9. split; rewrite ?E1, ?E2; [by eapply core_ok_frame|done|done].
Qed.

Lemma driver_ok_worker d w : driver_ok d -> driver_ok (d <| d_worker := w |>).
Proof. intros Hd. by eapply driver_ok_frame. Qed.
Lemma request_stop_ok d : driver_ok d -> driver_ok (request_stop d).
Proof. apply driver_ok_worker. Qed.

(** ** Admission *)
Lemma indexed_admit by_insight pending owner id p :
  indexed by_insight pending -> pending !! id = None -> pd_owner_id p = owner ->
  indexed (<[owner := unwrap_or (by_insight !! owner) [] ++ [id]]> by_insight) (<[id := p]> pending).
Proof.
  intros [Hl Hi] Hn Ho.
  assert (Hni : forall o, id ∉ unwrap_or (by_insight !! o) []).
  { intros o (q & Hq & _)%Hi. congruence. }
  split.
  - intros o l. destruct (decide (o = owner)) as [->|]; [|rewrite lookup_insert_ne by done; apply Hl].
    rewrite lookup_insert_eq. intros [= <-]. split; [by destruct (unwrap_or _ _)|].
    apply NoDup_app. split; [|split; [|apply NoDup_singleton]].
    + unfold unwrap_or, default. destruct (by_insight !! owner) as [l|] eqn:E; [by apply (Hl owner)|constructor].
    + intros x Hx ->%list_elem_of_singleton. by apply (Hni owner).
  - intros o id'. destruct (decide (o = owner)) as [->|Hne].
    + rewrite lookup_insert_eq. simpl. rewrite elem_of_app, list_elem_of_singleton, Hi.
      destruct (decide (id' = id)) as [->|]; [rewrite lookup_insert_eq|rewrite lookup_insert_ne by done]; naive_solver.
    + rewrite lookup_insert_ne by done. rewrite Hi.
      destruct (decide (id' = id)) as [->|]; [rewrite lookup_insert_eq|rewrite lookup_insert_ne by done]; naive_solver.
Qed.

Lemma queued_admit queue b pending id p :
  queued queue b pending -> pending !! id = None -> pd_dispatch_queued p = false ->
  queued (if Bool.eqb (is_ordinary p) b then queue ++ [id] else queue) b (<[id := p]> pending).
Proof.
  intros [Hn Hq] Hnew Hd. assert (Hni : id ∉ queue) by (intros (q & Hx & _)%Hq; congruence).
  destruct (Bool.eqb_spec (is_ordinary p) b) as [Hb|Hb].
  - split; [apply NoDup_app; split; [done|]; split; [|apply NoDup_singleton]; by intros x Hx ->%list_elem_of_singleton|].
    intros id'. rewrite elem_of_app, list_elem_of_singleton, Hq.
    destruct (decide (id' = id)) as [->|]; [rewrite lookup_insert_eq|rewrite lookup_insert_ne by done]; naive_solver.
  - split; [done|]. intros id'. rewrite Hq.
    destruct (decide (id' = id)) as [->|]; [rewrite lookup_insert_eq|rewrite lookup_insert_ne by done]; naive_solver.
Qed.

Lemma admit_ok d owner c p :
  driver_ok d -> d_pending d !! cmd_id c = None -> pd_owner_id p = owner -> pd_command p = c ->
  pending_ok (cmd_id c) p -> pd_dispatch_queued p = false -> awaits p = true -> pd_applying p = false ->
  size (d_pending d) < d_max_pending d ->
  (is_teardown (cmd_action c) = false -> d_ordinary_pending d < d_max_ordinary_pending d) ->
  driver_ok (admit_pending d owner c p).
Proof.
  intros [[Hp Hi He Hc Ho Ha Hcap Hocap] Hps Hap] Hn Hown Hcmd Hok Hd Haw Happ Hsz Hord.
  pose proof (queued_admit _ true _ _ p He Hn Hd) as He'. pose proof (queued_admit _ false _ _ p Hc Hn Hd) as Hc'.
  assert (Hio : is_ordinary p = negb (is_teardown (cmd_action c))) by (unfold is_ordinary; by rewrite Hcmd).
  rewrite Hio in He', Hc'. unfold admit_pending. destruct (is_teardown (cmd_action c)) eqn:Et; simpl in *.
  all: split; [split|..]; cbn; try done.
  all: try (by apply map_Forall_insert_2).
  all: try (by apply indexed_admit).
  all: try (rewrite count_where_fresh by done; unfold counts_one; simpl; rewrite ?Hio, ?Haw; simpl; lia).
  all: try (rewrite map_size_insert_None by done; lia).
  all: try (specialize (Hord eq_refl); lia).
  all: try (intros ps Hps0; destruct (Hps ps Hps0) as [A B C D]; split;
            [done|intros id Hid; destruct (B id Hid) as (q & Hq & Hqa); exists q; by rewrite lookup_insert_ne by congruence
            |intros id Hid; apply lookup_insert_is_Some'; by right; apply C|done]).
  all: intros id q; destruct (decide (id = cmd_id c)) as [->|];
       [rewrite lookup_insert_eq; intros [= <-]; congruence|rewrite lookup_insert_ne by done; apply Hap].
Qed.

Lemma enqueue_command_ok d c now d' r :
  driver_ok d -> enqueue_command d c now = (d', r) -> driver_ok d'.
Proof.
  intros Hd He. unfold enqueue_command in He. destruct (d_restoring d); [by simplify_eq|].
  destruct (encode c); [|by simplify_eq]. destruct (uuid_parse _) as [owner|]; [|by simplify_eq].
  destruct (_ || _); [by simplify_eq|]. destruct (d_pending d !! cmd_id c) eqn:En.
  { destruct (command_eqb _ _); by simplify_eq. }
  destruct (_ || _) eqn:Ecap; [by simplify_eq|]. apply orb_false_iff in Ecap as [Ecap Eord].
  destruct (is_halted _); [by simplify_eq|]. destruct (_ && entries_stopped _); [by simplify_eq|].
  destruct (i64_max <? _)%Z; [by simplify_eq|]. injection He as <- <-.
  apply admit_ok; cbn; try done; [by eapply driver_ok_frame|lia|].
  intros Ht. rewrite Ht in Eord. simpl in Eord. lia.
Qed.

(** ** Results *)
Lemma mark_reduced_ok d r d' res : driver_ok d -> mark_reduced d r = (d', res) -> driver_ok d'.
Proof.
  intros Hd Hm. unfold mark_reduced in Hm. destruct (d_pending d !! rcpt_id r) as [p|] eqn:Ep; [|by simplify_eq].
  destruct (negb _); [by simplify_eq|]. destruct (pd_progress p) as [|k|] eqn:Epr; try (by simplify_eq).
  injection Hm as <- <-. destruct (do_pending d Hd _ _ Ep) as [P1 P2 P3 P4 P5].
  assert (Haw : awaits p = false) by (unfold awaits; by rewrite Epr).
  split; cbn; [apply (core_ok_update d (rcpt_id r) p);
    [apply Hd|done|split; [exact P1|exact P2|exact P3|by intros _|by intros _]|done|done]|..].
  - intros ps Hps. eapply persisting_insert; [by apply (do_persisting d Hd)|done|done].
  - eapply applying_insert; [apply Hd|done|done].
Qed.

Lemma count_awaits_answer d id p p' :
  d_pending d !! id = Some p -> awaits p' = false ->
  count_where awaits (d_pending d) =
    (if awaits p then 1 else 0) + count_where awaits (<[id := p']> (d_pending d)).
Proof.
  intros Hp Ha. rewrite count_where_insert, (count_where_split awaits (d_pending d) id), Hp.
  unfold counts_one. simpl. rewrite Ha. lia.
Qed.

Lemma next_ready_ok d :
  driver_ok d -> events_handed d ->
  exists d' r, next_ready d = Some (d', r) /\ driver_ok d' /\ events_handed d'.
Proof.
  intros Hd Hev. unfold next_ready. destruct (execution_stop_error _); [by eauto|].
  destruct (w_events (d_worker d)) as [|e rest] eqn:Ee.
  { destruct (is_halted _); [|by eauto]. eexists _, _. split; [done|]. split; [by apply request_stop_ok|done]. }
  set (d1 := d <| d_worker := (d_worker d) <| w_events := rest |> |>).
  assert (Hd1 : driver_ok d1) by (by apply driver_ok_worker).
  assert (Hev1 : events_handed d1).
  { intros e' p Hin Hp. apply (Hev e' p); [rewrite Ee; by right|done]. }
  set (pr := match e with CompletionEvent k => _ | FailedEvent _ _ => _ end).
  assert (Hpr : pr.1 = event_receipt e /\ is_progress_queued pr.2 = false) by (unfold pr; by destruct e).
  destruct pr as [r progress]. simpl in Hpr. destruct Hpr as [-> Hpq].
  change (d_pending d1) with (d_pending d). destruct (d_pending d !! rcpt_id (event_receipt e)) as [p|] eqn:Ep.
  2:{ eexists _, _. split; [done|]. split; [by apply request_stop_ok|done]. }
  destruct (negb _); [eexists _, _; split; [done|]; split; [by apply request_stop_ok|done]|].
  assert (Hh : pd_dispatch_queued p = true) by (apply (Hev e p); [rewrite Ee; left|done]).
  set (p' := p <| pd_progress := progress |>). assert (Haw' : awaits p' = false) by exact Hpq.
  pose proof (count_awaits_answer d _ p p' Ep Haw') as Hcount. pose proof (do_awaiting d Hd) as Hda.
  assert (Hdec : exists n, (if awaits p then decrement (d_awaiting_completion d1) else Some (d_awaiting_completion d1)) = Some n
                   /\ n = count_where awaits (<[rcpt_id (event_receipt e) := p']> (d_pending d))).
  { change (d_awaiting_completion d1) with (d_awaiting_completion d). rewrite Hda, Hcount.
    destruct (awaits p); simpl; eauto. }
  destruct Hdec as (n & -> & Hn). eexists _, _. split; [done|].
  destruct (do_pending d Hd _ _ Ep) as [P1 P2 P3 P4 P5].
  destruct Hd as [[Hp Hi He Hc Ho Ha Hcap Hocap] Hps Hap].
  split; [split; [split|..]; cbn; try done|].
  - apply map_Forall_insert_2; [split; by auto|done].
  - by eapply indexed_insert.
  - by eapply queued_insert.
  - by eapply queued_insert.
  - by rewrite (count_where_same is_ordinary _ _ p).
  - by rewrite map_size_insert_Some by eauto.
  - intros ps Hps0. eapply persisting_insert; [by apply Hps|done|done].
  - by eapply applying_insert.
  - intros e' q Hin. cbn. destruct (decide (rcpt_id (event_receipt e') = rcpt_id (event_receipt e))) as [->|].
    + rewrite lookup_insert_eq. intros [= <-]. done.
    + rewrite lookup_insert_ne by done. by apply Hev1.
Qed.

(** ** Checkpoints *)
Lemma mark_all_spec f ids m :
  (forall p, f (f p) = f p) -> (forall id, id ∈ ids -> is_Some (m !! id)) ->
  exists m', mark_all f ids m = Some m' /\
    forall id, m' !! id = (if decide (id ∈ ids) then f <$> (m !! id) else m !! id).
Proof.
  intros Hff. revert m. induction ids as [|x ids IH]; intros m Hall; simpl.
  { exists m. split; [done|]. intros id. destruct (decide (id ∈ [])) as [Hn|_]; [by apply elem_of_nil in Hn|done]. }
  destruct (Hall x) as [p Hp]; [left|]. rewrite Hp.
  destruct (IH (<[x := f p]> m)) as (m' & Hm' & Hl).
  { intros id Hid. apply lookup_insert_is_Some'. right. apply Hall. by right. }
  exists m'. split; [done|]. intros id. rewrite Hl. destruct (decide (id = x)) as [->|Hne].
  - rewrite lookup_insert_eq, Hp. destruct (decide (x ∈ x :: ids)) as [_|Hn]; [|destruct Hn; left].
    destruct (decide (x ∈ ids)); simpl; by rewrite ?Hff.
  - rewrite lookup_insert_ne by done.
    destruct (decide (id ∈ ids)) as [Hi|Hi], (decide (id ∈ x :: ids)) as [Hj|Hj]; try done; set_solver.
Qed.

Lemma core_ok_mark d f ids m' :
  core_ok d -> mark_all f ids (d_pending d) = Some m' ->
  (forall id p, id ∈ ids -> pending_ok id p -> d_pending d !! id = Some p -> pending_ok id (f p)) ->
  (forall p, index_view (f p) = index_view p /\ awaits (f p) = awaits p /\ f (f p) = f p) ->
  core_ok (d <| d_pending := m' |>).
Proof.
  intros Hc Hm Hf Hv. assert (Hgen : forall l m, core_ok (d <| d_pending := m |>) ->
    (forall id p, id ∈ l -> m !! id = Some p -> pending_ok id (f p)) ->
    mark_all f l m = Some m' -> core_ok (d <| d_pending := m' |>)).
  2:{ apply (Hgen ids (d_pending d)); [by eapply core_ok_frame| |done].
      intros id p Hid Hp. apply Hf; [done|by apply (do_pending d Hc)|done]. }
  clear ids Hm Hf. induction l as [|x l IH]; intros m Hm Hf Hrun; simpl in Hrun; [by simplify_eq|].
  destruct (m !! x) as [p|] eqn:Ep; [|done]. destruct (Hv p) as (V1 & V2 & V3).
  apply (IH (<[x := f p]> m)); [| |done].
  - eapply core_ok_frame; [apply (core_ok_update _ x p (f p) Hm Ep); [apply Hf; [left|done]|done|done]|done..].
  - intros id q Hid Hq. destruct (decide (id = x)) as [->|].
    + rewrite lookup_insert_eq in Hq. simplify_eq. rewrite V3. apply Hf; [left|done].
    + rewrite lookup_insert_ne in Hq by done. apply Hf; [by right|done].
Qed.

Lemma check_receipts_spec d rows receipts :
  check_receipts d rows receipts = Ok () ->
  forall r, r ∈ receipts -> exists p, d_pending d !! rcpt_id r = Some p /\ receipt (pd_command p) = r /\
    pd_reduced p = true /\ pd_applying p = false.
Proof.
  induction receipts as [|x rest IH]; simpl; intros Hc r Hr; [by apply elem_of_nil in Hr|].
  destruct (d_pending d !! rcpt_id x) as [p|] eqn:Ep; [|done].
  destruct (negb (bool_decide _)) eqn:Er; [done|]. apply negb_false_iff, bool_decide_eq_true in Er.
  destruct (negb (pd_reduced p) || pd_applying p) eqn:Ea; [done|]. break_bool.
  destruct (negb _); [done|]. apply elem_of_cons in Hr as [->|Hr]; [eauto 6|by apply IH].
Qed.

Lemma pending_of_Some d ids :
  (forall id, id ∈ ids -> is_Some (d_pending d !! id)) ->
  exists l, pending_of d ids = Some l /\ Forall2 (fun id p => d_pending d !! id = Some p) ids l.
Proof.
  induction ids as [|x ids IH]; intros Hall; simpl; [eauto|].
  destruct (Hall x) as [p Hp]; [left|]. destruct IH as (l & -> & Hl); [intros id Hid; apply Hall; by right|].
  rewrite Hp. eauto.
Qed.

Lemma stage_rows_Some d applied rows :
  core_ok d -> exists rows' intents, stage_rows d applied rows = Some (rows', intents) /\
    forall i, i ∈ intents -> exists p, d_pending d !! cmd_id (in_command i) = Some p /\ in_command i = pd_command p.
Proof.
  intros Hc. induction rows as [|row rows IH]; simpl; [eexists [], []; split; [done|]; by intros i Hi%elem_of_nil|].
  destruct IH as (rows' & intents & -> & Hi). unfold stage_row.
  destruct (pending_of_Some d (commands_of d (x_insight_id row))) as (l & -> & Hl).
  { intros id Hid. destruct (do_indexed d Hc) as [_ Hx]. apply Hx in Hid as (p & Hp & _). eauto. }
  eexists _, _. split; [done|]. intros i [Hin|Hin]%elem_of_app; [|by apply Hi].
  apply list_elem_of_fmap in Hin as (p & -> & Hin). apply list_elem_of_In, List.filter_In in Hin as [Hin _].
  simpl. apply list_elem_of_In, list_elem_of_lookup in Hin as [k Hk].
  destruct (Forall2_lookup_r _ _ _ _ _ Hl Hk) as (id & _ & Hp).
  rewrite (po_id _ _ (do_pending d Hc _ _ Hp)). eauto.
Qed.
Lemma with_intents_Ok rows applied intents b :
  with_intents rows applied intents = Ok b ->
  b_intents b = intents /\ NoDup (rcpt_id <$> applied) /\ NoDup ((cmd_id ∘ in_command) <$> intents).
Proof.
  unfold with_intents. destruct (_ || _); [done|].
  destruct (check_applied rows ∅ applied) as [commands|] eqn:Ea; [|done]. cbn.
  destruct (_ <? _)%Z; [done|]. match goal with |- context [if ?b then _ else _] => destruct b end; [done|].
  destruct (check_intents _ _ _ _) eqn:Ei; [|done]. cbn. destruct (encode_rows _ _ _); [|done].
  intros [= <-]. split; [done|]. split; [by eapply check_applied_spec|by eapply check_intents_spec].
Qed.

Lemma persist_ok d rows receipts submit :
  driver_ok d -> exists d' r, persist_execution_checkpoints d rows receipts submit = Some (d', r) /\ driver_ok d'.
Proof.
  intros Hd. unfold persist_execution_checkpoints. destruct (d_persisting d) as [ps|] eqn:Eps; [by eauto|]. simpl.
  destruct (check_receipts d rows receipts) as [[]|] eqn:Ec; [|by eauto].
  pose proof (check_receipts_spec _ _ _ Ec) as Hr.
  destruct (stage_rows_Some d (list_to_set (rcpt_id <$> receipts)) rows (do_core d Hd)) as (rows' & intents & -> & Hi).
  destruct (with_intents rows' receipts intents) as [b|] eqn:Ew; [|by eauto].
  destruct submit; [|by eauto].
  assert (Hids : forall id, id ∈ rcpt_id <$> receipts -> exists p, d_pending d !! id = Some p /\ pd_reduced p = true).
  { intros id (r & -> & Hin)%list_elem_of_fmap. destruct (Hr r Hin) as (p & ? & _ & ? & _). eauto. }
  destruct (mark_all_spec (fun p => p <| pd_applying := true |>) (rcpt_id <$> receipts) (d_pending d)) as (m' & Hm' & Hl).
  { done. }
  { intros id Hid. destruct (Hids id Hid) as (p & ? & _). eauto. }
  unfold mark_applying. rewrite Hm'. eexists _, _. split; [done|]. split; cbn.
  - eapply (core_ok_frame (d <| d_pending := m' |>)); [|done..].
    eapply core_ok_mark; [apply Hd|done| |done].
    intros id p Hid [P1 P2 P3 P4 P5] Hp. destruct (Hids id Hid) as (p' & Hp' & Hred).
    assert (p' = p) as -> by congruence.
    split; [exact P1|exact P2|exact P3|exact P4|by intros _].
  - intros ps [= <-]. apply with_intents_Ok in Ew as (_ & Ea & _).
    split; cbn; [done| | |done].
    + intros id Hid. rewrite Hl, decide_True by done. destruct (Hids id Hid) as (p & -> & _). simpl. eauto.
    + intros id (i & -> & Hin)%list_elem_of_fmap. rewrite Hl.
      destruct (Hi i Hin) as (p & -> & _). destruct (decide _); simpl; eauto.
  - intros id p. rewrite Hl. destruct (decide (id ∈ _)); [by eauto|]. intros Hp Hap.
    destruct (do_applying d Hd id p Hp Hap) as (? & ? & _). congruence.
Qed.

(** ** Acknowledgements *)
Lemma foldl_frame {A B} (f : A -> B -> A) (R : relation A) `{!PreOrder R} l a :
  (forall a b, R a (f a b)) -> R a (foldl f a l).
Proof. intros Hf. revert a. induction l as [|b l IH]; intros a; simpl; [done|]. etrans; [apply Hf|apply IH]. Qed.

(** Only the worker and the saved rows differ. *)
Definition command_view (d : Driver) :=
  (d_pending d, d_persisting d, d_by_insight d, d_entry_admission d, d_control_admission d,
   d_ordinary_pending d, d_awaiting_completion d, d_max_pending d, d_max_ordinary_pending d,
   w_events (d_worker d), w_journal (d_worker d)).
Definition same_commands (d d' : Driver) : Prop := command_view d' = command_view d.
#[export] Instance same_commands_preorder : PreOrder same_commands.
Proof. split; [done|]. intros d1 d2 d3 A B. by unfold same_commands; etrans. Qed.
Lemma set_deadlines_same d o t : same_commands d (set_deadlines d o t).
Proof.
  unfold set_deadlines. apply foldl_frame; [apply _|]. intros a id. destruct (is_some_and _ _); [|done].
  by destruct a.
Qed.
Lemma install_rows_same d rows : same_commands d (foldl install_row d rows).
Proof.
  apply foldl_frame; [apply _|]. intros a [o row]. unfold install_row. simpl.
  etrans; [apply (set_deadlines_same a o (sr_entry_deadline row))|].
  by destruct (set_deadlines a o (sr_entry_deadline row)).
Qed.
Lemma same_commands_ok d d' : same_commands d d' -> driver_ok d -> driver_ok d'.
Proof. intros [= E1 E2 E3 E4 E5 E6 E7 E8 E9 _ _] Hd. by eapply driver_ok_frame. Qed.

Lemma list_filter_ne_elem (x id : string) (l : list string) :
  x ∈ List.filter (fun e => negb (String.eqb e id)) l <-> x ∈ l /\ x <> id.
Proof.
  rewrite list_elem_of_In, List.filter_In, <- list_elem_of_In.
  destruct (String.eqb_spec x id); simpl; naive_solver.
Qed.
Lemma list_filter_nodup {A} (f : A -> bool) (l : list A) : NoDup l -> NoDup (List.filter f l).
Proof. rewrite !NoDup_ListNoDup. apply List.NoDup_filter. Qed.

Lemma indexed_release by_insight pending id p :
  indexed by_insight pending -> pending !! id = Some p ->
  indexed (match by_insight !! pd_owner_id p with
           | Some ids => match List.filter (fun e => negb (String.eqb e id)) ids with
                         | [] => delete (pd_owner_id p) by_insight
                         | rest => <[pd_owner_id p := rest]> by_insight
                         end
           | None => by_insight
           end) (delete id pending).
Proof.
  intros [Hl Hi] Hp. assert (Hin : id ∈ unwrap_or (by_insight !! pd_owner_id p) []) by (apply Hi; eauto).
  destruct (by_insight !! pd_owner_id p) as [ids|] eqn:Eb; [|by apply elem_of_nil in Hin]. simpl in Hin.
  destruct (Hl _ _ Eb) as [_ Hnd].
  assert (Hf : forall x, x ∈ List.filter (fun e => negb (String.eqb e id)) ids <->
    exists q, delete id pending !! x = Some q /\ pd_owner_id q = pd_owner_id p).
  { intros x. rewrite list_filter_ne_elem. specialize (Hi (pd_owner_id p) x). rewrite Eb in Hi. simpl in Hi.
    rewrite Hi. setoid_rewrite lookup_delete_Some. naive_solver. }
  assert (Hother : forall o x, o <> pd_owner_id p -> x ∈ unwrap_or (by_insight !! o) [] <->
    exists q, delete id pending !! x = Some q /\ pd_owner_id q = o).
  { intros o x Ho. rewrite Hi. setoid_rewrite lookup_delete_Some. naive_solver. }
  apply (list_filter_nodup (fun e => negb (String.eqb e id))) in Hnd.
  destruct (List.filter _ ids) as [|y rest] eqn:Ef.
  - split; [intros o l|intros o x]; (destruct (decide (o = pd_owner_id p)) as [->|Ho];
      [rewrite (lookup_delete_eq by_insight)|rewrite (lookup_delete_ne by_insight) by done]); simpl; eauto; done.
  - split; [intros o l|intros o x]; (destruct (decide (o = pd_owner_id p)) as [->|Ho];
      [rewrite (lookup_insert_eq by_insight)|rewrite (lookup_insert_ne by_insight) by done]); simpl; eauto.
    by intros [= <-].
Qed.

Lemma queued_release queue b pending id p :
  queued queue b pending -> pending !! id = Some p -> pd_dispatch_queued p = true ->
  queued queue b (delete id pending).
Proof.
  intros [Hn Hq] Hp Hd. split; [done|]. intros x. rewrite Hq.
  destruct (decide (id = x)) as [<-|Hne]; [rewrite lookup_delete_eq|by rewrite lookup_delete_ne].
  split; intros (q & Hq' & _ & Hf); congruence.
Qed.

Lemma release_command_ok d id p :
  core_ok d -> d_pending d !! id = Some p -> pd_reduced p = true ->
  exists d', release_command d id = Some d' /\ core_ok d' /\
    d_pending d' = delete id (d_pending d) /\ d_persisting d' = d_persisting d /\
    w_events (d_worker d') = w_events (d_worker d) /\ w_journal (d_worker d') = w_journal (d_worker d).
Proof.
  intros [Hp Hi He Hc Ho Ha Hcap Hocap] Hl Hr. unfold release_command. rewrite Hl.
  destruct (Hp _ _ Hl) as [P1 P2 P3 P4 P5]. pose proof (P3 (P4 Hr)) as Hdq.
  pose proof (count_where_split is_ordinary (d_pending d) id) as Hco.
  pose proof (count_where_split awaits (d_pending d) id) as Hca.
  rewrite Hl in Hco, Hca. unfold counts_one in Hco, Hca. simpl in Hco, Hca. rewrite (P4 Hr) in Hca.
  assert (Hdec : exists n, (if is_ordinary p then decrement (d_ordinary_pending d)
      else Some (d_ordinary_pending d)) = Some n /\ n = count_where is_ordinary (delete id (d_pending d)) /\
      n <= d_ordinary_pending d).
  { rewrite Ho, Hco. destruct (is_ordinary p); simpl; eauto. }
  destruct Hdec as (n & -> & Hn & Hle). eexists. split; [done|]. split; [|done]. split; cbn; try done.
  - by apply map_Forall_delete.
  - by apply indexed_release.
  - by eapply queued_release.
  - by eapply queued_release.
  - lia.
  - rewrite map_size_delete_Some by eauto. lia.
  - lia.
Qed.

Lemma release_commands_ok ids d :
  core_ok d -> NoDup ids ->
  (forall id, id ∈ ids -> exists p, d_pending d !! id = Some p /\ pd_reduced p = true) ->
  exists d', release_commands d ids = Some d' /\ core_ok d' /\
    (forall x, d_pending d' !! x = if decide (x ∈ ids) then None else d_pending d !! x) /\
    d_persisting d' = d_persisting d /\
    w_events (d_worker d') = w_events (d_worker d) /\ w_journal (d_worker d') = w_journal (d_worker d).
Proof.
  revert d. induction ids as [|id ids IH]; intros d Hd Hn Hall; simpl.
  { eexists. split; [done|]. split; [done|]. split; [|done]. intros x.
    destruct (decide (x ∈ [])) as [Hx|_]; [by apply elem_of_nil in Hx|done]. }
  apply NoDup_cons in Hn as [Hnotin Hn]. destruct (Hall id) as (p & Hp & Hr); [left|].
  destruct (release_command_ok d id p Hd Hp Hr) as (d1 & -> & Hd1 & E1 & E2 & E3 & E4).
  destruct (IH d1 Hd1 Hn) as (d' & -> & Hd' & F1 & F2 & F3 & F4).
  { intros x Hx. rewrite E1. destruct (Hall x) as (q & Hq & Hqr); [by right|].
    exists q. rewrite lookup_delete_ne by (intros ->; done). done. }
  eexists. split; [done|]. split; [done|]. split; [|split; [|split]; congruence].
  intros x. rewrite F1, E1. destruct (decide (x = id)) as [->|Hne].
  - rewrite lookup_delete_eq. destruct (decide (id ∈ id :: ids)) as [_|Hx]; [by destruct (decide _)|].
    destruct Hx. left.
  - rewrite lookup_delete_ne by done.
    destruct (decide (x ∈ ids)) as [Hi|Hi], (decide (x ∈ id :: ids)) as [Hj|Hj]; try done; set_solver.
Qed.

(** A command whose answer is outstanding. *)
Definition outstanding (d : Driver) (id : string) : Prop :=
  exists p, d_pending d !! id = Some p /\ pd_dispatch_queued p = true /\ awaits p = true.

(** The commands of [d'] are commands of [d], handed over if they were; so are the events, and
    no outstanding command is lost. *)
Record handed_le (d d' : Driver) : Prop := {
  hl_events : w_events (d_worker d') = w_events (d_worker d);
  hl_pending id p' : d_pending d' !! id = Some p' ->
    exists p, d_pending d !! id = Some p /\ (pd_dispatch_queued p = true -> pd_dispatch_queued p' = true);
  hl_outstanding id : outstanding d id -> outstanding d' id
}.
Lemma handed_le_events d d' : handed_le d d' -> events_handed d -> events_handed d'.
Proof.
  intros [Ee Hp _] Hev e p' He Hl. rewrite Ee in He. destruct (Hp _ _ Hl) as (p & Hlp & Hq). eauto.
Qed.
#[export] Instance handed_le_preorder : PreOrder handed_le.
Proof.
  split; [by split; eauto|]. intros d1 d2 d3 [E1 H1' O1] [E2 H2' O2]. split; [congruence| |auto]. intros id p3 Hp3.
  destruct (H2' _ _ Hp3) as (p2 & Hp2 & ?). destruct (H1' _ _ Hp2) as (p1 & Hp1 & ?). eauto.
Qed.
(** The commands are those of [d], changed by [f] at [ids]. *)
Lemma handed_le_mark d d' (f : PendingCommand -> PendingCommand) (ids : list string) :
  w_events (d_worker d') = w_events (d_worker d) ->
  (forall p, pd_dispatch_queued (f p) = pd_dispatch_queued p /\ awaits (f p) = awaits p) ->
  (forall x, d_pending d' !! x = if decide (x ∈ ids) then f <$> (d_pending d !! x) else d_pending d !! x) ->
  handed_le d d'.
Proof.
  intros Ee Hf Hx. split; [done| |].
  - intros id p'. rewrite Hx. destruct (decide _); [|eauto]. destruct (d_pending d !! id) as [p|]; [|done].
    intros [= <-]. exists p. by destruct (Hf p) as [-> _].
  - intros id (p & Hp & Hq & Ha). unfold outstanding. rewrite Hx, Hp. destruct (decide _); [|eauto].
    exists (f p). by destruct (Hf p) as [-> ->].
Qed.

(** The worker reports once on each command it was handed. *)
Definition awaited (d : Driver) : Prop :=
  NoDup ((rcpt_id ∘ event_receipt) <$> w_events (d_worker d)) /\
  forall e, e ∈ w_events (d_worker d) -> outstanding d (rcpt_id (event_receipt e)).
Lemma awaited_handed d : awaited d -> events_handed d.
Proof. intros [_ Ha] e p He Hp. destruct (Ha e He) as (q & Hq & Hh & _). congruence. Qed.
Lemma awaited_keep d d' :
  w_events (d_worker d') = w_events (d_worker d) -> (forall id, outstanding d id -> outstanding d' id) ->
  awaited d -> awaited d'.
Proof. intros Ee Ho [Hn Ha]. split; rewrite Ee; auto. Qed.

Lemma release_applied_ok d ps n :
  core_ok d -> persisting_ok (d_pending d) ps -> applying_in (d_pending d) (Some ps) -> ps_reply ps = None ->
  exists d' k, release_applied d ps n = Some (d', Ok k) /\ driver_ok d' /\ handed_le d d' /\
    w_journal (d_worker d') = w_journal (d_worker d) /\
    (forall ps', d_persisting d' = Some ps' -> ps_prepared ps' = [] /\ ps_reply ps' = None) /\
    exists ids, ids ⊆ ps_applied ps /\ NoDup ids /\
      forall x, d_pending d' !! x = if decide (x ∈ ids) then None else d_pending d !! x.
Proof.
  intros Hc [A B C D] Hap Hr. unfold release_applied. set (k := Nat.min _ 256).
  assert (Hsplit : NoDup (take k (ps_applied ps) ++ drop k (ps_applied ps))) by (by rewrite take_drop).
  apply NoDup_app in Hsplit as (Hnt & Hdisj & Hnd).
  destruct (release_commands_ok (take k (ps_applied ps)) d Hc Hnt) as (d1 & -> & Hd1 & E1 & E2 & E3 & E4).
  { intros id Hid. destruct (B id) as (p & Hp & Hpa); [by eapply subseteq_take|].
    exists p. split; [done|]. by apply (po_applying id p (do_pending d Hc _ _ Hp)). }
  set (d2 := d1 <| d_persisting := _ |>). set (d3 := if k =? 0 then d2 else _).
  assert (Hd2 : driver_ok d2).
  { split; cbn; [by eapply core_ok_frame| |].
    - intros ps' Hps'. assert (ps' = mkPersisting (drop k (ps_applied ps)) (ps_prepared ps) (ps_rows ps)
        (ps_reply ps) (ps_batch ps)) as -> by (destruct (drop k (ps_applied ps)); congruence).
      split; cbn; [done| | |done].
      + intros id Hid. rewrite E1. destruct (decide (id ∈ take k (ps_applied ps))) as [Ht|_]; [by destruct (Hdisj id)|].
        apply B. by eapply subseteq_drop.
      + rewrite (D Hr). by intros id Hid%elem_of_nil.
    - intros id p Hp Hpa. rewrite E1 in Hp. destruct (decide (id ∈ take k (ps_applied ps))) as [|Hnt']; [done|].
      destruct (Hap id p Hp Hpa) as (ps' & [= <-] & Hin).
      rewrite <- (take_drop k (ps_applied ps)), elem_of_app in Hin. destruct Hin as [|Hin]; [done|].
      destruct (drop k (ps_applied ps)) as [|y rest] eqn:Ed; [by apply elem_of_nil in Hin|]. eauto. }
  assert (Hv3 : command_view d3 = command_view d2) by (unfold d3; by destruct (k =? 0)).
  assert (Hd3 : driver_ok d3) by (by eapply same_commands_ok).
  injection Hv3 as F1 F2 _ _ _ _ _ _ _ F10 F11. eexists d3, k. split; [done|]. split; [done|].
  split; [split; [by rewrite F10| |]|split; [by rewrite F11|split; [|exists (take k (ps_applied ps))]]].
  - intros id p'. rewrite F1. cbn. rewrite E1. destruct (decide _); [done|]. eauto.
  - intros id (p & Hp & Hq & Ha). exists p. rewrite F1. cbn. rewrite E1. destruct (decide _) as [Hin|]; [|done].
    exfalso. destruct (B id) as (q & Hq' & Hqa); [by eapply subseteq_take|]. assert (q = p) as -> by congruence.
    destruct (do_pending d Hc _ _ Hp) as [_ _ _ P4 P5]. specialize (P4 (P5 Hqa)). congruence.
  - intros ps'. rewrite F2. cbn. destruct (drop k _); [done|]. intros [= <-]. simpl. auto.
  - split; [by apply subseteq_take|]. split; [done|]. intros x. rewrite F1. cbn. apply E1.
Qed.
End Facts.
