(* ===== verification/CommandLife.v ===== *)
(** * CommandLife: every command of the driver lives once

    The contract of the command driver as a state machine over the life of each
    command, and the refinement: every operation of [CommandDriver], composed with
    a worker whose journal only evolves, takes the commands along that machine,
    keeps the driver's invariant, never panics, and hands a command to the worker
    only when the journal holds it. *)
From S2P Require Import Prelude.
From S2P Require Import Float64.
From S2P Require Import Text.
From S2P Require Import BrokerTypes.
From S2P Require Import TimeFrame.
From S2P Require Import InsightTypes.
From S2P Require Import Commands.
From S2P Require Import ExecutionData.
From S2P Require Import Insight.
From S2P Require Import Operations.
From S2P Require Import Checkpoint.
From S2P Require Import Journal.
From S2P Require Import JournalFacts.
From S2P Require Import Scripted.
From S2P Require Import CommandWorker.
From S2P Require Import CommandWorkerFacts.
From S2P Require Import CommandDriver.
From S2P Require Import CommandDriverFacts.

Section Life.
Context `{UuidText} `{Json} `{CommandIds} `{JournalJson} `{Chrono}.

(** ** The life of a command

    The contract of the driver: a command is staged, saved, handed to the worker once,
    answered, consumed and saved again with its insight; only then it leaves.  A save that
    fails takes it back to consumed. *)
Inductive Life := Staged | Saved | Handed | Answered | Consumed | Saving.
Definition life (p : PendingCommand) : Life :=
  if pd_applying p then Saving
  else if pd_reduced p then Consumed
  else if negb (awaits p) then Answered
  else if pd_dispatch_queued p then Handed
  else if pd_durable p then Saved
  else Staged.
Inductive moves : Life -> Life -> Prop :=
| moves_save : moves Staged Saved
| moves_hand : moves Saved Handed
| moves_answer : moves Handed Answered
| moves_consume : moves Answered Consumed
| moves_saving : moves Consumed Saving
| moves_unsaved : moves Saving Consumed.
Inductive life_step : gmap string Life -> gmap string Life -> Prop :=
| life_admit m id : m !! id = None -> life_step m (<[id := Staged]> m)
| life_restore m id : m !! id = None -> life_step m (<[id := Saved]> m)
| life_move m id a b : m !! id = Some a -> moves a b -> life_step m (<[id := b]> m)
| life_release m id : m !! id = Some Saving -> life_step m (delete id m).
Definition lives (d : Driver) : gmap string Life := life <$> d_pending d.
Definition follows (d d' : Driver) : Prop := rtc life_step (lives d) (lives d').
#[export] Instance follows_preorder : PreOrder follows.
Proof. split; [intros d; apply rtc_refl|]. intros d1 d2 d3 A B. unfold follows. by etrans. Qed.

Lemma follows_same d d' : d_pending d' = d_pending d -> follows d d'.
Proof. unfold follows, lives. intros ->. apply rtc_refl. Qed.

Definition may_move (p p' : PendingCommand) : Prop := life p' = life p \/ moves (life p) (life p').
Lemma lives_update (m : gmap string PendingCommand) id p p' :
  m !! id = Some p -> may_move p p' -> rtc life_step (life <$> m) (life <$> <[id := p']> m).
Proof.
  intros Hp Hm. rewrite fmap_insert. assert (Hl : (life <$> m) !! id = Some (life p)) by (by rewrite lookup_fmap, Hp).
  destruct Hm as [->|Hm]; [rewrite insert_id by done; apply rtc_refl|]. apply rtc_once. by eapply life_move.
Qed.
Lemma mark_all_lives (Q : PendingCommand -> Prop) f ids m m' :
  mark_all f ids m = Some m' -> (forall id p, id ∈ ids -> m !! id = Some p -> Q p) ->
  (forall p, Q p -> Q (f p) /\ may_move p (f p)) -> rtc life_step (life <$> m) (life <$> m').
Proof.
  intros Hm HQ Hf. revert m Hm HQ. induction ids as [|x ids IH]; intros m Hm HQ; simpl in Hm.
  { injection Hm as ->. apply rtc_refl. }
  destruct (m !! x) as [p|] eqn:Ep; [|done]. destruct (Hf p) as [Hq Hmv]; [apply (HQ x); [left|done]|].
  etrans; [by apply (lives_update m x p (f p))|]. apply IH; [done|]. intros id q Hid.
  destruct (decide (id = x)) as [->|]; [rewrite lookup_insert_eq; by intros [= <-]|].
  rewrite lookup_insert_ne by done. apply HQ. by right.
Qed.
Lemma may_move_applying b p : pd_reduced p = true -> may_move p (p <| pd_applying := b |>).
Proof.
  intros Hr. unfold may_move, life. cbn. rewrite Hr.
  destruct b, (pd_applying p); cbn; auto; right; constructor.
Qed.
Lemma may_move_durable p : may_move p (p <| pd_durable := true |>).
Proof.
  unfold may_move, life. cbn. change (awaits (p <| pd_durable := true |>)) with (awaits p).
  destruct (pd_applying p), (pd_reduced p), (awaits p), (pd_dispatch_queued p), (pd_durable p); cbn; auto;
    right; constructor.
Qed.
Lemma lives_release (ids : list string) (m m' : gmap string PendingCommand) :
  NoDup ids -> (forall id, id ∈ ids -> exists p, m !! id = Some p /\ pd_applying p = true) ->
  (forall x, m' !! x = if decide (x ∈ ids) then None else m !! x) ->
  rtc life_step (life <$> m) (life <$> m').
Proof.
  intros Hn. revert m. induction Hn as [|x ids Hx Hn IH]; intros m Hall Hm'.
  { assert (m' = m) as ->; [|apply rtc_refl]. apply map_eq. intros i. rewrite Hm'.
    destruct (decide (i ∈ [])) as [Hi|]; [by apply elem_of_nil in Hi|done]. }
  destruct (Hall x) as (p & Hp & Hpa); [left|]. eapply rtc_l.
  { apply (life_release _ x). rewrite lookup_fmap, Hp. simpl. unfold life. by rewrite Hpa. }
  rewrite <- fmap_delete. apply IH.
  - intros id Hid. destruct (Hall id) as (q & Hq & Hqa); [by right|]. exists q.
    rewrite lookup_delete_ne by (intros ->; done). done.
  - intros y. rewrite Hm'. destruct (decide (y = x)) as [->|Hne].
    + rewrite lookup_delete_eq. destruct (decide (x ∈ x :: ids)) as [|Hi]; [by destruct (decide _)|destruct Hi; left].
    + rewrite lookup_delete_ne by done.
      destruct (decide (y ∈ ids)) as [Hi|Hi], (decide (y ∈ x :: ids)) as [Hj|Hj]; try done; set_solver.
Qed.

(** ** What the journal holds *)

(** The journal has the command's row. *)
Definition recorded (j : Journal) (c : BrokerCommand) : Prop :=
  exists r, j_commands j !! cmd_id c = Some r /\ (command_eqb (rec_command r) c = true \/ rec_command r = c).
Lemma record_steps_command id o o' r :
  rtc (record_step id) o o' -> o = Some r -> exists r', o' = Some r' /\ rec_command r' = rec_command r.
Proof.
  intros Hs. revert r. induction Hs as [o|o1 o2 o3 Hst _ IH]; intros r ->; [eauto|].
  inversion Hst; subst; destruct (IH _ eq_refl) as (r' & -> & E); by exists r'.
Qed.
Lemma recorded_evolves j j' c : evolves j j' -> recorded j c -> recorded j' c.
Proof.
  intros (_ & _ & Hst) (r & Hr & He). destruct (record_steps_command _ _ _ r (Hst (cmd_id c)) Hr) as (r' & Hr' & Ec).
  exists r'. by rewrite Ec.
Qed.

Definition journal_of (d : Driver) : Journal := w_journal (d_worker d).
(** Durable commands are in the journal; the answer of a batch is the journal's. *)
Record journaled (d : Driver) : Prop := {
  jd_durable id p : d_pending d !! id = Some p -> pd_durable p = true -> recorded (journal_of d) (pd_command p);
  jd_prepared ps id : d_persisting d = Some ps -> id ∈ ps_prepared ps ->
    exists p i, d_pending d !! id = Some p /\ i ∈ b_intents (ps_batch ps) /\ in_command i = pd_command p;
  jd_answer ps : d_persisting d = Some ps -> ps_reply ps = Some (Some (Ok ())) ->
    forall i, i ∈ b_intents (ps_batch ps) -> recorded (journal_of d) (in_command i);
  jd_distinct ps : d_persisting d = Some ps -> ps_reply ps <> None ->
    NoDup ((cmd_id ∘ in_command) <$> b_intents (ps_batch ps))
}.

(** A change that neither admits nor makes durable, of a driver whose batch stays or is consumed. *)
Record tame (d d' : Driver) : Prop := {
  tm_journal : evolves (journal_of d) (journal_of d');
  tm_pending id p' : d_pending d' !! id = Some p' -> exists p, d_pending d !! id = Some p /\
    pd_command p' = pd_command p /\ pd_durable p' = pd_durable p;
  tm_batch ps' : d_persisting d' = Some ps' -> (ps_prepared ps' = [] /\ ps_reply ps' = None) \/ d_persisting d = Some ps'
}.
#[export] Instance tame_preorder : PreOrder tame.
Proof.
  split; [intros d; split; eauto; reflexivity|]. intros d1 d2 d3 [A B C] [A' B' C']. split; [by etrans| |].
  - intros id p3 H3'. destruct (B' _ _ H3') as (p2 & H2' & -> & ->). by apply B.
  - intros ps' Hps. destruct (C' _ Hps) as [|Hp]; [by left|]. by apply C.
Qed.
Lemma journaled_tame d d' : tame d d' -> driver_ok d' -> journaled d -> journaled d'.
Proof.
  intros [Tj Tp Tb] Hd' [A B C D]. split.
  - intros id p' Hp' Hdu. destruct (Tp _ _ Hp') as (p & Hp & -> & Ed). eapply recorded_evolves; [done|].
    apply (A id p Hp). congruence.
  - intros ps id Hps Hid. destruct (pso_prepared _ _ (do_persisting d' Hd' ps Hps) id Hid) as [p' Hp'].
    destruct (Tp _ _ Hp') as (p & Hp & Ec & _). destruct (Tb _ Hps) as [[E _]|Hps0].
    { rewrite E in Hid. by apply elem_of_nil in Hid. }
    destruct (B ps id Hps0 Hid) as (q & i & Hq & Hi & Ei). exists p', i. split; [done|]. split; [done|]. congruence.
  - intros ps Hps Hr i Hi. destruct (Tb _ Hps) as [[_ E]|Hps0]; [congruence|].
    eapply recorded_evolves; [done|]. by eapply C.
  - intros ps Hps Hr. destruct (Tb _ Hps) as [[_ E]|Hps0]; [done|]. by apply D.
Qed.
Lemma tame_worker d w : evolves (journal_of d) (w_journal w) -> tame d (d <| d_worker := w |>).
Proof. intros He. split; [done|by eauto|by right]. Qed.
Lemma tame_same d d' : same_commands d d' -> tame d d'.
Proof.
  intros [= E1 E2 _ _ _ _ _ _ _ _ E3]. split; unfold journal_of; rewrite ?E1, ?E2, ?E3; [done| |by right].
  eauto.
Qed.
Lemma tame_update d id p p' w :
  d_pending d !! id = Some p -> pd_command p' = pd_command p -> pd_durable p' = pd_durable p ->
  forall d', d_pending d' = <[id := p']> (d_pending d) -> d_persisting d' = d_persisting d ->
  d_worker d' = w -> evolves (journal_of d) (w_journal w) -> tame d d'.
Proof.
  intros Hp Ec Ed d' E1 E2 <- Hj. split; [done| |].
  - intros x q. rewrite E1. destruct (decide (x = id)) as [->|].
    + rewrite lookup_insert_eq. intros [= <-]. eauto.
    + rewrite lookup_insert_ne by done. eauto.
  - intros ps'. rewrite E2. by right.
Qed.

(** ** The operations *)

(** What every operation but admission and saving guarantees. *)
Record turn (d d' : Driver) : Prop := {
  tn_ok : driver_ok d';
  tn_follows : follows d d';
  tn_tame : tame d d'
}.
Lemma turn_trans d1 d2 d3 : turn d1 d2 -> turn d2 d3 -> turn d1 d3.
Proof. intros [] []. split; [done|by etrans|by etrans]. Qed.
Lemma turn_refl d : driver_ok d -> turn d d.
Proof. intros Hd. split; [done|reflexivity|reflexivity]. Qed.
Lemma turn_worker d w : driver_ok d -> evolves (journal_of d) (w_journal w) -> turn d (d <| d_worker := w |>).
Proof. intros Hd He. split; [by apply driver_ok_worker|by apply follows_same|by apply tame_worker]. Qed.
Lemma turn_stop d : driver_ok d -> turn d (request_stop d).
Proof. intros Hd. by apply turn_worker. Qed.
#[local] Hint Resolve turn_refl turn_stop : core.

Lemma mark_reduced_turn d r : driver_ok d -> turn d (mark_reduced d r).1.
Proof.
  intros Hd. destruct (mark_reduced d r) as [d' res] eqn:E. simpl. pose proof (mark_reduced_ok _ _ _ _ Hd E) as Hd'.
  unfold mark_reduced in E. destruct (d_pending d !! rcpt_id r) as [p|] eqn:Ep; [|simplify_eq; auto].
  destruct (negb _); [simplify_eq; auto|]. destruct (pd_progress p) as [|k|] eqn:Epr; try (simplify_eq; auto; fail).
  injection E as <- <-. split; [done| |].
  - apply (lives_update _ _ p); [done|]. unfold may_move, life, awaits. cbn. rewrite Epr. cbn.
    destruct (pd_applying p), (pd_reduced p); auto. right; constructor.
  - by apply (tame_update d (rcpt_id r) p (p <| pd_reduced := true |>) (d_worker d)).
Qed.

Lemma next_ready_turn d :
  driver_ok d -> events_handed d ->
  exists d' r, next_ready d = Some (d', r) /\ turn d d' /\ events_handed d'.
Proof.
  intros Hd Hev. destruct (next_ready_ok d Hd Hev) as (d' & r & En & Hd' & Hev'). exists d', r.
  split; [done|]. split; [|done]. unfold next_ready in En.
  destruct (execution_stop_error _); [injection En as <- <-; auto|].
  destruct (w_events (d_worker d)) as [|e rest] eqn:Ee.
  { destruct (is_halted _); injection En as <- <-; auto. }
  set (d1 := d <| d_worker := (d_worker d) <| w_events := rest |> |>) in En.
  assert (Ht1 : turn d d1) by (by apply turn_worker).
  set (pr := match e with CompletionEvent k => _ | FailedEvent _ _ => _ end) in En.
  assert (Hpr : pr.1 = event_receipt e /\ is_progress_queued pr.2 = false) by (unfold pr; by destruct e).
  destruct pr as [rc progress]. simpl in Hpr. destruct Hpr as [-> Hpq].
  change (d_pending d1) with (d_pending d) in En.
  destruct (d_pending d !! rcpt_id (event_receipt e)) as [p|] eqn:Ep.
  2:{ injection En as <- <-. eapply turn_trans; [done|]. apply turn_stop. apply Ht1. }
  destruct (negb _); [injection En as <- <-; eapply turn_trans; [done|]; apply turn_stop; apply Ht1|].
  assert (Hh : pd_dispatch_queued p = true) by (apply (Hev e p); [rewrite Ee; left|done]).
  destruct (if awaits p then _ else _) as [n|]; [|done]. injection En as <- <-. split; [done| |].
  - apply (lives_update _ _ p); [done|]. unfold may_move, life, awaits. cbn. rewrite Hpq, Hh. cbn.
    destruct (pd_applying p), (pd_reduced p), (is_progress_queued (pd_progress p)); auto. right; constructor.
  - by apply (tame_update d (rcpt_id (event_receipt e)) p (p <| pd_progress := progress |>)
      ((d_worker d) <| w_events := rest |>)).
Qed.

Lemma drain_loop_turn turns d ready :
  driver_ok d -> events_handed d -> exists d' r, drain_loop turns d ready = Some (d', r) /\ turn d d'.
Proof.
  revert d ready. induction turns as [|n IH]; intros d ready Hd Hev; simpl; [eauto|].
  destruct (next_ready_turn d Hd Hev) as (d1 & r & -> & Ht & Hev1).
  destruct r as [[e|]|error]; [|by eauto|destruct error, ready; eauto].
  destruct (IH d1 (ready ++ [e]) (tn_ok _ _ Ht) Hev1) as (d' & r' & -> & Ht'). eexists _, _. split; [done|].
  by eapply turn_trans.
Qed.

(** *** Dispatch *)
Lemma queued_hand queue b pending id p p' :
  queued queue b pending -> pending !! id = Some p -> is_ordinary p' = is_ordinary p ->
  pd_dispatch_queued p' = true -> (is_ordinary p = b -> head queue = Some id) ->
  queued (if Bool.eqb (is_ordinary p) b then tail queue else queue) b (<[id := p']> pending).
Proof.
  intros [Hn Hq] Hp Ho Hd Hh.
  assert (Hnew : forall x, (exists q, <[id := p']> pending !! x = Some q /\ is_ordinary q = b /\ pd_dispatch_queued q = false)
                  <-> x ∈ queue /\ x <> id).
  { intros x. rewrite Hq. destruct (decide (x = id)) as [->|Hne].
    - rewrite lookup_insert_eq. split; [intros (q & [= <-] & _ & Hf); congruence|by intros [_ []]].
    - rewrite lookup_insert_ne by done. naive_solver. }
  destruct (Bool.eqb_spec (is_ordinary p) b) as [Hb|Hb].
  - destruct queue as [|y rest]; simpl in *; specialize (Hh Hb); [done|]. injection Hh as ->.
    apply NoDup_cons in Hn as [Hni Hn]. split; [done|]. intros x. rewrite Hnew, elem_of_cons. naive_solver.
  - split; [done|]. intros x. rewrite Hnew. split; [|naive_solver]. intros Hx. split; [done|]. intros ->.
    apply Hq in Hx as (q & Hq' & Hqb & _). congruence.
Qed.

(** The next command is the first of its queue and its insights are saved. *)
Lemma next_dispatch_spec d a id :
  core_ok d -> next_dispatch_id d a = Some id ->
  exists p, d_pending d !! id = Some p /\ checkpoint_chain_ready d p = true /\ pd_dispatch_queued p = false /\
    head (if is_teardown (cmd_action (pd_command p)) then d_control_admission d else d_entry_admission d) = Some id.
Proof.
  intros Hc Hn. unfold next_dispatch_id in Hn. destruct (d_restoring d); [done|].
  assert (Hfront : forall queue b ready, queued queue b (d_pending d) ->
    match head queue with Some id => if is_some_and ready (d_pending d !! id) then Some id else None | None => None end = Some id ->
    exists p, d_pending d !! id = Some p /\ ready p = true /\ head queue = Some id /\ is_ordinary p = b /\ pd_dispatch_queued p = false).
  { intros queue b ready [_ Hq] Hf. destruct queue as [|x rest]; simpl in Hf; [done|].
    destruct (is_some_and ready (d_pending d !! x)) eqn:Er; [|done]. injection Hf as ->.
    assert (Hin : id ∈ id :: rest) by left. apply Hq in Hin as (p & Hp & Hb & Hd). rewrite Hp in Er. simpl in Er. eauto 7. }
  pose proof (Hfront _ false (checkpoint_chain_ready d) (do_controls d Hc)) as Hcontrol.
  destruct (match head (d_control_admission d) with Some _ => _ | None => None end) as [x|]; simpl in Hn.
  - injection Hn as ->. destruct (Hcontrol eq_refl) as (p & Hp & Hr & Hh & Hb & Hd). exists p.
    unfold is_ordinary in Hb. apply negb_false_iff in Hb. by rewrite Hb.
  - apply (Hfront _ true _ (do_entries d Hc)) in Hn as (p & Hp & Hr & Hh & Hb & Hd). exists p.
    unfold is_ordinary in Hb. apply negb_true_iff in Hb. rewrite Hb. break_bool. eauto.
Qed.

Lemma chain_ready_durable d p : checkpoint_chain_ready d p = true -> pd_durable p = true.
Proof. unfold checkpoint_chain_ready. by destruct (pd_durable p). Qed.

Lemma enqueue_prepared_frame w c now w' r :
  try_enqueue_prepared w c now = (w', r) -> w_journal w' = w_journal w /\ w_events w' = w_events w.
Proof.
  unfold try_enqueue_prepared, try_enqueue_inner. destruct (encode c); [|by intros [= <- <-]].
  repeat (match goal with |- (if ?b then _ else _) = _ -> _ => destruct b end; try (by intros [= <- <-])).
Qed.

(** The command leaves its queue for the worker. *)
Lemma handed_ok d id p w queues :
  driver_ok d -> d_pending d !! id = Some p -> pd_durable p = true ->
  head (if is_teardown (cmd_action (pd_command p)) then d_control_admission d else d_entry_admission d) = Some id ->
  queues = (if is_teardown (cmd_action (pd_command p)) then (d_entry_admission d, tail (d_control_admission d))
            else (tail (d_entry_admission d), d_control_admission d)) ->
  driver_ok (d <| d_worker := w |> <| d_pending := <[id := p <| pd_dispatch_queued := true |>]> (d_pending d) |>
               <| d_entry_admission := queues.1 |> <| d_control_admission := queues.2 |>).
Proof.
  intros Hd Hp Hdur Hh ->. destruct (do_pending d Hd _ _ Hp) as [P1 P2 P3 P4 P5].
  destruct Hd as [[Hpd Hi He Hc Ho Ha Hcap Hocap] Hps Hap]. set (p' := p <| pd_dispatch_queued := true |>).
  pose proof (queued_hand _ true _ id p p' He Hp eq_refl eq_refl) as He'.
  pose proof (queued_hand _ false _ id p p' Hc Hp eq_refl eq_refl) as Hc'.
  unfold is_ordinary in He', Hc'. split; [split|..]; cbn; try done.
  - apply map_Forall_insert_2; [split; [exact P1|by intros _|by intros _|exact P4|exact P5]|done].
  - by eapply indexed_insert.
  - destruct (is_teardown _); cbn in *; by apply He'.
  - destruct (is_teardown _); cbn in *; by apply Hc'.
  - by rewrite (count_where_same is_ordinary _ _ p).
  - by rewrite (count_where_same awaits _ _ p).
  - by rewrite map_size_insert_Some by eauto.
  - intros ps Hps0. eapply persisting_insert; [by apply Hps|done|done].
  - by eapply applying_insert.
Qed.
Lemma handed_moves d id p :
  core_ok d -> d_pending d !! id = Some p -> pd_durable p = true -> pd_dispatch_queued p = false ->
  moves (life p) (life (p <| pd_dispatch_queued := true |>)).
Proof.
  intros Hc Hp Hdur Hdq. destruct (do_pending d Hc _ _ Hp) as [P1 P2 P3 P4 P5].
  unfold life. cbn. change (awaits (p <| pd_dispatch_queued := true |>)) with (awaits p). rewrite Hdq, Hdur.
  destruct (awaits p) eqn:Eaw; [|specialize (P3 eq_refl); congruence].
  destruct (pd_reduced p); [by specialize (P4 eq_refl)|].
  destruct (pd_applying p); [by specialize (P5 eq_refl)|]. constructor.
Qed.

Lemma dispatch_one_turn d a now :
  driver_ok d -> exists d' r, dispatch_one d a now = Some (d', r) /\ turn d d' /\ handed_le d d'.
Proof.
  intros Hd. unfold dispatch_one. destruct (next_dispatch_id d a) as [id|] eqn:En.
  2:{ eexists _, _. split; [done|]. split; [auto|reflexivity]. }
  destruct (next_dispatch_spec d a id (do_core d Hd) En) as (p & Hp & Hr & Hdq & Hh). rewrite Hp.
  pose proof (chain_ready_durable d p Hr) as Hdur. rewrite Hdur. simpl. set (d1 := if is_entry _ then _ else d).
  assert (Hd1 : exists w1, d1 = d <| d_worker := w1 |> /\ w_journal w1 = journal_of d /\ w_events w1 = w_events (d_worker d)).
  { unfold d1. destruct (is_entry _); [by eexists|]. exists (d_worker d). by destruct d. }
  destruct Hd1 as (w1 & -> & Ej1 & Ee1). cbn.
  destruct (try_enqueue_prepared w1 (pd_command p) now) as [w res] eqn:Ew.
  apply enqueue_prepared_frame in Ew as [Ej Ee].
  assert (Hj : evolves (journal_of d) (w_journal w)) by (by rewrite Ej, Ej1).
  change ((d <| d_worker := w1 |>) <| d_worker := w |>) with (d <| d_worker := w |>).
  assert (Htw : turn d (d <| d_worker := w |>)) by (by apply turn_worker).
  assert (Hlw : handed_le d (d <| d_worker := w |>)) by (split; [cbn; congruence|eauto|done]).
  assert (Hlast : turn d (request_stop (d <| d_worker := w |>))) by (eapply turn_trans; [done|]; apply turn_stop, Htw).
  assert (Hll : handed_le d (request_stop (d <| d_worker := w |>))) by (split; [apply Hlw|eauto|done]).
  destruct res as [rc|error]; [|destruct error; (eexists _, _; split; [done|]; eauto)].
  eexists _, _. split; [done|]. set (p' := p <| pd_dispatch_queued := true |>).
  set (d3 := if is_teardown _ then _ else _).
  assert (Hok : driver_ok d3).
  { pose proof (handed_ok d id p w _ Hd Hp Hdur Hh eq_refl) as Hq. unfold d3.
    destruct (is_teardown _); cbn in *; (eapply driver_ok_frame; [exact Hq|done..]). }
  assert (Hp3 : d_pending d3 = <[id := p']> (d_pending d)) by (unfold d3; by destruct (is_teardown _)).
  assert (Hw3 : d_worker d3 = w) by (unfold d3; by destruct (is_teardown _)).
  assert (Hs3 : d_persisting d3 = d_persisting d) by (unfold d3; by destruct (is_teardown _)).
  split; [split; [done| |]|split; [congruence| |]].
  - unfold follows, lives. rewrite Hp3. apply (lives_update _ _ p); [done|]. right. apply (handed_moves d id p); [apply Hd|done..].
  - by apply (tame_update d id p p' w).
  - intros x q. rewrite Hp3. destruct (decide (x = id)) as [->|].
    + rewrite lookup_insert_eq. intros [= <-]. eauto.
    + rewrite lookup_insert_ne by done. eauto.
  - intros x (q & Hq & Hqd & Hqa). unfold outstanding. rewrite Hp3. destruct (decide (x = id)) as [->|].
    + rewrite lookup_insert_eq. simplify_eq. eauto.
    + rewrite lookup_insert_ne by done. eauto.
Qed.

Lemma dispatch_loop_turn fuel d a now k :
  driver_ok d -> exists d' r, dispatch_loop fuel d a now k = Some (d', r) /\ turn d d' /\ handed_le d d'.
Proof.
  revert d k. induction fuel as [|fuel IH]; intros d k Hd; simpl.
  { eexists _, _. split; [done|]. split; [auto|reflexivity]. }
  destruct (dispatch_one_turn d a now Hd) as (d1 & r & -> & Ht & Hl). destruct r as [[|]|error]; [|by eauto|by eauto].
  destruct (IH d1 (S k) (tn_ok _ _ Ht)) as (d' & r' & -> & Ht' & Hl'). eexists _, _. split; [done|].
  split; [by eapply turn_trans|by etrans].
Qed.

(** *** Acknowledgements *)
Lemma release_applied_turn d d0 ps n :
  core_ok d -> persisting_ok (d_pending d) ps -> applying_in (d_pending d) (Some ps) -> ps_reply ps = None ->
  d_pending d0 = d_pending d -> journal_of d0 = journal_of d -> w_events (d_worker d0) = w_events (d_worker d) ->
  exists d' k, release_applied d ps n = Some (d', Ok k) /\ turn d0 d' /\ handed_le d0 d' /\
    forall ps', d_persisting d' = Some ps' -> ps_prepared ps' = [] /\ ps_reply ps' = None.
Proof.
  intros Hc Hps Hap Hr Ep Ej Ee.
  destruct (release_applied_ok d ps n Hc Hps Hap Hr) as (d' & k & -> & Hd' & Hl & Hj & Hb & ids & Hin & Hnd & Hx).
  eexists _, _. split; [done|]. split; [split; [done| |split]|split; [|done]].
  - unfold follows, lives. rewrite Ep. apply (lives_release ids); [done| |done].
    intros id Hid. by apply (pso_applied _ _ Hps), Hin.
  - unfold journal_of in *. by rewrite Ej, Hj.
  - intros id p'. rewrite Hx, Ep. destruct (decide _); [done|]. eauto.
  - intros ps' Hps'. left. by apply Hb.
  - split; [by rewrite Ee; apply Hl| |]; unfold outstanding; rewrite Ep; apply Hl.
Qed.

Lemma unsaved_turn d ps :
  driver_ok d -> d_persisting d = Some ps ->
  exists m, mark_applying (ps_applied ps) false (d_pending d) = Some m /\
    turn d (d <| d_persisting := None |> <| d_pending := m |>) /\
    handed_le d (d <| d_persisting := None |> <| d_pending := m |>).
Proof.
  intros Hd Eps. destruct (do_persisting d Hd ps Eps) as [A B C D].
  destruct (mark_all_spec (fun p => p <| pd_applying := false |>) (ps_applied ps) (d_pending d)) as (m & Hm & Hl).
  { done. }
  { intros id Hid. destruct (B id Hid) as (p & Hp & _). eauto. }
  assert (Hred : forall id p, id ∈ ps_applied ps -> d_pending d !! id = Some p -> pd_reduced p = true).
  { intros id p Hid Hp. destruct (B id Hid) as (q & Hq & Hqa). assert (q = p) as -> by congruence.
    by apply (po_applying id p (do_pending d Hd _ _ Hp)). }
  assert (Hback : forall id p', m !! id = Some p' -> exists p, d_pending d !! id = Some p /\
            (p' = p \/ p' = p <| pd_applying := false |>)).
  { intros id p' Hp'. rewrite Hl in Hp'. destruct (decide _); [|by eauto].
    destruct (d_pending d !! id) as [p|]; [|done]. injection Hp' as <-. eauto. }
  exists m. split; [done|]. split; [split; [split|..]|]; cbn.
  - eapply (core_ok_frame (d <| d_pending := m |>)); [|done..]. eapply core_ok_mark; [apply Hd|done| |done].
    intros id p _ [P1 P2 P3 P4 P5] _. split; [exact P1|exact P2|exact P3|exact P4|done].
  - done.
  - intros id p' Hp' Ha. exfalso. rewrite Hl in Hp'. destruct (decide (id ∈ ps_applied ps)) as [Hid|Hid].
    + destruct (d_pending d !! id); [|done]. by injection Hp' as <-.
    + by destruct (do_applying d Hd id p' Hp' Ha) as (ps' & Eps' & Hin); simplify_eq.
  - apply (mark_all_lives (fun p => pd_reduced p = true) _ _ _ _ Hm Hred).
    intros p Hp. split; [done|by apply may_move_applying].
  - split; [done| |done]. intros id p' Hp'. destruct (Hback id p' Hp') as (p & Hp & [->| ->]); eauto.
  - by apply (handed_le_mark d _ (fun p => p <| pd_applying := false |>) (ps_applied ps)).
Qed.

Record advance (d d' : Driver) : Prop := {
  ad_ok : driver_ok d';
  ad_follows : follows d d';
  ad_journaled : journaled d'
}.
Lemma turn_advance d d' : turn d d' -> journaled d -> advance d d'.
Proof. intros [] Hj. split; [done|done|by eapply journaled_tame]. Qed.
Lemma advance_trans d1 d2 d3 : advance d1 d2 -> advance d2 d3 -> advance d1 d3.
Proof. intros [] []. split; [done|by etrans|done]. Qed.

(** The batch is durable: its new commands are. *)
Lemma acknowledge_spec d ps :
  driver_ok d -> journaled d -> d_persisting d = Some ps -> ps_reply ps = Some (Some (Ok ())) ->
  exists d1, acknowledge d ps = Some (d1, mkPersisting (ps_applied ps) [] [] None (ps_batch ps)) /\
    core_ok d1 /\ follows d d1 /\ handed_le d d1 /\ journal_of d1 = journal_of d /\
    (forall id p, d_pending d1 !! id = Some p -> pd_durable p = true -> recorded (journal_of d) (pd_command p)) /\
    (forall id p, d_pending d !! id = Some p -> exists p', d_pending d1 !! id = Some p' /\ pd_applying p' = pd_applying p) /\
    (forall id p, d_pending d1 !! id = Some p -> exists p', d_pending d !! id = Some p' /\ pd_applying p' = pd_applying p).
Proof.
  intros Hd Hj Eps Er. unfold acknowledge. set (d0 := foldl install_row d (ps_rows ps)).
  pose proof (install_rows_same d (ps_rows ps) : same_commands d d0) as Hs.
  pose proof (same_commands_ok d d0 Hs Hd) as Hd0. injection Hs as E1 _ _ _ _ _ _ _ _ E10 E11.
  destruct (mark_all_spec (fun p => p <| pd_durable := true |>) (ps_prepared ps) (d_pending d0)) as (m & Hm & Hl).
  { done. }
  { rewrite E1. apply (pso_prepared _ _ (do_persisting d Hd ps Eps)). }
  unfold mark_durable. rewrite Hm. exists (d0 <| d_pending := m |>). split; [done|]. rewrite E1 in Hl, Hm. cbn.
  assert (Hback : forall id p', m !! id = Some p' -> exists p, d_pending d !! id = Some p /\
            pd_applying p' = pd_applying p /\ pd_dispatch_queued p' = pd_dispatch_queued p /\
            pd_command p' = pd_command p /\ (pd_durable p' = pd_durable p \/ id ∈ ps_prepared ps)).
  { intros id p' Hp'. rewrite Hl in Hp'. destruct (decide _); [|by eauto 8].
    destruct (d_pending d !! id) as [p|]; [|done]. injection Hp' as <-. eauto 8. }
  split; [|split; [|split; [|split; [|split; [|split]]]]].
  - eapply core_ok_mark; [apply Hd0|by rewrite E1| |done].
    intros id p _ [P1 P2 P3 P4 P5] _. split; [exact P1|by intros _|exact P3|exact P4|exact P5].
  - apply (mark_all_lives (fun _ => True) _ _ _ _ Hm); [done|]. intros p _. split; [done|apply may_move_durable].
  - by apply (handed_le_mark d _ (fun p => p <| pd_durable := true |>) (ps_prepared ps)).
  - unfold journal_of. cbn. congruence.
  - intros id p' Hp' Hdu. destruct (Hback id p' Hp') as (p & Hp & _ & _ & -> & [Ed|Hid]).
    + apply (jd_durable d Hj id p Hp). congruence.
    + destruct (jd_prepared d Hj ps id Eps Hid) as (q & i & Hq & Hi & Ei). assert (q = p) as -> by congruence.
      rewrite <- Ei. by apply (jd_answer d Hj ps Eps Er).
  - intros id p Hp. rewrite Hl, Hp. destruct (decide _); simpl; eauto.
  - intros id p' Hp'. destruct (Hback id p' Hp') as (p & ? & ? & _). eauto.
Qed.

Lemma poll_advance d n :
  driver_ok d -> journaled d ->
  exists d' r, poll_acknowledgements d n = Some (d', r) /\ advance d d' /\ handed_le d d'.
Proof.
  intros Hd Hj. assert (Hskip : forall r : result nat BrokerCommandError, exists d' r',
    Some (d, r) = Some (d', r') /\ advance d d' /\ handed_le d d').
  { intros r. eexists _, _. split; [done|]. split; [apply turn_advance; auto|reflexivity]. }
  unfold poll_acknowledgements. destruct (n =? 0); [apply Hskip|].
  destruct (d_persisting d) as [ps|] eqn:Eps; [|apply Hskip].
  pose proof (do_persisting d Hd ps Eps) as Hps. pose proof (do_applying d Hd) as Hap. rewrite Eps in Hap.
  destruct (ps_reply ps) as [[[[]|error]|]|] eqn:Er; [| |apply Hskip|].
  - destruct (acknowledge_spec d ps Hd Hj Eps Er) as (d1 & -> & Hc1 & Hf & Hl & Ej & Hrec & Hfw & Hbw).
    destruct (release_applied_turn d1 d1 (mkPersisting (ps_applied ps) [] [] None (ps_batch ps)) n)
      as (d' & k & -> & Ht & Hl' & Hb); try done.
    + destruct Hps as [A B C D]. split; cbn; [done| |by intros id Hid%elem_of_nil|done].
      intros id Hid. destruct (B id Hid) as (p & Hp & Hpa). destruct (Hfw id p Hp) as (p' & Hp' & Ea).
      exists p'. split; [done|congruence].
    + intros id p' Hp' Ha. destruct (Hbw id p' Hp') as (p & Hp & Ea).
      destruct (Hap id p Hp) as (ps' & [= <-] & Hin); [congruence|]. by eexists.
    + eexists _, _. split; [done|]. split; [|by etrans]. destruct Ht as [T1 T2 [Tj Tp Tb]].
      split; [done|by etrans|]. split.
      * intros id p' Hp' Hdu. destruct (Tp id p' Hp') as (p & Hp & -> & Ed). eapply recorded_evolves; [exact Tj|].
        rewrite Ej. apply (Hrec id p Hp). congruence.
      * intros ps' id Hps' Hid. destruct (Hb ps' Hps') as [E _]. rewrite E in Hid. by apply elem_of_nil in Hid.
      * intros ps' Hps' Er'. destruct (Hb ps' Hps') as [_ E]. congruence.
      * intros ps' Hps' Er'. by destruct (Hb ps' Hps') as [_ E].
  - destruct (unsaved_turn d ps Hd Eps) as (m & -> & Ht & Hl). eexists _, _. split; [done|].
    split; [|by split; apply Hl]. apply turn_advance; [|done]. eapply turn_trans; [done|]. apply turn_stop, Ht.
  - destruct (release_applied_turn d d ps n (do_core d Hd) Hps Hap Er) as (d' & k & -> & Ht & Hl & _); try done.
    eexists _, _. split; [done|]. split; [by apply turn_advance|done].
Qed.

Lemma drain_advance d n turns now :
  driver_ok d -> journaled d -> events_handed d ->
  exists d' r, drain_ready d n turns now = Some (d', r) /\ advance d d'.
Proof.
  intros Hd Hj Hev. unfold drain_ready. set (k := Nat.min _ _). destruct (n =? 0).
  { destruct (drain_loop_turn k d [] Hd Hev) as (d' & r & -> & Ht). eexists _, _. split; [done|]. by apply turn_advance. }
  destruct (poll_advance d n Hd Hj) as (d1 & r1 & -> & Ha1 & Hl1). destruct r1 as [?|error]; [|by eauto].
  unfold dispatch_prepared_with_admission.
  destruct (dispatch_loop_turn (Nat.min n 256) d1 true now 0 (ad_ok _ _ Ha1)) as (d2 & r2 & -> & Ht2 & Hl2).
  assert (Ha2 : advance d d2) by (eapply advance_trans; [done|]; apply turn_advance; [done|apply Ha1]).
  destruct r2 as [?|error]; [|by eauto].
  assert (Hev2 : events_handed d2) by (by do 2 (eapply handed_le_events; [done|])).
  destruct (drain_loop_turn k d2 [] (tn_ok _ _ Ht2) Hev2) as (d' & r & -> & Ht). eexists _, _. split; [done|].
  eapply advance_trans; [done|]. apply turn_advance; [done|apply Ha2].
Qed.

(** *** Admission *)
Lemma life_new owner c now order : life (new_pending owner c now order) = Staged.
Proof. done. Qed.
Lemma admit_journaled d owner c p :
  journaled d -> d_pending d !! cmd_id c = None -> pd_command p = c ->
  (pd_durable p = true -> recorded (journal_of d) c) -> journaled (admit_pending d owner c p).
Proof.
  intros [A B C D] Hn Hc Hp.
  assert (E : d_pending (admit_pending d owner c p) = <[cmd_id c := p]> (d_pending d) /\
    d_persisting (admit_pending d owner c p) = d_persisting d /\ journal_of (admit_pending d owner c p) = journal_of d)
    by (unfold admit_pending, journal_of; by destruct (is_teardown _)).
  destruct E as (E1 & E2 & E3). split; rewrite ?E1, ?E2, ?E3.
  - intros id q. destruct (decide (id = cmd_id c)) as [->|].
    + rewrite lookup_insert_eq. intros [= <-] Hd. rewrite Hc. auto.
    + rewrite lookup_insert_ne by done. apply A.
  - intros ps id Hps Hid. destruct (B ps id Hps Hid) as (q & i & Hq & Hi). exists q, i.
    rewrite lookup_insert_ne by congruence. done.
  - exact C.
  - exact D.
Qed.
Lemma admit_lives d owner c p :
  d_pending d !! cmd_id c = None -> life p = Staged \/ life p = Saved -> follows d (admit_pending d owner c p).
Proof.
  intros Hn Hl. unfold follows, lives.
  assert (E : d_pending (admit_pending d owner c p) = <[cmd_id c := p]> (d_pending d)) by (unfold admit_pending; by destruct (is_teardown _)).
  rewrite E, fmap_insert. apply rtc_once.
  assert (Hnl : (life <$> d_pending d) !! cmd_id c = None) by (by rewrite lookup_fmap, Hn).
  destruct Hl as [-> | ->]; by constructor.
Qed.
Lemma enqueue_advance d c now :
  driver_ok d -> journaled d -> advance d (enqueue_command d c now).1.
Proof.
  intros Hd Hj. destruct (enqueue_command d c now) as [d' r] eqn:E. pose proof (enqueue_command_ok _ _ _ _ _ Hd E) as Hd'.
  assert (Hself : advance d d) by (apply turn_advance; auto). simpl. unfold enqueue_command in E.
  destruct (d_restoring d); [by injection E as <- <-|]. destruct (encode c); [|by injection E as <- <-].
  destruct (uuid_parse _) as [owner|]; [|by injection E as <- <-].
  destruct (_ || _); [by injection E as <- <-|]. destruct (d_pending d !! cmd_id c) eqn:En.
  { destruct (command_eqb _ _); by injection E as <- <-. }
  destruct (_ || _); [by injection E as <- <-|]. destruct (is_halted _); [by injection E as <- <-|].
  destruct (_ && _); [by injection E as <- <-|]. destruct (_ <? _)%Z; [by injection E as <- <-|].
  injection E as <- <-. split; [done| |].
  - etrans; [apply (follows_same d)|apply admit_lives; [|left; apply life_new]]; done.
  - apply admit_journaled; [|done|done|done]. destruct Hj as [A B C D]. by split.
Qed.

(** *** Saving *)
Lemma persist_advance d rows receipts submit :
  driver_ok d -> journaled d ->
  exists d' r, persist_execution_checkpoints d rows receipts submit = Some (d', r) /\ advance d d'.
Proof.
  intros Hd Hj. destruct (persist_ok d rows receipts submit Hd) as (d' & r & E & Hd'). exists d', r.
  split; [done|]. assert (Hself : advance d d) by (apply turn_advance; auto). unfold persist_execution_checkpoints in E.
  destruct (is_some _); [by injection E as <- <-|].
  destruct (check_receipts d rows receipts) as [[]|] eqn:Ec; [|by injection E as <- <-].
  pose proof (check_receipts_spec _ _ _ Ec) as Hr.
  destruct (stage_rows_Some d (list_to_set (rcpt_id <$> receipts)) rows (do_core d Hd)) as (rows' & intents & Es & Hi).
  rewrite Es in E. destruct (with_intents rows' receipts intents) as [b|] eqn:Ew; [|by injection E as <- <-].
  apply with_intents_Ok in Ew as (Eb & _ & Hnd). destruct submit as [[]|]; [|by injection E as <- <-].
  destruct (mark_applying _ true (d_pending d)) as [m|] eqn:Em; [|done]. injection E as <- <-.
  destruct (mark_all_spec (fun p => p <| pd_applying := true |>) (rcpt_id <$> receipts) (d_pending d)) as (m' & Hm' & Hl).
  { done. }
  { intros id (rc & -> & Hin)%list_elem_of_fmap. destruct (Hr rc Hin) as (p & ? & _). eauto. }
  assert (m' = m) as -> by (unfold mark_applying in Em; congruence).
  split; [done| |split]; cbn.
  - apply (mark_all_lives (fun p => pd_reduced p = true) _ _ _ _ Em).
    + intros id p (rc & -> & Hin)%list_elem_of_fmap Hp. destruct (Hr rc Hin) as (q & Hq & _ & Hqr & _). congruence.
    + intros p Hp. split; [done|by apply may_move_applying].
  - intros id p'. rewrite Hl. intros Hp' Hdu. destruct (decide _); [|by apply (jd_durable d Hj id)].
    destruct (d_pending d !! id) as [p|] eqn:Ep; [|done]. injection Hp' as <-. by apply (jd_durable d Hj id p).
  - intros ps id [= <-]. cbn. intros (i & -> & Hin)%list_elem_of_fmap.
    destruct (Hi i Hin) as (p & Hp & Ei). rewrite Hl, Hp, Eb.
    destruct (decide _); simpl; eauto 6.
  - by intros ps [= <-].
  - intros ps [= <-] _. cbn. by rewrite Eb.
Qed.

(** The journal answers the batch. *)
Definition answered (d : Driver) (ps : PersistingExecution) (w : Worker)
    (r : result unit BrokerCommandError) : Driver :=
  d <| d_worker := w |>
    <| d_persisting := Some (mkPersisting (ps_applied ps) (ps_prepared ps) (ps_rows ps) (Some (Some r)) (ps_batch ps)) |>.
Lemma serve_checkpoint_recorded w b w' r :
  serve_checkpoint w b = (w', r) ->
  evolves (w_journal w) (w_journal w') /\
  (r = Ok () -> NoDup ((cmd_id ∘ in_command) <$> b_intents b) ->
   forall i, i ∈ b_intents b -> recorded (w_journal w') (in_command i)).
Proof.
  unfold serve_checkpoint. intros E. destruct (persist_execution_batch b (w_journal w)) as [j res] eqn:Ep.
  injection E as <- <-. cbn. split.
  { pose proof (persist_batch_tracked b (w_journal w)) as Ht. by rewrite Ep in Ht. }
  intros -> Hnd i Hi. apply persist_Ok in Ep as (j1 & j2 & E1 & E2 & E3).
  apply (recorded_evolves j1); [|by apply (intents_recorded _ _ _ Hnd E1 i Hi)].
  etrans; [pose proof (respects_for evolves (b_rows b) persist_row persist_row_tracked j1) as Ht; by rewrite E2 in Ht|].
  pose proof (respects_for evolves (b_applied b) _ (persist_applied_tracked (b_rows b)) j2) as Ht. by rewrite E3 in Ht.
Qed.
Lemma answered_advance d ps w r :
  driver_ok d -> journaled d -> d_persisting d = Some ps -> ps_reply ps = Some None ->
  evolves (journal_of d) (w_journal w) ->
  (r = Ok () -> forall i, i ∈ b_intents (ps_batch ps) -> recorded (w_journal w) (in_command i)) ->
  advance d (answered d ps w r).
Proof.
  intros Hd [A B C D] Eps Er He Hrec. split; [|by apply follows_same|split]; cbn.
  - destruct Hd as [Hc Hps Hap]. split; cbn; [by eapply core_ok_frame| |].
    + intros ps' [= <-]. by destruct (Hps ps Eps) as [P1 P2 P3 P4].
    + intros id p Hp Ha. destruct (Hap id p Hp Ha) as (ps' & Eps' & Hin). rewrite Eps in Eps'. injection Eps' as <-. by eexists.
  - intros id p Hp Hdu. eapply recorded_evolves; [exact He|]. by apply (A id).
  - intros ps' id [= <-] Hid. exact (B ps id Eps Hid).
  - intros ps' [= <-]. cbn. intros [= ->]. by apply Hrec.
  - intros ps' [= <-] _. apply (D ps Eps). by rewrite Er.
Qed.

(** ** The driver at work *)
Inductive driver_step : Driver -> Driver -> Prop :=
| DsEnqueue d c now : driver_step d (enqueue_command d c now).1
| DsCancel d r : driver_step d (driver_cancel_pending_entry d r).1
| DsStop d : driver_step d (request_stop d)
| DsReduced d r : driver_step d (mark_reduced d r).1
| DsPersist d rows receipts submit d' r :
    persist_execution_checkpoints d rows receipts submit = Some (d', r) -> driver_step d d'
| DsAnswer d ps w r :   (* the journal owner serves the batch *)
    d_persisting d = Some ps -> ps_reply ps = Some None -> serve_checkpoint (d_worker d) (ps_batch ps) = (w, r) ->
    driver_step d (answered d ps w r)
| DsLost d ps error :   (* or is gone *)
    d_persisting d = Some ps -> ps_reply ps = Some None -> driver_step d (answered d ps (d_worker d) (Err error))
| DsPoll d n d' r : poll_acknowledgements d n = Some (d', r) -> driver_step d d'
| DsDispatch d n a now d' r : dispatch_prepared_with_admission d n a now = Some (d', r) -> driver_step d d'
| DsDrain d n turns now d' r :
    events_handed d -> drain_ready d n turns now = Some (d', r) -> driver_step d d'
| DsWorker d w :        (* the worker works on *)
    evolves (journal_of d) (w_journal w) -> driver_step d (d <| d_worker := w |>)
| DsRestore d cancel c d' :
    d_restoring d = true -> restore_command d cancel c = Ok d' ->
    j_commands (journal_of d) !! cmd_id (rec_command (rcv_record c)) = Some (rcv_record c) ->
    d_pending d !! cmd_id (rec_command (rcv_record c)) = None ->
    size (d_pending d) < d_max_pending d ->
    (is_teardown (cmd_action (rec_command (rcv_record c))) = false ->
     d_ordinary_pending d < d_max_ordinary_pending d) ->
    driver_step d d'
| DsRecovered d : driver_step d (finish_recovery d).

Lemma start_ok w order : driver_ok (from_journal w order) /\ journaled (from_journal w order).
Proof.
  split; [split; [split|..]|split]; cbn; try done; try lia.
  - split; [done|]. intros o id. rewrite lookup_empty. simpl. split; [by intros ?%elem_of_nil|].
    intros (p & Hp & _). done.
  - split; [constructor|]. intros id. split; [by intros ?%elem_of_nil|]. by intros (p & Hp & _).
  - split; [constructor|]. intros id. split; [by intros ?%elem_of_nil|]. by intros (p & Hp & _).
  - rewrite map_size_empty. lia.
Qed.

Lemma restore_advance d cancel c d' :
  driver_ok d -> journaled d -> restore_command d cancel c = Ok d' ->
  j_commands (journal_of d) !! cmd_id (rec_command (rcv_record c)) = Some (rcv_record c) ->
  d_pending d !! cmd_id (rec_command (rcv_record c)) = None -> size (d_pending d) < d_max_pending d ->
  (is_teardown (cmd_action (rec_command (rcv_record c))) = false ->
   d_ordinary_pending d < d_max_ordinary_pending d) ->
  advance d d'.
Proof.
  intros Hd Hj Hr Hrow Hn Hsz Hord. unfold restore_command in Hr. destruct (uuid_parse _) as [owner|]; [|done].
  set (d0 := if cancel then _ else d) in Hr.
  assert (Ht : turn d d0 /\ command_view d0 = command_view d).
  { unfold d0. destruct cancel; [split; [by apply turn_worker|done]|auto]. }
  destruct Ht as [Ht [= E1 _ _ _ _ E6 _ E8 E9 _ E11]]. injection Hr as <-.
  pose proof (turn_advance _ _ Ht Hj) as [A1 A2 A3]. split.
  - apply admit_ok; cbn; rewrite ?E1, ?E6, ?E8, ?E9; try done.
  - etrans; [exact A2|]. apply admit_lives; [by rewrite E1|by right].
  - apply admit_journaled; [done|by rewrite E1|done|]. intros _. unfold recorded, journal_of. rewrite E11. eauto.
Qed.

Lemma driver_step_advance d d' : driver_step d d' -> driver_ok d -> journaled d -> advance d d'.
Proof.
  intros Hs Hd Hj. destruct Hs as [d c now|d r|d|d r|d rows receipts submit d' r E|d ps w r Eps Er E|d ps e Eps Er
    |d n d' r E|d n a now d' r E|d n turns now d' r Hev E|d w He|d cancel c d' _ E Hrow Hn Hsz Hord|d].
  - by apply enqueue_advance.
  - apply turn_advance; [|done]. unfold driver_cancel_pending_entry.
    destruct (d_pending d !! _) as [p|]; [|auto]. destruct (_ && _); [by apply turn_worker|auto].
  - by apply turn_advance; [apply turn_stop|].
  - by apply turn_advance; [apply mark_reduced_turn|].
  - destruct (persist_advance d rows receipts submit Hd Hj) as (d1 & r1 & E1 & Ha). congruence.
  - destruct (serve_checkpoint_recorded _ _ _ _ E) as [He Hrec]. apply answered_advance; try done.
    intros ->. apply Hrec; [done|]. apply (jd_distinct d Hj ps Eps). by rewrite Er.
  - by apply answered_advance.
  - destruct (poll_advance d n Hd Hj) as (d1 & r1 & E1 & Ha & _). congruence.
  - destruct (dispatch_loop_turn (Nat.min n 256) d a now 0 Hd) as (d1 & r1 & E1 & Ht & _).
    unfold dispatch_prepared_with_admission in E. assert (d1 = d') as -> by congruence. by apply turn_advance.
  - destruct (drain_advance d n turns now Hd Hj Hev) as (d1 & r1 & E1 & Ha). congruence.
  - by apply turn_advance; [apply turn_worker|].
  - by eapply restore_advance.
  - apply turn_advance; [|done]. split; [by eapply driver_ok_frame|by apply follows_same|]. by apply tame_same.
Qed.

Lemma driver_steps_advance d d' : rtc driver_step d d' -> driver_ok d -> journaled d -> advance d d'.
Proof.
  induction 1 as [d|d1 d2 d3 Hst _ IH]; intros Hd Hj; [apply turn_advance; auto|].
  pose proof (driver_step_advance _ _ Hst Hd Hj) as Ha. eapply advance_trans; [done|]. apply IH; apply Ha.
Qed.
Lemma reachable_advance w order d :
  rtc driver_step (from_journal w order) d -> advance (from_journal w order) d.
Proof. intros Hs. destruct (start_ok w order). by apply driver_steps_advance. Qed.


(** The driver's bookkeeping holds and its operations never panic: in every reachable state the
    per-insight index, the two admission queues and the two counters are exactly those of the
    pending commands, the capacities are respected, only one batch is being saved and it owns every
    command marked so; and no [expect], index or counter of saving, acknowledging, dispatching or
    draining fails there. *)
Theorem driver_never_panics w order d :
  rtc driver_step (from_journal w order) d ->
  driver_ok d /\
  (forall rows receipts submit, persist_execution_checkpoints d rows receipts submit <> None) /\
  (forall n, poll_acknowledgements d n <> None) /\
  (forall n allow now, dispatch_prepared_with_admission d n allow now <> None) /\
  (events_handed d -> forall n turns now, drain_ready d n turns now <> None).
Proof.
  intros Hs. pose proof (reachable_advance w order d Hs) as [Hd _ Hj]. split; [done|].
  split; [|split; [|split]].
  - intros rows receipts submit. destruct (persist_advance d rows receipts submit Hd Hj) as (d' & r & -> & _). done.
  - intros n. destruct (poll_advance d n Hd Hj) as (d' & r & -> & _). done.
  - intros n a now. destruct (dispatch_loop_turn (Nat.min n 256) d a now 0 Hd) as (d' & r & E & _).
    unfold dispatch_prepared_with_admission. by rewrite E.
  - intros Hev n turns now. destruct (drain_advance d n turns now Hd Hj Hev) as (d' & r & -> & _). done.
Qed.

Lemma enqueue_prepared_Ok w c now w' r :
  try_enqueue_prepared w c now = (w', Ok r) ->
  (if is_teardown (cmd_action c) then w_controls w' = w_controls w ++ [mkQueued c now] /\ w_entries w' = w_entries w
   else w_entries w' = w_entries w ++ [mkQueued c now] /\ w_controls w' = w_controls w).
Proof.
  unfold try_enqueue_prepared, try_enqueue_inner. destruct (encode c); [|done].
  destruct (_ || _); [done|]. destruct (_ && _); [done|]. destruct (is_halted w); [done|].
  destruct (is_teardown _); (destruct (_ <=? _); [done|]); by intros [= <- <-].
Qed.

End Life.

(** ** An entry on its way to the worker *)
Definition demo_driver : Driver := from_journal demo_idle 0.
Definition demo_staged : Driver := (enqueue_command demo_driver demo_entry 1).1.
Definition demo_saving : Driver :=
  match persist_execution_checkpoints (H0 := ids_json) demo_staged
          [@capture demo_fingerprint demo_owner 1 true None] [] (Ok ()) with
  | Some (d, _) => d
  | None => demo_staged
  end.
Definition demo_persisting : PersistingExecution :=
  match d_persisting demo_saving with Some ps => ps | None => mkPersisting [] [] [] None (mkBatch [] [] []) end.
Definition demo_served : Worker * result unit BrokerCommandError :=
  serve_checkpoint (d_worker demo_saving) (ps_batch demo_persisting).
Definition demo_acked : Driver := answered demo_saving demo_persisting demo_served.1 demo_served.2.
Definition demo_saved : Driver :=
  match poll_acknowledgements demo_acked 8 with Some (d, _) => d | None => demo_acked end.
Definition demo_handed : Driver :=
  match dispatch_one demo_saved true 4 with Some (d, _) => d | None => demo_saved end.

Lemma demo_reaches_saved : rtc driver_step demo_driver demo_saved.
Proof.
  eapply rtc_l; [apply (DsEnqueue demo_driver demo_entry 1)|].
  eapply rtc_l; [apply (DsPersist (H0 := ids_json) demo_staged [@capture demo_fingerprint demo_owner 1 true None] []
                          (Ok ()) demo_saving (Ok ())); vm_compute; reflexivity|].
  eapply rtc_l; [apply (DsAnswer demo_saving demo_persisting demo_served.1 demo_served.2);
                 vm_compute; reflexivity|].
  eapply rtc_l; [apply (DsPoll demo_acked 8 demo_saved (Ok 0)); vm_compute; reflexivity|].
  apply rtc_refl.
Qed.


Lemma driver_never_panics_witness :
  driver_ok demo_saved /\ size (d_pending demo_saved) = 1 /\ poll_acknowledgements demo_saved 8 <> None.
Proof.
  destruct (driver_never_panics (H0 := ids_json) demo_idle 0 demo_saved demo_reaches_saved) as (Hok & _ & Hp & _).
  split; [exact Hok|]. split; [vm_compute; reflexivity|apply Hp].
Defined.

