(* ===== verification/DriverOwnership.v ===== *)
(** * DriverOwnership: the command driver in the hands of its owner

    The strategy calls the driver between the reports of the worker.  [owned] is
    what the driver satisfies between two calls (its bookkeeping, the rows of the
    journal, at most one report per command that was handed over); [works] relates
    the driver before and after a call: it stays [owned] and its commands went
    along the machine of [CommandLife]. *)
From S2P Require Import Prelude.
From S2P Require Import Float64.
From S2P Require Import Text.
From S2P Require Import BrokerTypes.
From S2P Require Import TimeFrame.
From S2P Require Import InsightTypes.
From S2P Require Import Commands.
From S2P Require Import ExecutionData.
From S2P Require Import Insight.
From S2P Require Import Operations.
From S2P Require Import Checkpoint.
From S2P Require Import Journal.
From S2P Require Import JournalFacts.
From S2P Require Import CommandWorker.
From S2P Require Import CommandDriver.
From S2P Require Import CommandDriverFacts.
From S2P Require Import CommandLife.

Section Ownership.
Context `{UuidText} `{Json} `{CommandIds} `{JournalJson} `{Chrono}.

Record owned (d : Driver) : Prop := {
  ow_ok : driver_ok d;
  ow_journaled : journaled d;
  ow_awaited : awaited d
}.
Definition works (d d' : Driver) : Prop := owned d -> owned d' /\ follows d d'.
#[export] Instance works_preorder : PreOrder works.
Proof.
  split; [by intros d Hd|]. intros d1 d2 d3 A B Hd. destruct (A Hd) as [H2' F]. destruct (B H2') as [H3' F'].
  split; [done|by etrans].
Qed.

Lemma works_advance d d' :
  (driver_ok d -> journaled d -> advance d d') -> w_events (d_worker d') = w_events (d_worker d) ->
  (driver_ok d -> forall id, outstanding d id -> outstanding d' id) -> works d d'.
Proof.
  intros Ha Ee Ho [Hd Hj Hw]. destruct (Ha Hd Hj) as [A1 A2 A3]. split; [|done].
  split; [done|done|]. by eapply awaited_keep; [| |done]; [|auto].
Qed.
Lemma works_turn d d' :
  (driver_ok d -> turn d d') -> w_events (d_worker d') = w_events (d_worker d) ->
  (driver_ok d -> forall id, outstanding d id -> outstanding d' id) -> works d d'.
Proof. intros Ht. apply works_advance. intros Hd Hj. apply turn_advance; auto. Qed.

(** A command that was answered changes. *)
Lemma outstanding_update d d' id p p' :
  d_pending d' = <[id := p']> (d_pending d) -> d_pending d !! id = Some p -> awaits p = false ->
  forall x, outstanding d x -> outstanding d' x.
Proof.
  intros Ed Hp Ha x (q & Hq & Hqd & Hqa). exists q. split; [|done]. rewrite Ed.
  rewrite lookup_insert_ne; [done|]. intros <-. congruence.
Qed.
(** A command that was not there is admitted. *)
Lemma outstanding_fresh d d' id p' :
  d_pending d' = <[id := p']> (d_pending d) -> d_pending d !! id = None ->
  forall x, outstanding d x -> outstanding d' x.
Proof.
  intros Ed Hn x (q & Hq & Hqd). exists q. split; [|done]. rewrite Ed. rewrite lookup_insert_ne; [done|]. congruence.
Qed.

Lemma request_stop_works d : works d (request_stop d).
Proof. apply works_turn; [apply turn_stop|done|done]. Qed.

Lemma cancel_pending_works d r : works d (driver_cancel_pending_entry d r).1.
Proof.
  unfold driver_cancel_pending_entry. destruct (d_pending d !! _) as [p|]; [|done].
  destruct (_ && _); [|done]. apply works_turn; [|done|done]. intros Hd. by apply turn_worker.
Qed.

Lemma mark_reduced_works d r : works d (mark_reduced d r).1.
Proof.
  apply works_turn; [apply mark_reduced_turn| |].
  - unfold mark_reduced. destruct (d_pending d !! _) as [p|]; [|done]. destruct (negb _); [done|].
    by destruct (pd_progress p).
  - intros _. unfold mark_reduced. destruct (d_pending d !! _) as [p|] eqn:Hp; [|done]. destruct (negb _); [done|].
    destruct (pd_progress p) eqn:Hpr; [done| |done]. simpl. eapply outstanding_update; [done|done|].
    unfold awaits. by rewrite Hpr.
Qed.

(** A completed command counts as reduced. *)
Lemma settle_works d id p k :
  d_pending d !! id = Some p -> pd_progress p = ProgressCompleted k ->
  works d (d <| d_pending := <[id := p <| pd_reduced := true |>]> (d_pending d) |>).
Proof.
  intros Hp Hpr Hd. set (d' := d <| d_pending := _ |>).
  pose proof (po_id _ _ (do_pending d (ow_ok d Hd) _ _ Hp)) as Hid.
  assert (E : (mark_reduced d (receipt (pd_command p))).1 = d').
  { unfold mark_reduced. replace (rcpt_id (receipt (pd_command p))) with id by (by rewrite <- Hid).
    rewrite Hp, bool_decide_eq_true_2 by done. simpl. by rewrite Hpr. }
  rewrite <- E. by apply mark_reduced_works.
Qed.

Lemma enqueue_works d c now : works d (enqueue_command d c now).1.
Proof.
  apply works_advance; [apply enqueue_advance| |]; unfold enqueue_command.
  all: destruct (d_restoring d); [done|]; destruct (encode c); [|done]; destruct (uuid_parse _) as [owner|]; [|done].
  all: destruct (_ || _); [done|]; destruct (d_pending d !! cmd_id c) eqn:En; [by destruct (command_eqb _ _)|].
  all: destruct (_ || _); [done|]; destruct (is_halted _); [done|]; destruct (_ && _); [done|].
  all: destruct (_ <? _)%Z; [done|]; simpl.
  - unfold admit_pending. by destruct (is_teardown _).
  - intros _. eapply (outstanding_fresh d _ (cmd_id c)); [|done]. unfold admit_pending. by destruct (is_teardown _).
Qed.

(** The next report: the driver never panics on it. *)
Lemma next_ready_works d :
  owned d -> exists d' r, next_ready d = Some (d', r) /\ works d d'.
Proof.
  intros Hd. destruct (next_ready_turn d (ow_ok d Hd) (awaited_handed d (ow_awaited d Hd))) as (d' & r & En & Ht & _).
  exists d', r. split; [done|]. intros _. split; [|apply Ht]. split; [apply Ht|by apply (ad_journaled _ _ (turn_advance _ _ Ht (ow_journaled d Hd)))|].
  destruct (ow_awaited d Hd) as [Hn Ha]. unfold next_ready in En. destruct (execution_stop_error _); [by simplify_eq|].
  destruct (w_events (d_worker d)) as [|e rest] eqn:Ee.
  { destruct (is_halted _); simplify_eq; split; cbn; rewrite Ee; done. }
  simpl in Hn. apply NoDup_cons in Hn as [Hnew Hn].
  assert (Hrest : forall d2, w_events (d_worker d2) = rest ->
    (forall id p, id <> rcpt_id (event_receipt e) -> d_pending d !! id = Some p -> d_pending d2 !! id = Some p) ->
    awaited d2).
  { intros d2 E2 Hp2. split; rewrite E2; [done|]. intros e' He'. destruct (Ha e') as (q & Hq & Hqd); [by right|].
    exists q. split; [|done]. apply Hp2; [|done]. intros Heq. apply Hnew. rewrite <- Heq.
    apply (list_elem_of_fmap_2 (rcpt_id ∘ event_receipt) rest e' He'). }
  set (pr := match e with CompletionEvent k => _ | FailedEvent _ _ => _ end) in En.
  assert (Hpr : pr.1 = event_receipt e) by (unfold pr; by destruct e).
  destruct pr as [rc progress]. simpl in Hpr. subst rc. cbn in En.
  destruct (d_pending d !! rcpt_id (event_receipt e)) as [p|] eqn:Ep; [|simplify_eq; by apply Hrest].
  destruct (negb _); [simplify_eq; by apply Hrest|]. destruct (if awaits p then _ else _); [|done].
  simplify_eq. apply Hrest; [done|]. intros id q Hne Hq. cbn. by rewrite lookup_insert_ne.
Qed.

(** ** Saving *)
Lemma poll_works d n : owned d -> exists d' r, poll_acknowledgements d n = Some (d', r) /\ works d d'.
Proof.
  intros Hd. destruct (poll_advance d n (ow_ok d Hd) (ow_journaled d Hd)) as (d' & r & E & Ha & [Hl1 _ Hl3]).
  exists d', r. split; [done|]. by apply works_advance.
Qed.
Lemma dispatch_works d n allow now :
  owned d -> exists d' r, dispatch_prepared_with_admission d n allow now = Some (d', r) /\ works d d'.
Proof.
  intros Hd. destruct (dispatch_loop_turn (Nat.min n 256) d allow now 0 (ow_ok d Hd)) as (d' & r & E & Ht & [Hl1 _ Hl3]).
  exists d', r. split; [done|]. by apply works_turn.
Qed.
Lemma persist_works d rows receipts submit :
  owned d -> exists d' r, persist_execution_checkpoints d rows receipts submit = Some (d', r) /\ works d d'.
Proof.
  intros Hd. destruct (persist_advance d rows receipts submit (ow_ok d Hd) (ow_journaled d Hd)) as (d' & r & E & Ha).
  exists d', r. split; [done|]. unfold persist_execution_checkpoints in E.
  destruct (is_some _); [by simplify_eq|]. destruct (check_receipts d rows receipts) as [[]|] eqn:Ec; [|by simplify_eq].
  pose proof (check_receipts_spec _ _ _ Ec) as Hr.
  destruct (stage_rows _ _ _) as [[rows' intents]|]; [|done].
  destruct (with_intents rows' receipts intents) as [b|]; [|by simplify_eq].
  destruct submit as [[]|]; [|by simplify_eq].
  destruct (mark_applying _ true (d_pending d)) as [m|] eqn:Em; [|done]. simplify_eq.
  destruct (mark_all_spec (fun p => p <| pd_applying := true |>) (rcpt_id <$> receipts) (d_pending d)) as (m' & Hm' & Hl).
  { done. }
  { intros id (rc & -> & Hin)%list_elem_of_fmap. destruct (Hr rc Hin) as (p & ? & _). eauto. }
  assert (m' = m) as -> by (unfold mark_applying in Em; congruence).
  apply works_advance; [done|done|]. intros _.
  apply (hl_outstanding d). by apply (handed_le_mark d _ (fun p => p <| pd_applying := true |>) (rcpt_id <$> receipts)).
Qed.

Lemma start_owned w order : w_events w = [] -> owned (from_journal w order).
Proof.
  intros Ee. destruct (start_ok w order). split; [done|done|]. split; cbn; rewrite Ee; [constructor|].
  by intros e He%elem_of_nil.
Qed.
End Ownership.
