(* ===== verification/GraphRecovery.v ===== *)
(** * GraphRecovery: rebuilding the insights after a restart
    ([src/core/strategy/execution_recovery.rs] and [ExecutionRecovery] of
    [src/core/broker/command_journal/recovery.rs])

    The rows of the journal reference each other by identity.  [rebuild_insights]
    checks the references and assembles the trees leaf first.  [None] is a panic
    of the source or the end of the fuel; the rows are visited in the order of a
    hash map, which is an argument. *)
From S2P Require Import Prelude.
From S2P Require Import OrderedSet.
From S2P Require Import Float64.
From S2P Require Import Text.
From S2P Require Import BrokerTypes.
From S2P Require Import TimeFrame.
From S2P Require Import InsightTypes.
From S2P Require Import Commands.
From S2P Require Import ExecutionData.
From S2P Require Import Insight.
From S2P Require Import Operations.
From S2P Require Import RecoveryViews.
From S2P Require Import Collection.
From S2P Require Import AccountLane.
From S2P Require Import Checkpoint.
From S2P Require Import Journal.
From S2P Require Import CommandDriver.

Notation Rows := (gmap Uuid InsightExecutionCheckpoint).
Record ExecutionRecovery := mkExecutionRecovery {
  xr_rows : Rows;
  xr_commands : list RecoveryCommand;
  xr_stopping : bool
}.

(** ** Admission of recovered entries *)
Definition parent_ready (row parent : InsightExecutionCheckpoint) : bool :=
  if x_is_split_insight row
  then x_submitted parent || is_some (x_order_id parent)
       || existsb (fun p => bool_decide (pm_kind p = KSubmit)) (x_pending_mutations parent)
  else bool_decide (x_state parent = Filled).

(** The walk along the ancestors, at most 64 long. *)
Fixpoint ancestors_open (fuel : nat) (rows : Rows) (current : Uuid) : bool :=
  match fuel with
  | O => false
  | S fuel =>
      match rows !! current with
      | None => false
      | Some row =>
          if negb (x_materialized row) || is_inactive (x_state row) || x_cancelling row || x_closing row
             || x_suppress_child_entries row
          then false
          else
            match x_parent_id row with
            | None => true
            | Some parent =>
                match rows !! parent with
                | None => false
                | Some parent_row =>
                    if negb (bool_decide (current ∈ x_child_ids parent_row)) then false
                    else if negb (parent_ready row parent_row) then false
                    else ancestors_open fuel rows parent
                end
            end
      end
  end.
Definition can_dispatch_entry (r : ExecutionRecovery) (owner : Uuid) : bool :=
  if xr_stopping r
     || is_none_or (fun row => negb (bool_decide (x_state row = New))) (xr_rows r !! owner)
  then false
  else ancestors_open 64 (xr_rows r) owner.

(** ** Reconstruction of the graph *)
Record Links := mkLinks {
  lk_parents : gmap Uuid Uuid;
  lk_counts : gmap Uuid nat;
  lk_ready : gset Uuid
}.
Record RecoveredInsights := mkRecovered {
  ri_collection : InsightCollection;
  ri_pipeline : list (Uuid * InsightPipelineCheckpoint);
  ri_work : list Uuid
}.
Definition graph_error (reason : string) : BrokerCommandError := JournalError reason.

Section Rebuild.
Context `{UuidText} `{Json}.

(** The children of one row: present, and owned by this row only. *)
Fixpoint link_children (rows : Rows) (owner : Uuid) (children : list Uuid) (parents : gmap Uuid Uuid)
    : result (gmap Uuid Uuid) BrokerCommandError :=
  match children with
  | [] => Ok parents
  | child_id :: rest =>
      match rows !! child_id with
      | None => Err (graph_error "missing child during graph reconstruction")
      | Some child =>
          if negb (bool_decide (x_parent_id child = Some owner)) || is_some (parents !! child_id)
          then Err (graph_error "conflicting child ownership during graph reconstruction")
          else link_children rows owner rest (<[child_id := owner]> parents)
      end
  end.

(** One turn of the first loop. *)
Definition link_row (rows : Rows) (row : InsightExecutionCheckpoint) (l : Links)
    : result Links BrokerCommandError :=
  let? _ := checkpoint_validate row in
  let? missing_owner :=
    if is_active (x_state row)
    then let? dependencies := recovery_dependencies (x_execution_data row) in
         Ok (existsb (fun owner => is_none (rows !! owner)) dependencies)
    else Ok false in
  if (missing_owner : bool) then Err (graph_error "missing explicit execution recovery owner")
  else if negb (x_materialized row) && is_some (x_pipeline row)
  then Err (graph_error "dormant insight cannot own a pipeline continuation")
  else if x_materialized row
          && is_some_and (fun parent => negb (x_materialized parent)) (x_parent_id row ≫= (rows !!.))
  then Err (graph_error "materialized insight has a dormant parent")
  else
    let? parents := link_children rows (x_insight_id row) (x_child_ids row) (lk_parents l) in
    Ok (mkLinks parents (<[x_insight_id row := length (x_child_ids row)]> (lk_counts l))
          (match x_child_ids row with [] => {[x_insight_id row]} ∪ lk_ready l | _ => lk_ready l end)).
Fixpoint link_rows (rows : Rows) (values : list InsightExecutionCheckpoint) (l : Links)
    : result Links BrokerCommandError :=
  match values with
  | [] => Ok l
  | row :: rest => let? l := link_row rows row l in link_rows rows rest l
  end.

(** [assembled.remove] of every child, in order. *)
Fixpoint take_children (children : list Uuid) (assembled : gmap Uuid Insight)
    : result (gmap Uuid Insight * list Insight) BrokerCommandError :=
  match children with
  | [] => Ok (assembled, [])
  | child :: rest =>
      match assembled !! child with
      | None => Err (graph_error "child not assembled before parent")
      | Some insight =>
          let? taken := take_children rest (delete child assembled) in
          Ok (taken.1, insight :: taken.2)
      end
  end.

(** The state of the second loop. *)
Record Assembly := mkAssembly {
  as_remaining : Rows;
  as_counts : gmap Uuid nat;
  as_ready : gset Uuid;
  as_assembled : gmap Uuid Insight;
  as_recovered : RecoveredInsights
}.

(** The parent's count; [None] is the panic of a missing or zero count. *)
Definition count_down (parents : gmap Uuid Uuid) (id : Uuid) (counts : gmap Uuid nat) (ready : gset Uuid)
    : option (gmap Uuid nat * gset Uuid) :=
  match parents !! id with
  | None => Some (counts, ready)
  | Some parent =>
      match counts !! parent with
      | Some (S n) =>
          Some (<[parent := n]> counts, match n with O => {[parent]} ∪ ready | S _ => ready end)
      | _ => None
      end
  end.

(** One turn of the second loop for the row [id], which was popped. *)
Definition assemble_row (parents : gmap Uuid Uuid) (id : Uuid) (a : Assembly)
    : option (result Assembly BrokerCommandError) :=
  match as_remaining a !! id with
  | None => Some (Err (graph_error "duplicate execution graph node"))
  | Some row =>
      let '(insight, children, cursor, materialized) := into_parts row in
      match take_children children (as_assembled a) with
      | Err e => Some (Err e)
      | Ok (assembled, kids) =>
          let insight := insight <| i_children := kids |> in
          let r := as_recovered a in
          let pipeline := match cursor with
                          | Some cursor => ri_pipeline r ++ [(id, cursor)]
                          | None => ri_pipeline r
                          end in
          let placed :=
            if (materialized : bool) then
              match add_insight (ri_collection r) insight with
              | Some collection =>
                  Some (Ok (match parents !! id with
                            | Some _ => <[id := recovery_structure_reference insight]> assembled
                            | None => assembled
                            end, mkRecovered collection pipeline (ri_work r ++ [id])))
              | None => None
              end
            else
              match parents !! id with
              | None => Some (Err (graph_error "dormant insight has no materialized ancestor"))
              | Some _ => Some (Ok (<[id := insight]> assembled,
                                    mkRecovered (ri_collection r) pipeline (ri_work r)))
              end in
          match placed with
          | None => None
          | Some (Err e) => Some (Err e)
          | Some (Ok (assembled, recovered)) =>
              match count_down parents id (as_counts a) (as_ready a) with
              | None => None
              | Some (counts, ready) =>
                  Some (Ok (mkAssembly (delete id (as_remaining a)) counts ready assembled recovered))
              end
          end
      end
  end.

(** [while let Some(id) = ready.pop_first()]. *)
Fixpoint assemble (fuel : nat) (parents : gmap Uuid Uuid) (a : Assembly)
    : option (result Assembly BrokerCommandError) :=
  match btree_first (as_ready a) with
  | None => Some (Ok a)
  | Some id =>
      match fuel with
      | O => None
      | S fuel =>
          match assemble_row parents id
                  (mkAssembly (as_remaining a) (as_counts a) (as_ready a ∖ {[id]}) (as_assembled a)
                     (as_recovered a)) with
          | Some (Ok a) => assemble fuel parents a
          | other => other
          end
      end
  end.

(** [values] is [recovery.rows.values()] in its iteration order. *)
Definition rebuild_insights (rows : Rows) (values : list InsightExecutionCheckpoint)
    : option (result RecoveredInsights BrokerCommandError) :=
  match link_rows rows values (mkLinks ∅ ∅ ∅) with
  | Err e => Some (Err e)
  | Ok l =>
      match assemble (size rows) (lk_parents l)
              (mkAssembly rows (lk_counts l) (lk_ready l) ∅ (mkRecovered collection_new [] [])) with
      | None => None
      | Some (Err e) => Some (Err e)
      | Some (Ok a) =>
          if negb (bool_decide (as_remaining a = ∅)) || negb (bool_decide (as_assembled a = ∅))
          then Some (Err (graph_error "cyclic or disconnected execution graph"))
          else Some (Ok (as_recovered a))
      end
  end.
End Rebuild.
