(* ===== verification/GraphRecoveryFacts.v ===== *)
(** * GraphRecoveryFacts: the rebuilt insights are the saved ones

    [rebuild_insights] terminates without panic, accepts exactly the acyclic
    graphs whose rows pass its checks, and what it builds is what the rows
    describe; in particular a captured tree of insights comes back unchanged. *)
From S2P Require Import Prelude.
From S2P Require Import OrderedSet.
From S2P Require Import Float64.
From S2P Require Import Text.
From S2P Require Import BrokerTypes.
From S2P Require Import TimeFrame.
From S2P Require Import InsightTypes.
From S2P Require Import Commands.
From S2P Require Import ExecutionData.
From S2P Require Import Insight.
From S2P Require Import Operations.
From S2P Require Import RecoveryViews.
From S2P Require Import Collection.
From S2P Require Import CollectionInvariant.
From S2P Require Import AccountLane.
From S2P Require Import Checkpoint.
From S2P Require Import Journal.
From S2P Require Import CommandDriver.
From S2P Require Import GraphRecovery.

Section Facts.
Context `{UuidText} `{Json}.

(** ** What the rows describe *)

(** The loader files every row under its identity. *)
Definition keyed (rows : Rows) : Prop := forall id row, rows !! id = Some row -> x_insight_id row = id.

(** How an insight appears in its parent. *)
Definition embed (row : InsightExecutionCheckpoint) (i : Insight) : Insight :=
  if x_materialized row then recovery_structure_reference i else i.
Definition own_part (row : InsightExecutionCheckpoint) : Insight := (into_parts row).1.1.1.

(** The insight a row stands for, read top down. *)
Inductive rebuilt (rows : Rows) : Uuid -> Insight -> Prop :=
| rebuilt_node id row kids :
    rows !! id = Some row ->
    Forall2 (fun c e => exists crow i, rows !! c = Some crow /\ rebuilt rows c i /\ e = embed crow i)
      (x_child_ids row) kids ->
    rebuilt rows id ((own_part row) <| i_children := kids |>).

(** The checks of one row, as facts. *)
Record row_ok (rows : Rows) (row : InsightExecutionCheckpoint) : Prop := {
  rk_valid : checkpoint_validate row = Ok ();
  rk_pipeline : x_materialized row = false -> x_pipeline row = None;
  rk_parent p prow : x_materialized row = true -> x_parent_id row = Some p -> rows !! p = Some prow ->
    x_materialized prow = true;
  rk_children c : c ∈ x_child_ids row -> exists crow, rows !! c = Some crow /\ x_parent_id crow = Some (x_insight_id row);
  rk_owners owners o : is_active (x_state row) = true -> recovery_dependencies (x_execution_data row) = Ok owners ->
    o ∈ owners -> is_Some (rows !! o)
}.

Lemma validate_children row : checkpoint_validate row = Ok () -> NoDup (x_child_ids row).
Proof.
  unfold checkpoint_validate. destruct (_ || _); [done|]. destruct (data_validate _); [|done]. cbn.
  destruct (match x_position_accounting row with Some _ => _ | None => _ end); [|done]. cbn.
  destruct (_ || _); [done|]. destruct (bool_decide (NoDup _)) eqn:E; [|done]. intros _. by apply bool_decide_eq_true in E.
Qed.
Lemma validate_deps row : checkpoint_validate row = Ok () -> is_ok (recovery_dependencies (x_execution_data row)) = true.
Proof.
  unfold checkpoint_validate. destruct (_ || _); [done|]. unfold data_validate. destruct (_ || _); [done|].
  destruct (existsb _ _); [done|]. by destruct (recovery_dependencies _).
Qed.

(** ** The first loop *)
Record links_ok (rows : Rows) (seen : list InsightExecutionCheckpoint) (l : Links) : Prop := {
  lo_parents c p : lk_parents l !! c = Some p <-> exists row, row ∈ seen /\ x_insight_id row = p /\ c ∈ x_child_ids row;
  lo_counts row : row ∈ seen -> lk_counts l !! x_insight_id row = Some (length (x_child_ids row));
  lo_ready id : id ∈ lk_ready l <-> exists row, row ∈ seen /\ x_insight_id row = id /\ x_child_ids row = []
}.

Lemma link_children_Ok rows owner children parents parents' :
  link_children rows owner children parents = Ok parents' ->
  (forall c, c ∈ children -> exists crow, rows !! c = Some crow /\ x_parent_id crow = Some owner) /\
  (forall c, c ∈ children -> parents !! c = None) /\
  (forall c p, parents' !! c = Some p <-> parents !! c = Some p \/ p = owner /\ c ∈ children).
Proof.
  revert parents. induction children as [|x rest IH]; intros parents; simpl.
  { intros [= ->]. split; [by intros c ?%elem_of_nil|]. split; [by intros c ?%elem_of_nil|].
    intros c p. split; [by left|]. intros [?|[_ ?%elem_of_nil]]; done. }
  destruct (rows !! x) as [crow|] eqn:Ex; [|done]. destruct (negb _ || _) eqn:Eg; [done|].
  apply orb_false_iff in Eg as [Ep En]. apply negb_false_iff, bool_decide_eq_true in Ep.
  assert (Hx : parents !! x = None) by (by destruct (parents !! x)).
  intros (Hc & Hn & Hp)%IH. split; [|split].
  - intros c [->|Hin]%elem_of_cons; eauto.
  - intros c [->|Hin]%elem_of_cons; [done|]. specialize (Hn c Hin).
    by apply lookup_insert_None in Hn as [? _].
  - intros c p. rewrite Hp, lookup_insert_Some, elem_of_cons. destruct (decide (x = c)) as [->|]; naive_solver.
Qed.

Lemma link_row_Ok rows row l l' :
  link_row rows row l = Ok l' -> row_ok rows row /\
  link_children rows (x_insight_id row) (x_child_ids row) (lk_parents l) = Ok (lk_parents l') /\
  lk_counts l' = <[x_insight_id row := length (x_child_ids row)]> (lk_counts l) /\
  lk_ready l' = (match x_child_ids row with [] => {[x_insight_id row]} ∪ lk_ready l | _ => lk_ready l end).
Proof.
  unfold link_row. destruct (checkpoint_validate row) as [[]|] eqn:Ev; [|done]. cbn.
  destruct (if is_active (x_state row) then _ else _) as [[|]|] eqn:Eo; [done| |done]. cbn.
  destruct (negb (x_materialized row) && is_some (x_pipeline row)) eqn:Ep; [done|].
  destruct (x_materialized row && _) eqn:Em; [done|].
  destruct (link_children _ _ _ _) as [parents|] eqn:El; [|done]. cbn. intros [= <-].
  split; [|by split]. split; [done| | |by eapply link_children_Ok|].
  - intros Hm. rewrite Hm in Ep. by destruct (x_pipeline row).
  - intros p prow Hm Hp Hrow. rewrite Hm, Hp in Em. cbn in Em. rewrite Hrow in Em. cbn in Em.
    by apply negb_false_iff in Em.
  - intros owners o Hac Hd Ho. rewrite Hac, Hd in Eo. cbn in Eo. injection Eo as Eo.
    destruct (rows !! o) eqn:Er; [by eauto|]. exfalso. apply not_true_iff_false in Eo. apply Eo, existsb_exists.
    exists o. rewrite <- list_elem_of_In, Er. done.
Qed.

(** The checks succeed on rows that satisfy them. *)
Lemma link_children_succeeds rows owner children parents :
  NoDup children -> (forall c, c ∈ children -> exists crow, rows !! c = Some crow /\ x_parent_id crow = Some owner) ->
  (forall c, c ∈ children -> parents !! c = None) -> exists parents', link_children rows owner children parents = Ok parents'.
Proof.
  intros Hnd. revert parents. induction Hnd as [|c children Hc Hnd IH]; intros parents Hall Hn; simpl; [eauto|].
  destruct (Hall c) as (crow & -> & Hp); [left|]. rewrite bool_decide_true by done. rewrite (Hn c) by left. cbn.
  apply IH; [intros x Hx; apply Hall; by right|]. intros x Hx. rewrite lookup_insert_ne by (intros ->; done).
  apply Hn. by right.
Qed.
Lemma link_row_succeeds rows row l :
  row_ok rows row -> (forall c, c ∈ x_child_ids row -> lk_parents l !! c = None) -> exists l', link_row rows row l = Ok l'.
Proof.
  intros [Hv Hp Hm Hc Ho] Hn. unfold link_row. rewrite Hv. cbn.
  assert (Hdeps : (if is_active (x_state row)
            then let? dependencies := recovery_dependencies (x_execution_data row) in
                 Ok (existsb (fun owner => is_none (rows !! owner)) dependencies)
            else Ok false) = Ok false).
  { destruct (is_active (x_state row)); [|done]. pose proof (validate_deps row Hv) as Hd.
    destruct (recovery_dependencies _) as [owners|]; [|done]. cbn. f_equal. apply not_true_iff_false.
    intros (o & Hin & Hx)%existsb_exists. destruct (Ho owners o) as [r Hr]; [done|done|by apply list_elem_of_In|].
    by rewrite Hr in Hx. }
  rewrite Hdeps. cbn. destruct (negb (x_materialized row) && _) eqn:E1.
  { apply andb_true_iff in E1 as [E1 E1']. apply negb_true_iff in E1. by rewrite (Hp E1) in E1'. }
  destruct (x_materialized row && _) eqn:E2.
  { apply andb_true_iff in E2 as [E2 E2']. destruct (x_parent_id row) as [p|] eqn:Ep; [|done]. cbn in E2'.
    destruct (rows !! p) as [prow|] eqn:Er; [|done]. cbn in E2'. by rewrite (Hm p prow E2 eq_refl Er) in E2'. }
  destruct (link_children_succeeds rows (x_insight_id row) (x_child_ids row) (lk_parents l)) as [parents' ->];
    [by apply validate_children|done|done|]. cbn. eauto.
Qed.

Lemma link_rows_Ok rows seen values l l' :
  links_ok rows seen l -> NoDup (x_insight_id <$> (seen ++ values)) -> link_rows rows values l = Ok l' ->
  links_ok rows (seen ++ values) l' /\ forall row, row ∈ values -> row_ok rows row.
Proof.
  revert seen l. induction values as [|row rest IH]; intros seen l Hl Hnd Hrun; simpl in Hrun.
  { injection Hrun as <-. rewrite app_nil_r. split; [done|]. by intros row ?%elem_of_nil. }
  destruct (link_row rows row l) as [l1|] eqn:E1; [|done]. cbn in Hrun.
  destruct (link_row_Ok rows row l l1 E1) as (Hrow & Hlc & Hcounts & Hready).
  apply link_children_Ok in Hlc as (_ & _ & Hpar).
  assert (Hl1 : links_ok rows (seen ++ [row]) l1).
  { destruct Hl as [A B C]. split.
    - intros c p. rewrite Hpar, A. split.
      + intros [(r & Hr & ?)|[-> Hc]]; [exists r|exists row]; rewrite elem_of_app, list_elem_of_singleton; auto.
      + intros (r & [Hr| ->%list_elem_of_singleton]%elem_of_app & Hp & Hc); [left; eauto|by right].
    - intros r [Hr| ->%list_elem_of_singleton]%elem_of_app; rewrite Hcounts; [|by rewrite lookup_insert_eq].
      rewrite lookup_insert_ne; [by apply B|]. intros E. rewrite fmap_app in Hnd.
      apply NoDup_app in Hnd as (_ & Hd & _). apply (Hd (x_insight_id r)); [by apply list_elem_of_fmap_2|].
      rewrite <- E. left.
    - intros id. rewrite Hready.
      assert (Hsnoc : (exists r, r ∈ seen ++ [row] /\ x_insight_id r = id /\ x_child_ids r = []) <->
                id ∈ lk_ready l \/ (x_insight_id row = id /\ x_child_ids row = [])).
      { rewrite C. split.
        - intros (r & [Hr| ->%list_elem_of_singleton]%elem_of_app & Hi & He); [left; eauto|by right].
        - intros [(r & Hr & Hi & He)|[Hi He]]; [exists r; rewrite elem_of_app; auto|].
          exists row. rewrite elem_of_app, list_elem_of_singleton. auto. }
      rewrite Hsnoc. destruct (x_child_ids row); [rewrite elem_of_union, elem_of_singleton|]; intuition congruence. }
  destruct (IH (seen ++ [row]) l1 Hl1) as [Hl' Hall]; [by rewrite <- app_assoc|done|].
  rewrite <- app_assoc in Hl'. split; [done|]. intros r [->|Hr]%elem_of_cons; [done|]. by apply Hall.
Qed.

Lemma link_rows_succeeds rows seen values l :
  links_ok rows seen l -> NoDup (x_insight_id <$> (seen ++ values)) ->
  (forall row, row ∈ seen ++ values -> row_ok rows row) -> exists l', link_rows rows values l = Ok l'.
Proof.
  revert seen l. induction values as [|row rest IH]; intros seen l Hl Hnd Hall; simpl; [eauto|].
  assert (Hrow : row_ok rows row) by (apply Hall; rewrite elem_of_app; right; left).
  destruct (link_row_succeeds rows row l Hrow) as [l1 E1].
  { intros c Hc. destruct (lk_parents l !! c) as [p|] eqn:Ep; [|done]. exfalso.
    apply (lo_parents _ _ _ Hl) in Ep as (row' & Hin & <- & Hc').
    destruct (rk_children _ _ Hrow c Hc) as (crow & Hcr & Hp1).
    assert (Hrow' : row_ok rows row') by (apply Hall; rewrite elem_of_app; by left).
    destruct (rk_children _ _ Hrow' c Hc') as (crow' & Hcr' & Hp2). assert (crow' = crow) as -> by congruence.
    rewrite fmap_app in Hnd. apply NoDup_app in Hnd as (_ & Hd & _).
    apply (Hd (x_insight_id row')); [by apply list_elem_of_fmap_2|]. assert (x_insight_id row' = x_insight_id row) as -> by congruence. left. }
  rewrite E1. cbn. apply (IH (seen ++ [row])); rewrite <- ?app_assoc; [|done|done].
  destruct (link_rows_Ok rows seen [row] l l1 Hl) as [Hl1 _]; [|by simpl; rewrite E1|done].
  rewrite fmap_app in Hnd |- *. apply NoDup_app in Hnd as (N1 & N2 & N3). apply NoDup_app. split; [done|].
  split; [|apply NoDup_singleton]. intros x Hx ->%list_elem_of_singleton. apply (N2 _ Hx). left.
Qed.

(** ** Helpers of the second loop *)
Lemma take_children_Ok children (assembled : gmap Uuid Insight) :
  NoDup children -> (forall c, c ∈ children -> is_Some (assembled !! c)) ->
  exists rest kids, take_children children assembled = Ok (rest, kids) /\
    Forall2 (fun c k => assembled !! c = Some k) children kids /\
    forall x, rest !! x = if decide (x ∈ children) then None else assembled !! x.
Proof.
  intros Hnd. revert assembled. induction Hnd as [|c children Hc Hnd IH]; intros assembled Hall; simpl.
  { exists assembled, []. split; [done|]. split; [constructor|]. intros x.
    destruct (decide (x ∈ [])) as [Hx|]; [by apply elem_of_nil in Hx|done]. }
  destruct (Hall c) as [k Hk]; [left|]. rewrite Hk.
  destruct (IH (delete c assembled)) as (rest & kids & -> & Hf & Hl).
  { intros x Hx. rewrite lookup_delete_ne by (intros ->; done). apply Hall. by right. }
  exists rest, (k :: kids). cbn. split; [done|]. split.
  - constructor; [done|]. eapply Forall2_impl; [exact Hf|]. intros x y Hxy. by apply lookup_delete_Some in Hxy as [_ ?].
  - intros x. rewrite Hl. destruct (decide (x = c)) as [->|Hne].
    + rewrite lookup_delete_eq. destruct (decide (c ∈ c :: children)) as [|Hn]; [by destruct (decide _)|destruct Hn; left].
    + rewrite lookup_delete_ne by done.
      destruct (decide (x ∈ children)), (decide (x ∈ c :: children)); try done; set_solver.
Qed.

(** The children of a row that are still to be assembled. *)
Definition open_children (remaining : Rows) (children : list Uuid) : list Uuid :=
  filter (fun c => is_Some (remaining !! c)) children.
Lemma open_children_other (remaining : Rows) children id :
  id ∉ children -> open_children (delete id remaining) children = open_children remaining children.
Proof.
  intros Hn. unfold open_children. induction children as [|c children IH]; [done|].
  apply not_elem_of_cons in Hn as [Hne Hn]. rewrite !filter_cons, (IH Hn).
  assert (E : delete id remaining !! c = remaining !! c) by (by rewrite lookup_delete_ne).
  cbv beta. destruct (decide (is_Some (delete id remaining !! c))) as [Hs|Hs], (decide (is_Some (remaining !! c)));
    rewrite E in Hs; done.
Qed.
Lemma open_children_one (remaining : Rows) children id :
  NoDup children -> id ∈ children -> is_Some (remaining !! id) ->
  length (open_children remaining children) = S (length (open_children (delete id remaining) children)).
Proof.
  intros Hnd Hin Hs. induction Hnd as [|c children Hc Hnd IH]; [by apply elem_of_nil in Hin|].
  unfold open_children. rewrite !filter_cons. apply elem_of_cons in Hin as [<-|Hin].
  - cbv beta. destruct (decide (is_Some (remaining !! id))) as [_|]; [|done].
    destruct (decide (is_Some (delete id remaining !! id))) as [Hd|_]; [rewrite lookup_delete_eq in Hd; by destruct Hd|]. simpl.
    fold (open_children remaining children). fold (open_children (delete id remaining) children).
    by rewrite open_children_other.
  - assert (E : delete id remaining !! c = remaining !! c) by (rewrite lookup_delete_ne; [done|intros ->; done]).
    specialize (IH Hin). unfold open_children in IH. cbv beta.
    destruct (decide (is_Some (delete id remaining !! c))) as [Hd|Hd], (decide (is_Some (remaining !! c)));
      rewrite E in Hd; simpl; try done; lia.
Qed.
Lemma open_children_nil (remaining : Rows) children :
  length (open_children remaining children) = 0 <-> forall c, c ∈ children -> remaining !! c = None.
Proof.
  unfold open_children. rewrite length_zero_iff_nil. split.
  - intros E c Hc. destruct (remaining !! c) eqn:Ec; [|done].
    assert (Hin : c ∈ filter (fun c => is_Some (remaining !! c)) children) by (apply list_elem_of_filter; eauto).
    rewrite E in Hin. by apply elem_of_nil in Hin.
  - intros Hall. apply elem_of_nil_inv. intros c [Hs Hc]%list_elem_of_filter. rewrite (Hall c Hc) in Hs. by destruct Hs.
Qed.

Lemma open_children_all (remaining : Rows) children :
  (forall c, c ∈ children -> is_Some (remaining !! c)) -> open_children remaining children = children.
Proof.
  unfold open_children. induction children as [|c children IH]; intros Hall; [done|]. rewrite filter_cons. cbv beta.
  destruct (decide (is_Some (remaining !! c))) as [_|Hn]; [|destruct Hn; apply Hall; left].
  f_equal. apply IH. intros x Hx. apply Hall. by right.
Qed.

(** ** The second loop *)
Section Assemble.
Variable rows : Rows.
Variable parents : gmap Uuid Uuid.
Hypothesis Hkeyed : keyed rows.
Hypothesis Hrows : forall id row, rows !! id = Some row -> row_ok rows row.
Hypothesis Hparents : forall c p, parents !! c = Some p <-> exists row, rows !! p = Some row /\ c ∈ x_child_ids row.

Record graph_ok (remaining : Rows) (counts : gmap Uuid nat) (ready : gset Uuid)
    (assembled : gmap Uuid Insight) : Prop := {
  go_remaining : remaining ⊆ rows;
  go_closed id row c : rows !! id = Some row -> remaining !! id = None -> c ∈ x_child_ids row ->
    remaining !! c = None;
  go_counts id row : rows !! id = Some row ->
    counts !! id = Some (length (open_children remaining (x_child_ids row)));
  go_ready id : id ∈ ready <->
    exists row, remaining !! id = Some row /\ length (open_children remaining (x_child_ids row)) = 0;
  go_assembled id e : assembled !! id = Some e -> exists row p i,
    rows !! id = Some row /\ remaining !! id = None /\ parents !! id = Some p /\
    is_Some (remaining !! p) /\ rebuilt rows id i /\ e = embed row i;
  go_waiting id row p : rows !! id = Some row -> remaining !! id = None -> parents !! id = Some p ->
    is_Some (remaining !! p) -> is_Some (assembled !! id)
}.
Record recovered_ok (remaining : Rows) (r : RecoveredInsights) : Prop := {
  ro_collection : coll_ok (ri_collection r);
  ro_insights id i : c_insights (ri_collection r) !! id = Some i -> rebuilt rows id i;
  ro_materialized id : is_Some (c_insights (ri_collection r) !! id) <->
    exists row, rows !! id = Some row /\ remaining !! id = None /\ x_materialized row = true;
  ro_nodup : NoDup (ri_work r);
  ro_work id : id ∈ ri_work r <-> is_Some (c_insights (ri_collection r) !! id);
  ro_order k id row c : ri_work r !! k = Some id -> rows !! id = Some row ->
    c ∈ x_child_ids row -> c ∈ ri_work r -> c ∈ take k (ri_work r);
  ro_pipeline id cursor : (id, cursor) ∈ ri_pipeline r <->
    exists row, rows !! id = Some row /\ remaining !! id = None /\ x_pipeline row = Some cursor
}.
Definition assembly_ok (a : Assembly) : Prop :=
  graph_ok (as_remaining a) (as_counts a) (as_ready a) (as_assembled a) /\
  recovered_ok (as_remaining a) (as_recovered a).

Lemma into_parts_eq row : into_parts row = (own_part row, x_child_ids row, x_pipeline row, x_materialized row).
Proof. done. Qed.
Lemma own_part_id row : i_insight_id (own_part row) = x_insight_id row.
Proof. done. Qed.

Lemma children_nodup id row : rows !! id = Some row -> NoDup (x_child_ids row).
Proof. intros Hr. apply validate_children, (Hrows id row Hr). Qed.
Lemma one_parent id row id' row' c :
  rows !! id = Some row -> rows !! id' = Some row' -> c ∈ x_child_ids row -> c ∈ x_child_ids row' -> id = id'.
Proof.
  intros Hr Hr' Hc Hc'. assert (P1 : parents !! c = Some id) by (apply Hparents; eauto).
  assert (P2 : parents !! c = Some id') by (apply Hparents; eauto). congruence.
Qed.

(** One row leaves [remaining]. *)
Section Step.
Context (remaining : Rows) (counts : gmap Uuid nat) (ready : gset Uuid) (assembled : gmap Uuid Insight).
Context (id : Uuid) (row : InsightExecutionCheckpoint).
Hypothesis Hok : graph_ok remaining counts ready assembled.
Hypothesis Hid : remaining !! id = Some row.
Hypothesis Hzero : length (open_children remaining (x_child_ids row)) = 0.

Lemma step_row : rows !! id = Some row.
Proof. eapply lookup_weaken; [exact Hid|apply Hok]. Qed.
Lemma step_children c : c ∈ x_child_ids row -> remaining !! c = None.
Proof. by apply open_children_nil. Qed.
Lemma step_self : id ∉ x_child_ids row.
Proof. intros Hc%step_children. congruence. Qed.
Lemma step_parent p prow : rows !! p = Some prow -> id ∈ x_child_ids prow -> is_Some (remaining !! p) /\ p <> id.
Proof.
  intros Hp Hc. split.
  - destruct (remaining !! p) eqn:E; [by eauto|]. rewrite (go_closed _ _ _ _ Hok p prow id Hp E Hc) in Hid. done.
  - intros ->. assert (E : prow = row) by (pose proof step_row; congruence). rewrite E in Hc. by apply step_self.
Qed.

Lemma step_assembled c : c ∈ x_child_ids row -> is_Some (assembled !! c).
Proof.
  intros Hc. destruct (rk_children rows row (Hrows id row step_row) c Hc) as (crow & Hcrow & _).
  apply (go_waiting _ _ _ _ Hok c crow id); [done|by apply step_children| |by eauto].
  apply Hparents. exists row. split; [apply step_row|done].
Qed.
Lemma step_rebuilt kids :
  Forall2 (fun c k => assembled !! c = Some k) (x_child_ids row) kids ->
  rebuilt rows id ((own_part row) <| i_children := kids |>).
Proof.
  intros Hf. constructor; [apply step_row|]. eapply Forall2_impl; [exact Hf|]. intros c k Hk.
  destruct (go_assembled _ _ _ _ Hok c k Hk) as (crow & p & i & Hc & _ & _ & _ & Hr & ->). eauto.
Qed.

Lemma step_counts :
  exists counts' ready', count_down parents id counts (ready ∖ {[id]}) = Some (counts', ready') /\
    (forall p prow, rows !! p = Some prow ->
       counts' !! p = Some (length (open_children (delete id remaining) (x_child_ids prow)))) /\
    (forall x, x ∈ ready' <-> exists xrow, delete id remaining !! x = Some xrow /\
       length (open_children (delete id remaining) (x_child_ids xrow)) = 0).
Proof.
  assert (Hready : forall x, x ∈ ready ∖ {[id]} <-> x <> id /\ exists xrow, remaining !! x = Some xrow /\
            length (open_children remaining (x_child_ids xrow)) = 0).
  { intros x. rewrite elem_of_difference, elem_of_singleton, (go_ready _ _ _ _ Hok). tauto. }
  unfold count_down. destruct (parents !! id) as [p|] eqn:Ep.
  - apply Hparents in Ep as (prow & Hp & Hc). pose proof (step_parent p prow Hp Hc) as [[prow' Hpr] Hne].
    assert (Hpp : prow' = prow) by (pose proof (lookup_weaken _ _ _ _ Hpr (go_remaining _ _ _ _ Hok)); congruence).
    subst prow'. rewrite (go_counts _ _ _ _ Hok p prow Hp).
    rewrite (open_children_one remaining _ id (children_nodup p prow Hp) Hc) by eauto.
    set (n := length (open_children (delete id remaining) (x_child_ids prow))).
    assert (Hother : forall q qrow, rows !! q = Some qrow -> q <> p ->
              open_children (delete id remaining) (x_child_ids qrow) = open_children remaining (x_child_ids qrow)).
    { intros q qrow Hq Hqp. apply open_children_other. intros Hqc. by destruct Hqp; eapply one_parent. }
    eexists _, _. split; [done|]. split.
    + intros q qrow Hq. destruct (decide (q = p)) as [->|Hqp].
      * rewrite lookup_insert_eq. unfold n. by simplify_eq.
      * rewrite lookup_insert_ne by done. rewrite (Hother q qrow Hq Hqp). by apply (go_counts _ _ _ _ Hok).
    + intros x. destruct (decide (x = p)) as [->|Hxp].
      * transitivity (n = 0).
        { destruct n as [|m] eqn:En; [set_solver|]. split; [|done]. intros [_ (xrow & Hx & Hz)]%Hready. simplify_eq.
          rewrite (open_children_one remaining _ id (children_nodup p prow Hp) Hc) in Hz by eauto. done. }
        rewrite lookup_delete_ne by done. rewrite Hpr. unfold n. naive_solver.
      * transitivity (x ∈ ready ∖ {[id]}); [destruct n; set_solver|]. rewrite Hready. split.
        -- intros [Hne' (xrow & Hx & Hz)]. exists xrow. rewrite lookup_delete_ne by done. split; [done|].
           rewrite (Hother x xrow); [done| |done]. eapply lookup_weaken; [exact Hx|apply Hok].
        -- intros (xrow & [Hne' Hx]%lookup_delete_Some & Hz). split; [done|]. exists xrow. split; [done|].
           rewrite (Hother x xrow) in Hz; [done| |done]. eapply lookup_weaken; [exact Hx|apply Hok].
  - assert (Hother : forall q qrow, rows !! q = Some qrow ->
              open_children (delete id remaining) (x_child_ids qrow) = open_children remaining (x_child_ids qrow)).
    { intros q qrow Hq. apply open_children_other. intros Hqc.
      assert (parents !! id = Some q) by (apply Hparents; eauto). congruence. }
    eexists _, _. split; [done|]. split; [intros q qrow Hq; rewrite (Hother q qrow Hq); by apply (go_counts _ _ _ _ Hok)|].
    intros x. rewrite Hready. split.
    + intros [Hne' (xrow & Hx & Hz)]. exists xrow. rewrite lookup_delete_ne by done. split; [done|].
      rewrite (Hother x xrow); [done|]. eapply lookup_weaken; [exact Hx|apply Hok].
    + intros (xrow & [Hne' Hx]%lookup_delete_Some & Hz). split; [done|]. exists xrow. split; [done|].
      rewrite (Hother x xrow) in Hz; [done|]. eapply lookup_weaken; [exact Hx|apply Hok].
Qed.

(** The new contents of [assembled]. *)
Lemma step_graph counts' ready' rest kids assembled' :
  (forall p prow, rows !! p = Some prow ->
     counts' !! p = Some (length (open_children (delete id remaining) (x_child_ids prow)))) ->
  (forall x, x ∈ ready' <-> exists xrow, delete id remaining !! x = Some xrow /\
     length (open_children (delete id remaining) (x_child_ids xrow)) = 0) ->
  (forall x, rest !! x = if decide (x ∈ x_child_ids row) then None else assembled !! x) ->
  Forall2 (fun c k => assembled !! c = Some k) (x_child_ids row) kids ->
  assembled' = match parents !! id with
               | Some _ => <[id := embed row ((own_part row) <| i_children := kids |>)]> rest
               | None => rest
               end ->
  graph_ok (delete id remaining) counts' ready' assembled'.
Proof.
  intros Hcounts Hready Hrest Hkids ->.
  assert (Hnone : forall x, delete id remaining !! x = None <-> x = id \/ remaining !! x = None).
  { intros x. rewrite lookup_delete_None. naive_solver. }
  assert (Hmine : forall x, parents !! x = Some id -> x ∈ x_child_ids row).
  { intros x (prow & Hp & Hx)%Hparents. pose proof step_row. by simplify_eq. }
  split; [|..|done|done| |].
  - etrans; [apply delete_subseteq|apply Hok].
  - intros x xrow c Hx Hxn Hc. apply Hnone. right. apply Hnone in Hxn as [->|Hxn].
    + apply step_children. pose proof step_row. by simplify_eq.
    + by eapply (go_closed _ _ _ _ Hok).
  - assert (Hold : forall x e, rest !! x = Some e -> exists xrow p i, rows !! x = Some xrow /\
      delete id remaining !! x = None /\ parents !! x = Some p /\ is_Some (delete id remaining !! p) /\
      rebuilt rows x i /\ e = embed xrow i).
    { intros x e He. rewrite Hrest in He. destruct (decide (x ∈ x_child_ids row)) as [|Hn]; [done|].
      destruct (go_assembled _ _ _ _ Hok x e He) as (xrow & p & i & ? & ? & Hp & Hpr & ? & ?).
      exists xrow, p, i. split; [done|]. split; [apply Hnone; by right|]. split; [done|]. split; [|done].
      rewrite lookup_delete_ne; [done|]. intros <-. by apply Hn, Hmine. }
    intros x e. destruct (parents !! id) as [p|] eqn:Ep; [|apply Hold].
    destruct (decide (x = id)) as [->|Hne]; [|rewrite lookup_insert_ne by done; apply Hold].
    rewrite lookup_insert_eq. intros [= <-].
    destruct (proj1 (Hparents id p) Ep) as (prow & Hp & Hc). destruct (step_parent p prow Hp Hc) as [Hpr Hpn].
    exists row, p, ((own_part row) <| i_children := kids |>). split; [apply step_row|].
    split; [by rewrite lookup_delete_eq|]. split; [done|]. split; [by rewrite lookup_delete_ne|].
    split; [by apply step_rebuilt|done].
  - intros x xrow p Hx Hxn Hp Hpr. destruct (decide (x = id)) as [->|Hne].
    + rewrite Hp. rewrite lookup_insert_eq. eauto.
    + apply Hnone in Hxn as [|Hxn]; [done|].
      assert (Hpi : p <> id) by (intros ->; rewrite lookup_delete_eq in Hpr; by destruct Hpr).
      assert (Hs : is_Some (rest !! x)).
      { rewrite Hrest. destruct (decide (x ∈ x_child_ids row)) as [Hc|].
        - destruct Hpi. assert (Hpx : parents !! x = Some id) by (apply Hparents; exists row; split; [apply step_row|done]).
          congruence.
        - apply (go_waiting _ _ _ _ Hok x xrow p); [done|done|done|]. by rewrite lookup_delete_ne in Hpr. }
      destruct (parents !! id); [by rewrite lookup_insert_ne|done].
Qed.

(** The cursor of the row joins the pipeline. *)
Lemma step_pipeline pipeline :
  (forall x cursor, (x, cursor) ∈ pipeline <->
     exists xrow, rows !! x = Some xrow /\ remaining !! x = None /\ x_pipeline xrow = Some cursor) ->
  forall x cursor,
  (x, cursor) ∈ (match x_pipeline row with Some cursor => pipeline ++ [(id, cursor)] | None => pipeline end) <->
  exists xrow, rows !! x = Some xrow /\ delete id remaining !! x = None /\ x_pipeline xrow = Some cursor.
Proof.
  intros Hp x cursor. transitivity ((x, cursor) ∈ pipeline \/ x = id /\ x_pipeline row = Some cursor).
  { destruct (x_pipeline row) as [cur|]; [|naive_solver].
    rewrite elem_of_app, list_elem_of_singleton. naive_solver. }
  rewrite Hp. pose proof step_row as Hrow. split.
  - intros [(xrow & Hx & Hn & He)|[-> He]]; [exists xrow|exists row]; (split; [done|]); split; try done.
    + apply lookup_delete_None. by right.
    + apply lookup_delete_eq.
  - intros (xrow & Hx & [<-|Hn]%lookup_delete_None & He); [right; split; [done|congruence]|left; eauto].
Qed.
End Step.

Lemma add_insight_rows c i c' :
  coll_ok c -> deps_ok i -> add_insight c i = Some c' ->
  coll_ok c' /\ c_insights c' = <[i_insight_id i := i]> (c_insights c).
Proof.
  intros Hok Hd Ha. destruct (add_insight_ok c i Hok Hd) as (c1 & E1 & Hok1).
  assert (c1 = c') as -> by congruence. split; [done|]. unfold add_insight in Ha.
  set (c0 := c <| c_materialized := _ |> <| c_insights := _ |>) in Ha.
  assert (Hok0 : coll_ok c0).
  { apply (coll_ok_frame c); [done| |done]. cbn. intros k r [[<- <-]|[Hne Hr]]%lookup_insert_Some; [set_solver|].
    destruct (row_known c k r Hok Hr) as (? & ? & ?). set_solver. }
  destruct (refresh_form c0 (i_insight_id i) i Hok0) as (v & bs & bi & counts & o2i & E & _);
    [apply lookup_insert_eq|]. rewrite E in Ha. by injection Ha as <-.
Qed.


(** A placed row is recorded. *)
Lemma step_dormant remaining counts ready assembled id row r :
  graph_ok remaining counts ready assembled -> remaining !! id = Some row -> recovered_ok remaining r ->
  x_materialized row = false ->
  recovered_ok (delete id remaining)
    (mkRecovered (ri_collection r)
       (match x_pipeline row with Some cursor => ri_pipeline r ++ [(id, cursor)] | None => ri_pipeline r end) (ri_work r)).
Proof.
  intros Hok Hid [A B C D E F G] Hm. pose proof (lookup_weaken _ _ _ _ Hid (go_remaining _ _ _ _ Hok)) as Hrow.
  split; cbn; try done; [|by eapply step_pipeline].
  intros x. rewrite C. split; intros (xrow & Hx & Hn & Hxm); exists xrow; (split; [done|]); (split; [|done]).
  - apply lookup_delete_None. by right.
  - apply lookup_delete_None in Hn as [<-|Hn]; [congruence|done].
Qed.
Lemma step_materialized remaining counts ready assembled id row kids r c' :
  graph_ok remaining counts ready assembled -> remaining !! id = Some row -> recovered_ok remaining r ->
  length (open_children remaining (x_child_ids row)) = 0 ->
  Forall2 (fun c k => assembled !! c = Some k) (x_child_ids row) kids -> x_materialized row = true ->
  coll_ok c' -> c_insights c' = <[id := (own_part row) <| i_children := kids |>]> (c_insights (ri_collection r)) ->
  recovered_ok (delete id remaining)
    (mkRecovered c'
       (match x_pipeline row with Some cursor => ri_pipeline r ++ [(id, cursor)] | None => ri_pipeline r end)
       (ri_work r ++ [id])).
Proof.
  intros Hok Hid [A B C D E F G] Hz Hkids Hm Hc Hins.
  pose proof (lookup_weaken _ _ _ _ Hid (go_remaining _ _ _ _ Hok)) as Hrow.
  assert (Hnew : id ∉ ri_work r) by (rewrite E, C; intros (? & _ & Hn & _); congruence).
  split; cbn; [done|..|by eapply step_pipeline]; rewrite ?Hins.
  - intros x i [[<- <-]|[Hne Hi]]%lookup_insert_Some; [by eapply step_rebuilt|by apply B].
  - intros x. rewrite lookup_insert_is_Some, C. destruct (decide (x = id)) as [->|Hne].
    + split; [|by left]. intros _. exists row. split; [done|]. split; [apply lookup_delete_eq|done].
    + rewrite lookup_delete_ne by done. naive_solver.
  - apply NoDup_app. split; [done|]. split; [|apply NoDup_singleton]. by intros x Hx ->%list_elem_of_singleton.
  - intros x. rewrite elem_of_app, list_elem_of_singleton, E, lookup_insert_is_Some. destruct (decide (x = id)); naive_solver.
  - intros k x xrow c Hk Hx Hcx Hcw. apply lookup_app_Some in Hk as [Hk|[Hle Hk]].
    + pose proof (lookup_lt_Some _ _ _ Hk) as Hlt. rewrite take_app_le by lia. apply (F k x xrow c Hk Hx Hcx).
      apply elem_of_app in Hcw as [|Hcw]; [done|]. apply list_elem_of_singleton in Hcw as ->. exfalso.
      assert (Hxw : x ∈ ri_work r) by (by eapply list_elem_of_lookup_2). apply E, C in Hxw as (? & _ & Hn & _).
      rewrite (go_closed _ _ _ _ Hok x xrow id Hx Hn Hcx) in Hid. done.
    + apply list_lookup_singleton_Some in Hk as [Hk <-]. assert (xrow = row) as -> by congruence.
      apply elem_of_app in Hcw as [Hcw|Hcw].
      * rewrite take_app_ge by lia. apply elem_of_app. by left.
      * apply list_elem_of_singleton in Hcw as ->. exfalso.
        by apply (step_self remaining id row Hid Hz).
Qed.

Definition pop (a : Assembly) (id : Uuid) : Assembly :=
  mkAssembly (as_remaining a) (as_counts a) (as_ready a ∖ {[id]}) (as_assembled a) (as_recovered a).
Lemma assemble_row_ok a id :
  assembly_ok a -> id ∈ as_ready a ->
  (exists a', assemble_row parents id (pop a id) = Some (Ok a') /\ assembly_ok a' /\
     as_remaining a' = delete id (as_remaining a)) \/
  (exists row e, assemble_row parents id (pop a id) = Some (Err e) /\ rows !! id = Some row /\
     x_materialized row = false /\ parents !! id = None).
Proof.
  intros [Hg Hr] Hid. apply (go_ready _ _ _ _ Hg) in Hid as (row & Hid & Hz).
  pose proof (step_row _ _ _ _ id row Hg Hid) as Hrow.
  destruct (take_children_Ok (x_child_ids row) (as_assembled a) (children_nodup id row Hrow)) as (rest & kids & Ht & Hkids & Hrest).
  { by eapply step_assembled. }
  destruct (step_counts _ _ _ _ id row Hg Hid) as (counts' & ready' & Hcd & Hcounts & Hready); [done|].
  unfold assemble_row, pop. cbn [as_remaining as_counts as_ready as_assembled as_recovered].
  rewrite Hid, into_parts_eq. cbv beta iota zeta. rewrite Ht. cbv beta iota zeta. set (ins := (own_part row) <| i_children := kids |>).
  destruct (x_materialized row) eqn:Em.
  - assert (Hins : i_insight_id ins = id) by (apply (Hkeyed id row Hrow)).
    assert (Hdeps : deps_ok ins) by (apply validate_deps, (Hrows id row Hrow)).
    destruct (add_insight_ok (ri_collection (as_recovered a)) ins (ro_collection _ _ Hr) Hdeps) as (c' & Ha & _).
    destruct (add_insight_rows _ _ _ (ro_collection _ _ Hr) Hdeps Ha) as [Hc' Hci]. rewrite Ha, Hcd.
    left. eexists. split; [done|]. split; [|done]. split; cbn.
    + eapply (step_graph _ _ _ _ id row); try done. unfold embed. by rewrite Em.
    + eapply step_materialized; try done. by rewrite Hci, Hins.
  - destruct (parents !! id) as [p|] eqn:Ep; [|by right; eexists _, _].
    rewrite Hcd. left. eexists. split; [done|]. split; [|done]. split; cbn.
    + eapply (step_graph _ _ _ _ id row); try done. unfold embed. by rewrite Em, Ep.
    + by eapply step_dormant.
Qed.

(** The loop ends: with every ready row placed, or at a dormant root. *)
Lemma assemble_total fuel a :
  assembly_ok a -> size (as_remaining a) <= fuel ->
  (exists a', assemble fuel parents a = Some (Ok a') /\ assembly_ok a' /\ as_ready a' = ∅) \/
  (exists e id row, assemble fuel parents a = Some (Err e) /\ rows !! id = Some row /\
     x_materialized row = false /\ parents !! id = None).
Proof.
  revert a. induction fuel as [|fuel IH]; intros a Ha Hsz; simpl.
  all: destruct (btree_first (as_ready a)) as [id|] eqn:Ef;
    [|left; exists a; split; [done|]; split; [done|by apply btree_first_None]].
  all: apply btree_first_elem in Ef.
  - apply (go_ready _ _ _ _ (proj1 Ha)) in Ef as (row & Hid & _).
    assert (E : as_remaining a = ∅) by (apply map_size_empty_inv; lia). rewrite E in Hid. by apply lookup_empty_Some in Hid.
  - fold (pop a id). destruct (assemble_row_ok a id Ha Ef) as [(a' & -> & Ha' & Er)|(row & e & -> & Hrow)].
    + apply IH; [done|]. rewrite Er. apply (go_ready _ _ _ _ (proj1 Ha)) in Ef as (row & Hid & _).
      rewrite map_size_delete_Some by eauto. lia.
    + right. by exists e, id, row.
Qed.
End Assemble.

(** ** Reconstruction *)

(** [values] lists the rows in some order. *)
Definition listing (rows : Rows) (values : list InsightExecutionCheckpoint) : Prop :=
  values ≡ₚ (map_to_list rows).*2.
Lemma listing_elem rows values row : listing rows values -> row ∈ values <-> exists id, rows !! id = Some row.
Proof.
  intros Hl. rewrite (Hl : values ≡ₚ _), list_elem_of_fmap. split.
  - intros ([id r] & -> & Hin). apply elem_of_map_to_list in Hin. eauto.
  - intros [id Hid]. exists (id, row). split; [done|]. by apply elem_of_map_to_list.
Qed.
Lemma listing_nodup rows values : keyed rows -> listing rows values -> NoDup (x_insight_id <$> values).
Proof.
  intros Hk Hl. rewrite (Hl : values ≡ₚ _).
  assert (E : x_insight_id <$> (map_to_list rows).*2 = (map_to_list rows).*1).
  { rewrite <- list_fmap_compose. apply list_fmap_ext. intros k [id row] Hx. apply list_elem_of_lookup_2 in Hx.
    apply elem_of_map_to_list in Hx. by apply Hk. }
  rewrite E. apply NoDup_fst_map_to_list.
Qed.

Definition start_assembly (rows : Rows) (l : Links) : Assembly :=
  mkAssembly rows (lk_counts l) (lk_ready l) ∅ (mkRecovered collection_new [] []).
Lemma linked rows values l :
  keyed rows -> listing rows values -> link_rows rows values (mkLinks ∅ ∅ ∅) = Ok l ->
  (forall id row, rows !! id = Some row -> row_ok rows row) /\
  (forall c p, lk_parents l !! c = Some p <-> exists row, rows !! p = Some row /\ c ∈ x_child_ids row) /\
  assembly_ok rows (lk_parents l) (start_assembly rows l).
Proof.
  intros Hk Hl Hrun. destruct (link_rows_Ok rows [] values (mkLinks ∅ ∅ ∅) l) as [[A B C] Hall].
  { split; cbn; [|by intros row ?%elem_of_nil|].
    - intros c p. rewrite lookup_empty. split; [done|]. by intros (row & ?%elem_of_nil & _).
    - intros id. split; [set_solver|]. by intros (row & ?%elem_of_nil & _). }
  { by apply (listing_nodup rows). }
  { done. }
  simpl in *. assert (Hin : forall id row, rows !! id = Some row -> row ∈ values) by (intros; apply (listing_elem _ _ _ Hl); eauto).
  assert (Hrows : forall id row, rows !! id = Some row -> row_ok rows row) by eauto.
  assert (Hof : forall row, row ∈ values -> rows !! x_insight_id row = Some row).
  { intros row [id Hid]%(listing_elem _ _ _ Hl). by rewrite (Hk id row Hid). }
  assert (Hopen : forall id row, rows !! id = Some row -> open_children rows (x_child_ids row) = x_child_ids row).
  { intros id row Hid. apply open_children_all. intros c Hc.
    destruct (rk_children _ _ (Hrows id row Hid) c Hc) as (crow & ? & _). eauto. }
  assert (Hpar : forall c p, lk_parents l !! c = Some p <-> exists row, rows !! p = Some row /\ c ∈ x_child_ids row).
  { intros c p. rewrite A. split.
    - intros (row & Hr & <- & Hc). exists row. by split; [apply Hof|].
    - intros (row & Hr & Hc). exists row. split; [eauto|]. by split; [apply Hk|]. }
  split; [done|]. split; [done|]. split; cbn.
  - split; [done|..].
    + intros id row c Hid Hn. congruence.
    + intros id row Hid. rewrite (Hopen id row Hid), <- (Hk id row Hid). apply B. eauto.
    + intros id. rewrite C. split.
      * intros (row & Hr & <- & Hc). exists row. split; [by apply Hof|]. rewrite Hc. done.
      * intros (row & Hr & Hz). exists row. split; [eauto|]. split; [by apply Hk|].
        rewrite (Hopen id row Hr) in Hz. by apply length_zero_iff_nil.
    + intros id e. rewrite lookup_empty. done.
    + intros id row p Hid Hn. congruence.
  - split; cbn; [apply collection_new_ok|..].
    + intros id i. rewrite lookup_empty. done.
    + intros id. rewrite lookup_empty. split; [by intros []|]. intros (row & Hid & Hn & _). congruence.
    + constructor.
    + intros id. rewrite lookup_empty. split; [by intros ?%elem_of_nil|by intros []].
    + done.
    + intros id cursor. split; [by intros ?%elem_of_nil|]. intros (row & Hid & Hn & _). congruence.
Qed.

(** Everything is placed when nothing remains. *)
Lemma placed_all rows parents a :
  assembly_ok rows parents a -> as_remaining a = ∅ -> as_assembled a = ∅.
Proof.
  intros [Hg _] E. apply map_eq. intros id. rewrite lookup_empty. destruct (as_assembled a !! id) as [e|] eqn:Ee; [|done].
  destruct (go_assembled _ _ _ _ _ _ Hg id e Ee) as (row & p & i & _ & _ & _ & Hp & _).
  rewrite E, lookup_empty in Hp. by destruct Hp.
Qed.
(** A row of least rank among the remaining is ready. *)
Lemma stuck_is_cyclic rows parents a (rank : Uuid -> nat) :
  assembly_ok rows parents a -> as_ready a = ∅ ->
  (forall id row c, rows !! id = Some row -> c ∈ x_child_ids row -> rank c < rank id) -> as_remaining a = ∅.
Proof.
  intros [Hg _] Er Hrank. apply map_eq. intros id. rewrite lookup_empty.
  remember (rank id) as n eqn:En. revert id En. induction n as [n IH] using lt_wf_ind. intros id En.
  destruct (as_remaining a !! id) as [row|] eqn:Eid; [|done]. exfalso.
  assert (Hrow : rows !! id = Some row) by (eapply lookup_weaken; [exact Eid|apply Hg]).
  assert (Hin : id ∈ as_ready a); [|rewrite Er in Hin; set_solver].
  apply (go_ready _ _ _ _ _ _ Hg). exists row. split; [done|]. apply open_children_nil. intros c Hc.
  eapply (IH (rank c)); [|done]. subst n. by eapply Hrank.
Qed.

(** The rows satisfy the checks, nothing is its own ancestor, and dormant rows hang below others. *)
Definition graph_valid (rows : Rows) : Prop := forall id row, rows !! id = Some row -> row_ok rows row.
Definition acyclic (rows : Rows) : Prop :=
  exists rank : Uuid -> nat, forall id row c, rows !! id = Some row -> c ∈ x_child_ids row -> rank c < rank id.
Definition rooted (rows : Rows) : Prop :=
  forall id row, rows !! id = Some row -> x_materialized row = false ->
  exists p prow, rows !! p = Some prow /\ id ∈ x_child_ids prow.

Lemma rebuild_total rows values :
  keyed rows -> listing rows values ->
  exists r, rebuild_insights rows values = Some r /\
    (graph_valid rows -> acyclic rows -> rooted rows -> is_ok r = true) /\
    (is_ok r = true -> graph_valid rows).
Proof.
  intros Hk Hl. unfold rebuild_insights. destruct (link_rows rows values (mkLinks ∅ ∅ ∅)) as [l|e] eqn:El.
  2:{ eexists. split; [done|]. split; [|done]. intros Hv _ _. exfalso.
      destruct (link_rows_succeeds rows [] values (mkLinks ∅ ∅ ∅)) as [l' El']; [|by apply (listing_nodup rows)| |congruence].
      - split; cbn; [|by intros row ?%elem_of_nil|].
        + intros c p. rewrite lookup_empty. split; [done|]. by intros (row & ?%elem_of_nil & _).
        + intros id. split; [set_solver|]. by intros (row & ?%elem_of_nil & _).
      - intros row [id Hid]%(listing_elem _ _ _ Hl). by eapply Hv. }
  destruct (linked rows values l Hk Hl El) as (Hrows & Hpar & Ha).
  destruct (assemble_total rows (lk_parents l) Hk Hrows Hpar (size rows) (start_assembly rows l) Ha)
    as [(a & E & Hok & Hr)|(e & id & row & E & Hid & Hm & Hp)]; [done| |]; fold (start_assembly rows l); rewrite E.
  - destruct (negb (bool_decide (as_remaining a = ∅)) || _) eqn:Ed.
    + eexists. split; [done|]. split; [|done]. intros _ [rank Hrank] _. exfalso.
      pose proof (stuck_is_cyclic rows (lk_parents l) a rank Hok Hr Hrank) as Er.
      pose proof (placed_all rows (lk_parents l) a Hok Er) as Ea.
      rewrite !bool_decide_true in Ed by done. done.
    + eexists. split; [done|]. by split.
  - eexists. split; [done|]. split; [|done]. intros _ _ Hroot. exfalso.
    destruct (Hroot id row Hid Hm) as (p & prow & Hpr & Hc).
    assert (lk_parents l !! id = Some p) by (apply Hpar; eauto). congruence.
Qed.

(** C37 Reconstruction terminates and decides: on any rows filed under their identities, visited in any
    order, it returns without panic after at most one turn per row; it accepts every graph whose
    rows pass the checks, that has no cycle and whose dormant rows all hang below others, and it
    refuses every graph with a row that fails a check. *)
Theorem rebuild_terminates rows values :
  keyed rows -> listing rows values ->
  exists r, rebuild_insights rows values = Some r /\
    (graph_valid rows -> acyclic rows -> rooted rows -> is_ok r = true) /\
    (is_ok r = true -> graph_valid rows).
Proof. apply rebuild_total. Qed.

Lemma rebuild_Ok rows values r :
  keyed rows -> listing rows values -> rebuild_insights rows values = Some (Ok r) -> recovered_ok rows ∅ r.
Proof.
  intros Hk Hl. unfold rebuild_insights. destruct (link_rows rows values (mkLinks ∅ ∅ ∅)) as [l|e] eqn:El; [|done].
  destruct (linked rows values l Hk Hl El) as (Hrows & Hpar & Ha).
  destruct (assemble_total rows (lk_parents l) Hk Hrows Hpar (size rows) (start_assembly rows l) Ha)
    as [(a & E & Hok & _)|(e & id & row & E & _)]; [done| |]; fold (start_assembly rows l); rewrite E; [|done].
  destruct (negb (bool_decide (as_remaining a = ∅)) || _) eqn:Ed; [done|]. intros [= <-].
  apply orb_false_iff in Ed as [Ed _]. apply negb_false_iff, bool_decide_eq_true in Ed. rewrite <- Ed. apply Hok.
Qed.

(** C36 What is rebuilt is what the rows describe: the collection is consistent and owns exactly the
    materialized rows, each with the fields of its row and its children in the saved order (a
    materialized child as a structural reference, a dormant one whole); the work list has every
    materialized row once, children before their parents; and exactly the saved cursors are
    restored. *)
Theorem rebuild_restores_graph rows values r :
  keyed rows -> listing rows values -> rebuild_insights rows values = Some (Ok r) ->
  coll_ok (ri_collection r) /\
  (forall id, is_Some (c_insights (ri_collection r) !! id) <->
     exists row, rows !! id = Some row /\ x_materialized row = true) /\
  (forall id i, c_insights (ri_collection r) !! id = Some i -> rebuilt rows id i) /\
  NoDup (ri_work r) /\
  (forall id, id ∈ ri_work r <-> is_Some (c_insights (ri_collection r) !! id)) /\
  (forall k id row c, ri_work r !! k = Some id -> rows !! id = Some row -> c ∈ x_child_ids row ->
     c ∈ ri_work r -> c ∈ take k (ri_work r)) /\
  (forall id cursor, (id, cursor) ∈ ri_pipeline r <->
     exists row, rows !! id = Some row /\ x_pipeline row = Some cursor).
Proof.
  intros Hk Hl Hr. destruct (rebuild_Ok rows values r Hk Hl Hr) as [A B C D E F G].
  split; [done|]. split; [|split; [done|split; [done|split; [done|split; [done|]]]]].
  - intros id. rewrite C. split; [naive_solver|]. intros (row & ? & ?). exists row. by rewrite lookup_empty.
  - intros id cursor. rewrite G. split; [naive_solver|]. intros (row & ? & ?). exists row. by rewrite lookup_empty.
Qed.

(** ** Recovered entries *)

(** A materialized active insight that nothing is cancelling or closing. *)
Definition live_row (row : InsightExecutionCheckpoint) : Prop :=
  x_materialized row = true /\ is_inactive (x_state row) = false /\ x_cancelling row = false /\
  x_closing row = false /\ x_suppress_child_entries row = false.
(** Live up to the root, every link acknowledged by the parent, every parent ready for its child. *)
Inductive live_stack (rows : Rows) : Uuid -> nat -> Prop :=
| live_root id row : rows !! id = Some row -> live_row row -> x_parent_id row = None -> live_stack rows id 0
| live_child id row p prow n :
    rows !! id = Some row -> live_row row -> x_parent_id row = Some p -> rows !! p = Some prow ->
    id ∈ x_child_ids prow -> parent_ready row prow = true -> live_stack rows p n -> live_stack rows id (S n).
Lemma ancestors_open_spec fuel rows id :
  ancestors_open fuel rows id = true <-> exists n, n < fuel /\ live_stack rows id n.
Proof.
  revert id. induction fuel as [|fuel IH]; intros id; simpl; [split; [done|intros (n & ? & _); lia]|].
  destruct (rows !! id) as [row|] eqn:Er.
  2:{ split; [done|]. intros (n & _ & Hl). inversion Hl; congruence. }
  destruct (negb (x_materialized row) || _ || _ || _ || _) eqn:El.
  { split; [done|]. intros (n & _ & Hl). exfalso.
    assert (Hrow : live_row row) by (inversion Hl; simplify_eq; done). destruct Hrow as (A & B & C & D & E).
    rewrite A, B, C, D, E in El. done. }
  assert (Hlive : live_row row) by (unfold live_row; break_bool; by repeat split).
  destruct (x_parent_id row) as [p|] eqn:Ep.
  - destruct (rows !! p) as [prow|] eqn:Epr.
    2:{ split; [done|]. intros (n & _ & Hl). inversion Hl; congruence. }
    destruct (bool_decide (id ∈ x_child_ids prow)) eqn:Ec; simpl.
    2:{ apply bool_decide_eq_false in Ec. split; [done|]. intros (n & _ & Hl). inversion Hl; simplify_eq; first [done|congruence]. }
    apply bool_decide_eq_true in Ec. destruct (parent_ready row prow) eqn:Erd; simpl.
    2:{ split; [done|]. intros (n & _ & Hl). inversion Hl; simplify_eq; first [done|congruence]. }
    rewrite IH. split.
    + intros (n & Hn & Hl). exists (S n). split; [lia|]. by eapply live_child.
    + intros (n & Hn & Hl). inversion Hl; simplify_eq. eexists. split; [|done]. lia.
  - split; [|done]. intros _. exists 0. split; [lia|]. by eapply live_root.
Qed.

(** A recovered entry is dispatched only below a live stack: it may be sent exactly when execution is
    not stopping, its insight is still new, and on the way to the root (at most 64 levels) every
    insight is materialized, active and not being cancelled or closed, every parent acknowledges
    the child and is filled (or, for a split, itself submitted). *)
Theorem recovered_entry_needs_live_stack r owner :
  can_dispatch_entry r owner = true <->
  xr_stopping r = false /\ (exists row, xr_rows r !! owner = Some row /\ x_state row = New) /\
  exists n, n < 64 /\ live_stack (xr_rows r) owner n.
Proof.
  unfold can_dispatch_entry. destruct (xr_stopping r); cbn [orb negb is_none_or]; [naive_solver|].
  destruct (xr_rows r !! owner) as [row|] eqn:Er; cbn [orb negb is_none_or]; [|naive_solver].
  destruct (bool_decide (x_state row = New)) eqn:En; cbn [orb negb is_none_or].
  - apply bool_decide_eq_true in En. rewrite ancestors_open_spec. naive_solver.
  - apply bool_decide_eq_false in En. naive_solver.
Qed.
End Facts.
