(* ===== verification/RecoveryRoundTrip.v ===== *)
(** * RecoveryRoundTrip: saved trees come back

    Every node of a forest of insights is captured ([Checkpoint.capture]) into a row
    of its own; after a restart [rebuild_insights] returns the materialized nodes
    with their fields, histories and children. *)
From S2P Require Import Prelude.
From S2P Require Import OrderedSet.
From S2P Require Import Float64.
From S2P Require Import Text.
From S2P Require Import BrokerTypes.
From S2P Require Import TimeFrame.
From S2P Require Import InsightTypes.
From S2P Require Import Commands.
From S2P Require Import ExecutionData.
From S2P Require Import Insight.
From S2P Require Import Operations.
From S2P Require Import Scripted.
From S2P Require Import RecoveryViews.
From S2P Require Import Collection.
From S2P Require Import CollectionInvariant.
From S2P Require Import AccountLane.
From S2P Require Import Checkpoint.
From S2P Require Import Journal.
From S2P Require Import JournalFacts.
From S2P Require Import CommandDriver.
From S2P Require Import GraphRecovery.
From S2P Require Import GraphRecoveryFacts.

(** All insights of a tree, the root first. *)
Fixpoint nodes (i : Insight) : list Insight := i :: concat (map nodes (i_children i)).
Definition forest_nodes (forest : list Insight) : list Insight := concat (map nodes forest).

(** An insight as it comes back: its materialized descendants are references. *)
Fixpoint restored (materialized : Uuid -> bool) (i : Insight) : Insight :=
  i <| i_children :=
    map (fun c => if materialized (i_insight_id c) then recovery_structure_reference (restored materialized c)
                  else restored materialized c) (i_children i) |>.

Lemma child_smaller c i : c ∈ i_children i -> tree_size c < tree_size i.
Proof.
  intros Hc. assert (E : tree_size i = S (sum_list_with tree_size (i_children i))) by (by destruct i).
  rewrite E. apply Nat.lt_succ_r. clear E. revert Hc. generalize (i_children i). intros l.
  induction l as [|x l IH]; intros Hc; [by apply elem_of_nil in Hc|].
  apply elem_of_cons in Hc as [->|Hc]; simpl; [lia|]. specialize (IH Hc). lia.
Qed.
(** Induction over the children. *)
Lemma insight_tree_ind (P : Insight -> Prop) :
  (forall i, (forall c, c ∈ i_children i -> P c) -> P i) -> forall i, P i.
Proof.
  intros Hstep i. remember (tree_size i) as n eqn:En. revert i En. induction n as [n IH] using lt_wf_ind.
  intros i ->. apply Hstep. intros c Hc. eapply IH; [by apply child_smaller|done].
Qed.

Lemma nodes_eq i : nodes i = i :: forest_nodes (i_children i).
Proof. by destruct i. Qed.
Lemma restored_eq m i : restored m i = i <| i_children :=
    map (fun c => if m (i_insight_id c) then recovery_structure_reference (restored m c) else restored m c) (i_children i) |>.
Proof. by destruct i. Qed.
Lemma elem_of_forest_nodes n forest : n ∈ forest_nodes forest <-> exists i, i ∈ forest /\ n ∈ nodes i.
Proof.
  unfold forest_nodes. rewrite list_elem_of_In, in_concat. setoid_rewrite in_map_iff. setoid_rewrite <- list_elem_of_In.
  naive_solver.
Qed.
Lemma node_self i : i ∈ nodes i.
Proof. rewrite nodes_eq. left. Qed.
Lemma node_child i c n : c ∈ i_children i -> n ∈ nodes c -> n ∈ nodes i.
Proof. intros Hc Hn. rewrite nodes_eq. right. apply elem_of_forest_nodes. eauto. Qed.
Lemma node_children i n c : n ∈ nodes i -> c ∈ i_children n -> c ∈ nodes i.
Proof.
  revert n c. induction i as [i IH] using insight_tree_ind. intros n c Hn Hc. rewrite nodes_eq in Hn.
  apply elem_of_cons in Hn as [->|(x & Hx & Hn)%elem_of_forest_nodes].
  - eapply node_child; [exact Hc|apply node_self].
  - eapply node_child; [exact Hx|]. by eapply (IH x Hx n).
Qed.
Lemma forest_child forest n c : n ∈ forest_nodes forest -> c ∈ i_children n -> c ∈ forest_nodes forest.
Proof. rewrite !elem_of_forest_nodes. intros (i & Hi & Hn) Hc. exists i. split; [done|]. by eapply node_children. Qed.
(** Every node is a root or somebody's child. *)
Lemma node_parent i n : n ∈ nodes i -> n = i \/ exists p, p ∈ nodes i /\ n ∈ i_children p.
Proof.
  revert n. induction i as [i IH] using insight_tree_ind. intros n Hn. rewrite nodes_eq in Hn.
  apply elem_of_cons in Hn as [->|(x & Hx & Hn)%elem_of_forest_nodes]; [by left|right].
  destruct (IH x Hx n Hn) as [->|(p & Hp & Hc)]; [exists i; split; [apply node_self|done]|].
  exists p. split; [by eapply node_child|done].
Qed.

(** Nothing is lost of an insight whose descendants are dormant. *)
Lemma restored_dormant m i :
  (forall n, n ∈ forest_nodes (i_children i) -> m (i_insight_id n) = false) -> restored m i = i.
Proof.
  induction i as [i IH] using insight_tree_ind. intros Hd. rewrite restored_eq.
  assert (E : map (fun c => if m (i_insight_id c) then recovery_structure_reference (restored m c) else restored m c)
            (i_children i) = i_children i); [|rewrite E; by destruct i].
  rewrite <- (map_id (i_children i)) at 2. apply map_ext_in. intros c Hc%list_elem_of_In.
  assert (Hin : forall n, n ∈ nodes c -> n ∈ forest_nodes (i_children i)) by (intros n Hn; apply elem_of_forest_nodes; eauto).
  rewrite (Hd c) by (apply Hin, node_self). apply IH; [done|]. intros n Hn. apply Hd, Hin. rewrite nodes_eq. by right.
Qed.

Section RoundTrip.
Context `{UuidText} `{Json} `{Fingerprint}.

(** What the strategy and the driver add to the insights when they are saved. *)
Record SaveChoices := mkChoices {
  sc_materialized : Uuid -> bool;
  sc_revision : Uuid -> Z;
  sc_cursor : Uuid -> option InsightPipelineCheckpoint;
  sc_receipts : Uuid -> list BrokerCommandReceipt
}.
Definition saved (s : SaveChoices) (n : Insight) : InsightExecutionCheckpoint :=
  let id := i_insight_id n in
  with_owner_receipts (capture n (sc_revision s id) (sc_materialized s id) (sc_cursor s id)) (sc_receipts s id).
Definition saved_rows (s : SaveChoices) (forest : list Insight) : Rows :=
  list_to_map ((fun n => (i_insight_id n, saved s n)) <$> forest_nodes forest).

(** A forest that can be saved: distinct insights that know their parents, rows that pass validation,
    and only materialized insights above materialized ones. *)
Record savable (s : SaveChoices) (forest : list Insight) : Prop := {
  sv_distinct : NoDup (i_insight_id <$> forest_nodes forest);
  sv_parent n c : n ∈ forest_nodes forest -> c ∈ i_children n -> i_parent_id c = Some (i_insight_id n);
  sv_valid n : n ∈ forest_nodes forest -> checkpoint_validate (saved s n) = Ok ();
  sv_roots i : i ∈ forest -> sc_materialized s (i_insight_id i) = true;
  sv_above n p : n ∈ forest_nodes forest -> p ∈ forest_nodes forest -> i_parent_id n = Some (i_insight_id p) ->
    sc_materialized s (i_insight_id n) = true -> sc_materialized s (i_insight_id p) = true;
  sv_cursor n : n ∈ forest_nodes forest -> sc_materialized s (i_insight_id n) = false ->
    sc_cursor s (i_insight_id n) = None;
  sv_owners n owners o : n ∈ forest_nodes forest -> is_active (i_state n) = true ->
    recovery_dependencies (i_execution_data n) = Ok owners -> o ∈ owners ->
    exists m, m ∈ forest_nodes forest /\ i_insight_id m = o
}.

Section Saved.
Variables (s : SaveChoices) (forest : list Insight).
Hypothesis Hs : savable s forest.

Lemma saved_lookup id row :
  saved_rows s forest !! id = Some row <-> exists n, n ∈ forest_nodes forest /\ i_insight_id n = id /\ row = saved s n.
Proof.
  unfold saved_rows. rewrite <- elem_of_list_to_map.
  - rewrite list_elem_of_fmap. naive_solver.
  - rewrite <- list_fmap_compose. apply Hs.
Qed.
Lemma saved_node n : n ∈ forest_nodes forest -> saved_rows s forest !! i_insight_id n = Some (saved s n).
Proof. intros Hn. apply saved_lookup. eauto. Qed.
Lemma saved_keyed : keyed (saved_rows s forest).
Proof. intros id row (n & _ & <- & ->)%saved_lookup. done. Qed.

Lemma saved_valid : graph_valid (saved_rows s forest).
Proof.
  intros id row (n & Hn & <- & ->)%saved_lookup. split.
  - by apply (sv_valid s forest Hs).
  - intros Hm. by apply (sv_cursor s forest Hs).
  - intros p prow Hm Hp (q & Hq & <- & ->)%saved_lookup. by apply (sv_above s forest Hs n q).
  - intros c Hc. cbn in Hc. apply list_elem_of_fmap in Hc as (k & -> & Hk). exists (saved s k).
    split; [|by apply (sv_parent s forest Hs n k)]. apply saved_node. by eapply forest_child.
  - intros owners o Ha Hd Ho. destruct (sv_owners s forest Hs n owners o Hn Ha Hd Ho) as (m & Hm & <-).
    eexists. by apply saved_node.
Qed.
Lemma saved_acyclic : acyclic (saved_rows s forest).
Proof.
  set (sizes := list_to_map ((fun n => (i_insight_id n, tree_size n)) <$> forest_nodes forest) : gmap Uuid nat).
  assert (Hsz : forall n, n ∈ forest_nodes forest -> sizes !! i_insight_id n = Some (tree_size n)).
  { intros n Hn. apply elem_of_list_to_map; [rewrite <- list_fmap_compose; apply Hs|].
    apply list_elem_of_fmap. eauto. }
  exists (fun id => default 0 (sizes !! id)). intros id row c (n & Hn & <- & ->)%saved_lookup Hc. cbn in Hc.
  apply list_elem_of_fmap in Hc as (k & -> & Hk). rewrite (Hsz n Hn), (Hsz k) by (by eapply forest_child).
  by apply child_smaller.
Qed.
Lemma saved_rooted : rooted (saved_rows s forest).
Proof.
  intros id row (n & Hn & <- & ->)%saved_lookup Hm. cbn in Hm. pose proof Hn as Hn'.
  apply elem_of_forest_nodes in Hn' as (i & Hi & Hni). destruct (node_parent i n Hni) as [->|(p & Hp & Hc)].
  - rewrite (sv_roots s forest Hs i Hi) in Hm. done.
  - exists (i_insight_id p), (saved s p). split; [apply saved_node, elem_of_forest_nodes; eauto|].
    cbn. by apply list_elem_of_fmap_2.
Qed.

(** The rows describe the insights they were captured from. *)
Lemma rebuilt_restored n x :
  n ∈ forest_nodes forest -> rebuilt (saved_rows s forest) (i_insight_id n) x -> x = restored (sc_materialized s) n.
Proof.
  revert x. induction n as [n IH] using insight_tree_ind. intros x Hn Hr. inversion Hr as [id row kids Hrow Hkids]; subst.
  assert (row = saved s n) as -> by (pose proof (saved_node n Hn); congruence). rewrite restored_eq.
  assert (E : kids = map (fun c => if sc_materialized s (i_insight_id c)
      then recovery_structure_reference (restored (sc_materialized s) c) else restored (sc_materialized s) c) (i_children n)).
  { change (x_child_ids (saved s n)) with (i_insight_id <$> i_children n) in Hkids. apply Forall2_fmap_l in Hkids.
    assert (Hin : forall c, c ∈ i_children n -> c ∈ forest_nodes forest) by (intros c Hc; by eapply forest_child).
    clear Hr Hrow. revert IH Hin Hkids. generalize (i_children n). intros l IH Hin Hf.
    induction Hf as [|c e l kids (crow & i & Hc & Hi & ->) _ IHl]; [done|]. simpl. f_equal.
    - assert (Hcn : c ∈ forest_nodes forest) by (apply Hin; left).
      assert (crow = saved s c) as -> by (pose proof (saved_node c Hcn); congruence).
      rewrite (IH c ltac:(left) i Hcn Hi). done.
    - apply IHl; [intros y Hy; apply IH; by right|intros y Hy; apply Hin; by right]. }
  rewrite E. by destruct n.
Qed.
End Saved.

(** C32 Saving and recovering is a round trip: when every insight of a forest was captured, in whatever
    revisions and with whatever cursors and receipts, reconstruction succeeds in any visiting order
    and returns every materialized insight with all its fields, history and children (materialized
    children as references), and as it was when its descendants are dormant. *)
Theorem saved_forest_recovered s forest values :
  savable s forest -> listing (saved_rows s forest) values ->
  exists r, rebuild_insights (saved_rows s forest) values = Some (Ok r) /\
    (forall n, n ∈ forest_nodes forest -> c_insights (ri_collection r) !! i_insight_id n =
       if sc_materialized s (i_insight_id n) then Some (restored (sc_materialized s) n) else None) /\
    (forall n, n ∈ forest_nodes forest -> sc_materialized s (i_insight_id n) = true ->
       (forall d, d ∈ forest_nodes (i_children n) -> sc_materialized s (i_insight_id d) = false) ->
       c_insights (ri_collection r) !! i_insight_id n = Some n).
Proof.
  intros Hs Hl. pose proof (saved_keyed s forest Hs) as Hk.
  destruct (rebuild_total (saved_rows s forest) values Hk Hl) as (r & Hr & Hok & _).
  specialize (Hok (saved_valid s forest Hs) (saved_acyclic s forest Hs) (saved_rooted s forest Hs)).
  destruct r as [r|]; [|done]. destruct (rebuild_Ok _ _ r Hk Hl Hr) as [_ B C _ _ _ _].
  assert (Hlook : forall n, n ∈ forest_nodes forest -> c_insights (ri_collection r) !! i_insight_id n =
            if sc_materialized s (i_insight_id n) then Some (restored (sc_materialized s) n) else None).
  { intros n Hn. specialize (C (i_insight_id n)). rewrite lookup_empty in C.
    destruct (c_insights (ri_collection r) !! i_insight_id n) as [x|] eqn:Ex.
    - destruct (proj1 C ltac:(eauto)) as (row & Hrow & _ & Hm).
      assert (row = saved s n) as -> by (pose proof (saved_node s forest Hs n Hn); congruence). cbn in Hm. rewrite Hm.
      f_equal. apply (rebuilt_restored s forest Hs n x Hn). by apply B.
    - destruct (sc_materialized s (i_insight_id n)) eqn:Em; [|done].
      destruct (proj2 C) as [x Hx]; [|congruence]. exists (saved s n). split; [by apply saved_node|]. by split. }
  exists r. split; [done|]. split; [done|]. intros n Hn Hm Hd. rewrite (Hlook n Hn), Hm.
  by rewrite restored_dormant.
Qed.
End RoundTrip.

(** ** A root with a dormant child *)
Definition demo_child : Insight := demo_owner <| i_insight_id := 9%N |> <| i_parent_id := Some (i_insight_id demo_owner) |>.
Definition demo_tree : Insight := demo_owner <| i_children := [demo_child] |>.
Definition demo_choices : SaveChoices :=
  mkChoices (fun id => negb (bool_decide (id = 9%N))) (fun _ => 1%Z) (fun _ => None) (fun _ => []).
Definition demo_rows : Rows := saved_rows (H1 := demo_fingerprint) demo_choices [demo_tree].

Lemma demo_savable : savable (H0 := ids_json) (H1 := demo_fingerprint) demo_choices [demo_tree].
Proof.
  assert (Hn : forall n, n ∈ forest_nodes [demo_tree] -> n = demo_tree \/ n = demo_child).
  { assert (E : forest_nodes [demo_tree] = [demo_tree; demo_child]) by reflexivity. rewrite E.
    intros n [->|[->|Hn]%elem_of_cons]%elem_of_cons; [by left|by right|by apply elem_of_nil in Hn]. }
  split.
  - apply (bool_decide_unpack (NoDup (i_insight_id <$> forest_nodes [demo_tree]))). vm_compute. exact I.
  - intros n c Hf Hc. destruct (Hn n Hf) as [->| ->]; [|by apply elem_of_nil in Hc].
    apply list_elem_of_singleton in Hc as ->. done.
  - intros n Hf. destruct (Hn n Hf) as [->| ->]; vm_compute; reflexivity.
  - intros i ->%list_elem_of_singleton. done.
  - intros n p Hf Hp Hpar Hm. destruct (Hn p Hp) as [->| ->]; [reflexivity|].
    destruct (Hn n Hf) as [->| ->]; vm_compute in Hpar; discriminate.
  - reflexivity.
  - intros n owners o Hf Ha Hd Ho. destruct (Hn n Hf) as [->| ->]; vm_compute in Hd; injection Hd as <-; by apply elem_of_nil in Ho.
Qed.
Lemma demo_listing : listing demo_rows (map_to_list demo_rows).*2.
Proof. unfold listing. reflexivity. Qed.

Lemma saved_forest_recovered_witness :
  exists r, rebuild_insights (H0 := ids_json) demo_rows (map_to_list demo_rows).*2 = Some (Ok r) /\
    c_insights (ri_collection r) !! i_insight_id demo_tree = Some demo_tree.
Proof.
  destruct (saved_forest_recovered (H0 := ids_json) (H1 := demo_fingerprint) demo_choices [demo_tree]
              (map_to_list demo_rows).*2 demo_savable demo_listing) as (r & Hr & _ & Hd).
  exists r. split; [exact Hr|]. apply Hd; [left|reflexivity|].
  intros d ->%list_elem_of_singleton. reflexivity.
Defined.

Lemma rebuild_terminates_witness :
  exists r, rebuild_insights (H0 := ids_json) demo_rows (map_to_list demo_rows).*2 = Some r /\ is_ok r = true.
Proof.
  destruct (rebuild_terminates (H0 := ids_json) demo_rows (map_to_list demo_rows).*2
              (saved_keyed (H0 := ids_json) demo_choices [demo_tree] demo_savable) demo_listing) as (r & Hr & Hok & _).
  exists r. split; [exact Hr|].
  apply Hok; [apply saved_valid|apply (saved_acyclic (H0 := ids_json))|apply (saved_rooted (H0 := ids_json))]; exact demo_savable.
Defined.

Lemma rebuild_restores_graph_witness :
  exists r, rebuild_insights (H0 := ids_json) demo_rows (map_to_list demo_rows).*2 = Some (Ok r) /\
    ri_work r = [i_insight_id demo_tree] /\ coll_ok (H := ids_json) (ri_collection r).
Proof.
  assert (Hr : exists r, rebuild_insights (H0 := ids_json) demo_rows (map_to_list demo_rows).*2 = Some (Ok r) /\
    ri_work r = [i_insight_id demo_tree]) by (eexists; split; [vm_compute; reflexivity|reflexivity]).
  destruct Hr as (r & Hr & Hw). exists r. split; [exact Hr|]. split; [exact Hw|].
  apply (rebuild_restores_graph (H0 := ids_json) demo_rows (map_to_list demo_rows).*2 r
           (saved_keyed (H0 := ids_json) demo_choices [demo_tree] demo_savable) demo_listing Hr).
Defined.
