(* ===== verification/SnapshotDependencies.v ===== *)
(** * SnapshotDependencies: who waits for which broker snapshot
    ([src/core/strategy/snapshot_dependencies.rs])

    A pipe that needs a snapshot the cache does not have suspends its insight.
    This reverse index groups the suspended insights by the snapshot they wait
    for; [next] pages through a group with a cursor, once per observation of the
    snapshot.  [None] is a panic of the source (the failed [expect] on an empty
    group).  The loop of [next] takes at most two rounds; its fuel is three. *)
From S2P Require Import Prelude.
From S2P Require Import OrderedSet.
From S2P Require Import Text.
From S2P Require Import BrokerTypes.
From S2P Require Import InsightTypes.
From S2P Require Import Commands.
From S2P Require Import ExecutionData.
From S2P Require Import Insight.
From S2P Require Import Checkpoint.

(** ** Snapshots ([src/core/broker/snapshots.rs]) *)
Inductive SnapshotKind := SnapAccount | SnapPositions | SnapQuote (symbol : string).
#[export] Instance SnapshotKind_eq_dec : EqDecision SnapshotKind.
Proof. solve_decision. Defined.
#[export] Instance SnapshotKind_countable : Countable SnapshotKind.
Proof.
  refine (inj_countable'
    (fun k => match k with SnapAccount => inl false | SnapPositions => inl true | SnapQuote s => inr s end)
    (fun x => match x with inl false => SnapAccount | inl true => SnapPositions | inr s => SnapQuote s end) _).
  by intros [].
Defined.

(** The derived order: accounts, positions, then quotes by symbol. *)
Definition kind_leb (a b : SnapshotKind) : bool :=
  match a, b with
  | SnapAccount, _ => true
  | SnapPositions, SnapAccount => false
  | SnapPositions, _ => true
  | SnapQuote s, SnapQuote t => String.leb s t
  | SnapQuote _, _ => false
  end.

Definition kind_le (a b : SnapshotKind) : Prop := kind_leb a b = true.
#[export] Instance kind_le_dec : RelDecision kind_le.
Proof. intros a b. apply bool_eq_dec. Defined.

Record SnapshotReadRevision := mkReadRevision {
  rr_cache_id : Uuid; rr_generation : Z; rr_membership : Z; rr_version : Z
}.
#[export] Instance SnapshotReadRevision_eq_dec : EqDecision SnapshotReadRevision.
Proof. solve_decision. Defined.

(** ** The index *)
Record Group := mkGroup {
  g_ids : gset Uuid;
  g_revision : option SnapshotReadRevision;
  g_after : option Uuid;
  g_upper : option Uuid;
  g_active : bool;
  g_rerun : bool
}.
Definition default_group : Group := mkGroup ∅ None None None false false.
Definition eta_group (g : Group) : Group :=
  mkGroup (g_ids g) (g_revision g) (g_after g) (g_upper g) (g_active g) (g_rerun g).
#[export] Instance set_g_ids : Setter g_ids := ltac:(solve_setter eta_group).
#[export] Instance set_g_revision : Setter g_revision := ltac:(solve_setter eta_group).
#[export] Instance set_g_after : Setter g_after := ltac:(solve_setter eta_group).
#[export] Instance set_g_upper : Setter g_upper := ltac:(solve_setter eta_group).
#[export] Instance set_g_active : Setter g_active := ltac:(solve_setter eta_group).
#[export] Instance set_g_rerun : Setter g_rerun := ltac:(solve_setter eta_group).

Record SnapshotDependencies := mkDependencies {
  sd_groups : gmap SnapshotKind Group;
  sd_owners : gmap Uuid SnapshotKind;
  sd_last_topic : option SnapshotKind
}.
Definition no_dependencies : SnapshotDependencies := mkDependencies ∅ ∅ None.
Definition eta_dependencies (s : SnapshotDependencies) : SnapshotDependencies :=
  mkDependencies (sd_groups s) (sd_owners s) (sd_last_topic s).
#[export] Instance set_sd_groups : Setter sd_groups := ltac:(solve_setter eta_dependencies).
#[export] Instance set_sd_owners : Setter sd_owners := ltac:(solve_setter eta_dependencies).
#[export] Instance set_sd_last_topic : Setter sd_last_topic := ltac:(solve_setter eta_dependencies).

(** The snapshot a deferral waits for. *)
Definition dependency_kind (dependency : InsightPipeDeferral) : option SnapshotKind :=
  match dependency with
  | DeferAccountSnapshot => Some SnapAccount
  | DeferPositionSnapshot => Some SnapPositions
  | DeferQuoteSnapshot symbol => Some (SnapQuote symbol)
  | _ => None
  end.

Module SnapshotIndex.
(** The cursor goes back to the start of the group. *)
Definition restart (g : Group) : Group := g <| g_active := true |> <| g_after := None |> <| g_upper := None |>.

Definition remove (s : SnapshotDependencies) (id : Uuid) : SnapshotDependencies :=
  match sd_owners s !! id with
  | None => s
  | Some kind =>
      let s := s <| sd_owners := delete id (sd_owners s) |> in
      match sd_groups s !! kind with
      | None => s
      | Some g =>
          let ids := g_ids g ∖ {[id]} in
          s <| sd_groups := if bool_decide (ids = ∅) then delete kind (sd_groups s)
                            else <[kind := g <| g_ids := ids |>]> (sd_groups s) |>
      end
  end.

(** One more owner of a group: a pass that is under way and will not come by
    again is repeated. *)
Definition join (g : Group) (id : Uuid) : Group :=
  let g := g <| g_ids := {[id]} ∪ g_ids g |> in
  if g_active g then
    if is_some_and (fun after => (id <=? after)%N) (g_after g)
       || is_some_and (fun upper => (upper <? id)%N) (g_upper g)
    then g <| g_rerun := true |> else g
  else restart g.

Definition update (s : SnapshotDependencies) (id : Uuid) (dependency : option InsightPipeDeferral)
    : SnapshotDependencies * bool :=
  let next := match dependency with Some d => dependency_kind d | None => None end in
  if bool_decide (sd_owners s !! id = next) then (s, false)
  else
    let s := remove s id in
    match next with
    | None => (s, false)
    | Some kind =>
        (s <| sd_owners := <[id := kind]> (sd_owners s) |>
           <| sd_groups := <[kind := join (unwrap_or (sd_groups s !! kind) default_group) id]>
                             (sd_groups s) |>, true)
    end.

(** [partition_point] of a sorted slice: how many elements satisfy [p]. *)
Fixpoint partition_point {A} (p : A -> bool) (l : list A) : nat :=
  match l with
  | [] => 0
  | x :: l => if p x then S (partition_point p l) else 0
  end.

(** [topics]: the groups in order, rotated past the one served last. *)
Definition topics (s : SnapshotDependencies) : list SnapshotKind :=
  let keys := merge_sort kind_le (map_to_list (sd_groups s)).*1 in
  match sd_last_topic s with
  | None => keys
  | Some last =>
      let offset := partition_point (fun k => kind_leb k last) keys in
      drop offset keys ++ take offset keys
  end.

(** A new observation: a pass that already handed out owners is repeated, any
    other starts over. *)
Definition observe_revision (g : Group) (revision : SnapshotReadRevision) : Group :=
  if bool_decide (g_revision g = Some revision) then g
  else
    let g := g <| g_revision := Some revision |> in
    if g_active g && is_some (g_after g) then g <| g_rerun := true |> else restart g.

(** The [while] loop of [next]. *)
Fixpoint next_loop (fuel : nat) (g : Group) : option (Group * option Uuid) :=
  match fuel with
  | O => None
  | S fuel =>
      if negb (g_active g) then Some (g, None)
      else
        match (match g_upper g with Some upper => Some upper | None => btree_last (g_ids g) end) with
        | None => None
        | Some upper =>
            let g := g <| g_upper := Some upper |> in
            let next := if is_some_and (fun id => (upper <=? id)%N) (g_after g) then None
                        else head (btree_range (g_after g) upper (g_ids g)) in
            match next with
            | Some id => Some (g <| g_after := Some id |>, Some id)
            | None =>
                next_loop fuel
                  (if g_rerun g
                   then g <| g_rerun := false |> <| g_after := None |> <| g_upper := None |>
                   else g <| g_active := false |>)
            end
        end
  end.
Definition NEXT_ROUNDS : nat := 3.

Definition next (s : SnapshotDependencies) (kind : SnapshotKind) (revision : SnapshotReadRevision)
    : option (SnapshotDependencies * option Uuid) :=
  let s := s <| sd_last_topic := Some kind |> in
  match sd_groups s !! kind with
  | None => Some (s, None)
  | Some g =>
      match next_loop NEXT_ROUNDS (observe_revision g revision) with
      | None => None
      | Some (g, id) => Some (s <| sd_groups := <[kind := g]> (sd_groups s) |>, id)
      end
  end.

(** ** The index is consistent *)
Record group_ok (g : Group) : Prop := {
  go_nonempty : g_ids g <> ∅;
  go_upper : is_Some (g_after g) -> is_Some (g_upper g)
}.
Record waits_ok (s : SnapshotDependencies) : Prop := {
  do_groups : forall k g, sd_groups s !! k = Some g -> group_ok g;
  do_owners : forall id k, sd_owners s !! id = Some k <->
                exists g, sd_groups s !! k = Some g /\ id ∈ g_ids g
}.

Lemma no_dependencies_ok : waits_ok no_dependencies.
Proof.
  split; simpl.
  - intros k g Hk. by apply lookup_empty_Some in Hk.
  - intros id k. rewrite lookup_empty. split; [done|]. intros (g & Hk & _). by apply lookup_empty_Some in Hk.
Qed.

(** ** One call of the loop *)
Definition pass_upper (g : Group) : option Uuid :=
  match g_upper g with Some upper => Some upper | None => btree_last (g_ids g) end.
(** The next owner of the pass under way. *)
Definition candidate (g : Group) : option Uuid :=
  match pass_upper g with Some upper => head (btree_range (g_after g) upper (g_ids g)) | None => None end.

Lemma pass_upper_Some g : g_ids g <> ∅ -> exists upper, pass_upper g = Some upper.
Proof.
  intros Hne. unfold pass_upper. destruct (g_upper g); [eauto|].
  destruct (btree_last (g_ids g)) eqn:E; [eauto|]. by apply btree_last_None in E.
Qed.

Lemma candidate_spec g upper :
  pass_upper g = Some upper ->
  match candidate g with
  | Some x => x ∈ g_ids g /\ in_bounds (g_after g) upper x = true /\
              forall y, y ∈ g_ids g -> in_bounds (g_after g) upper y = true -> (x <= y)%N
  | None => forall y, y ∈ g_ids g -> in_bounds (g_after g) upper y = false
  end.
Proof.
  intros Hu. unfold candidate. rewrite Hu.
  pose proof (btree_range_sorted (g_after g) upper (g_ids g)) as Hs.
  pose proof (fun x => elem_of_btree_range (g_after g) upper (g_ids g) x) as Hin.
  destruct (btree_range _ _ _) as [|x l]; simpl.
  - intros y Hy. apply not_true_is_false. intros Hb. by apply (not_elem_of_nil y), Hin.
  - assert (Hx : x ∈ x :: l) by left. apply Hin in Hx as [Hb Hx]. split; [done|]. split; [done|].
    intros y Hy Hyb. assert (Hl : y ∈ x :: l) by (by apply Hin).
    apply elem_of_cons in Hl as [->|Hl]; [lia|]. inversion Hs as [|? ? _ Hall]; subst.
    rewrite Forall_forall in Hall. specialize (Hall y Hl). lia.
Qed.

Lemma next_loop_eq fuel g upper :
  g_active g = true -> pass_upper g = Some upper ->
  next_loop (S fuel) g =
  let g := g <| g_upper := Some upper |> in
  match candidate g with
  | Some x => Some (g <| g_after := Some x |>, Some x)
  | None =>
      next_loop fuel (if g_rerun g then g <| g_rerun := false |> <| g_after := None |> <| g_upper := None |>
                      else g <| g_active := false |>)
  end.
Proof.
  intros Ha Hu. unfold candidate. change (pass_upper (g <| g_upper := Some upper |>)) with (Some upper).
  unfold pass_upper in Hu. simpl. rewrite Ha, Hu. simpl.
  destruct (is_some_and (fun id => (upper <=? id)%N) (g_after g)) eqn:E; [|done].
  destruct (g_after g) as [a|]; [|done]. simpl in E. by rewrite btree_range_exhausted by lia.
Qed.

Lemma next_loop_idle fuel g : g_active g = false -> next_loop (S fuel) g = Some (g, None).
Proof. intros Ha. simpl. by rewrite Ha. Qed.

(** What one call does to an active group; the [expect] on a nonempty group
    holds, and a repeated pass serves at once. *)
Inductive served (g : Group) : Group -> option Uuid -> Prop :=
| served_candidate upper x :
    pass_upper g = Some upper -> candidate g = Some x ->
    served g (g <| g_upper := Some upper |> <| g_after := Some x |>) (Some x)
| served_again upper last first :
    pass_upper g = Some upper -> candidate g = None -> g_rerun g = true ->
    btree_last (g_ids g) = Some last -> btree_first (g_ids g) = Some first ->
    served g (mkGroup (g_ids g) (g_revision g) (Some first) (Some last) true false) (Some first)
| served_none upper :
    pass_upper g = Some upper -> candidate g = None -> g_rerun g = false ->
    served g (g <| g_upper := Some upper |> <| g_active := false |>) None.

Lemma candidate_upper g upper :
  pass_upper g = Some upper -> candidate (g <| g_upper := Some upper |>) = candidate g.
Proof. intros Hu. unfold candidate. rewrite Hu. done. Qed.

Lemma next_loop_served g :
  g_ids g <> ∅ -> g_active g = true ->
  exists g' r, next_loop NEXT_ROUNDS g = Some (g', r) /\ served g g' r.
Proof.
  intros Hne Ha. destruct (pass_upper_Some g Hne) as [upper Hu]. unfold NEXT_ROUNDS.
  rewrite (next_loop_eq _ _ _ Ha Hu). cbv zeta. rewrite (candidate_upper _ _ Hu).
  destruct (candidate g) as [x|] eqn:Hc; [eexists _, _; split; [done|]; by apply served_candidate|].
  change (g_rerun (g <| g_upper := Some upper |>)) with (g_rerun g).
  destruct (g_rerun g) eqn:Hr.
  2:{ rewrite next_loop_idle by done. eexists _, _; split; [done|]; by apply served_none. }
  set (g2 := set_field g_upper None _).
  destruct (btree_last (g_ids g)) as [last|] eqn:El; [|by apply btree_last_None in El].
  assert (Hu2 : pass_upper g2 = Some last) by exact El.
  assert (Ha2 : g_active g2 = true) by exact Ha.
  rewrite (next_loop_eq _ _ _ Ha2 Hu2). cbv zeta. rewrite (candidate_upper _ _ Hu2).
  destruct (btree_first (g_ids g)) as [first|] eqn:Ef; [|by apply btree_first_None in Ef].
  assert (Hc2 : candidate g2 = Some first).
  { unfold candidate. rewrite Hu2. change (g_after g2) with (@None Uuid). change (g_ids g2) with (g_ids g).
    by rewrite btree_range_all. }
  rewrite Hc2. eexists _, _; split; [done|].
  assert (E : g2 <| g_upper := Some last |> <| g_after := Some first |>
              = mkGroup (g_ids g) (g_revision g) (Some first) (Some last) true false).
  { destruct g; simpl in *; by subst. }
  rewrite E. by eapply served_again.
Qed.

(** ** Nobody starves *)

(** An owner the pass under way still reaches. *)
Definition ahead (g : Group) (id : Uuid) : bool :=
  match g_after g with Some a => (a <? id)%N | None => true end
  && match g_upper g with Some u => (id <=? u)%N | None => true end.
(** An owner that will be served: by this pass or by the next. *)
Definition owed (g : Group) (id : Uuid) : Prop :=
  id ∈ g_ids g /\ g_active g = true /\ (ahead g id = true \/ g_rerun g = true).

(** How many members of [U] lie between the cursor and [id]. *)
Definition between (U : gset Uuid) (after : option Uuid) (id : Uuid) : nat :=
  length (btree_range after id U).
(** How many calls may pass before [id] is served, when all owners are in [U]. *)
Definition distance (U : gset Uuid) (g : Group) (id : Uuid) : nat :=
  if ahead g id then between U (g_after g) id
  else between U (g_after g) (unwrap_or (g_upper g) 0%N) + between U None id.

Lemma between_filter U after id :
  between U after id = size (filter (fun x => in_bounds after id x = true) U).
Proof.
  unfold between. rewrite <- (length_btree_elements (filter _ U)). f_equal.
  apply sorted_ext; [apply btree_range_sorted|apply btree_elements_sorted|].
  intros x. by rewrite elem_of_btree_range, elem_of_btree_elements, elem_of_filter.
Qed.

Lemma between_lt U after x id :
  x ∈ U -> in_bounds after id x = true -> between U (Some x) id < between U after id.
Proof.
  intros Hx Hb. rewrite !between_filter. apply subset_size. split.
  - intros y. rewrite !elem_of_filter. intros [Hy Hu]. split; [|done].
    unfold in_bounds in *. destruct after; simpl in *; lia.
  - intros Hsub. assert (Hx' : x ∈ filter (fun y => in_bounds after id y = true) U) by (by apply elem_of_filter).
    apply Hsub, elem_of_filter in Hx' as [Hc _]. unfold in_bounds in Hc. simpl in Hc. lia.
Qed.

Lemma between_le U after id : between U after id <= size U.
Proof. apply length_btree_range. Qed.

Lemma distance_bound U g id : distance U g id <= 2 * size U.
Proof.
  unfold distance. pose proof (between_le U (g_after g) id). pose proof (between_le U None id).
  pose proof (between_le U (g_after g) (unwrap_or (g_upper g) 0%N)). destruct (ahead g id); lia.
Qed.

Lemma distance_ahead U g id : ahead g id = true -> distance U g id = between U (g_after g) id.
Proof. unfold distance. by intros ->. Qed.
Lemma distance_behind U g id u :
  ahead g id = false -> g_upper g = Some u ->
  distance U g id = between U (g_after g) u + between U None id.
Proof. unfold distance. by intros -> ->. Qed.

Lemma ahead_in_pass g u id :
  id ∈ g_ids g -> pass_upper g = Some u -> ahead g id = true -> in_bounds (g_after g) u id = true.
Proof.
  unfold pass_upper, ahead, in_bounds. intros Hin Hu Hah. destruct (g_upper g) as [u'|]; [by simplify_eq|].
  apply btree_last_max in Hu as [_ Hmax]. specialize (Hmax id Hin). destruct (g_after g); simpl in *; lia.
Qed.
Lemma behind_upper g u id :
  group_ok g -> pass_upper g = Some u -> ahead g id = false -> g_upper g = Some u.
Proof.
  unfold pass_upper, ahead. intros Hok Hu Hah. destruct (g_upper g) as [u'|] eqn:Eu; [done|].
  destruct (g_after g) eqn:Ea; [|done]. destruct (go_upper g Hok) as [? ?]; [by rewrite Ea|congruence].
Qed.

(** A call either serves [id] or brings it closer. *)
Lemma candidate_closer U g u x id :
  group_ok g -> g_ids g ⊆ U -> owed g id -> pass_upper g = Some u -> candidate g = Some x -> x <> id ->
  let g' := g <| g_upper := Some u |> <| g_after := Some x |> in
  owed g' id /\ distance U g' id < distance U g id.
Proof.
  intros Hok HU (Hin & Ha & Hd) Hu Hc Hne g'. pose proof (candidate_spec g u Hu) as Hsp. rewrite Hc in Hsp.
  destruct Hsp as (Hx & Hxb & Hmin). assert (HxU : x ∈ U) by set_solver.
  assert (Eg : ahead g' id = (x <? id)%N && (id <=? u)%N) by done.
  destruct (ahead g id) eqn:Eah.
  - pose proof (ahead_in_pass _ _ _ Hin Hu Eah) as Hb. specialize (Hmin id Hin Hb).
    assert (Ht : ahead g' id = true) by (rewrite Eg; unfold in_bounds in Hb; lia).
    split; [by split; [|split; [|left]]|]. rewrite !distance_ahead by done. apply between_lt; [done|].
    unfold in_bounds in *. lia.
  - destruct Hd as [?|Hr]; [done|]. pose proof (behind_upper _ _ _ Hok Hu Eah) as Hgu.
    assert (Hna : ahead g' id = false).
    { rewrite Eg. unfold ahead in Eah. rewrite Hgu in Eah. unfold in_bounds in Hxb. destruct (g_after g); simpl in *; lia. }
    split; [by split; [|split; [|right]]|].
    rewrite (distance_behind U g' id u Hna eq_refl), (distance_behind U g id u Eah Hgu).
    pose proof (between_lt U (g_after g) x u HxU Hxb). change (g_after g') with (Some x). lia.
Qed.

Lemma again_closer U g u l f id :
  g_ids g ⊆ U -> id ∈ g_ids g -> pass_upper g = Some u -> candidate g = None ->
  btree_last (g_ids g) = Some l -> btree_first (g_ids g) = Some f -> f <> id ->
  let g' := mkGroup (g_ids g) (g_revision g) (Some f) (Some l) true false in
  owed g' id /\ distance U g' id < distance U g id.
Proof.
  intros HU Hin Hu Hc Hl Hf Hne g'. pose proof (candidate_spec g u Hu) as Hsp. rewrite Hc in Hsp.
  pose proof (btree_first_elem _ _ Hf) as Hfin. pose proof (btree_first_least _ _ Hf id Hin).
  apply btree_last_max in Hl as [_ Hmax]. specialize (Hmax id Hin).
  assert (Ht : ahead g' id = true) by (unfold ahead; simpl; lia).
  split; [by split; [|split; [|left]]|]. rewrite (distance_ahead U g') by done.
  assert (Hb : between U (Some f) id < between U None id).
  { apply between_lt; [set_solver|]. unfold in_bounds. simpl. lia. }
  change (g_after g') with (Some f). unfold distance. destruct (ahead g id) eqn:Eah; [|lia].
  specialize (Hsp id Hin). by rewrite (ahead_in_pass _ _ _ Hin Hu Eah) in Hsp.
Qed.

Lemma served_closer U g g' r id :
  group_ok g -> g_ids g ⊆ U -> owed g id -> served g g' r ->
  r = Some id \/ (owed g' id /\ distance U g' id < distance U g id).
Proof.
  intros Hok HU Ho Hs. destruct Hs as [u x Hu Hc|u l f Hu Hc Hr Hl Hf|u Hu Hc Hr].
  - destruct (decide (x = id)) as [->|Hne]; [by left|]. right. by apply candidate_closer.
  - destruct (decide (f = id)) as [->|Hne]; [by left|]. right. destruct Ho as [Hin _].
    by apply (again_closer U g u).
  - destruct Ho as (Hin & Ha & [Hah|?]); [|congruence]. pose proof (candidate_spec g u Hu) as Hsp.
    rewrite Hc in Hsp. specialize (Hsp id Hin). by rewrite (ahead_in_pass _ _ _ Hin Hu Hah) in Hsp.
Qed.

Lemma served_ok g g' r : group_ok g -> served g g' r -> group_ok g' /\ g_ids g' = g_ids g.
Proof.
  intros [Hne Hup] Hs. destruct Hs; (split; [|done]); split; try done; simpl; eauto.
Qed.

Lemma observe_ok g r : group_ok g -> group_ok (observe_revision g r) /\ g_ids (observe_revision g r) = g_ids g.
Proof.
  intros [Hne Hup]. unfold observe_revision. destruct (bool_decide _); [done|].
  destruct (_ && _); (split; [|done]); by split.
Qed.

(** A new observation makes every owner of the group due. *)
Lemma observe_owes g r id : g_revision g <> Some r -> id ∈ g_ids g -> owed (observe_revision g r) id.
Proof.
  intros Hr Hin. unfold observe_revision. rewrite bool_decide_eq_false_2 by done. simpl.
  destruct (g_active g) eqn:Ha; simpl; [destruct (g_after g) eqn:Ea; simpl|]; (split; [done|]); simpl; auto.
Qed.

Lemma observe_owed U g r id :
  group_ok g -> owed g id -> owed (observe_revision g r) id /\ distance U (observe_revision g r) id <= distance U g id.
Proof.
  intros Hok (Hin & Ha & Hd). unfold observe_revision.
  destruct (bool_decide _); [done|]. simpl. rewrite Ha. simpl.
  destruct (g_after g) as [a|] eqn:Ea; simpl.
  - split; [|done]. split; [done|]. split; [done|by right].
  - split; [split; [done|split; [done|by left]]|]. unfold distance, ahead. simpl. rewrite Ea.
    destruct (g_upper g) as [u|]; simpl; [|done]. destruct (id <=? u)%N; lia.
Qed.

Lemma join_ok g x : (g = default_group \/ group_ok g) -> group_ok (join g x).
Proof.
  intros Hg. unfold join. assert (Hne : {[x]} ∪ g_ids g <> ∅) by set_solver.
  destruct (g_active g) eqn:Ha; simpl; rewrite Ha.
  - destruct Hg as [->|[_ Hup]]; [done|]. destruct (_ || _); by split.
  - split; [done|]. simpl. by intros [? ?].
Qed.
Lemma join_ids g x : g_ids (join g x) = {[x]} ∪ g_ids g.
Proof. unfold join. simpl. destruct (g_active g); [|done]. by destruct (_ || _). Qed.

Lemma join_owes g x : owed (join g x) x.
Proof.
  split; [rewrite join_ids; set_solver|]. unfold join. simpl. destruct (g_active g) eqn:Ha; [|by auto].
  destruct (_ || _) eqn:E; simpl; [by auto|]. split; [done|]. left.
  apply orb_false_iff in E as [E1 E2]. unfold ahead. simpl.
  destruct (g_after g), (g_upper g); simpl in *; lia.
Qed.
Lemma join_owed U g x id : owed g id -> owed (join g x) id /\ distance U (join g x) id = distance U g id.
Proof.
  intros (Hin & Ha & Hd). unfold owed. rewrite join_ids. unfold join. simpl. rewrite Ha.
  destruct (_ || _); simpl; (split; [|done]); (split; [set_solver|]); (split; [done|]); [by right|done].
Qed.

(** ** Runs of the index *)
Inductive DependencyOp :=
| DepUpdate (id : Uuid) (dependency : option InsightPipeDeferral)
| DepRemove (id : Uuid)
| DepNext (kind : SnapshotKind) (revision : SnapshotReadRevision).

(** The owners handed out, each with its topic. *)
Fixpoint run_dependencies (s : SnapshotDependencies) (ops : list DependencyOp)
    : option (SnapshotDependencies * list (SnapshotKind * Uuid)) :=
  match ops with
  | [] => Some (s, [])
  | op :: ops =>
      match (match op with
             | DepUpdate id dependency => Some ((update s id dependency).1, [])
             | DepRemove id => Some (remove s id, [])
             | DepNext kind revision =>
                 match next s kind revision with
                 | Some (s, Some id) => Some (s, [(kind, id)])
                 | Some (s, None) => Some (s, [])
                 | None => None
                 end
             end) with
      | None => None
      | Some (s, out) =>
          match run_dependencies s ops with
          | Some (s, more) => Some (s, out ++ more)
          | None => None
          end
      end
  end.

Definition kind_of (dependency : option InsightPipeDeferral) : option SnapshotKind :=
  match dependency with Some d => dependency_kind d | None => None end.

#[local] Arguments next_loop : simpl never.

Lemma next_ok s k r : waits_ok s -> exists s' x, next s k r = Some (s', x) /\ waits_ok s'.
Proof.
  intros Hok. unfold next. simpl. destruct (sd_groups s !! k) as [g|] eqn:Hg.
  2:{ eexists _, _. split; [done|]. destruct Hok as [Hg' Ho]. by split. }
  destruct (observe_ok g r (do_groups s Hok k g Hg)) as [Hgo Hids]. set (go := observe_revision g r) in *.
  assert (Hn : exists g' x, next_loop NEXT_ROUNDS go = Some (g', x) /\ group_ok g' /\ g_ids g' = g_ids g).
  { destruct (g_active go) eqn:Ha.
    - destruct (next_loop_served go (go_nonempty _ Hgo) Ha) as (g' & x & -> & Hs).
      destruct (served_ok _ _ _ Hgo Hs) as [? E]. eexists _, _. split; [done|]. split; [done|]. congruence.
    - unfold NEXT_ROUNDS. rewrite next_loop_idle by done. eauto. }
  destruct Hn as (g' & x & -> & Hg' & E). eexists _, _. split; [done|]. split; simpl.
  - intros k' g1. rewrite lookup_insert_Some. intros [[_ <-]|[_ H1]]; [done|]. by eapply do_groups.
  - intros id k'. rewrite (do_owners s Hok). split; intros (g1 & H1 & Hin).
    + destruct (decide (k = k')) as [<-|Hne]; [exists g'; rewrite lookup_insert_eq; simplify_eq; by rewrite E|].
      exists g1. by rewrite lookup_insert_ne.
    + rewrite lookup_insert_Some in H1. destruct H1 as [[<- <-]|[_ H1]]; [exists g; by rewrite <- E|eauto].
Qed.

Lemma remove_groups s id k :
  waits_ok s ->
  sd_groups (remove s id) !! k =
  match sd_groups s !! k with
  | Some g => if bool_decide (g_ids g ∖ {[id]} = ∅) then None
              else if bool_decide (id ∈ g_ids g) then Some (g <| g_ids := g_ids g ∖ {[id]} |>) else Some g
  | None => None
  end.
Proof.
  intros Hok. assert (Hne : forall k g, sd_groups s !! k = Some g -> id ∉ g_ids g -> g_ids g ∖ {[id]} <> ∅).
  { intros k' g Hk Hn He. destruct (do_groups s Hok k' g Hk) as [Hg _]. apply Hg. set_solver. }
  unfold remove. destruct (sd_owners s !! id) as [k0|] eqn:Eo; simpl.
  - pose proof (proj1 (do_owners s Hok id k0) Eo) as (g0 & Hk0 & Hin). rewrite Hk0. simpl.
    destruct (decide (k = k0)) as [->|Hk].
    + rewrite Hk0. destruct (bool_decide _); [by rewrite lookup_delete_eq|]. rewrite bool_decide_eq_true_2 by done.
      by rewrite lookup_insert_eq.
    + assert (E : (if bool_decide (g_ids g0 ∖ {[id]} = ∅) then delete k0 (sd_groups s)
                   else <[k0 := g0 <| g_ids := g_ids g0 ∖ {[id]} |>]> (sd_groups s)) !! k = sd_groups s !! k).
      { destruct (bool_decide _); [by rewrite lookup_delete_ne|by rewrite lookup_insert_ne]. }
      rewrite E. destruct (sd_groups s !! k) as [g|] eqn:Hg; [|done].
      assert (Hn : id ∉ g_ids g).
      { intros Hi. assert (Hx : sd_owners s !! id = Some k) by (apply (do_owners s Hok); eauto). congruence. }
      rewrite bool_decide_eq_false_2 by eauto. by rewrite bool_decide_eq_false_2.
  - destruct (sd_groups s !! k) as [g|] eqn:Hg; [|done].
    assert (Hn : id ∉ g_ids g).
    { intros Hi. assert (Hx : sd_owners s !! id = Some k) by (apply (do_owners s Hok); eauto). congruence. }
    rewrite bool_decide_eq_false_2 by eauto. by rewrite bool_decide_eq_false_2.
Qed.

Lemma remove_owners s id : sd_owners (remove s id) = delete id (sd_owners s).
Proof.
  unfold remove. destruct (sd_owners s !! id) as [k|] eqn:E; [|by rewrite delete_id]. simpl.
  by destruct (sd_groups s !! k).
Qed.

Lemma remove_ok s id : waits_ok s -> waits_ok (remove s id).
Proof.
  intros Hok. split.
  - intros k g. rewrite remove_groups by done. destruct (sd_groups s !! k) as [g0|] eqn:Hk; [|done].
    destruct (do_groups s Hok k g0 Hk) as [Hne Hup].
    case_bool_decide as He; [done|]. case_bool_decide; intros [= <-]; by split.
  - intros id' k. rewrite remove_owners, remove_groups, lookup_delete_Some, (do_owners s Hok) by done.
    split.
    + intros (Hne & g & -> & Hin). case_bool_decide as He; [exfalso; set_solver|].
      case_bool_decide; eexists; (split; [done|]); simpl; set_solver.
    + intros (g & Hg & Hin). destruct (sd_groups s !! k) as [g0|]; [|done].
      case_bool_decide as He; [done|]. case_bool_decide as Hi; simplify_eq; simpl in Hin; [|set_solver].
      split; [set_solver|]. exists g0. set_solver.
Qed.

Lemma update_eq s id dependency :
  (update s id dependency).1 =
  if bool_decide (sd_owners s !! id = kind_of dependency) then s
  else match kind_of dependency with
       | None => remove s id
       | Some kind =>
           (remove s id) <| sd_owners := <[id := kind]> (sd_owners (remove s id)) |>
             <| sd_groups := <[kind := join (unwrap_or (sd_groups (remove s id) !! kind) default_group) id]>
                               (sd_groups (remove s id)) |>
       end.
Proof. unfold update. fold (kind_of dependency). destruct (bool_decide _); [done|]. by destruct (kind_of dependency). Qed.

Lemma update_ok s id dependency : waits_ok s -> waits_ok (update s id dependency).1.
Proof.
  intros Hok. rewrite update_eq. case_bool_decide; [done|]. pose proof (remove_ok s id Hok) as Hr.
  assert (Hno : sd_owners (remove s id) !! id = None) by (by rewrite remove_owners, lookup_delete_eq).
  set (s' := remove s id) in *. destruct (kind_of dependency) as [k|]; [|done].
  assert (Hj : group_ok (join (unwrap_or (sd_groups s' !! k) default_group) id)).
  { apply join_ok. destruct (sd_groups s' !! k) as [g|] eqn:E; [right; by eapply do_groups|by left]. }
  split; simpl.
  - intros k' g. rewrite lookup_insert_Some. intros [[_ <-]|[_ Hg]]; [done|]. by eapply do_groups.
  - intros id' k'. rewrite !lookup_insert_Some, (do_owners s' Hr).
    assert (Hid : forall k g, sd_groups s' !! k = Some g -> id ∉ g_ids g).
    { intros k1 g1 H1 Hi. assert (sd_owners s' !! id = Some k1) by (apply (do_owners s' Hr); eauto). congruence. }
    split.
    + intros [[<- <-]|(Hne & g & Hg & Hin)].
      { eexists. rewrite lookup_insert_eq. split; [done|]. rewrite join_ids. set_solver. }
      destruct (decide (k = k')) as [<-|Hk].
      * eexists. rewrite lookup_insert_eq. split; [done|]. rewrite join_ids, Hg. set_solver.
      * exists g. by rewrite lookup_insert_ne.
    + intros (g & Hg & Hin). destruct (decide (id = id')) as [<-|Hne].
      * left. rewrite lookup_insert_Some in Hg. destruct Hg as [[? _]|[_ Hg]]; [done|]. by apply Hid in Hg.
      * right. split; [done|]. rewrite lookup_insert_Some in Hg. destruct Hg as [[<- <-]|[_ Hg]]; [|eauto].
        rewrite join_ids in Hin. apply elem_of_union in Hin as [?|Hin]; [set_solver|].
        destruct (sd_groups s' !! k) as [g|]; [eauto|]. by apply not_elem_of_empty in Hin.
Qed.

Lemma update_owners s id dependency :
  sd_owners (update s id dependency).1 = partial_alter (fun _ => kind_of dependency) id (sd_owners s).
Proof.
  rewrite update_eq. apply map_eq. intros k. case_bool_decide as E; [|destruct (kind_of dependency) eqn:Ek]; simpl;
    destruct (decide (k = id)) as [->|Hk];
    rewrite ?lookup_partial_alter_eq, ?lookup_partial_alter_ne, ?remove_owners, ?lookup_insert_eq,
      ?lookup_insert_ne, ?lookup_delete_eq, ?lookup_delete_ne by done; done.
Qed.

(** [id] is due in the group of [k] after at most [n] more calls, when the
    owners of that group are in [U]. *)
Definition near (U : gset Uuid) (k : SnapshotKind) (id : Uuid) (n : nat) (s : SnapshotDependencies) : Prop :=
  exists g, sd_groups s !! k = Some g /\ owed g id /\ g_ids g ⊆ U /\ distance U g id <= n.

Lemma remove_near U k id n s x : waits_ok s -> x <> id -> near U k id n s -> near U k id n (remove s x).
Proof.
  intros Hok Hne (g & Hg & (Hin & Ha & Hd) & HU & Hn). unfold near. rewrite remove_groups, Hg by done.
  rewrite bool_decide_eq_false_2 by set_solver.
  case_bool_decide; (eexists; split; [done|]); [|by repeat split].
  split; [split; [set_solver|done]|]. split; [set_solver|done].
Qed.

Lemma update_near U k id n s x dependency :
  waits_ok s -> x <> id -> x ∈ U -> near U k id n s -> near U k id n (update s x dependency).1.
Proof.
  intros Hok Hne Hx Hnear. rewrite update_eq. case_bool_decide; [done|].
  pose proof (remove_near U k id n s x Hok Hne Hnear) as Hrem.
  destruct (kind_of dependency) as [k'|]; [|done]. destruct Hrem as (g & Hg & Ho & HU & Hn).
  destruct (decide (k' = k)) as [->|Hk].
  - destruct (join_owed U g x id Ho) as [Ho' Hd]. exists (join g x). simpl. rewrite lookup_insert_eq, Hg.
    split; [done|]. split; [done|]. rewrite join_ids, Hd. split; [set_solver|done].
  - exists g. simpl. rewrite lookup_insert_ne by done. done.
Qed.

Lemma update_starts U k id s dependency :
  waits_ok s -> kind_of dependency = Some k -> sd_owners s !! id <> Some k -> id ∈ U ->
  (forall g, sd_groups s !! k = Some g -> g_ids g ⊆ U) ->
  near U k id (2 * size U) (update s id dependency).1.
Proof.
  intros Hok Hk Ho Hid HU. rewrite update_eq, Hk, bool_decide_eq_false_2 by done.
  eexists. simpl. rewrite lookup_insert_eq. split; [done|]. split; [apply join_owes|].
  split; [|apply distance_bound]. rewrite join_ids, remove_groups by done.
  destruct (sd_groups s !! k) as [g|] eqn:Hg; [|set_solver]. specialize (HU g eq_refl).
  repeat case_bool_decide; simpl; set_solver.
Qed.

Lemma next_near U k id n s r s' x :
  waits_ok s -> next s k r = Some (s', x) ->
  (near U k id n s \/ (n = 2 * size U /\ exists g, sd_groups s !! k = Some g /\ id ∈ g_ids g /\ g_ids g ⊆ U /\
                        g_revision g <> Some r)) ->
  x = Some id \/ (0 < n /\ near U k id (pred n) s').
Proof.
  intros Hok Hn Hnear.
  assert (exists g, sd_groups s !! k = Some g /\ owed (observe_revision g r) id /\ g_ids g ⊆ U /\
                    distance U (observe_revision g r) id <= n) as (g & Hg & Ho & HU & Hd).
  { destruct Hnear as [(g & Hg & Ho & HU & Hd)|(-> & g & Hg & Hin & HU & Hr)]; exists g.
    - destruct (observe_owed U g r id (do_groups s Hok k g Hg) Ho). split; [done|]. split; [done|]. split; [done|lia].
    - split; [done|]. split; [by apply observe_owes|]. split; [done|apply distance_bound]. }
  destruct (observe_ok g r (do_groups s Hok k g Hg)) as [Hgo Hids].
  unfold next in Hn. simpl in Hn. rewrite Hg in Hn.
  destruct (next_loop_served (observe_revision g r) (go_nonempty _ Hgo) (proj1 (proj2 Ho))) as (g' & y & E & Hs).
  rewrite E in Hn. simplify_eq. rewrite <- Hids in HU.
  destruct (served_closer U _ _ _ id Hgo HU Ho Hs) as [?|[Ho' Hlt]]; [by left|]. right. split; [lia|].
  exists g'. simpl. rewrite lookup_insert_eq. split; [done|]. split; [done|].
  destruct (served_ok _ _ _ Hgo Hs) as [_ ->]. split; [done|lia].
Qed.

Lemma next_elsewhere U k id n s k' r s' x :
  next s k' r = Some (s', x) -> k' <> k -> near U k id n s -> near U k id n s'.
Proof.
  unfold next. intros Hn Hk (g & Hg & Hx). simpl in Hn.
  destruct (sd_groups s !! k') as [g'|]; [|simplify_eq; by exists g].
  destruct (next_loop _ _) as [[g1 y]|]; simplify_eq. exists g. simpl. by rewrite lookup_insert_ne.
Qed.

(** Calls that page through the group of [k]. *)
Definition pages (k : SnapshotKind) (op : DependencyOp) : bool :=
  match op with DepNext k' _ => bool_decide (k' = k) | _ => false end.
(** Operations of other owners, all of them in [U]. *)
Definition of_others (U : gset Uuid) (id : Uuid) (op : DependencyOp) : Prop :=
  match op with
  | DepUpdate x _ => x <> id /\ x ∈ U
  | DepRemove x => x <> id
  | DepNext _ _ => True
  end.

Lemma run_total s ops : waits_ok s -> exists s' out, run_dependencies s ops = Some (s', out) /\ waits_ok s'.
Proof.
  revert s. induction ops as [|op ops IH]; intros s Hok; [by eexists _, _|]. simpl.
  destruct op as [id d|id|k r]; simpl.
  - destruct (IH _ (update_ok s id d Hok)) as (s' & out & -> & ?). eauto.
  - destruct (IH _ (remove_ok s id Hok)) as (s' & out & -> & ?). eauto.
  - destruct (next_ok s k r Hok) as (s1 & x & -> & H1). destruct x; destruct (IH _ H1) as (s' & out & -> & ?); eauto.
Qed.

Lemma near_served U k id ops : forall n s s' out,
  waits_ok s -> near U k id n s -> Forall (of_others U id) ops ->
  n < length (List.filter (pages k) ops) -> run_dependencies s ops = Some (s', out) -> (k, id) ∈ out.
Proof.
  induction ops as [|op ops IH]; intros n s s' out Hok Hn Hops Hc Hrun; [simpl in Hc; lia|].
  inversion Hops as [|? ? Hop Hops']; subst. simpl in Hrun, Hc. destruct op as [x d|x|k' r]; simpl in *.
  - destruct (run_dependencies _ ops) as [[? ?]|] eqn:E; [|done]. simplify_eq. destruct Hop.
    eapply (IH n (update s x d).1); eauto using update_ok, update_near.
  - destruct (run_dependencies _ ops) as [[? ?]|] eqn:E; [|done]. simplify_eq.
    eapply (IH n (remove s x)); eauto using remove_ok, remove_near.
  - destruct (next_ok s k' r Hok) as (s1 & y & E & H1). rewrite E in Hrun.
    assert (Hout : exists more, run_dependencies s1 ops = Some (s', more) /\
                     out = (match y with Some v => [(k', v)] | None => [] end) ++ more).
    { destruct y; destruct (run_dependencies s1 ops) as [[? ?]|]; simplify_eq; eauto. }
    destruct Hout as (more & Hrest & ->). case_bool_decide as Hk; simpl in Hc.
    + subst k'. destruct (next_near U k id n s r s1 y Hok E (or_introl Hn)) as [->|[Hpos Hn']]; [set_solver|].
      apply elem_of_app. right. eapply (IH (pred n) s1); eauto. lia.
    + apply elem_of_app. right. eapply (IH n s1); eauto using next_elsewhere.
Qed.

(** The operation after which [id] is due in the group of [k]: it starts to
    wait, or the group sees a new observation. *)
Definition becomes_due (s : SnapshotDependencies) (k : SnapshotKind) (id : Uuid) (op : DependencyOp) : Prop :=
  match op with
  | DepUpdate x d => x = id /\ kind_of d = Some k /\ sd_owners s !! id <> Some k
  | DepNext k' r => k' = k /\ exists g, sd_groups s !! k = Some g /\ id ∈ g_ids g /\ g_revision g <> Some r
  | DepRemove _ => False
  end.

(** C35 No suspended insight starves: in every run of the index from its empty
    state, once an insight starts to wait for a snapshot, or the snapshot it waits
    for is observed anew, it is handed out after at most [2 * size U] further calls
    of [next] for that snapshot, where [U] holds the insights that use the index
    meanwhile. This is so however often the snapshot changes during the
    pass and whoever joins or leaves, and no call panics or loops. *)
Theorem suspended_insight_is_resumed past s log op ops U k id :
  run_dependencies no_dependencies past = Some (s, log) ->
  becomes_due s k id op ->
  id ∈ U -> (forall g, sd_groups s !! k = Some g -> g_ids g ⊆ U) ->
  Forall (of_others U id) ops ->
  2 * size U < length (List.filter (pages k) ops) ->
  exists s' out, run_dependencies s (op :: ops) = Some (s', out) /\ (k, id) ∈ out.
Proof.
  intros Hpast Hdue Hid HU Hops Hc.
  destruct (run_total _ past no_dependencies_ok) as (s0 & out0 & E0 & Hok). simplify_eq.
  destruct (run_total s (op :: ops) Hok) as (s' & out & Hrun & _). exists s', out. split; [done|].
  simpl in Hrun. destruct op as [x d|x|k' r]; simpl in Hdue; [| done |].
  - destruct Hdue as (-> & Hk & Ho). destruct (run_dependencies _ ops) as [[? ?]|] eqn:E; [|done]. simplify_eq.
    eapply near_served; [|by apply update_starts|done|done|exact E]. by apply update_ok.
  - destruct Hdue as (-> & g & Hg & Hin & Hr). destruct (next_ok s k r Hok) as (s1 & y & E & H1). rewrite E in Hrun.
    destruct (next_near U k id (2 * size U) s r s1 y Hok E) as [->|[Hpos Hn]]; [right; eauto 10| |].
    + destruct (run_dependencies s1 ops) as [[? ?]|]; simplify_eq. set_solver.
    + assert (Hm : exists more a, run_dependencies s1 ops = Some (s', more) /\ out = a ++ more)
        by (destruct y; destruct (run_dependencies s1 ops) as [[? ?]|]; simplify_eq; eauto).
      destruct Hm as (more & a & Hrest & ->). apply elem_of_app. right.
      eapply near_served; [| |done| |exact Hrest]; [done|exact Hn|lia].
Qed.

(** Two owners of one quote; the second is reached although every call sees a
    newer observation. *)
Definition demo_quote : SnapshotKind := SnapQuote "AAPL".
Definition demo_revision (version : Z) : SnapshotReadRevision := mkReadRevision 7%N 0 0 version.
Definition demo_past : list DependencyOp :=
  [DepUpdate 1%N (Some (DeferQuoteSnapshot "AAPL")); DepNext demo_quote (demo_revision 1)].
Definition demo_calls : list DependencyOp :=
  DepNext demo_quote <$> (demo_revision <$> [2; 3; 4; 5; 6]%Z).

Lemma suspended_insight_is_resumed_witness :
  exists s' out, run_dependencies (mkDependencies {[ demo_quote := mkGroup {[1%N]} (Some (demo_revision 1))
                   (Some 1%N) (Some 1%N) true false ]} {[ 1%N := demo_quote ]} (Some demo_quote))
                   (DepUpdate 2%N (Some (DeferQuoteSnapshot "AAPL")) :: demo_calls) = Some (s', out) /\
                 (demo_quote, 2%N) ∈ out.
Proof.
  eapply (suspended_insight_is_resumed demo_past _ _ _ _ {[1%N; 2%N]}).
  - vm_compute. reflexivity.
  - split; [done|]. split; [done|]. vm_compute. discriminate.
  - set_solver.
  - intros g Hg. simpl in Hg. rewrite lookup_singleton_eq in Hg. injection Hg as <-. set_solver.
  - unfold demo_calls. repeat constructor.
  - vm_compute. lia.
Defined.
End SnapshotIndex.
