(* ===== verification/Pipeline.v ===== *)
(** * Pipeline: the stages an insight passes through
    ([src/core/pipeline/mod.rs], [and_pipe.rs], [or_pipe.rs] and the
    [InsightPipeline] of [src/core/strategy/types/mod.rs])

    A pipe is a trait object: the strategies bring their own.  What the engine
    asks of such a pipe is the class [LeafPipe]; the two composites of the engine
    are constructors of [Pipe].  A pipe that has to wait for the broker suspends
    the insight ([pr_deferred]) and is resumed later; a composite remembers which
    of its children was suspended. *)
From S2P Require Import Prelude.
From S2P Require Import OrderedSet.
From S2P Require Import Float64.
From S2P Require Import Text.
From S2P Require Import BrokerTypes.
From S2P Require Import TimeFrame.
From S2P Require Import InsightTypes.
From S2P Require Import Commands.
From S2P Require Import ExecutionData.
From S2P Require Import Insight.
From S2P Require Import Operations.
From S2P Require Import Checkpoint.
From S2P Require Import CommandWorker.
From S2P Require Import SnapshotDependencies.

(** ** Results *)
Record InsightPipeResult := mkPipeResult {
  pr_passed : bool;
  pr_success : bool;
  pr_message : option text;
  pr_pipe_name : string;
  pr_deferred : option InsightPipeDeferral
}.
Definition pipe_result_new (passed success : bool) (message : option text) (pipe_name : string)
    : InsightPipeResult :=
  let '(passed, success) :=
    if passed then (true, true) else if negb success then (false, false) else (passed, success) in
  mkPipeResult passed success message pipe_name None.
Definition pipe_result_deferred (dependency : InsightPipeDeferral) (pipe_name : string)
    : InsightPipeResult := mkPipeResult false true None pipe_name (Some dependency).

(** The errors of a broker read that pipes distinguish. *)
Inductive ReadError :=
| SnapshotUnavailableError (kind : SnapshotKind) (reason : SnapshotUnavailable)
| OtherReadError (message : string).
Definition unavailable_text (reason : SnapshotUnavailable) : text :=
  [Lit "snapshot unavailable: ";
   Lit (match reason with
        | SnapMissing => "Missing" | SnapStale => "Stale" | SnapInvalid => "Invalid"
        | AccountChanged => "AccountChanged" | UntrackedSymbol => "UntrackedSymbol"
        end)].
Definition from_read_error (error : ReadError) (pipe_name : string) : InsightPipeResult :=
  match error with
  | SnapshotUnavailableError kind reason =>
      let dependency := match kind with
                        | SnapAccount => DeferAccountSnapshot
                        | SnapPositions => DeferPositionSnapshot
                        | SnapQuote symbol => DeferQuoteSnapshot symbol
                        end in
      mkPipeResult false true (Some (unavailable_text reason)) pipe_name (Some dependency)
  | OtherReadError message => pipe_result_new false false (Some [Lit message]) pipe_name
  end.
Definition from_mutation (r : InsightMutationResult) (pipe_name : string) : InsightPipeResult :=
  match r with
  | Ok Applied => pipe_result_new true true None pipe_name
  | Ok (Pending receipt) => pipe_result_deferred (DeferBrokerCommand receipt) pipe_name
  | Err QueueFull => pipe_result_deferred DeferBrokerQueueCapacity pipe_name
  | Err error => pipe_result_new false false (Some (error_text error)) pipe_name
  end.
Definition from_exit_mutation (r : InsightMutationResult) (pipe_name : string) : InsightPipeResult :=
  let r := from_mutation r pipe_name in
  if pr_success r && is_none (pr_deferred r)
  then mkPipeResult false (pr_success r) (pr_message r) (pr_pipe_name r) (pr_deferred r) else r.

(** ** Filters *)
Definition CHILD_ALPHA_SUFFIX : string := "-CHILD".

(** The loop strips one suffix per round; the fuel is the length of the name. *)
Fixpoint alpha_loop (fuel : nat) (allowed : gset string) (candidate : string) : bool :=
  if bool_decide (candidate ∈ allowed)
     || (String.eqb candidate "Testing" && bool_decide ("TestEntry" ∈ allowed)) then true
  else
    match strip_suffix CHILD_ALPHA_SUFFIX candidate with
    | None => false
    | Some parent_name => match fuel with O => false | S fuel => alpha_loop fuel allowed parent_name end
    end.
Definition alpha_is_allowed (allowed : gset string) (strategy_name : string) : bool :=
  alpha_loop (str_len strategy_name) allowed strategy_name.

Inductive InsightPipeScope := ParentOnly | ChildOnly | BothScopes.
#[export] Instance InsightPipeScope_eq_dec : EqDecision InsightPipeScope.
Proof. solve_decision. Defined.
Definition scope_allows (s : InsightPipeScope) (i : Insight) : bool :=
  match s with
  | ParentOnly => is_none (i_parent_id i)
  | ChildOnly => is_some (i_parent_id i)
  | BothScopes => true
  end.

(** ** Wrapped pipes; [I] is the type of the pipe inside *)
Record Wrapped (I : Type) := mkWrapped {
  wp_inner : I;
  wp_target_state : InsightState;
  wp_allow_state_change : bool;
  wp_allowed_assets : option (gset string);
  wp_allowed_alphas : option (gset string);
  wp_insight_scope : InsightPipeScope;
  wp_runs_count : nat;
  wp_passed_count : nat
}.
Arguments mkWrapped {I}.
Arguments wp_inner {I}.
Arguments wp_target_state {I}.
Arguments wp_allow_state_change {I}.
Arguments wp_allowed_assets {I}.
Arguments wp_allowed_alphas {I}.
Arguments wp_insight_scope {I}.
Arguments wp_runs_count {I}.
Arguments wp_passed_count {I}.

(** [WrappedInsightPipe::builder(inner).build()] with the default configuration. *)
Definition build_default {I} (inner : I) : Wrapped I :=
  mkWrapped inner New true None None ParentOnly 0 0.
Definition with_inner {I} (w : Wrapped I) (inner : I) : Wrapped I :=
  mkWrapped inner (wp_target_state w) (wp_allow_state_change w) (wp_allowed_assets w)
    (wp_allowed_alphas w) (wp_insight_scope w) (wp_runs_count w) (wp_passed_count w).
Definition counted {I} (w : Wrapped I) (passed : bool) : Wrapped I :=
  mkWrapped (wp_inner w) (wp_target_state w) (wp_allow_state_change w) (wp_allowed_assets w)
    (wp_allowed_alphas w) (wp_insight_scope w) (S (wp_runs_count w))
    (if passed then S (wp_passed_count w) else wp_passed_count w).

Definition matches_asset_and_alpha {I} (w : Wrapped I) (i : Insight) : bool :=
  let asset_ok := match wp_allowed_assets w with
                  | None => true
                  | Some set => bool_decide (set = ∅) || bool_decide (i_symbol i ∈ set)
                  end in
  let alpha_ok := match wp_allowed_alphas w with
                  | None => true
                  | Some set => bool_decide (set = ∅)
                                || alpha_is_allowed set (strategy_type_to_string (i_strategy_type i))
                  end in
  asset_ok && alpha_ok.
Definition should_run {I} (w : Wrapped I) (i : Insight) : bool :=
  matches_asset_and_alpha w i && scope_allows (wp_insight_scope w) i.

(** ** Pipes *)

(** What the engine asks of a pipe of its own or of a strategy; [C] is the
    context it runs in. *)
Class LeafPipe (P C : Type) := {
  leaf_name : P -> string;
  leaf_controls_expiration : P -> bool;
  leaf_run : P -> C -> Insight -> P * C * Insight * InsightPipeResult;
  leaf_retain : P -> gset Uuid -> P;
  leaf_forget : P -> Uuid -> P;
  leaf_checkpoint : P -> Uuid -> option PipeContinuationCheckpoint;
  leaf_restore : P -> Uuid -> option PipeContinuationCheckpoint -> P * result unit string;
  leaf_layout : P -> string
}.
(** The JSON arrays of [recovery_layout]. *)
Class LayoutJson := {
  composite_layout : string -> string -> list string -> string;
  wrapped_layout : string -> InsightState -> bool -> option (list string) -> option (list string) ->
                   InsightPipeScope -> string
}.

Inductive Pipe (P : Type) :=
| Leaf (p : P)
| AndPipe (pipes : list (Wrapped (Pipe P))) (resumed : gmap Uuid (InsightState * nat))
| OrPipe (pipes : list (Wrapped (Pipe P))) (resumed : gmap Uuid (InsightState * nat)).
Arguments Leaf {P}.
Arguments AndPipe {P}.
Arguments OrPipe {P}.

(** [slice::get] and [get_mut] of one element, in a form that recursion can
    pass through. *)
Fixpoint at_index {A B} (f : A -> B) (l : list A) (index : nat) : option B :=
  match l, index with
  | [], _ => None
  | x :: _, O => Some (f x)
  | _ :: l, S index => at_index f l index
  end.
Fixpoint modify_at {A B} (f : A -> A * B) (l : list A) (index : nat) : option (list A * B) :=
  match l, index with
  | [], _ => None
  | x :: l, O => let '(x, b) := f x in Some (x :: l, b)
  | x :: l, S index => match modify_at f l index with
                       | Some (l, b) => Some (x :: l, b)
                       | None => None
                       end
  end.

Section Pipes.
Context {P C : Type} `{LeafPipe P C} `{LayoutJson}.
Abbreviation WrappedInsightPipe := (Wrapped (Pipe P)).

(** [AndPipe::new] and [OrPipe::new]; no children is a panic. *)
Definition and_pipe_new (pipes : list WrappedInsightPipe) : option (Pipe P) :=
  match pipes with [] => None | _ => Some (AndPipe pipes ∅) end.
Definition or_pipe_new (pipes : list WrappedInsightPipe) : option (Pipe P) :=
  match pipes with [] => None | _ => Some (OrPipe pipes ∅) end.

Definition pipe_name (p : Pipe P) : string :=
  match p with Leaf p => leaf_name (C := C) p | AndPipe _ _ => "AndPipe" | OrPipe _ _ => "OrPipe" end.
Definition pipe_controls_expiration (p : Pipe P) : bool :=
  match p with Leaf p => leaf_controls_expiration (C := C) p | _ => false end.

(** Where a composite goes on with an insight. *)
Definition resume_index (resumed : gmap Uuid (InsightState * nat)) (id : Uuid) (state : InsightState)
    : nat :=
  match resumed !! id with
  | Some (previous, index) => if bool_decide (previous = state) then index else 0
  | None => 0
  end.

(** How the loop over the children ended. *)
Inductive Turn :=
| SuspendedAt (index : nat) (r : InsightPipeResult)
| TurnEnded (r : InsightPipeResult).

Section Children.
Variable run : Pipe P -> C -> Insight -> Pipe P * C * Insight * InsightPipeResult.

(** [WrappedInsightPipe::run]. *)
Definition run_wrapped (w : WrappedInsightPipe) (ctx : C) (i : Insight)
    : WrappedInsightPipe * C * Insight * InsightPipeResult :=
  let '(inner, ctx, i, r) := run (wp_inner w) ctx i in
  (counted (with_inner w inner) (pr_passed r), ctx, i, r).

Fixpoint and_loop (start index : nat) (pipes : list WrappedInsightPipe) (ctx : C) (i : Insight)
    (messages : list text) : list WrappedInsightPipe * C * Insight * Turn :=
  match pipes with
  | [] => ([], ctx, i, TurnEnded (pipe_result_new true true
                         (Some ([Lit "All pipes passed: "] ++ debug_texts messages)) "AndPipe"))
  | w :: rest =>
      if (index <? start) || negb (should_run w i) then
        let '(rest, ctx, i, t) := and_loop start (S index) rest ctx i messages in (w :: rest, ctx, i, t)
      else
        let '(w, ctx, i, r) := run_wrapped w ctx i in
        if is_some (pr_deferred r) then (w :: rest, ctx, i, SuspendedAt index r)
        else
          let messages := match pr_message r with Some m => messages ++ [m] | None => messages end in
          if negb (pr_success r) || negb (pr_passed r)
          then (w :: rest, ctx, i, TurnEnded (pipe_result_new false true
                  (Some ([Lit "AndPipe failed: "] ++ debug_texts messages)) "AndPipe"))
          else
            let '(rest, ctx, i, t) := and_loop start (S index) rest ctx i messages in
            (w :: rest, ctx, i, t)
  end.

(** [{:?}] of an optional message. *)
Definition debug_message (m : option text) : text :=
  match m with Some m => [Lit "Some("; ShowDebugText m; Lit ")"] | None => [Lit "None"] end.

Fixpoint or_loop (start index : nat) (pipes : list WrappedInsightPipe) (ctx : C) (i : Insight)
    (errors : list text) : list WrappedInsightPipe * C * Insight * Turn :=
  match pipes with
  | [] => ([], ctx, i, TurnEnded (pipe_result_new false true
                         (Some ([Lit "No pipe passed. Errors: "] ++ debug_texts errors)) "OrPipe"))
  | w :: rest =>
      if (index <? start) || negb (should_run w i) then
        let '(rest, ctx, i, t) := or_loop start (S index) rest ctx i errors in (w :: rest, ctx, i, t)
      else
        let '(w, ctx, i, r) := run_wrapped w ctx i in
        if is_some (pr_deferred r) then (w :: rest, ctx, i, SuspendedAt index r)
        else if is_inactive (i_state i) || i_closing i || i_cancelling i
        then (w :: rest, ctx, i, TurnEnded r)
        else if negb (pr_success r) then
          let errors := match pr_message r with Some m => errors ++ [m] | None => errors end in
          let '(rest, ctx, i, t) := or_loop start (S index) rest ctx i errors in (w :: rest, ctx, i, t)
        else if pr_passed r
        then (w :: rest, ctx, i, TurnEnded (pipe_result_new true true
                (Some ([Lit "Pipe "; Lit (pipe_name (wp_inner w)); Lit " passed: "]
                       ++ debug_message (pr_message r))) "OrPipe"))
        else
          let '(rest, ctx, i, t) := or_loop start (S index) rest ctx i errors in (w :: rest, ctx, i, t)
  end.
End Children.

(** The continuation a turn leaves behind. *)
Definition remember (resumed : gmap Uuid (InsightState * nat)) (id : Uuid) (state : InsightState) (t : Turn)
    : gmap Uuid (InsightState * nat) * InsightPipeResult :=
  match t with
  | SuspendedAt index r => (<[id := (state, index)]> (delete id resumed), r)
  | TurnEnded r => (delete id resumed, r)
  end.

Fixpoint run_pipe (p : Pipe P) (ctx : C) (i : Insight) {struct p} : Pipe P * C * Insight * InsightPipeResult :=
  match p with
  | Leaf p => let '(p, ctx, i, r) := leaf_run p ctx i in (Leaf p, ctx, i, r)
  | AndPipe pipes resumed =>
      let id := i_insight_id i in
      let state := i_state i in
      let '(pipes, ctx, i, t) := and_loop run_pipe (resume_index resumed id state) 0 pipes ctx i [] in
      let '(resumed, r) := remember resumed id state t in
      (AndPipe pipes resumed, ctx, i, r)
  | OrPipe pipes resumed =>
      let id := i_insight_id i in
      let state := i_state i in
      let '(pipes, ctx, i, t) := or_loop run_pipe (resume_index resumed id state) 0 pipes ctx i [] in
      let '(resumed, r) := remember resumed id state t in
      (OrPipe pipes resumed, ctx, i, r)
  end.

(** [retain_active_insights]. *)
Fixpoint retain_active (active : gset Uuid) (p : Pipe P) : Pipe P :=
  let retain_wrapped w := with_inner w (retain_active active (wp_inner w)) in
  let keep (resumed : gmap Uuid (InsightState * nat)) := filter (fun kv => kv.1 ∈ active) resumed in
  match p with
  | Leaf p => Leaf (leaf_retain (C := C) p active)
  | AndPipe pipes resumed => AndPipe (map retain_wrapped pipes) (keep resumed)
  | OrPipe pipes resumed => OrPipe (map retain_wrapped pipes) (keep resumed)
  end.

Fixpoint pipe_checkpoint (id : Uuid) (p : Pipe P) : option PipeContinuationCheckpoint :=
  let composite pipes (resumed : gmap Uuid (InsightState * nat)) :=
    match resumed !! id with
    | Some (state, index) =>
        at_index (fun w => mkContinuation state index (pipe_checkpoint id (wp_inner w))) pipes index
    | None => None
    end in
  match p with
  | Leaf p => leaf_checkpoint (C := C) p id
  | AndPipe pipes resumed | OrPipe pipes resumed => composite pipes resumed
  end.

(** [forget_insight_continuation]. *)
Fixpoint forget_pipe (id : Uuid) (p : Pipe P) : Pipe P :=
  let composite pipes (resumed : gmap Uuid (InsightState * nat)) :=
    match resumed !! id with
    | Some (_, index) =>
        match modify_at (fun w => (with_inner w (forget_pipe id (wp_inner w)), ())) pipes index with
        | Some (pipes, _) => pipes
        | None => pipes
        end
    | None => pipes
    end in
  match p with
  | Leaf p => Leaf (leaf_forget (C := C) p id)
  | AndPipe pipes resumed => AndPipe (composite pipes resumed) (delete id resumed)
  | OrPipe pipes resumed => OrPipe (composite pipes resumed) (delete id resumed)
  end.

(** [restore_execution_checkpoint] of a pipe. *)
Fixpoint restore_pipe (id : Uuid) (p : Pipe P) (c : option PipeContinuationCheckpoint)
    : Pipe P * result unit string :=
  let composite (make : list WrappedInsightPipe -> gmap Uuid (InsightState * nat) -> Pipe P)
        pipes (resumed : gmap Uuid (InsightState * nat)) :=
    match c with
    | None => (make pipes (delete id resumed), Ok ())
    | Some c =>
        match modify_at (fun w => let '(inner, r) := restore_pipe id (wp_inner w) (pcc_nested c) in
                                  (with_inner w inner, r)) pipes (pcc_index c) with
        | None => (make pipes resumed, Err "saved composite pipe index is out of range")
        | Some (pipes, Err e) => (make pipes resumed, Err e)
        | Some (pipes, Ok _) => (make pipes (<[id := (pcc_state c, pcc_index c)]> resumed), Ok ())
        end
    end in
  match p with
  | Leaf p => let '(p, r) := leaf_restore (C := C) p id c in (Leaf p, r)
  | AndPipe pipes resumed => composite AndPipe pipes resumed
  | OrPipe pipes resumed => composite OrPipe pipes resumed
  end.

Definition str_le (a b : string) : Prop := String.leb a b = true.
#[local] Instance str_le_dec : RelDecision str_le.
Proof. intros a b. apply bool_eq_dec. Defined.
Definition ordered (values : option (gset string)) : option (list string) :=
  (fun set => merge_sort str_le (elements set)) <$> values.
Fixpoint recovery_layout (p : Pipe P) : string :=
  let layout w := wrapped_layout (recovery_layout (wp_inner w)) (wp_target_state w)
                    (wp_allow_state_change w) (ordered (wp_allowed_assets w))
                    (ordered (wp_allowed_alphas w)) (wp_insight_scope w) in
  match p with
  | Leaf p => leaf_layout (C := C) p
  | AndPipe pipes _ => composite_layout "AndPipe" "1.0" (map layout pipes)
  | OrPipe pipes _ => composite_layout "OrPipe" "1.0" (map layout pipes)
  end.
Definition wrapped_recovery_layout (w : WrappedInsightPipe) : string :=
  wrapped_layout (recovery_layout (wp_inner w)) (wp_target_state w) (wp_allow_state_change w)
    (ordered (wp_allowed_assets w)) (ordered (wp_allowed_alphas w)) (wp_insight_scope w).
End Pipes.

(** ** The pipeline of a strategy *)
Record DeferredPipeResume := mkResume {
  dr_state : InsightState;
  dr_index : nat;
  dr_dependency : InsightPipeDeferral;
  dr_snapshot_attempted : option SnapshotReadRevision
}.
Record InsightPipeline (P : Type) := mkPipeline {
  ip_pipeline : gmap InsightState (list (Wrapped (Pipe P)));
  ip_deferred : gmap Uuid DeferredPipeResume;
  ip_snapshots : SnapshotDependencies
}.
Arguments mkPipeline {P}.
Arguments ip_pipeline {P}.
Arguments ip_deferred {P}.
Arguments ip_snapshots {P}.
#[export] Instance set_ip_pipeline {P} : Setter (@ip_pipeline P) :=
  fun v p => mkPipeline v (ip_deferred p) (ip_snapshots p).
#[export] Instance set_ip_deferred {P} : Setter (@ip_deferred P) :=
  fun v p => mkPipeline (ip_pipeline p) v (ip_snapshots p).
#[export] Instance set_ip_snapshots {P} : Setter (@ip_snapshots P) :=
  fun v p => mkPipeline (ip_pipeline p) (ip_deferred p) v.

Definition default_pipeline {P} : InsightPipeline P :=
  mkPipeline (list_to_map ((fun s => (s, [])) <$> [New; Executed; Closed; Filled; Cancelled; Rejected]))
    ∅ no_dependencies.

Section Pipeline.
Context {P C : Type} `{LeafPipe P C} `{LayoutJson}.

Definition add_pipe (p : InsightPipeline P) (w : Wrapped (Pipe P)) : InsightPipeline P :=
  p <| ip_pipeline := <[wp_target_state w := unwrap_or (ip_pipeline p !! wp_target_state w) [] ++ [w]]>
                        (ip_pipeline p) |>.
Definition add_pipes (p : InsightPipeline P) (ws : list (Wrapped (Pipe P))) : InsightPipeline P :=
  foldl add_pipe p ws.

Definition pending_deferral (p : InsightPipeline P) (id : Uuid) : option InsightPipeDeferral :=
  dr_dependency <$> ip_deferred p !! id.

Definition forget_continuation (p : InsightPipeline P) (id : Uuid) : InsightPipeline P * bool :=
  let p := p <| ip_snapshots := SnapshotIndex.remove (ip_snapshots p) id |> in
  match ip_deferred p !! id with
  | None => (p, false)
  | Some resume =>
      let p := p <| ip_deferred := delete id (ip_deferred p) |> in
      let forget w := (with_inner w (forget_pipe (C := C) id (wp_inner w)), ()) in
      (match ip_pipeline p !! dr_state resume with
       | Some pipes =>
           match modify_at forget pipes (dr_index resume) with
           | Some (pipes, _) => p <| ip_pipeline := <[dr_state resume := pipes]> (ip_pipeline p) |>
           | None => p
           end
       | None => p
       end, true)
  end.

Definition execution_checkpoint (p : InsightPipeline P) (id : Uuid) : option InsightPipelineCheckpoint :=
  match ip_deferred p !! id with
  | None => None
  | Some resume =>
      match ip_pipeline p !! dr_state resume with
      | None => None
      | Some pipes =>
          match pipes !! dr_index resume with
          | None => None
          | Some w =>
              Some (mkPipelineCheckpoint (dr_state resume) (dr_index resume) (dr_dependency resume)
                      (wrapped_recovery_layout (C := C) <$> pipes)
                      (pipe_checkpoint (C := C) id (wp_inner w)))
          end
      end
  end.

Definition restore_execution_checkpoint (p : InsightPipeline P) (id : Uuid)
    (c : InsightPipelineCheckpoint) : InsightPipeline P * result unit string :=
  match ip_pipeline p !! ipc_state c with
  | None => (p, Err "saved pipeline state no longer exists")
  | Some pipes =>
      if negb (bool_decide (wrapped_recovery_layout (C := C) <$> pipes = ipc_layout c))
      then (p, Err "pipeline layout changed since execution checkpoint")
      else
        match modify_at (fun w => let '(inner, r) := restore_pipe (C := C) id (wp_inner w) (ipc_nested c) in
                                  (with_inner w inner, r)) pipes (ipc_index c) with
        | None => (p, Err "saved pipeline index is out of range")
        | Some (pipes, r) =>
            let p := p <| ip_pipeline := <[ipc_state c := pipes]> (ip_pipeline p) |> in
            match r with
            | Err e => (p, Err e)
            | Ok _ =>
                let p := p <| ip_deferred := <[id := mkResume (ipc_state c) (ipc_index c)
                                                       (ipc_dependency c) None]> (ip_deferred p) |> in
                (p <| ip_snapshots := (SnapshotIndex.update (ip_snapshots p) id
                                         (Some (ipc_dependency c))).1 |>, Ok ())
            end
        end
  end.

(** The loop of [install_execution_recovery]: saved continuations are restored
    one after the other; a refused one drops them all. *)
Definition drop_continuations (p : InsightPipeline P) : InsightPipeline P :=
  mkPipeline (fmap (M := gmap InsightState)
                (map (fun w => with_inner w (retain_active (C := C) ∅ (wp_inner w)))) (ip_pipeline p))
    ∅ no_dependencies.
Fixpoint restore_continuations (p : InsightPipeline P) (saved : list (Uuid * InsightPipelineCheckpoint))
    : InsightPipeline P * result unit BrokerCommandError :=
  match saved with
  | [] => (p, Ok ())
  | (id, cursor) :: saved =>
      match restore_execution_checkpoint p id cursor with
      | (p, Err error) =>
          (drop_continuations p,
           Err (InvalidCommand [Lit "execution pipeline recovery refused: "; Lit error]))
      | (p, Ok _) => restore_continuations p saved
      end
  end.
End Pipeline.
