(* ===== verification/PipelineFacts.v ===== *)
(** * PipelineFacts: alpha families, resumed composites and saved continuations

    The filter by alpha accepts exactly the family of an allowed alpha; a
    composite that was suspended goes on with the suspended child; the saved
    continuations of a pipeline are restored into a new build of it. *)
From S2P Require Import Prelude.
From S2P Require Import OrderedSet.
From S2P Require Import Text.
From S2P Require Import BrokerTypes.
From S2P Require Import TimeFrame.
From S2P Require Import InsightTypes.
From S2P Require Import Commands.
From S2P Require Import ExecutionData.
From S2P Require Import Insight.
From S2P Require Import Operations.
From S2P Require Import Checkpoint.
From S2P Require Import CommandWorker.
From S2P Require Import SnapshotDependencies.
From S2P Require Import Pipeline.

(** ** Alpha families *)
Fixpoint child_suffix (depth : nat) : string :=
  match depth with O => EmptyString | S depth => child_suffix depth +:+ CHILD_ALPHA_SUFFIX end.
(** A name an alpha filter lists, with its one alias. *)
Definition listed (allowed : gset string) (name : string) : Prop :=
  name ∈ allowed \/ (name = "Testing" /\ "TestEntry" ∈ allowed).

Definition listedb (allowed : gset string) (name : string) : bool :=
  bool_decide (name ∈ allowed) || (String.eqb name "Testing" && bool_decide ("TestEntry" ∈ allowed)).
Lemma listedb_spec allowed name : listedb allowed name = true <-> listed allowed name.
Proof.
  unfold listedb, listed. by rewrite orb_true_iff, andb_true_iff, !bool_decide_eq_true, String.eqb_eq.
Qed.

(** Of a family, but not listed itself: a child. *)
Lemma unlisted_member allowed base depth :
  listedb allowed (base +:+ child_suffix depth) = false -> listed allowed base ->
  exists d, base +:+ child_suffix depth = (base +:+ child_suffix d) +:+ CHILD_ALPHA_SUFFIX.
Proof.
  destruct depth as [|d]; simpl; intros E Hl.
  - rewrite str_app_nil in E. apply listedb_spec in Hl. congruence.
  - exists d. by rewrite str_app_assoc.
Qed.

Lemma alpha_loop_spec allowed fuel name :
  str_len name <= fuel ->
  alpha_loop fuel allowed name = true <->
  exists base depth, name = base +:+ child_suffix depth /\ listed allowed base.
Proof.
  revert name. induction fuel as [|fuel IH]; intros name Hlen; cbn [alpha_loop]; fold (listedb allowed name).
  all: destruct (listedb allowed name) eqn:E;
    [split; [|done]; intros _; exists name, 0; simpl; rewrite str_app_nil; split; [done|by apply listedb_spec]|].
  all: assert (Hmem : (exists base depth, name = base +:+ child_suffix depth /\ listed allowed base) ->
          exists base d, name = (base +:+ child_suffix d) +:+ CHILD_ALPHA_SUFFIX /\ listed allowed base)
    by (intros (base & depth & -> & Hl); destruct (unlisted_member _ _ _ E Hl) as [d ->]; eauto).
  - split; [by destruct (strip_suffix _ _)|]. intros (base & d & -> & _)%Hmem.
    rewrite str_len_app in Hlen. simpl in Hlen. lia.
  - destruct (strip_suffix CHILD_ALPHA_SUFFIX name) as [parent|] eqn:Es.
    + apply strip_suffix_app in Es as Hn. rewrite IH by (rewrite Hn, str_len_app in Hlen; simpl in Hlen; lia). split.
      * intros (base & depth & -> & Hl). exists base, (S depth). simpl. by rewrite str_app_assoc.
      * intros (base & d & Hd & Hl)%Hmem. apply strip_suffix_app in Hd. rewrite Hd in Es. simplify_eq. eauto.
    + split; [done|]. intros (base & d & Hd & Hl)%Hmem. apply strip_suffix_app in Hd. congruence.
Qed.

(** An alpha filter accepts exactly the listed alphas and their nested children: a name passes
    if and only if it is a listed name (or [Testing] when [TestEntry] is listed) followed by any
    number of [-CHILD] suffixes. *)
Theorem alpha_filter_is_family allowed name :
  alpha_is_allowed allowed name = true <->
  exists base depth, name = base +:+ child_suffix depth /\ listed allowed base.
Proof. by apply alpha_loop_spec. Qed.

Lemma at_index_lookup {A B} (f : A -> B) l n : at_index f l n = f <$> l !! n.
Proof. revert n. induction l as [|x l IH]; intros [|n]; simpl; auto. Qed.
Lemma modify_at_lookup {A B} (f : A -> A * B) l n :
  modify_at f l n = match l !! n with Some x => Some (<[n := (f x).1]> l, (f x).2) | None => None end.
Proof.
  revert n. induction l as [|x l IH]; intros [|n]; simpl; [done|done|by destruct (f x)|].
  rewrite IH. by destruct (l !! n).
Qed.

Section Facts.
Context {P C : Type} `{LeafPipe P C} `{LayoutJson}.
Abbreviation WrappedInsightPipe := (Wrapped (Pipe P)).

(** ** Induction over nested composites *)
Fixpoint pipe_size (p : Pipe P) : nat :=
  match p with
  | Leaf _ => 1
  | AndPipe pipes _ | OrPipe pipes _ => S (sum_list (map (fun w => pipe_size (wp_inner w)) pipes))
  end.
Lemma child_pipe_smaller (w : WrappedInsightPipe) pipes :
  w ∈ pipes -> pipe_size (wp_inner w) <= sum_list (map (fun w => pipe_size (wp_inner w)) pipes).
Proof. induction 1; simpl; lia. Qed.
Lemma pipe_tree_ind (Q : Pipe P -> Prop) :
  (forall l, Q (Leaf l)) ->
  (forall pipes resumed, (forall w, w ∈ pipes -> Q (wp_inner w)) -> Q (AndPipe pipes resumed)) ->
  (forall pipes resumed, (forall w, w ∈ pipes -> Q (wp_inner w)) -> Q (OrPipe pipes resumed)) ->
  forall p, Q p.
Proof.
  intros Hl Ha Ho p. remember (pipe_size p) as n eqn:En. revert p En.
  induction (lt_wf n) as [n _ IH]. intros [l|pipes resumed|pipes resumed] ->; [done|apply Ha|apply Ho];
    intros w Hw; (eapply IH; [|done]); simpl; pose proof (child_pipe_smaller w pipes Hw); lia.
Qed.

(** ** Suspended composites *)
Definition children (p : Pipe P) : list WrappedInsightPipe :=
  match p with Leaf _ => [] | AndPipe pipes _ | OrPipe pipes _ => pipes end.
Definition suspended (p : Pipe P) : gmap Uuid (InsightState * nat) :=
  match p with Leaf _ => ∅ | AndPipe _ resumed | OrPipe _ resumed => resumed end.
Definition composite (p : Pipe P) : bool := match p with Leaf _ => false | _ => true end.

(** What a turn leaves alone: the children before its start, and those after
    the one that suspended it. *)
Definition turn_frame (start index : nat) (pipes pipes' : list WrappedInsightPipe) (t : Turn) : Prop :=
  length pipes' = length pipes /\ take (start - index) pipes' = take (start - index) pipes /\
  match t with
  | SuspendedAt n r => index <= n < index + length pipes /\ is_some (pr_deferred r) = true /\
                       drop (S n - index) pipes' = drop (S n - index) pipes
  | TurnEnded _ => True
  end.

Lemma turn_skip start index w rest rest' t :
  turn_frame start (S index) rest rest' t -> turn_frame start index (w :: rest) (w :: rest') t.
Proof.
  intros (Hl & Ht & Hn). unfold turn_frame. simpl. split; [by rewrite Hl|]. split.
  - destruct (start - index) as [|d] eqn:E; [done|]. simpl. replace d with (start - S index) by lia. by rewrite Ht.
  - destruct t as [n r|]; [|done]. destruct Hn as (Hb & Hd & Hr). split; [lia|]. split; [done|].
    replace (S n - index) with (S (S n - S index)) by lia. done.
Qed.
Lemma turn_ran start index (w w' : WrappedInsightPipe) rest rest' t :
  start <= index -> turn_frame start (S index) rest rest' t -> turn_frame start index (w :: rest) (w' :: rest') t.
Proof.
  intros Hs (Hl & Ht & Hn). unfold turn_frame. simpl. split; [by rewrite Hl|].
  replace (start - index) with 0 by lia. split; [done|].
  destruct t as [n r|]; [|done]. destruct Hn as (Hb & Hd & Hr). split; [lia|]. split; [done|].
  replace (S n - index) with (S (S n - S index)) by lia. done.
Qed.
Lemma turn_ends start index (w w' : WrappedInsightPipe) rest r :
  start <= index -> turn_frame start index (w :: rest) (w' :: rest) (TurnEnded r).
Proof. intros Hs. unfold turn_frame. simpl. split; [done|]. by replace (start - index) with 0 by lia. Qed.
Lemma turn_stops start index (w w' : WrappedInsightPipe) rest r :
  start <= index -> is_some (pr_deferred r) = true ->
  turn_frame start index (w :: rest) (w' :: rest) (SuspendedAt index r).
Proof.
  intros Hs Hd. unfold turn_frame. simpl. split; [done|]. replace (start - index) with 0 by lia. split; [done|].
  split; [lia|]. split; [done|]. by replace (S index - index) with 1 by lia.
Qed.
Hint Resolve turn_skip turn_ran turn_ends turn_stops : aqe.

Abbreviation Run := (Pipe P -> C -> Insight -> Pipe P * C * Insight * InsightPipeResult).

Lemma and_loop_frame (run : Run) start index pipes ctx i ms pipes' ctx' i' t :
  and_loop run start index pipes ctx i ms = (pipes', ctx', i', t) -> turn_frame start index pipes pipes' t.
Proof.
  revert index ctx i ms pipes' ctx' i' t.
  induction pipes as [|w rest IH]; intros index ctx i ms pipes' ctx' i' t Hr; simpl in Hr; [by simplify_eq|].
  destruct ((index <? start) || negb (should_run w i)) eqn:E.
  - destruct (and_loop _ _ _ rest _ _ _) as [[[? ?] ?] ?] eqn:El. simplify_eq. eauto with aqe.
  - apply orb_false_iff in E as [Hs%Nat.ltb_ge _].
    destruct (run_wrapped run w ctx i) as [[[w' c1] i1] r1]. split_match_in Hr; [simplify_eq; auto with aqe|].
    split_match_in Hr; [simplify_eq; auto with aqe|].
    destruct (and_loop _ _ _ rest _ _ _) as [[[? ?] ?] ?] eqn:El. simplify_eq. eauto with aqe.
Qed.

Lemma or_loop_frame (run : Run) start index pipes ctx i es pipes' ctx' i' t :
  or_loop run start index pipes ctx i es = (pipes', ctx', i', t) -> turn_frame start index pipes pipes' t.
Proof.
  revert index ctx i es pipes' ctx' i' t.
  induction pipes as [|w rest IH]; intros index ctx i es pipes' ctx' i' t Hr; simpl in Hr; [by simplify_eq|].
  destruct ((index <? start) || negb (should_run w i)) eqn:E.
  - destruct (or_loop _ _ _ rest _ _ _) as [[[? ?] ?] ?] eqn:El. simplify_eq. eauto with aqe.
  - apply orb_false_iff in E as [Hs%Nat.ltb_ge _].
    destruct (run_wrapped run w ctx i) as [[[w' c1] i1] r1].
    repeat (split_match_in Hr; [simplify_eq; auto with aqe; try (destruct (or_loop _ _ _ rest _ _ _) as [[[? ?] ?] ?] eqn:El; simplify_eq; eauto with aqe)|]).
    destruct (or_loop _ _ _ rest _ _ _) as [[[? ?] ?] ?] eqn:El. simplify_eq. eauto with aqe.
Qed.

(** One turn of a composite. *)
Lemma run_composite p ctx i p' ctx' i' r :
  composite p = true -> run_pipe p ctx i = (p', ctx', i', r) ->
  exists t, composite p' = true /\
    turn_frame (resume_index (suspended p) (i_insight_id i) (i_state i)) 0 (children p) (children p') t /\
    remember (suspended p) (i_insight_id i) (i_state i) t = (suspended p', r).
Proof.
  intros Hc Hr. destruct p as [l|pipes resumed|pipes resumed]; [done| |]; simpl in Hr.
  - destruct (and_loop _ _ _ _ _ _ _) as [[[pipes' c1] i1] t] eqn:El.
    destruct (remember _ _ _ t) as [resumed' r'] eqn:Em. simplify_eq. exists t. split; [done|].
    split; [by eapply and_loop_frame|done].
  - destruct (or_loop _ _ _ _ _ _ _) as [[[pipes' c1] i1] t] eqn:El.
    destruct (remember _ _ _ t) as [resumed' r'] eqn:Em. simplify_eq. exists t. split; [done|].
    split; [by eapply or_loop_frame|done].
Qed.

Lemma deferred_ended (p : Pipe P) t id state resumed' r :
  remember (suspended p) id state t = (resumed', r) ->
  (exists n, t = SuspendedAt n r /\ resumed' !! id = Some (state, n)) \/ (t = TurnEnded r /\ resumed' !! id = None).
Proof.
  destruct t as [n r'|r']; simpl; intros [= <- <-].
  - left. exists n. split; [done|]. apply lookup_insert_eq.
  - right. split; [done|]. apply lookup_delete_eq.
Qed.

(** A suspended composite goes on where it stopped: when a turn of an [AndPipe] or [OrPipe]
    records a continuation, it points at one of its children, the children after that one were
    not run, and the next turn for the same insight in the same state leaves every child before
    it as it is, so completed stages are not replayed. *)
Theorem suspended_composite_resumes p ctx i p1 ctx1 i1 r1 state index :
  composite p = true -> run_pipe p ctx i = (p1, ctx1, i1, r1) ->
  suspended p1 !! i_insight_id i = Some (state, index) ->
  state = i_state i /\ index < length (children p1) /\ is_some (pr_deferred r1) = true /\
  drop (S index) (children p1) = drop (S index) (children p) /\
  forall ctx2 j p2 ctx3 j3 r3,
    i_insight_id j = i_insight_id i -> i_state j = i_state i ->
    run_pipe p1 ctx2 j = (p2, ctx3, j3, r3) -> take index (children p2) = take index (children p1).
Proof.
  intros Hc Hr Hs. destruct (run_composite _ _ _ _ _ _ _ Hc Hr) as (t & Hc1 & (Hlen & _ & Ht) & Hm).
  destruct (deferred_ended p t _ _ _ _ Hm) as [(n & -> & Hn)|[_ Hn]]; [|congruence].
  rewrite Hn in Hs. injection Hs as <- <-. destruct Ht as (Hb & Hd & Hdrop).
  split; [done|]. split; [lia|]. split; [done|]. split; [by rewrite !Nat.sub_0_r in Hdrop|].
  intros ctx2 j p2 ctx3 j3 r3 Hid Hst Hr2.
  destruct (run_composite _ _ _ _ _ _ _ Hc1 Hr2) as (t2 & _ & (_ & Htake & _) & _).
  unfold resume_index in Htake. rewrite Hid, Hn, Hst, bool_decide_eq_true_2 in Htake by done.
  by rewrite Nat.sub_0_r in Htake.
Qed.

(** ** Continuations survive a restart *)
Definition same_config (w w' : WrappedInsightPipe) : Prop :=
  wp_target_state w' = wp_target_state w /\ wp_allow_state_change w' = wp_allow_state_change w /\
  wp_allowed_assets w' = wp_allowed_assets w /\ wp_allowed_alphas w' = wp_allowed_alphas w /\
  wp_insight_scope w' = wp_insight_scope w.
(** Two builds of one configuration; their continuations may differ. *)
Inductive same_build : Pipe P -> Pipe P -> Prop :=
| same_leaf l l' : leaf_layout (C := C) l' = leaf_layout (C := C) l -> same_build (Leaf l) (Leaf l')
| same_and pipes pipes' resumed resumed' :
    Forall2 (fun w w' => same_config w w' /\ same_build (wp_inner w) (wp_inner w')) pipes pipes' ->
    same_build (AndPipe pipes resumed) (AndPipe pipes' resumed')
| same_or pipes pipes' resumed resumed' :
    Forall2 (fun w w' => same_config w w' /\ same_build (wp_inner w) (wp_inner w')) pipes pipes' ->
    same_build (OrPipe pipes resumed) (OrPipe pipes' resumed').
Definition same_stage (w w' : WrappedInsightPipe) : Prop :=
  same_config w w' /\ same_build (wp_inner w) (wp_inner w').

Lemma same_build_layout p p' : same_build p p' -> recovery_layout (C := C) p' = recovery_layout (C := C) p.
Proof.
  revert p'. induction p as [l|pipes resumed IH|pipes resumed IH] using pipe_tree_ind;
    inversion 1 as [?? Hl|???? Hall|???? Hall]; subst; simpl; [done| |]; f_equal; clear -IH Hall.
  all: induction Hall as [|w w' rest rest' [(E1 & E2 & E3 & E4 & E5) Hb] _ IHl]; [done|]; simpl.
  all: rewrite E1, E2, E3, E4, E5, (IH w) by (try done; left).
  all: f_equal; apply IHl; intros v Hv; apply IH; by right.
Qed.
Lemma same_stage_layout w w' :
  same_stage w w' -> wrapped_recovery_layout (C := C) w' = wrapped_recovery_layout (C := C) w.
Proof.
  intros [(E1 & E2 & E3 & E4 & E5) Hb]. unfold wrapped_recovery_layout.
  by rewrite E1, E2, E3, E4, E5, (same_build_layout _ _ Hb).
Qed.

(** What a pipe with continuations of its own promises: a continuation it
    saved is accepted by a pipe of the same layout, which then holds it;
    restoring one insight does not touch another. *)
Class LeafRestores := {
  restore_own l l' id :
    leaf_layout (C := C) l' = leaf_layout (C := C) l ->
    exists l'', leaf_restore (C := C) l' id (leaf_checkpoint (C := C) l id) = (l'', Ok ()) /\
                leaf_checkpoint (C := C) l'' id = leaf_checkpoint (C := C) l id;
  restore_layout l id c : leaf_layout (C := C) (leaf_restore (C := C) l id c).1 = leaf_layout (C := C) l;
  restore_other l id c id' :
    id' <> id -> leaf_checkpoint (C := C) (leaf_restore (C := C) l id c).1 id' = leaf_checkpoint (C := C) l id'
}.
Context `{LeafRestores}.

(** Restoring one child. *)
Definition restored_child (id : Uuid) (c : PipeContinuationCheckpoint) (w : WrappedInsightPipe)
    : WrappedInsightPipe * result unit string :=
  let '(inner, r) := restore_pipe (C := C) id (wp_inner w) (pcc_nested c) in (with_inner w inner, r).

Lemma restore_composite id p c :
  composite p = true ->
  let '(p', r) := restore_pipe (C := C) id p c in
  composite p' = true /\
  match c with
  | None => children p' = children p /\ suspended p' = delete id (suspended p) /\ r = Ok ()
  | Some c =>
      match children p !! pcc_index c with
      | None => p' = p /\ is_ok r = false
      | Some w => children p' = <[pcc_index c := (restored_child id c w).1]> (children p) /\
                  r = (restored_child id c w).2 /\
                  suspended p' = (if is_ok r then <[id := (pcc_state c, pcc_index c)]> (suspended p) else suspended p)
      end
  end.
Proof.
  intros Hc. destruct p as [l|pipes resumed|pipes resumed]; [done| |]; simpl.
  all: destruct c as [c|]; [|done]; simpl.
  all: change (fun w : WrappedInsightPipe => let '(inner, r) := restore_pipe id (wp_inner w) (pcc_nested c) in
                 (with_inner w inner, r)) with (restored_child id c).
  all: rewrite modify_at_lookup; destruct (pipes !! pcc_index c) as [w|]; [|done].
  all: by destruct (restored_child id c w) as [w' [[]|e]].
Qed.

Lemma checkpoint_composite id (p : Pipe P) :
  composite p = true ->
  pipe_checkpoint (C := C) id p =
  match suspended p !! id with
  | Some (state, index) =>
      (fun w => mkContinuation state index (pipe_checkpoint (C := C) id (wp_inner w))) <$> children p !! index
  | None => None
  end.
Proof.
  intros Hc. destruct p as [l|pipes resumed|pipes resumed]; [done| |]; simpl;
    destruct (resumed !! id) as [[state index]|]; [|done| |done]; apply at_index_lookup.
Qed.

(** A change of the children and continuations of a composite. *)
Definition rebuilt (p : Pipe P) (pipes : list WrappedInsightPipe) (resumed : gmap Uuid (InsightState * nat)) : Pipe P :=
  match p with Leaf l => Leaf l | AndPipe _ _ => AndPipe pipes resumed | OrPipe _ _ => OrPipe pipes resumed end.
Lemma restore_rebuilt id p c :
  composite p = true -> exists pipes resumed, (restore_pipe (C := C) id p c).1 = rebuilt p pipes resumed.
Proof.
  intros Hc. destruct p as [l|pipes resumed|pipes resumed]; [done| |]; simpl.
  all: destruct c as [c|]; [|simpl; eauto].
  all: destruct (modify_at _ _ _) as [[? []]|]; simpl; eauto.
Qed.
Lemma same_build_composite p p' :
  composite p = true ->
  same_build p p' <-> (exists pipes resumed, p' = rebuilt p pipes resumed) /\ Forall2 same_stage (children p) (children p').
Proof.
  intros Hc. split.
  - destruct 1 as [|? ? ? ? Hall|? ? ? ? Hall]; [done| |]; (split; [simpl; eauto|exact Hall]).
  - intros [(pipes & resumed & ->) Hall]. destruct p as [l|? ?|? ?]; [done| |]; by constructor.
Qed.

Lemma Forall2_insert_r {A} (R : A -> A -> Prop) l k n x y :
  Forall2 R l k -> l !! n = Some x -> R x y -> Forall2 R l (<[n := y]> k).
Proof.
  intros Hall Hx Hr. assert (El : <[n := x]> l = l) by (by apply list_insert_id).
  rewrite <- El. by apply Forall2_insert.
Qed.

(** Restoring changes continuations only. *)
Lemma restore_same_step id p p' c :
  composite p = true -> same_build p p' ->
  (forall w, w ∈ children p -> forall p' c, same_build (wp_inner w) p' ->
     same_build (wp_inner w) (restore_pipe (C := C) id p' c).1) ->
  same_build p (restore_pipe (C := C) id p' c).1.
Proof.
  intros Hc Hs IH. rewrite same_build_composite in Hs |- * by done. destruct Hs as [(ps0 & rs0 & ->) Hall].
  set (p' := rebuilt p ps0 rs0) in *. assert (Hc' : composite p' = true) by (by destruct p).
  pose proof (restore_composite id p' c Hc') as Hr. destruct (restore_rebuilt id p' c Hc') as (ps & rs & E).
  destruct (restore_pipe id p' c) as [p'' r]. simpl in E |- *. destruct Hr as [_ Hr].
  split; [exists ps, rs; rewrite E; by destruct p|].
  destruct c as [c|]; [|by destruct Hr as (-> & _)].
  destruct (children p' !! pcc_index c) as [w'|] eqn:Hw; [|by destruct Hr as [-> _]].
  destruct Hr as (-> & _). destruct (Forall2_lookup_r _ _ _ _ _ Hall Hw) as (w & Hw0 & Hcfg & Hb).
  apply (Forall2_insert_r _ _ _ _ w); [done|done|]. unfold restored_child.
  pose proof (IH w (list_elem_of_lookup_2 _ _ _ Hw0) _ (pcc_nested c) Hb) as Hb'.
  destruct (restore_pipe id (wp_inner w') (pcc_nested c)) as [inner r']. by split.
Qed.
Lemma restore_same_build id p p' c : same_build p p' -> same_build p (restore_pipe (C := C) id p' c).1.
Proof.
  revert p' c. induction p as [l|pipes resumed IH|pipes resumed IH] using pipe_tree_ind; intros p' c Hs;
    [|by apply restore_same_step..].
  inversion Hs as [? l' Hl| |]; subst. simpl. pose proof (restore_layout l' id c) as Hlay.
  destruct (leaf_restore l' id c) as [l'' r]. constructor. simpl in Hlay. congruence.
Qed.

(** Restoring one insight leaves the continuations of the others. *)
Lemma restore_other_step id id' p c :
  id' <> id -> composite p = true ->
  (forall w, w ∈ children p -> forall c,
     pipe_checkpoint (C := C) id' (restore_pipe (C := C) id (wp_inner w) c).1 = pipe_checkpoint (C := C) id' (wp_inner w)) ->
  pipe_checkpoint (C := C) id' (restore_pipe (C := C) id p c).1 = pipe_checkpoint (C := C) id' p.
Proof.
  intros Hne Hp IH. pose proof (restore_composite id p c Hp) as Hr. destruct (restore_pipe id p c) as [p'' r].
  destruct Hr as [Hc Hr]. simpl. rewrite !checkpoint_composite by done.
  destruct c as [c|]; [|destruct Hr as (-> & -> & _); by rewrite lookup_delete_ne].
  destruct (children p !! pcc_index c) as [w|] eqn:Hw; [|by destruct Hr as [-> _]].
  destruct Hr as (-> & _ & ->).
  assert (Hsus : (if is_ok r then <[id := (pcc_state c, pcc_index c)]> (suspended p) else suspended p) !! id'
                 = suspended p !! id') by (destruct (is_ok r); [by rewrite lookup_insert_ne|done]).
  rewrite Hsus. destruct (suspended p !! id') as [[state index]|]; [|done].
  destruct (decide (index = pcc_index c)) as [->|Hi]; [|by rewrite list_lookup_insert_ne].
  rewrite list_lookup_insert_eq, Hw by (by eapply lookup_lt_Some). simpl. do 2 f_equal.
  unfold restored_child. pose proof (IH w (list_elem_of_lookup_2 _ _ _ Hw) (pcc_nested c)) as Hi.
  by destruct (restore_pipe id (wp_inner w) (pcc_nested c)).
Qed.
Lemma restore_other_pipe id id' p c :
  id' <> id -> pipe_checkpoint (C := C) id' (restore_pipe (C := C) id p c).1 = pipe_checkpoint (C := C) id' p.
Proof.
  intros Hne. revert c. induction p as [l|pipes resumed IH|pipes resumed IH] using pipe_tree_ind; intros c;
    [|by apply restore_other_step..].
  simpl. pose proof (restore_other l id c id' Hne) as Ho. by destruct (leaf_restore l id c).
Qed.

(** A saved continuation is accepted by a new build, which then holds it. *)
Lemma restore_own_step id p p' :
  composite p = true -> same_build p p' ->
  (forall w, w ∈ children p -> forall p', same_build (wp_inner w) p' ->
     exists p'', restore_pipe (C := C) id p' (pipe_checkpoint (C := C) id (wp_inner w)) = (p'', Ok ()) /\
                 pipe_checkpoint (C := C) id p'' = pipe_checkpoint (C := C) id (wp_inner w)) ->
  exists p'', restore_pipe (C := C) id p' (pipe_checkpoint (C := C) id p) = (p'', Ok ()) /\
              pipe_checkpoint (C := C) id p'' = pipe_checkpoint (C := C) id p.
Proof.
  intros Hc Hs IH. rewrite same_build_composite in Hs by done. destruct Hs as [(ps0 & rs0 & E') Hall].
  assert (Hc' : composite p' = true) by (rewrite E'; by destruct p).
  pose proof (restore_composite id p' (pipe_checkpoint (C := C) id p) Hc') as Hr.
  destruct (restore_pipe id p' (pipe_checkpoint id p)) as [p'' r]. destruct Hr as [Hc'' Hr]. exists p''.
  rewrite (checkpoint_composite id p'') by done.
  destruct (pipe_checkpoint id p) as [c|] eqn:Eck; [|destruct Hr as (_ & Hs & ->); by rewrite Hs, lookup_delete_eq].
  rewrite checkpoint_composite in Eck by done. destruct (suspended p !! id) as [[state index]|]; [|done].
  apply fmap_Some in Eck as (w & Hw & ->). simpl in Hr.
  destruct (Forall2_lookup_l _ _ _ _ _ Hall Hw) as (w' & Hw' & _ & Hb). rewrite Hw' in Hr.
  destruct (IH w (list_elem_of_lookup_2 _ _ _ Hw) _ Hb) as (inner & Er & Eck).
  unfold restored_child in Hr. simpl in Hr. rewrite Er in Hr. simpl in Hr. destruct Hr as (Hch & -> & Hsu).
  split; [done|]. rewrite Hsu. simpl. rewrite lookup_insert_eq, Hch.
  rewrite list_lookup_insert_eq by (by eapply lookup_lt_Some). simpl. by rewrite Eck.
Qed.
Lemma restore_own_pipe id p p' :
  same_build p p' ->
  exists p'', restore_pipe (C := C) id p' (pipe_checkpoint (C := C) id p) = (p'', Ok ()) /\
              pipe_checkpoint (C := C) id p'' = pipe_checkpoint (C := C) id p.
Proof.
  revert p'. induction p as [l|pipes resumed IH|pipes resumed IH] using pipe_tree_ind; intros p' Hs;
    [|by apply restore_own_step..].
  inversion Hs as [? l' Hl| |]; subst. simpl. destruct (restore_own l l' id Hl) as (l'' & -> & Hck). eauto.
Qed.

(** ** Whole pipelines *)
Definition same_pipeline (p p' : InsightPipeline P) : Prop :=
  forall s, option_Forall2 (Forall2 same_stage) (ip_pipeline p !! s) (ip_pipeline p' !! s).

(** The snapshot index lists exactly the insights that wait for a snapshot. *)
Definition index_mirrors (p : InsightPipeline P) : Prop :=
  SnapshotIndex.waits_ok (ip_snapshots p) /\
  forall id, sd_owners (ip_snapshots p) !! id = ip_deferred p !! id ≫= (fun r => dependency_kind (dr_dependency r)).

Lemma stages_layout l l' :
  Forall2 same_stage l l' ->
  (wrapped_recovery_layout (C := C) <$> l') = (wrapped_recovery_layout (C := C) <$> l).
Proof. induction 1 as [|w w' l l' Hw _ IH]; [done|]. by rewrite !fmap_cons, (same_stage_layout _ _ Hw), IH. Qed.

(** Restoring one saved continuation. *)
Lemma restore_one p p' id c :
  same_pipeline p p' -> index_mirrors p' -> execution_checkpoint (C := C) p id = Some c ->
  exists p'', restore_execution_checkpoint (C := C) p' id c = (p'', Ok ()) /\
    same_pipeline p p'' /\ index_mirrors p'' /\ execution_checkpoint (C := C) p'' id = Some c /\
    (forall id', id' <> id -> execution_checkpoint (C := C) p'' id' = execution_checkpoint (C := C) p' id') /\
    ip_deferred p'' = <[id := mkResume (ipc_state c) (ipc_index c) (ipc_dependency c) None]> (ip_deferred p').
Proof.
  intros Hsame [Hw Hmir] Hck. unfold execution_checkpoint in Hck.
  destruct (ip_deferred p !! id) as [resume|]; [|done].
  pose proof (Hsame (dr_state resume)) as Hs. destruct (ip_pipeline p !! dr_state resume) as [pipes|] eqn:Hp; [|done].
  inversion Hs as [? pipes' Hall E1 E2|]; subst. symmetry in E2.
  destruct (pipes !! dr_index resume) as [w|] eqn:Hi; [|done]. injection Hck as <-.
  destruct (Forall2_lookup_l _ _ _ _ _ Hall Hi) as (w' & Hw' & Hcfg & Hb).
  destruct (restore_own_pipe id _ _ Hb) as (inner & Er & Einner).
  pose proof (restore_same_build id _ _ (pipe_checkpoint (C := C) id (wp_inner w)) Hb) as Hsb. rewrite Er in Hsb. simpl in Hsb.
  assert (Hother : forall id', id' <> id -> pipe_checkpoint (C := C) id' inner = pipe_checkpoint (C := C) id' (wp_inner w')).
  { intros id' Hne. pose proof (restore_other_pipe id id' (wp_inner w') (pipe_checkpoint (C := C) id (wp_inner w)) Hne) as Ho.
    by rewrite Er in Ho. }
  assert (Hall' : Forall2 same_stage pipes (<[dr_index resume := with_inner w' inner]> pipes')).
  { apply (Forall2_insert_r _ _ _ _ w); [done|done|]. by split. }
  unfold restore_execution_checkpoint. simpl. rewrite E2, (stages_layout _ _ Hall), bool_decide_eq_true_2 by done. simpl.
  rewrite modify_at_lookup, Hw'. simpl. rewrite Er. simpl.
  eexists. split; [done|]. split; [|split; [|split; [|split; [|done]]]].
  - intros s. simpl. destruct (decide (s = dr_state resume)) as [->|Hne]; [|by rewrite lookup_insert_ne].
    rewrite lookup_insert_eq, Hp. by constructor.
  - split; simpl; [by apply SnapshotIndex.update_ok|]. intros k. rewrite SnapshotIndex.update_owners.
    destruct (decide (k = id)) as [->|Hk]; [by rewrite lookup_partial_alter_eq, lookup_insert_eq|].
    rewrite lookup_partial_alter_ne, lookup_insert_ne by done. apply Hmir.
  - unfold execution_checkpoint. simpl. repeat (rewrite lookup_insert_eq; simpl).
    rewrite list_lookup_insert_eq by (by eapply lookup_lt_Some). simpl. by rewrite (stages_layout _ _ Hall'), Einner.
  - intros id' Hne. unfold execution_checkpoint. simpl. rewrite lookup_insert_ne by done.
    destruct (ip_deferred p' !! id') as [r|]; [|done].
    destruct (decide (dr_state r = dr_state resume)) as [Es|Hs']; [|by rewrite lookup_insert_ne].
    rewrite Es, lookup_insert_eq, E2, (stages_layout _ _ Hall'), (stages_layout _ _ Hall).
    destruct (decide (dr_index r = dr_index resume)) as [Ei|Hi']; [|by rewrite list_lookup_insert_ne].
    rewrite Ei, list_lookup_insert_eq, Hw' by (by eapply lookup_lt_Some). simpl. by rewrite Hother.
Qed.

Lemma restore_all p saved : forall p',
  same_pipeline p p' -> index_mirrors p' ->
  NoDup saved.*1 -> (forall id c, (id, c) ∈ saved -> execution_checkpoint (C := C) p id = Some c) ->
  exists p'', restore_continuations (C := C) p' saved = (p'', Ok ()) /\ same_pipeline p p'' /\ index_mirrors p'' /\
    (forall id c, (id, c) ∈ saved -> execution_checkpoint (C := C) p'' id = Some c) /\
    (forall id, id ∉ saved.*1 -> execution_checkpoint (C := C) p'' id = execution_checkpoint (C := C) p' id).
Proof.
  induction saved as [|[id c] saved IH]; intros p' Hs Hm Hnd Hck; simpl.
  - exists p'. split; [done|]. split; [done|]. split; [done|]. split; [|done]. intros id c Hin. by apply not_elem_of_nil in Hin.
  - apply NoDup_cons in Hnd as [Hn Hnd]. simpl in Hn.
    destruct (restore_one p p' id c Hs Hm) as (p1 & -> & Hs1 & Hm1 & Hc1 & Ho1 & _); [apply Hck; left|].
    destruct (IH p1 Hs1 Hm1 Hnd) as (p2 & -> & Hs2 & Hm2 & Hin2 & Hout2); [intros; apply Hck; by right|].
    exists p2. split; [done|]. split; [done|]. split; [done|]. split.
    + intros id' c' [[= -> ->]|Hin]%elem_of_cons; [|by apply Hin2]. by rewrite Hout2.
    + intros id' Hid. apply not_elem_of_cons in Hid as [Hne Hid]. simpl in Hne. rewrite Hout2 by done. by apply Ho1.
Qed.

(** C34 A restart loses no suspended stage: when the continuations saved from a pipeline are restored
    into a new build of the same configuration, every one is accepted and afterwards every insight is
    suspended at the same stage, inside composites too, on the same dependency and with the same
    layout as before, and the index of snapshot waits lists exactly the insights that wait for a
    snapshot. *)
Theorem continuations_survive_restart p p' saved :
  same_pipeline p p' -> ip_deferred p' = ∅ -> ip_snapshots p' = no_dependencies ->
  NoDup saved.*1 -> (forall id c, (id, c) ∈ saved <-> execution_checkpoint (C := C) p id = Some c) ->
  exists p'', restore_continuations (C := C) p' saved = (p'', Ok ()) /\ index_mirrors p'' /\
    forall id, execution_checkpoint (C := C) p'' id = execution_checkpoint (C := C) p id.
Proof.
  intros Hs Hd Hn Hnd Hck.
  assert (Hm : index_mirrors p').
  { split; [rewrite Hn; apply SnapshotIndex.no_dependencies_ok|]. intros id. by rewrite Hn, Hd, !lookup_empty. }
  destruct (restore_all p saved p' Hs Hm Hnd) as (p'' & Hr & _ & Hm'' & Hin & Hout); [intros; by apply Hck|].
  exists p''. split; [done|]. split; [done|]. intros id.
  destruct (execution_checkpoint (C := C) p id) as [c|] eqn:E; [by apply Hin, Hck|].
  rewrite Hout; [unfold execution_checkpoint; by rewrite Hd, lookup_empty|].
  intros (kv & -> & Hkv)%list_elem_of_fmap. destruct kv as [id c]. apply Hck in Hkv. simpl in *. congruence.
Qed.
End Facts.

(** ** An instance: stages that pass or wait for the account *)
Module Demo.
Inductive Stage := Passes | Waits.
#[global] Instance stages : LeafPipe Stage unit := {|
  leaf_name s := match s with Passes => "Passes" | Waits => "Waits" end;
  leaf_controls_expiration _ := false;
  leaf_run s ctx i :=
    (s, ctx, i, match s with
                | Passes => pipe_result_new true true None "Passes"
                | Waits => pipe_result_deferred DeferAccountSnapshot "Waits"
                end);
  leaf_retain s _ := s;
  leaf_forget s _ := s;
  leaf_checkpoint _ _ := None;
  leaf_restore s _ c := (s, match c with Some _ => Err "unsupported" | None => Ok () end);
  leaf_layout s := match s with Passes => "Passes@1" | Waits => "Waits@1" end
|}.
#[global] Instance layouts : LayoutJson := {|
  composite_layout name version parts := name +:+ version +:+ String.concat "," parts;
  wrapped_layout inner _ _ _ _ _ := inner
|}.
#[global] Instance stages_restore : LeafRestores (P := Stage) (C := unit).
Proof. split; [intros l l' id _; by exists l'|done|done]. Qed.

Definition steps : list (Wrapped (Pipe Stage)) := [build_default (Leaf Passes); build_default (Leaf Waits)].
Definition both : Pipe Stage := AndPipe steps ∅.
Definition insight : Insight := default_insight 1%N 0%Z.

(** The first child passed, the second one waits. *)
Definition both_suspended : Pipe Stage :=
  AndPipe [counted (build_default (Leaf Passes)) true; counted (build_default (Leaf Waits)) false]
    {[ 1%N := (New, 1) ]}.
Lemma both_suspends : exists r,
  run_pipe both () insight = (both_suspended, (), insight, r) /\ pr_deferred r = Some DeferAccountSnapshot.
Proof. eexists. split; vm_compute; reflexivity. Qed.

Definition running : InsightPipeline Stage :=
  mkPipeline {[ New := [build_default both_suspended] ]} {[ 1%N := mkResume New 0 DeferAccountSnapshot None ]}
    (SnapshotIndex.update no_dependencies 1%N (Some DeferAccountSnapshot)).1.
Definition rebuilt_pipeline : InsightPipeline Stage :=
  mkPipeline {[ New := [build_default both] ]} ∅ no_dependencies.
Definition saved_cursor : InsightPipelineCheckpoint :=
  mkPipelineCheckpoint New 0 DeferAccountSnapshot (wrapped_recovery_layout (C := unit) <$> [build_default both])
    (Some (mkContinuation New 1 None)).

Lemma same_steps : same_pipeline (C := unit) running rebuilt_pipeline.
Proof.
  intros s. simpl. destruct (decide (s = New)) as [->|Hs]; [|rewrite !lookup_singleton_ne by done; constructor].
  rewrite !lookup_singleton_eq. constructor. apply Forall2_cons. split; [|constructor]. split; [done|].
  constructor. repeat (apply Forall2_cons; split; [split; [done|by constructor]|]). constructor.
Qed.
Lemma running_checkpoints id c :
  (id, c) ∈ [(1%N, saved_cursor)] <-> execution_checkpoint (C := unit) running id = Some c.
Proof.
  rewrite list_elem_of_singleton. unfold execution_checkpoint. simpl.
  destruct (decide (id = 1%N)) as [->|Hid].
  - split; [intros [= ->]; vm_compute; reflexivity|]. vm_compute. by intros [= <-].
  - rewrite lookup_singleton_ne by done. split; [by intros [= ]|done].
Qed.
End Demo.

Lemma suspended_composite_resumes_witness :
  Demo.steps !! 1 = Some (build_default (Leaf Demo.Waits)) /\
  forall ctx2 j p2 ctx3 j3 r3,
    i_insight_id j = 1%N -> i_state j = New ->
    run_pipe Demo.both_suspended ctx2 j = (p2, ctx3, j3, r3) ->
    take 1 (children p2) = take 1 (children Demo.both_suspended).
Proof.
  split; [reflexivity|].
  destruct Demo.both_suspends as (r & Hrun & _).
  destruct (suspended_composite_resumes Demo.both () Demo.insight Demo.both_suspended () Demo.insight r New 1
              eq_refl Hrun eq_refl) as (_ & _ & _ & _ & Hnext).
  exact Hnext.
Defined.

Lemma continuations_survive_restart_witness :
  exists p'', restore_continuations (C := unit) Demo.rebuilt_pipeline [(1%N, Demo.saved_cursor)] = (p'', Ok ()) /\
    index_mirrors p'' /\
    forall id, execution_checkpoint (C := unit) p'' id = execution_checkpoint (C := unit) Demo.running id.
Proof.
  apply continuations_survive_restart.
  - exact Demo.same_steps.
  - reflexivity.
  - reflexivity.
  - repeat constructor. set_solver.
  - exact Demo.running_checkpoints.
Defined.
