(* ===== verification/WorkQueue.v ===== *)
(** * WorkQueue: pending entries, cleanups and child activations
    (the queue of [src/core/strategy/insight_work.rs])

    The strategy keeps one request per insight and kind: an entry to submit, a
    cleanup, and a cursor over each kind of children.  A request is ready, or
    waits for an answer of the broker; [owned] remembers both, so that repeated
    observations do not duplicate it. *)
From S2P Require Import Prelude.
From S2P Require Import Text.

Inductive WorkKind := Recover | SubmitWork | Cleanup | SplitChildren | FilledChildren.
#[export] Instance WorkKind_eq_dec : EqDecision WorkKind.
Proof. solve_decision. Defined.
#[export] Instance WorkKind_countable : Countable WorkKind.
Proof.
  refine (inj_countable'
    (fun k => match k with Recover => 0 | SubmitWork => 1 | Cleanup => 2 | SplitChildren => 3 | FilledChildren => 4 end)
    (fun n => match n with 0 => Recover | 1 => SubmitWork | 2 => Cleanup | 3 => SplitChildren | _ => FilledChildren end) _).
  by intros [].
Defined.

Record Work := mkWork { wk_id : Uuid; wk_kind : WorkKind; wk_next_child : nat }.
Definition work_key (w : Work) : Uuid * WorkKind := (wk_id w, wk_kind w).
Definition is_cleanup (w : Work) : bool := bool_decide (wk_kind w = Cleanup).

Record InsightWorkQueue := mkQueue {
  wq_ready : list Work;
  wq_recovery : list Uuid;
  wq_owned : gset (Uuid * WorkKind);
  wq_waiting : gmap (Uuid * WorkKind) Work;
  wq_child_cursors : gmap (Uuid * WorkKind) nat;
  wq_admission_blocked : bool
}.
Definition default_queue : InsightWorkQueue := mkQueue [] [] ∅ ∅ ∅ false.
Definition eta_queue (q : InsightWorkQueue) : InsightWorkQueue :=
  mkQueue (wq_ready q) (wq_recovery q) (wq_owned q) (wq_waiting q) (wq_child_cursors q)
    (wq_admission_blocked q).
#[export] Instance set_wq_ready : Setter wq_ready := ltac:(solve_setter eta_queue).
#[export] Instance set_wq_recovery : Setter wq_recovery := ltac:(solve_setter eta_queue).
#[export] Instance set_wq_owned : Setter wq_owned := ltac:(solve_setter eta_queue).
#[export] Instance set_wq_waiting : Setter wq_waiting := ltac:(solve_setter eta_queue).
#[export] Instance set_wq_child_cursors : Setter wq_child_cursors := ltac:(solve_setter eta_queue).
#[export] Instance set_wq_admission_blocked : Setter wq_admission_blocked := ltac:(solve_setter eta_queue).

Module Queue.
Definition push_front (q : InsightWorkQueue) (w : Work) : InsightWorkQueue := q <| wq_ready := w :: wq_ready q |>.
Definition push_back (q : InsightWorkQueue) (w : Work) : InsightWorkQueue := q <| wq_ready := wq_ready q ++ [w] |>.

Definition cursor (q : InsightWorkQueue) (id : Uuid) (kind : WorkKind) : nat :=
  unwrap_or (wq_child_cursors q !! (id, kind)) 0.

Definition push (q : InsightWorkQueue) (id : Uuid) (kind : WorkKind) : InsightWorkQueue :=
  if bool_decide ((id, kind) ∈ wq_owned q) then q
  else
    let q := q <| wq_owned := {[(id, kind)]} ∪ wq_owned q |> in
    let work := mkWork id kind (cursor q id kind) in
    if bool_decide (kind = Cleanup)
    then push_front (q <| wq_admission_blocked := false |>) work
    else push_back q work.

Definition push_children (q : InsightWorkQueue) (id : Uuid) (kind : WorkKind) (length : nat) : InsightWorkQueue :=
  if cursor q id kind <? length then push q id kind else q.

Definition wake_kind (q : InsightWorkQueue) (id : Uuid) (kind : WorkKind) : InsightWorkQueue :=
  match wq_waiting q !! (id, kind) with
  | None => q
  | Some work =>
      let q := q <| wq_waiting := delete (id, kind) (wq_waiting q) |> in
      if bool_decide (kind = Cleanup) then push_front q work else push_back q work
  end.
Definition wake (q : InsightWorkQueue) (id : Uuid) : InsightWorkQueue :=
  wake_kind (wake_kind (q <| wq_admission_blocked := false |>) id Cleanup) id SubmitWork.

Definition is_ready (q : InsightWorkQueue) : bool :=
  negb (wq_admission_blocked q)
  && (match wq_ready q with [] => false | _ => true end || match wq_recovery q with [] => false | _ => true end).
Definition cleanup_ready (q : InsightWorkQueue) : bool := is_some_and is_cleanup (head (wq_ready q)).
Definition is_ready_for_execution (q : InsightWorkQueue) (recovery_enabled : bool) : bool :=
  is_ready q && (recovery_enabled || cleanup_ready q).

Definition restore (q : InsightWorkQueue) (recovery : list Uuid) : InsightWorkQueue :=
  q <| wq_recovery := recovery |>.
Definition retire_children (q : InsightWorkQueue) (id : Uuid) : InsightWorkQueue :=
  q <| wq_child_cursors := delete (id, FilledChildren) (delete (id, SplitChildren) (wq_child_cursors q)) |>.

(** The next request: an explicit cleanup, a recovered insight, or the rest. *)
Definition pop_next (q : InsightWorkQueue) : option (Work * InsightWorkQueue) :=
  let pop_ready := match wq_ready q with
                   | [] => None
                   | w :: rest => Some (w, q <| wq_ready := rest |>)
                   end in
  if cleanup_ready q then pop_ready
  else match wq_recovery q with
       | id :: rest => Some (mkWork id Recover 0, q <| wq_recovery := rest |>)
       | [] => pop_ready
       end.

(** A request is given up, or sleeps until the broker answers. *)
Definition release (q : InsightWorkQueue) (w : Work) : InsightWorkQueue :=
  q <| wq_owned := wq_owned q ∖ {[work_key w]} |>.
Definition sleep (q : InsightWorkQueue) (w : Work) : InsightWorkQueue :=
  q <| wq_waiting := <[work_key w := w]> (wq_waiting q) |>.

(** ** The queue is consistent *)

(** [held] are the requests taken from the queue and not yet put back. *)
Record queue_ok (held : list (Uuid * WorkKind)) (q : InsightWorkQueue) : Prop := {
  qo_nodup : NoDup (held ++ fmap work_key (wq_ready q));
  qo_owned k : k ∈ wq_owned q <-> k ∈ held \/ k ∈ (work_key <$> wq_ready q) \/ is_Some (wq_waiting q !! k);
  qo_apart k : is_Some (wq_waiting q !! k) -> k ∉ held /\ k ∉ (work_key <$> wq_ready q);
  qo_waiting k w : wq_waiting q !! k = Some w -> work_key w = k /\ (k.2 = Cleanup \/ k.2 = SubmitWork);
  qo_recover k : k ∈ wq_owned q -> k.2 <> Recover;
  qo_front : exists l l', wq_ready q = l ++ l' /\ Forall (fun w => is_cleanup w = true) l /\
                          Forall (fun w => is_cleanup w = false) l'
}.

Lemma default_queue_ok : queue_ok [] default_queue.
Proof.
  split; simpl.
  - constructor.
  - intros k. rewrite lookup_empty. split; [set_solver|]. intros [Hk|[Hk|[? ?]]]; [by apply not_elem_of_nil in Hk..|done].
  - intros k. rewrite lookup_empty. by intros [? ?].
  - intros k w. by rewrite lookup_empty.
  - intros k Hk. by apply not_elem_of_empty in Hk.
  - by exists [], [].
Qed.

Lemma front_cons w l :
  is_cleanup w = true ->
  (exists a b, l = a ++ b /\ Forall (fun w => is_cleanup w = true) a /\ Forall (fun w => is_cleanup w = false) b) ->
  exists a b, w :: l = a ++ b /\ Forall (fun w => is_cleanup w = true) a /\ Forall (fun w => is_cleanup w = false) b.
Proof. intros Hw (a & b & -> & Ha & Hb). exists (w :: a), b. split; [done|]. split; [by constructor|done]. Qed.
Lemma front_snoc w l :
  is_cleanup w = false ->
  (exists a b, l = a ++ b /\ Forall (fun w => is_cleanup w = true) a /\ Forall (fun w => is_cleanup w = false) b) ->
  exists a b, l ++ [w] = a ++ b /\ Forall (fun w => is_cleanup w = true) a /\ Forall (fun w => is_cleanup w = false) b.
Proof.
  intros Hw (a & b & -> & Ha & Hb). exists a, (b ++ [w]). split; [by rewrite app_assoc|]. split; [done|].
  apply Forall_app. split; [done|by constructor].
Qed.

(** Fields outside the invariant. *)
Lemma queue_ok_frame held q q' :
  queue_ok held q -> wq_ready q' = wq_ready q -> wq_owned q' = wq_owned q -> wq_waiting q' = wq_waiting q ->
  queue_ok held q'.
Proof. intros [H1 H2 H3 H4 H5 H6] E1 E2 E3. split; rewrite ?E1, ?E2, ?E3; done. Qed.

(** A new request enters the ready list at either end. *)
Lemma enter_ok held q q' w :
  queue_ok held q -> work_key w ∉ wq_owned q -> wk_kind w <> Recover ->
  wq_ready q' = (if is_cleanup w then w :: wq_ready q else wq_ready q ++ [w]) ->
  wq_owned q' = {[work_key w]} ∪ wq_owned q -> wq_waiting q' = wq_waiting q -> queue_ok held q'.
Proof.
  intros [Hnd Hown Hap Hwt Hrec Hfr] Hnew Hk Er Eo Ew. rewrite Hown in Hnew.
  assert (Hperm : (work_key <$> wq_ready q') ≡ₚ work_key w :: (work_key <$> wq_ready q)).
  { rewrite Er. destruct (is_cleanup w); [done|]. rewrite fmap_app. simpl. by rewrite Permutation_app_comm. }
  assert (Hin : forall k, k ∈ (work_key <$> wq_ready q') <-> k = work_key w \/ k ∈ (work_key <$> wq_ready q)).
  { intros k. by rewrite Hperm, elem_of_cons. }
  split.
  - rewrite Hperm. apply NoDup_app in Hnd as (Hnd1 & Hnd2 & Hnd3).
    apply NoDup_app. split; [done|]. split; [|apply NoDup_cons; split; [tauto|done]].
    intros k Hk1. rewrite elem_of_cons. intros [->|Hk2]; [tauto|]. by apply (Hnd2 k).
  - intros k. rewrite Eo, Ew, Hin, elem_of_union, elem_of_singleton, Hown. tauto.
  - intros k. rewrite Ew. intros Hk'. rewrite Hin. destruct (Hap k Hk') as [H1 H2]. split; [done|].
    intros [->|?]; [|done]. tauto.
  - by rewrite Ew.
  - intros k. rewrite Eo, elem_of_union, elem_of_singleton. intros [->|?]; [done|by apply Hrec].
  - rewrite Er. destruct (is_cleanup w) eqn:Ec; [by apply front_cons|by apply front_snoc].
Qed.

Lemma push_ok held q id kind : kind <> Recover -> queue_ok held q -> queue_ok held (push q id kind).
Proof.
  intros Hk Hq. unfold push. case_bool_decide as Hin; [done|].
  eapply (enter_ok held q _ (mkWork id kind (cursor q id kind))); [done|done|done| | |];
    unfold is_cleanup; simpl; by destruct (bool_decide (kind = Cleanup)).
Qed.
Lemma push_children_ok held q id kind n :
  kind <> Recover -> queue_ok held q -> queue_ok held (push_children q id kind n).
Proof. intros Hk Hq. unfold push_children. destruct (_ <? _); [by apply push_ok|done]. Qed.

(** A request that was held or waited becomes ready. *)
Lemma wake_kind_ok held q id kind : queue_ok held q -> queue_ok held (wake_kind q id kind).
Proof.
  intros [Hnd Hown Hap Hwt Hrec Hfr]. unfold wake_kind. destruct (wq_waiting q !! (id, kind)) as [w|] eqn:Ew; [|done].
  destruct (Hwt _ _ Ew) as [Hkey Hkind]. simpl in Hkind.
  destruct (Hap (id, kind)) as [Hh Hr]; [by eauto|].
  assert (Hrec' : kind <> Recover) by (by destruct Hkind as [-> | ->]).
  pose (q0 := q <| wq_waiting := delete (id, kind) (wq_waiting q) |> <| wq_owned := wq_owned q ∖ {[(id, kind)]} |>).
  assert (Hq0 : queue_ok held q0).
  { split; simpl; try done.
    - intros k. rewrite elem_of_difference, elem_of_singleton, Hown.
      destruct (decide (k = (id, kind))) as [->|Hne]; [rewrite lookup_delete_eq|rewrite lookup_delete_ne by done].
      + split; [naive_solver|]. intros [?|[?|[? ?]]]; done.
      + tauto.
    - intros k [x Hx]. apply lookup_delete_Some in Hx as [_ Hx]. apply Hap. eauto.
    - intros k x Hx. apply lookup_delete_Some in Hx as [_ Hx]. by apply Hwt.
    - intros k [Hk _]%elem_of_difference. by apply Hrec. }
  assert (Hc : is_cleanup w = bool_decide (kind = Cleanup)).
  { unfold is_cleanup. unfold work_key in Hkey. by injection Hkey as _ ->. }
  apply (enter_ok held q0 _ w); [done|simpl; rewrite Hkey; set_solver|unfold work_key in Hkey; by injection Hkey as _ ->| | |];
    rewrite ?Hc, ?Hkey; destruct (bool_decide (kind = Cleanup)); simpl; try done.
  all: apply set_eq; intros k; rewrite elem_of_union, elem_of_singleton, elem_of_difference, elem_of_singleton.
  all: destruct (decide (k = (id, kind))) as [->|]; [|tauto]; split; [intros _; by left|].
  all: intros _; apply Hown; right; right; by eauto.
Qed.
Lemma queue_wake_ok held q id : queue_ok held q -> queue_ok held (wake q id).
Proof. intros Hq. unfold wake. apply wake_kind_ok, wake_kind_ok. by eapply queue_ok_frame. Qed.

(** ** Requests out of the queue *)
Lemma pop_next_ok q w q' :
  queue_ok [] q -> pop_next q = Some (w, q') ->
  if bool_decide (wk_kind w = Recover) then queue_ok [] q'
  else queue_ok [work_key w] q' /\ (is_cleanup w = false -> Forall (fun w => is_cleanup w = false) (wq_ready q')).
Proof.
  intros Hq Hp. unfold pop_next in Hp.
  assert (Hready : forall rest, wq_ready q = w :: rest -> q' = q <| wq_ready := rest |> ->
            wk_kind w <> Recover /\ queue_ok [work_key w] q' /\
            (is_cleanup w = false -> Forall (fun w => is_cleanup w = false) rest)).
  { intros rest Er ->. destruct Hq as [Hnd Hown Hap Hwt Hrec (a & b & Hab & Ha & Hb)]. rewrite Er in *. simpl in *.
    assert (Hfirst : is_cleanup w = false -> Forall (fun w => is_cleanup w = false) rest).
    { intros Hw. destruct a as [|x a]; simplify_eq/=; [by inversion Hb|]. inversion Ha; congruence. }
    split; [apply (Hrec (work_key w)), Hown; right; left; left|]. split; [|done]. split; simpl; try done.
    - intros k. rewrite Hown, !elem_of_cons, elem_of_nil. tauto.
    - intros k Hk. destruct (Hap k Hk) as [_ Hn]. rewrite elem_of_cons in Hn. rewrite list_elem_of_singleton. tauto.
    - destruct (is_cleanup w) eqn:Ew; [|by exists [], rest; auto].
      destruct a as [|x a]; simplify_eq/=; [inversion Hb; congruence|]. exists a, b. inversion Ha. auto. }
  assert (Hpop : match wq_ready q with [] => None | w :: rest => Some (w, q <| wq_ready := rest |>) end = Some (w, q') ->
            if bool_decide (wk_kind w = Recover) then queue_ok [] q'
            else queue_ok [work_key w] q' /\ (is_cleanup w = false -> Forall (fun w => is_cleanup w = false) (wq_ready q'))).
  { destruct (wq_ready q) as [|x rest] eqn:Er; [done|]. intros ?; simplify_eq.
    destruct (Hready rest eq_refl eq_refl) as (Hk & ?). by rewrite bool_decide_eq_false_2. }
  destruct (cleanup_ready q); [by apply Hpop|]. destruct (wq_recovery q) as [|id rest]; [by apply Hpop|].
  simplify_eq. simpl. by eapply queue_ok_frame.
Qed.

Lemma held_alone k q : queue_ok [k] q -> k ∉ (work_key <$> wq_ready q) /\ wq_waiting q !! k = None /\ k ∈ wq_owned q.
Proof.
  intros [Hnd Hown Hap _ _ _]. simpl in Hnd. apply NoDup_cons in Hnd as [Hn _]. split; [done|].
  split; [|apply Hown; left; by left]. destruct (wq_waiting q !! k) eqn:E; [|done].
  destruct (Hap k) as [Hk _]; [by eauto|]. exfalso. apply Hk. left.
Qed.

(** The held request is given up. *)
Lemma queue_release_ok q w : queue_ok [work_key w] q -> queue_ok [] (release q w).
Proof.
  intros Hq. destruct (held_alone _ _ Hq) as (Hr & Hw & _). destruct Hq as [Hnd Hown Hap Hwt Hrec Hfr].
  split; simpl; try done.
  - by apply NoDup_cons in Hnd as [_ Hnd].
  - intros k. rewrite elem_of_difference, elem_of_singleton, Hown, list_elem_of_singleton, elem_of_nil.
    split; [tauto|]. intros [[]|[Hk|[x Hk]]]; (split; [eauto|]); intros ->; [done|congruence].
  - intros k Hk. destruct (Hap k Hk) as [_ ?]. split; [by apply not_elem_of_nil|done].
  - intros k [Hk _]%elem_of_difference. by apply Hrec.
Qed.

(** It is put back: behind the others, in front of them, or to sleep. *)
Lemma put_back_ok q q' w :
  queue_ok [work_key w] q -> is_cleanup w = true \/ Forall (fun w => is_cleanup w = false) (wq_ready q) ->
  q' = push_front q w -> queue_ok [] q'.
Proof.
  intros Hq Hc ->. destruct (held_alone _ _ Hq) as (Hr & Hw & _). destruct Hq as [Hnd Hown Hap Hwt Hrec Hfr].
  split; simpl; try done.
  - intros k. rewrite Hown, list_elem_of_singleton, elem_of_nil, elem_of_cons. tauto.
  - intros k Hk. destruct (Hap k Hk) as [H1 H2]. rewrite list_elem_of_singleton in H1. rewrite elem_of_cons.
    split; [by apply not_elem_of_nil|tauto].
  - destruct Hc as [Hc|Hc]; [by apply front_cons|]. destruct (is_cleanup w) eqn:Ec; [by apply front_cons|].
    exists [], (w :: wq_ready q). split; [done|]. split; [done|by constructor].
Qed.
Lemma requeue_ok q w : queue_ok [work_key w] q -> is_cleanup w = false -> queue_ok [] (push_back q w).
Proof.
  intros Hq Hc. destruct (held_alone _ _ Hq) as (Hr & Hw & _). destruct Hq as [Hnd Hown Hap Hwt Hrec Hfr].
  split; simpl; try done.
  - rewrite fmap_app. simpl. by rewrite Permutation_app_comm.
  - intros k. rewrite Hown, list_elem_of_singleton, elem_of_nil, fmap_app, elem_of_app. simpl.
    rewrite list_elem_of_singleton. tauto.
  - intros k Hk. destruct (Hap k Hk) as [H1 H2]. rewrite list_elem_of_singleton in H1.
    rewrite fmap_app, elem_of_app. simpl. rewrite list_elem_of_singleton. split; [by apply not_elem_of_nil|tauto].
  - by apply front_snoc.
Qed.
Lemma sleep_ok q w :
  queue_ok [work_key w] q -> wk_kind w = Cleanup \/ wk_kind w = SubmitWork -> queue_ok [] (sleep q w).
Proof.
  intros Hq Hk. destruct (held_alone _ _ Hq) as (Hr & Hw & _). destruct Hq as [Hnd Hown Hap Hwt Hrec Hfr].
  split; simpl; try done.
  - by apply NoDup_cons in Hnd as [_ Hnd].
  - intros k. rewrite Hown, list_elem_of_singleton, elem_of_nil.
    destruct (decide (k = work_key w)) as [->|Hne]; [rewrite lookup_insert_eq|rewrite lookup_insert_ne by done];
      [split; [right; right; by eauto|by left]|tauto].
  - intros k [x Hx]. apply lookup_insert_Some in Hx as [[<- _]|[Hne Hx]]; [split; [by apply not_elem_of_nil|done]|].
    destruct (Hap k) as [_ ?]; [by eauto|]. split; [by apply not_elem_of_nil|done].
  - intros k x [[<- <-]|[_ Hx]]%lookup_insert_Some; [split; [done|exact Hk]|by apply Hwt].
Qed.
End Queue.
