(* ===== verification/StrategyOwner.v ===== *)
(** * StrategyOwner: the strategy that owns insights, commands and work
    ([StrategyState] of [src/core/strategy/mod.rs], [insight_work.rs] and the
    reducers of [command_driver.rs])

    One task owns the insights, the command driver, the pipeline and the work
    queue; every definition here is one of its turns.  A pipe, an insight
    operation or a reducer sees this state as its [StrategyContext].  [None] is a
    panic of the source.  The broker, the data feed, logging and the analytics
    of the strategy are not part of the model; the clocks are read once per turn
    ([st_now], [st_now_us]) and a turn's time budget is an argument ([late n]: it
    was used up after [n] items).  [st_issued] counts the random identities
    taken so far. *)
From S2P Require Import Prelude.
From S2P Require Import OrderedSet.
From S2P Require Import Float64.
From S2P Require Import Text.
From S2P Require Import BrokerTypes.
From S2P Require Import TimeFrame.
From S2P Require Import InsightTypes.
From S2P Require Import Commands.
From S2P Require Import ExecutionData.
From S2P Require Import Insight.
From S2P Require Import Operations.
From S2P Require Import OrderReducer.
From S2P Require Import RecoveryViews.
From S2P Require Import Collection.
From S2P Require Import Checkpoint.
From S2P Require Import Journal.
From S2P Require Import CommandWorker.
From S2P Require Import CommandDriver.
From S2P Require Import SnapshotDependencies.
From S2P Require Import Pipeline.
From S2P Require Import WorkQueue.

Inductive StrategyStatus := Initialised | Running | StoppingStatus | Paused | StoppedStatus | CompletedStatus.
#[export] Instance StrategyStatus_eq_dec : EqDecision StrategyStatus.
Proof. solve_decision. Defined.
Definition is_running (s : StrategyStatus) : bool := match s with Running => true | _ => false end.

(** The scheduler of checkpoints ([execution_persistence.rs]). *)
Record WalkFrame := mkFrame { wf_id : Uuid; wf_path : list nat; wf_next_child : nat }.
Record CheckpointWalk := mkWalk {
  cw_root : Uuid;
  cw_stack : list WalkFrame      (* the last element of the vector first *)
}.
Record ExecutionPersistence := mkPersistence {
  ep_roots : list Uuid;
  ep_queued : gset Uuid;
  ep_walk : option CheckpointWalk
}.

Record StrategyState (P : Type) := mkState {
  st_insights : InsightCollection;
  st_driver : option Driver;
  st_work : InsightWorkQueue;
  st_pipeline : InsightPipeline P;
  st_persistence : ExecutionPersistence;
  st_events : list (Order * TradeUpdateEvent);
  st_universe : gmap string Asset;
  st_features : list BrokerFeature;
  st_status : StrategyStatus;
  st_shutdown : bool;
  st_error : option BrokerCommandError;
  st_now : DateTime;
  st_now_us : Z;
  st_issued : nat;
  st_min_rr : f64
}.
Arguments mkState {P}.
Arguments st_insights {P}.
Arguments st_driver {P}.
Arguments st_work {P}.
Arguments st_pipeline {P}.
Arguments st_persistence {P}.
Arguments st_events {P}.
Arguments st_universe {P}.
Arguments st_features {P}.
Arguments st_status {P}.
Arguments st_shutdown {P}.
Arguments st_error {P}.
Arguments st_now {P}.
Arguments st_now_us {P}.
Arguments st_issued {P}.
Arguments st_min_rr {P}.
#[export] Instance set_st_insights {P} : Setter (@st_insights P) :=
  fun v s => mkState v (st_driver s) (st_work s) (st_pipeline s) (st_persistence s) (st_events s)
    (st_universe s) (st_features s) (st_status s) (st_shutdown s) (st_error s) (st_now s) (st_now_us s) (st_issued s) (st_min_rr s).
#[export] Instance set_st_driver {P} : Setter (@st_driver P) :=
  fun v s => mkState (st_insights s) v (st_work s) (st_pipeline s) (st_persistence s) (st_events s)
    (st_universe s) (st_features s) (st_status s) (st_shutdown s) (st_error s) (st_now s) (st_now_us s) (st_issued s) (st_min_rr s).
#[export] Instance set_st_work {P} : Setter (@st_work P) :=
  fun v s => mkState (st_insights s) (st_driver s) v (st_pipeline s) (st_persistence s) (st_events s)
    (st_universe s) (st_features s) (st_status s) (st_shutdown s) (st_error s) (st_now s) (st_now_us s) (st_issued s) (st_min_rr s).
#[export] Instance set_st_pipeline {P} : Setter (@st_pipeline P) :=
  fun v s => mkState (st_insights s) (st_driver s) (st_work s) v (st_persistence s) (st_events s)
    (st_universe s) (st_features s) (st_status s) (st_shutdown s) (st_error s) (st_now s) (st_now_us s) (st_issued s) (st_min_rr s).
#[export] Instance set_st_persistence {P} : Setter (@st_persistence P) :=
  fun v s => mkState (st_insights s) (st_driver s) (st_work s) (st_pipeline s) v (st_events s)
    (st_universe s) (st_features s) (st_status s) (st_shutdown s) (st_error s) (st_now s) (st_now_us s) (st_issued s) (st_min_rr s).
#[export] Instance set_st_events {P} : Setter (@st_events P) :=
  fun v s => mkState (st_insights s) (st_driver s) (st_work s) (st_pipeline s) (st_persistence s) v
    (st_universe s) (st_features s) (st_status s) (st_shutdown s) (st_error s) (st_now s) (st_now_us s) (st_issued s) (st_min_rr s).
#[export] Instance set_st_status {P} : Setter (@st_status P) :=
  fun v s => mkState (st_insights s) (st_driver s) (st_work s) (st_pipeline s) (st_persistence s)
    (st_events s) (st_universe s) (st_features s) v (st_shutdown s) (st_error s) (st_now s) (st_now_us s) (st_issued s) (st_min_rr s).
#[export] Instance set_st_shutdown {P} : Setter (@st_shutdown P) :=
  fun v s => mkState (st_insights s) (st_driver s) (st_work s) (st_pipeline s) (st_persistence s)
    (st_events s) (st_universe s) (st_features s) (st_status s) v (st_error s) (st_now s) (st_now_us s) (st_issued s) (st_min_rr s).
#[export] Instance set_st_error {P} : Setter (@st_error P) :=
  fun v s => mkState (st_insights s) (st_driver s) (st_work s) (st_pipeline s) (st_persistence s)
    (st_events s) (st_universe s) (st_features s) (st_status s) (st_shutdown s) v (st_now s) (st_now_us s) (st_issued s) (st_min_rr s).
#[export] Instance set_st_issued {P} : Setter (@st_issued P) :=
  fun v s => mkState (st_insights s) (st_driver s) (st_work s) (st_pipeline s) (st_persistence s)
    (st_events s) (st_universe s) (st_features s) (st_status s) (st_shutdown s) (st_error s) (st_now s) (st_now_us s) v (st_min_rr s).
#[export] Instance set_st_min_rr {P} : Setter (@st_min_rr P) :=
  fun v s => mkState (st_insights s) (st_driver s) (st_work s) (st_pipeline s) (st_persistence s)
    (st_events s) (st_universe s) (st_features s) (st_status s) (st_shutdown s) (st_error s) (st_now s) (st_now_us s) (st_issued s) v.

(** [Uuid::new_v4], rendered: the [n]-th identity the process draws. *)
Class FreshIds := fresh_id : nat -> string.

Section Owner.
Context {P : Type} `{UuidText} `{Json} `{CommandIds} `{JournalJson} `{Chrono} `{Fingerprint} `{FreshIds}.
Abbreviation State := (StrategyState P).

(** ** The context of pipes and insight operations *)
Definition shutdown (s : State) : State :=
  s <| st_driver := request_stop <$> st_driver s |> <| st_shutdown := true |>.

Definition dispatch_constraints (s : State) (action : BrokerCommandAction) : BrokerDispatchConstraints :=
  match action with
  | ActSubmit request => mkConstraints (match st_universe s !! rq_symbol request with
                                        | Some asset => a_max_total_size asset
                                        | None => None
                                        end)
  | _ => default_constraints
  end.
Definition state_enqueue (s : State) (id : Uuid) (action : BrokerCommandAction)
    (group : option BrokerOperationGroup) : State * result BrokerCommandReceipt BrokerCommandError :=
  match st_driver s with
  | None => (s, Err ClosedError)
  | Some d =>
      let '(d, r) := enqueue_with_constraints d (uuid_to_string id) action group
                       (dispatch_constraints s action) (fresh_id (st_issued s)) (st_now_us s) in
      let s := s <| st_driver := Some d |> <| st_issued := S (st_issued s) |> in
      match r with
      | Ok receipt => (s <| st_insights := execution_pin (st_insights s) id |>, Ok receipt)
      | Err e => (s, Err e)
      end
  end.
Definition state_reduced (s : State) (r : BrokerCommandReceipt) : State :=
  match st_driver s with
  | None => s
  | Some d =>
      let '(d, res) := mark_reduced d r in
      let s := s <| st_driver := Some d |> in
      if is_ok res then s else shutdown s
  end.
Definition state_cancel_pending (s : State) (r : BrokerCommandReceipt)
    : State * result unit BrokerCommandError :=
  match st_driver s with
  | None => (s, Err ClosedError)
  | Some d => let '(d, res) := driver_cancel_pending_entry d r in (s <| st_driver := Some d |>, res)
  end.
#[export] Instance strategy_context : StrategyContext State := {|
  enqueue_broker_command := state_enqueue;
  broker_command_progress s r := match st_driver s with Some d => progress d r | None => None end;
  broker_command_reduced := state_reduced;
  cancel_pending_entry := state_cancel_pending;
  ctx_current_time := st_now;
  ctx_universe := st_universe;
  ctx_broker_features := st_features
|}.

(** ** Rows that are taken out for an update *)

(** Take row [id], run [f] on it, put it back and refresh it when its
    fingerprint changed; [None] inside is a row that is not there. *)
Definition with_row {A} (s : State) (id : Uuid) (f : State -> Insight -> State * Insight * A)
    : option (State * option A) :=
  let '(c, row) := take_for_update (st_insights s) id in
  match row with
  | None => Some (s, None)
  | Some row =>
      let before := snapshot_fingerprint_hash row in
      let '(s, row, a) := f (s <| st_insights := c |>) row in
      let changed := negb (before =? snapshot_fingerprint_hash row)%Z in
      let* c := restore_after_update (st_insights s) row changed in
      Some (s <| st_insights := c |>, Some a)
  end.

(** ** Scheduling ([insight_work.rs]) *)
Inductive EntryPermission := PermReady | PermWaiting | PermBlocked.
#[export] Instance EntryPermission_eq_dec : EqDecision EntryPermission.
Proof. solve_decision. Defined.

Definition insight_execution_enabled (s : State) : bool :=
  is_running (st_status s) || bool_decide (st_status s = StoppingStatus) || st_shutdown s.
(** Entries are dispatched only while the strategy runs. *)
Definition entries_enabled (s : State) : bool := is_running (st_status s) && negb (st_shutdown s).

(** A row under which nothing is entered any more. *)
Definition gated (row : Insight) : bool :=
  is_inactive (i_state row) || i_closing row || i_cancelling row || i_suppress_child_entries row.
(** An entry that has reached the broker, or is on its way. *)
Definition entry_placed (row : Insight) : bool :=
  has_pending_submit row || i_submitted row || is_some (i_order_id row).

Fixpoint permission_walk (fuel : nat) (c : InsightCollection) (waiting : bool) (current : Uuid)
    : EntryPermission :=
  match fuel with
  | O => PermBlocked
  | S fuel =>
      match c_insights c !! current with
      | None => PermBlocked
      | Some row =>
          if gated row then PermBlocked
          else
            match i_parent_id row with
            | None => if waiting then PermWaiting else PermReady
            | Some parent_id =>
                match c_insights c !! parent_id with
                | None => PermBlocked
                | Some parent =>
                    permission_walk fuel c
                      (waiting || (if i_is_split_insight row then negb (entry_placed parent)
                                   else negb (bool_decide (i_state parent = Filled)))) parent_id
                end
            end
      end
  end.
Definition insight_entry_permission (s : State) (id : Uuid) : EntryPermission :=
  permission_walk 64 (st_insights s) false id.

Definition retire_children (s : State) (id : Uuid) : State :=
  s <| st_work := Queue.retire_children (st_work s) id |>.
Definition wake (s : State) (id : Uuid) : State := s <| st_work := Queue.wake (st_work s) id |>.
Definition push_work (s : State) (id : Uuid) (kind : WorkKind) : State :=
  s <| st_work := Queue.push (st_work s) id kind |>.

Definition schedule_insight_children (s : State) (id : Uuid) : State :=
  if negb (entries_enabled s) then retire_children s id
  else
    match c_insights (st_insights s) !! id with
    | None => s
    | Some row =>
        if gated row then retire_children s id
        else match i_children row with
             | [] => s
             | _ =>
                 if negb (bool_decide (insight_entry_permission s id = PermReady)) then retire_children s id
                 else
                   let n := length (i_children row) in
                   let s := if entry_placed row
                            then s <| st_work := Queue.push_children (st_work s) id SplitChildren n |> else s in
                   if bool_decide (i_state row = Filled)
                   then s <| st_work := Queue.push_children (st_work s) id FilledChildren n |> else s
             end
    end.

Definition schedule_insight_cleanup (s : State) (id : Uuid) : State := wake (push_work s id Cleanup) id.
Definition schedule_descendant_cleanup (s : State) (parent_id : Uuid) : State :=
  foldl schedule_insight_cleanup s (descendant_ids_for_parents (st_insights s) {[parent_id]}).

(** [request_insight_cancellation]. *)
Definition request_insight_cancellation (s : State) (id : Uuid) : option (State * bool) :=
  match c_insights (st_insights s) !! id with
  | None => Some (s, false)
  | Some row =>
      if match i_state row with New | Executed => false | _ => true end then Some (s, false)
      else
        let '(c, taken) := take_for_update (st_insights s) id in
        let* s := match taken with
                  | Some row =>
                      let* c := restore_after_update c (row <| i_suppress_child_entries := true |>) true in
                      Some (s <| st_insights := c |>)
                  | None => Some s
                  end in
        Some (schedule_descendant_cleanup (schedule_insight_cleanup s id) id, true)
  end.

(** ** Broker evidence *)

(** The ambiguous results a terminal row settles count as reduced. *)
Definition mark_settled (row : Insight) (d : Driver) (command_id : string) : Driver :=
  match d_pending d !! command_id with
  | Some p =>
      if match pd_progress p with ProgressCompleted k => is_ambiguous (cmp_outcome k) | _ => false end
         && settled_by_terminal (cmd_action (pd_command p)) (i_order_id row) (i_state row)
      then d <| d_pending := <[command_id := p <| pd_reduced := true |>]> (d_pending d) |> else d
  | None => d
  end.
Definition settle_ambiguous (row : Insight) (d : Driver) : Driver :=
  foldl (mark_settled row) d (commands_of d (i_insight_id row)).

Definition reduce_terminal_command_receipts (s : State) (id : Uuid) : option State :=
  if negb (is_some_and (fun row => is_inactive (i_state row)) (c_insights (st_insights s) !! id)) then Some s
  else
    let* (s, _) := with_row s id (fun s row =>
      let s := s <| st_driver := settle_ambiguous row <$> st_driver s |> in
      (poll_terminal_mutations (st_now s) s row, ())) in
    Some s.

(** A response that repeats what the stream already applied. *)
Definition already_applied (id : Uuid) (row : Insight) (order : Order) : bool :=
  String.eqb (i_symbol row) (a_symbol (o_asset order))
  && bool_decide (i_side row = o_side order)
  && (bool_decide (i_order_id row = Some (o_order_id order))
      || match i_state row with Filled | Closed => true | _ => false end)
  && negb (str_is_empty (o_order_id order))
  && is_none_or (fun value => String.eqb value (uuid_to_string id)) (o_insight_id order).

(** How the search for the insight of an order ends. *)
Inductive Evidence :=
| Consumed                                          (* [return true] *)
| Unmatched
| Changed (id : Uuid) (parent_to_reconcile : option Uuid).

Fixpoint apply_evidence (s : State) (order : Order) (event : TradeUpdateEvent)
    (source : OrderEvidenceSource) (ids : list Uuid) : option (State * Evidence) :=
  match ids with
  | [] => Some (s, Unmatched)
  | id :: ids =>
      match c_insights (st_insights s) !! id with
      | None => apply_evidence s order event source ids
      | Some row =>
          let reduced i := reduce_broker_order (st_now s) (st_now_us s) i order event source in
          let s := s <| st_insights := get_mut (st_insights s) id (fun i => (reduced i).1) |> in
          let '(row, reduction) := reduced row in
          match reduction with
          | Ignored =>
              if bool_decide (source = SubmitResponse) && already_applied id row order
              then Some (s, Consumed) else apply_evidence s order event source ids
          | AccountingUpdated =>
              let* c := refresh_runtime_tracking (st_insights s) id in
              Some (s <| st_insights := c |>, Consumed)
          | EntryFilled | LateEntryFilled => Some (s, Changed id (i_parent_id row))
          | Terminal => Some (s, Changed id (Some (i_insight_id row)))
          | Updated => Some (s, Changed id None)
          end
      end
  end.

(** What follows a changed insight. *)
Definition after_evidence (s : State) (id : Uuid) (parent_to_reconcile : option Uuid) : option State :=
  let* c := refresh_runtime_tracking (st_insights s) id in
  let s := s <| st_insights := c |> in
  let* s :=
    if is_some_and (fun row => is_inactive (i_state row)) (c_insights (st_insights s) !! id)
    then let* s := reduce_terminal_command_receipts s id in Some (retire_children s id)
    else Some s in
  let s := wake s id in
  let s := if bool_decide (st_status s = StoppingStatus) then schedule_insight_cleanup s id
           else schedule_insight_children s id in
  Some (match parent_to_reconcile with
        | Some parent_id =>
            if is_some_and (fun row => is_inactive (i_state row)) (c_insights (st_insights s) !! parent_id)
            then schedule_descendant_cleanup s parent_id else s
        | None => s
        end).

Definition process_order_evidence (s : State) (order : Order) (event : TradeUpdateEvent)
    (source : OrderEvidenceSource) (response_insight_id : option Uuid) : option (State * bool) :=
  if negb (is_some (st_universe s !! a_symbol (o_asset order))) then Some (s, false)
  else if bool_decide (source = SubmitResponse) && is_none response_insight_id then Some (s, false)
  else
    let insight_ids :=
      if bool_decide (source = SubmitResponse) then option_list response_insight_id
      else candidate_insight_ids_for_trade_event (st_insights s) order in
    let insight_ids :=
      match insight_ids with
      | [] => if bool_decide (source = TradeStream) then ids (st_insights s) else []
      | _ => insight_ids
      end in
    let* (s, found) := apply_evidence s order event source insight_ids in
    match found with
    | Consumed => Some (s, true)
    | Unmatched => Some (s, false)
    | Changed id parent => let* s := after_evidence s id parent in Some (s, true)
    end.

(** [on_trade_update_with_budget]; [drained n limit] is what the broker hands
    over when it is asked, after [n] events, for at most [limit] more. *)
Fixpoint trade_loop (fuel : nat) (late : nat -> bool) (drained : nat -> nat -> list (Order * TradeUpdateEvent))
    (max_events processed : nat) (s : State) : option (State * nat) :=
  match fuel with
  | O => Some (s, processed)
  | S fuel =>
      if negb (processed =? 0) && late processed then Some (s, processed)
      else
        let events := match st_events s with
                      | [] => drained processed (Nat.min (max_events - processed) 256)
                      | events => events
                      end in
        match events with
        | [] => Some (s, processed)
        | (order, event) :: rest =>
            let* (s, _) := process_order_evidence (s <| st_events := rest |>) order event TradeStream None in
            trade_loop fuel late drained max_events (S processed) s
        end
  end.
Definition on_trade_update_with_budget (s : State) (max_events : nat) (late : nat -> bool)
    (drained : nat -> nat -> list (Order * TradeUpdateEvent)) : option (State * nat) :=
  trade_loop max_events late drained max_events 0 s.

(** ** Results of commands ([reduce_ready_commands]) *)
Definition poll_submission_of (s : State) (id : Uuid) : option State :=
  let* (s, polled) := with_row s id (fun s row => poll_pending_submission (st_now s) s row) in
  Some (match polled with Some _ => schedule_insight_children s id | None => s end).

(** What one result does; [Err] ends the turn. *)
Definition reduce_evidence (s : State) (e : BrokerCommandEvidence)
    : option (State * result unit BrokerCommandError) :=
  let owner := uuid_parse (cmd_insight_id (ce_command e)) in
  let s := match owner with Some id => wake s id | None => s end in
  match ce_progress e with
  | ProgressCompleted k =>
      let* (s, r) :=
        match cmp_outcome k with
        | OrderResponse order =>
            let* (s, consumed) := process_order_evidence s order (o_status order) SubmitResponse
                                    (uuid_parse (rcpt_insight_id (cmp_receipt k))) in
            match st_driver s with
            | Some d => if (consumed : bool)
                        then let '(d, r) := mark_reduced d (cmp_receipt k) in Some (s <| st_driver := Some d |>, r)
                        else Some (s, Ok ())
            | None => Some (s, Ok ())
            end
        | _ => Some (s, Ok ())
        end in
      match r with
      | Err error => Some (s, Err error)
      | Ok _ =>
          let* s := match owner with
                    | Some id => if is_entry (cmd_action (ce_command e)) then poll_submission_of s id else Some s
                    | None => Some s
                    end in
          let* s := match owner with
                    | Some id => reduce_terminal_command_receipts s id
                    | None => Some s
                    end in
          Some (s, Ok ())
      end
  | _ => Some (s, Ok ())
  end.

Fixpoint command_loop (fuel : nat) (late : nat -> bool) (count : nat) (s : State)
    : option (State * result nat BrokerCommandError) :=
  match fuel with
  | O => Some (s, Ok count)
  | S fuel =>
      if negb (count =? 0) && late count then Some (s, Ok count)
      else
        match st_driver s with
        | None => Some (s, Ok count)
        | Some d =>
            let* (d, r) := next_ready d in
            let s := s <| st_driver := Some d |> in
            match r with
            | Err error => Some (s, Err error)
            | Ok None => Some (s, Ok count)
            | Ok (Some e) =>
                let* (s, r) := reduce_evidence s e in
                match r with
                | Err error => Some (s, Err error)
                | Ok _ => command_loop fuel late (S count) s
                end
            end
        end
  end.
Definition reduce_ready_commands (s : State) (max_events : nat) (late : nat -> bool)
    : option (State * result nat BrokerCommandError) :=
  command_loop (Nat.min max_events 256) late 0 s.

(** ** The work queue ([process_insight_work]) *)
Definition recover_insight_work (s : State) (id : Uuid) : option State :=
  match c_insights (st_insights s) !! id with
  | None => Some s
  | Some row =>
      if is_inactive (i_state row) then reduce_terminal_command_receipts s id
      else if negb (entries_enabled s) || bool_decide (insight_entry_permission s id = PermBlocked)
      then Some (schedule_insight_cleanup s id)
      else
        let s := if has_pending_submit row
                    || (is_some (i_parent_id row) && bool_decide (i_state row = New)
                        && bool_decide (insight_entry_permission s id = PermReady))
                 then push_work s id SubmitWork else s in
        Some (schedule_insight_children s id)
  end.

Definition release_work (s : State) (w : Work) : State := s <| st_work := Queue.release (st_work s) w |>.

(** One child of a cursor. *)
Definition activates (w : Work) (parent template : Insight) : bool :=
  bool_decide (i_parent_id template = Some (wk_id w))
  && Bool.eqb (i_is_split_insight template) (bool_decide (wk_kind w = SplitChildren))
  && (if bool_decide (wk_kind w = SplitChildren) then entry_placed parent
      else bool_decide (i_state parent = Filled)).
Definition child_is_there (s : State) (w : Work) (id : Uuid) : bool :=
  is_some_and (fun row => is_active (i_state row) && bool_decide (i_parent_id row = Some (wk_id w))
                          && Bool.eqb (i_is_split_insight row) (bool_decide (wk_kind w = SplitChildren)))
    (c_insights (st_insights s) !! id).
Definition activate_child (s : State) (w : Work) : option State :=
  if negb (entries_enabled s) || negb (bool_decide (insight_entry_permission s (wk_id w) = PermReady))
  then Some (retire_children (release_work s w) (wk_id w))
  else
    match c_insights (st_insights s) !! wk_id w with
    | None => Some (release_work s w)
    | Some parent =>
        if gated parent then Some (release_work s w)
        else
          match i_children parent !! wk_next_child w with
          | None => Some (release_work s w)
          | Some template =>
              let id := i_insight_id template in
              let should_activate := activates w parent template in
              let existing := should_activate && child_is_there s w id in
              let fresh := should_activate && negb (was_materialized (st_insights s) id) in
              let next := mkWork (wk_id w) (wk_kind w) (S (wk_next_child w)) in
              let q := (st_work s) <| wq_child_cursors := <[work_key w := wk_next_child next]>
                                                            (wq_child_cursors (st_work s)) |> in
              let s := s <| st_work := Queue.push_back q next |> in
              if fresh then
                let* c := add_insight (st_insights s) template in
                Some (push_work (s <| st_insights := c |>) id SubmitWork)
              else if existing then
                let s := if is_some_and (fun row => bool_decide (i_state row = New) || has_pending_submit row)
                              (c_insights (st_insights s) !! id)
                         then push_work s id SubmitWork else s in
                Some (schedule_insight_children s id)
              else Some s
          end
    end.

(** The operation a request runs on its row. *)
Definition cleanup_row (s : State) (row : Insight) : State * Insight * InsightMutationResult :=
  match i_state row with
  | New => if negb (has_pending_submit row) && is_none (i_order_id row)
           then (s, order_cancelled (st_now s) row
                      [Lit "Entry cancelled before broker submission during cleanup"], Ok Applied)
           else cancel (st_now s) s row
  | Filled => close (st_now s) s row
  | Executed => cancel (st_now s) s row
  | _ => poll_pending_submission (st_now s) s row
  end.
Definition run_request (w : Work) (s : State) (row : Insight)
    : State * Insight * (InsightMutationResult * bool * bool) :=
  let '(s, row, r) :=
    if bool_decide (wk_kind w = Cleanup) || negb (entries_enabled s)
    then cleanup_row s row else submit (st_now s) s row in
  (s, row, (r, is_active (i_state row), match i_pending_mutations row with [] => false | _ => true end)).

(** What happens to the request afterwards; [true] ends the turn. *)
Definition settle_request (s : State) (w : Work) (r : InsightMutationResult) (active pending : bool)
    : State * bool :=
  let sleep s := s <| st_work := Queue.sleep (st_work s) w |> in
  match r with
  | Ok (Pending _) => (sleep s, false)
  | Err QueueFull =>
      (s <| st_work := (Queue.push_front (st_work s) w) <| wq_admission_blocked := true |> |>, true)
  | Err _ =>
      (if negb active && negb pending
          && negb (is_some_and (fun d => has_pending_owner d (wk_id w)) (st_driver s))
       then release_work s w else sleep s, false)
  | Ok Applied =>
      (if bool_decide (wk_kind w = Cleanup) && active then sleep s else release_work s w, false)
  end.
Definition run_work (s : State) (w : Work) : option (State * bool) :=
  let* (s, ran) := with_row s (wk_id w) (run_request w) in
  match ran with
  | None => Some (release_work s w, false)
  | Some (r, active, pending) =>
      let '(s, stop) := settle_request s w r active pending in
      Some (if negb stop && bool_decide (wk_kind w = SubmitWork)
            then schedule_insight_children s (wk_id w) else s, stop)
  end.

(** One request; [true] ends the turn. *)
Definition process_work (s : State) (w : Work) : option (State * bool) :=
  match wk_kind w with
  | Recover => let* s := recover_insight_work s (wk_id w) in Some (s, false)
  | SplitChildren | FilledChildren => let* s := activate_child s w in Some (s, false)
  | SubmitWork =>
      if entries_enabled s then
        match insight_entry_permission s (wk_id w) with
        | PermBlocked => Some (schedule_insight_cleanup (release_work s w) (wk_id w), false)
        | PermWaiting =>
            if is_none_or (fun row => negb (has_pending_submit row)) (c_insights (st_insights s) !! wk_id w)
            then Some (release_work s w, false) else run_work s w
        | PermReady => run_work s w
        end
      else run_work s w
  | Cleanup => run_work s w
  end.

Fixpoint work_loop (fuel : nat) (late : nat -> bool) (processed : nat) (s : State) : option (State * nat) :=
  match fuel with
  | O => Some (s, processed)
  | S fuel =>
      if negb (processed =? 0) && late processed then Some (s, processed)
      else if negb (Queue.is_ready_for_execution (st_work s) (insight_execution_enabled s))
      then Some (s, processed)
      else
        match Queue.pop_next (st_work s) with
        | None => Some (s, processed)
        | Some (w, q) =>
            let* (s, stop) := process_work (s <| st_work := q |>) w in
            if (stop : bool) then Some (s, S processed) else work_loop fuel late (S processed) s
        end
  end.
Definition process_insight_work (s : State) (max_work : nat) (late : nat -> bool) : option (State * nat) :=
  work_loop (Nat.min max_work 256) late 0 s.
End Owner.
