(* ===== verification/StrategyOwnerFacts.v ===== *)
(** * StrategyOwnerFacts: the turns of the owner keep every component consistent

    [keeps] relates the strategy before and after a part of a turn: the indexes of
    the collection, the rows that can be tracked, the driver and the work queue stay
    consistent, and the commands of the driver move along the machine of
    [CommandLife].  Every part of a turn is total ([None] is never reached) and
    [keeps] the strategy. *)
From stdpp Require Import relations.
From S2P Require Import Prelude.
From S2P Require Import OrderedSet.
From S2P Require Import Float64.
From S2P Require Import Text.
From S2P Require Import BrokerTypes.
From S2P Require Import TimeFrame.
From S2P Require Import InsightTypes.
From S2P Require Import Commands.
From S2P Require Import ExecutionData.
From S2P Require Import Insight.
From S2P Require Import Operations.
From S2P Require Import Submission.
From S2P Require Import OrderReducer.
From S2P Require Import RecoveryViews.
From S2P Require Import Collection.
From S2P Require Import CollectionInvariant.
From S2P Require Import Checkpoint.
From S2P Require Import Journal.
From S2P Require Import CommandWorker.
From S2P Require Import CommandDriver.
From S2P Require Import CommandDriverFacts.
From S2P Require Import CommandLife.
From S2P Require Import DriverOwnership.
From S2P Require Import SnapshotDependencies.
From S2P Require Import Pipeline.
From S2P Require Import WorkQueue.
From S2P Require Import StrategyOwner.

(** ** What broker evidence leaves alone *)
Section Evidence.
Context `{UuidText}.

Lemma fixed_core i j : core_view j = core_view i -> fixed_view j = fixed_view i.
Proof. unfold core_view, fixed_view. intros [=]. congruence. Qed.
Lemma fixed_typed now i s m k : fixed_view (update_state_typed now i s m k) = fixed_view i.
Proof. apply fixed_core, core_update_state_typed. Qed.
Lemma fixed_sync now i order : fixed_view (sync_broker_managed_levels now i order) = fixed_view i.
Proof. apply fixed_core, quiet_core, sync_quiet. Qed.

Lemma fixed_update now i s m : fixed_view (update_state now i s m) = fixed_view i.
Proof. apply fixed_typed. Qed.
Lemma fixed_first now i b : fixed_view (set_first_on_fill now i b) = fixed_view i.
Proof. unfold set_first_on_fill. cbv zeta. case_bool_decide; [done|]. rewrite fixed_update. exact eq_refl. Qed.
Lemma fixed_accepted now i id : fixed_view (order_accepted now i id) = fixed_view i.
Proof. unfold order_accepted. cbv zeta. rewrite fixed_update. exact eq_refl. Qed.
Lemma fixed_filled now i p q id c : fixed_view (position_filled now i p q id c) = fixed_view i.
Proof. unfold position_filled. cbv zeta. rewrite fixed_first, fixed_update. exact eq_refl. Qed.
Lemma fixed_partial_filled now i q p id c : fixed_view (partial_filled now i q p id c) = fixed_view i.
Proof. unfold partial_filled. cbv zeta. repeat split_match; rewrite ?fixed_update; exact eq_refl. Qed.
Lemma fixed_closed now i p id q pnl c sw : fixed_view (position_closed now i p id q pnl c sw) = fixed_view i.
Proof. unfold position_closed. cbv zeta. rewrite fixed_update. repeat split_match; exact eq_refl. Qed.
Lemma fixed_partial_closed now i q p id c : fixed_view (partial_closed now i q p id c) = fixed_view i.
Proof. unfold partial_closed. cbv zeta. rewrite fixed_update. repeat split_match; exact eq_refl. Qed.
Lemma fixed_observe wall i a : fixed_view (observe_option wall i a) = fixed_view i.
Proof.
  destruct a as [a|]; [|done]. simpl. unfold observe_position_accounting. repeat split_match; reflexivity.
Qed.
Lemma fixed_accept_if_new now i order : fixed_view (accept_if_new now i order) = fixed_view i.
Proof. unfold accept_if_new. case_decide; [apply fixed_accepted|done]. Qed.
Lemma fixed_cancelled now i m : fixed_view (order_cancelled now i m) = fixed_view i.
Proof. apply fixed_update. Qed.
Lemma fixed_rejected now i m : fixed_view (order_rejected now i m) = fixed_view i.
Proof. apply fixed_update. Qed.
Lemma fixed_suppress i b : fixed_view (i <| i_suppress_child_entries := b |>) = fixed_view i.
Proof. done. Qed.
Lemma fixed_replaced now i order : fixed_view (reduce_replaced now i order) = fixed_view i.
Proof. unfold reduce_replaced. cbv zeta. rewrite fixed_sync. repeat split_match; exact eq_refl. Qed.

Create Rewrite HintDb fixed_frame.
#[local] Hint Rewrite fixed_sync fixed_accepted fixed_filled fixed_partial_filled fixed_closed fixed_partial_closed
  fixed_observe fixed_accept_if_new fixed_cancelled fixed_rejected fixed_suppress fixed_replaced : fixed_frame.

Lemma reduce_event_fixed now wall i order event source :
  fixed_view (reduce_event now wall i order event source).1 = fixed_view i.
Proof.
  unfold reduce_event, reduce_entry_partial, reduce_exit_partial, reduce_exit, reduce_entry_fill. cbv zeta.
  destruct (i_state i), event; try exact eq_refl; repeat split_match; cbn [fst]; autorewrite with fixed_frame; exact eq_refl.
Qed.
Lemma reduce_fixed now wall i order event source :
  fixed_view (reduce_broker_order now wall i order event source).1 = fixed_view i.
Proof.
  unfold reduce_broker_order. cbv zeta. split_match; [done|]. split_match; cbn [fst].
  { split_match; [|done]. destruct (o_position_accounting order) as [a|]; [|done].
    exact (fixed_observe wall i (Some a)). }
  split_match; cbn [fst]; [by autorewrite with fixed_frame|].
  destruct (executed_part i) as [[q p]|]; [|apply reduce_event_fixed]. split_match; [|apply reduce_event_fixed].
  cbn [fst]. unfold keep_executed_part. cbv zeta. rewrite (fixed_core _ _ (core_state_log _ _ _)), fixed_filled.
  rewrite (fixed_core _ _ (core_set_quantity _ _ _)). apply fixed_suppress.
Qed.
End Evidence.

(** ** The invariant *)
Section Owner.
Context {P : Type} `{UuidText} `{Json} `{CommandIds} `{JournalJson} `{Chrono} `{Fingerprint} `{FreshIds}.
Abbreviation State := (StrategyState P).

(** An insight and all the templates below it can be tracked. *)
Inductive tree_ok : Insight -> Prop :=
| tree_ok_node i : deps_ok i -> (forall child, child ∈ i_children i -> tree_ok child) -> tree_ok i.
Lemma tree_deps i : tree_ok i -> deps_ok i.
Proof. by destruct 1. Qed.
Lemma tree_fixed i j : fixed_view j = fixed_view i -> tree_ok i -> tree_ok j.
Proof.
  intros E Ht. revert E. destruct Ht as [i Hk Hch]. unfold fixed_view. intros [= Hid Hd Hc].
  constructor; [unfold deps_ok; by rewrite Hd|by rewrite Hc].
Qed.
Lemma fixed_id i j : fixed_view j = fixed_view i -> i_insight_id j = i_insight_id i.
Proof. unfold fixed_view. by intros [=]. Qed.

(** The insights and the driver. *)
Record base_ok (s : State) : Prop := {
  bo_coll : coll_ok (st_insights s);
  bo_trees id row : c_insights (st_insights s) !! id = Some row -> tree_ok row;
  bo_driver d : st_driver s = Some d -> owned d
}.

(** What the calls of an operation do to the strategy; the row it runs on is out of the collection. *)
Definition rest (s : State) :=
  (st_work s, st_pipeline s, st_persistence s, st_events s, st_universe s, st_features s, st_status s,
   st_now s, st_now_us s).
Record calls (s s' : State) : Prop := {
  cl_rows : c_insights (st_insights s') = c_insights (st_insights s);
  cl_materialized : c_materialized (st_insights s') = c_materialized (st_insights s);
  cl_coll : coll_ok (st_insights s) -> coll_ok (st_insights s');
  cl_driver : option_Forall2 works (st_driver s) (st_driver s');
  cl_rest : rest s' = rest s
}.
#[export] Instance calls_preorder : PreOrder calls.
Proof.
  split; [by split|]. intros s1 s2 s3 [A1 A2 A3 A4 A5] [B1 B2 B3 B4 B5].
  split; [congruence|congruence|auto|by etrans|congruence].
Qed.
Lemma driver_calls s d' :
  option_Forall2 works (st_driver s) d' -> calls s (s <| st_driver := d' |>).
Proof. intros Hd. by split. Qed.
Lemma works_Some (s : State) d d' :
  st_driver s = Some d -> works d d' -> option_Forall2 works (st_driver s) (Some d').
Proof. intros ->. by constructor. Qed.

Lemma shutdown_calls s : calls s (shutdown s).
Proof.
  split; try done. unfold shutdown. cbn. destruct (st_driver s); constructor. apply request_stop_works.
Qed.
Lemma enqueue_calls s id a g : calls s (state_enqueue s id a g).1.
Proof.
  unfold state_enqueue. destruct (st_driver s) as [d|] eqn:Ed; [|done].
  match goal with |- context [enqueue_with_constraints ?d ?i ?a ?g ?c ?f ?n] =>
    set (res := enqueue_with_constraints d i a g c f n) end.
  assert (Hw : works d res.1) by apply enqueue_works. destruct res as [d' r]. simpl in Hw.
  assert (Hd : option_Forall2 works (st_driver s) (Some d')) by (rewrite Ed; by constructor).
  destruct r as [rc|e]; [|by split]. split; try done. cbn. intros Hc. by apply (coll_ok_quiet (st_insights s)).
Qed.
Lemma reduced_calls s r : calls s (state_reduced s r).
Proof.
  unfold state_reduced. destruct (st_driver s) as [d|] eqn:Ed; [|done].
  pose proof (mark_reduced_works d r) as Hw. destruct (mark_reduced d r) as [d' res]. simpl in Hw.
  assert (Hc : calls s (s <| st_driver := Some d' |>)) by (apply driver_calls; by eapply works_Some).
  destruct (is_ok res); [done|]. etrans; [exact Hc|apply shutdown_calls].
Qed.
Lemma cancel_pending_calls s r : calls s (state_cancel_pending s r).1.
Proof.
  unfold state_cancel_pending. destruct (st_driver s) as [d|] eqn:Ed; [|done].
  pose proof (cancel_pending_works d r) as Hw. destruct (driver_cancel_pending_entry d r) as [d' res]. simpl in Hw.
  apply driver_calls. by eapply works_Some.
Qed.
(** An operation that was replayed as steps. *)
Lemma steps_calls {enters} s i s' i' :
  rtc (atomic (enters := enters)) (s, i) (s', i') -> calls s s' /\ fixed_view i' = fixed_view i.
Proof.
  intros Hs. split; [|exact (steps_fixed _ _ Hs)].
  apply (steps_context (enters := enters) calls (i_insight_id i) (s, i) (s', i'));
    [intros; apply enqueue_calls|apply reduced_calls|apply cancel_pending_calls|exact Hs|done].
Qed.
Lemma calls_base s s' : calls s s' -> base_ok s -> base_ok s'.
Proof.
  intros [E1 E2 Hc Hd Er] [A B C]. split; [auto|by rewrite E1|]. intros d' Ed'.
  inversion Hd as [d d2 Hw Ex Ey|Ex Ey]; [|congruence]. rewrite Ed' in Ey. injection Ey as ->. by apply Hw, C.
Qed.

(** A part of a turn. *)
Record keeps (s s' : State) : Prop := {
  kp_base : base_ok s -> base_ok s';
  kp_driver : option_Forall2 works (st_driver s) (st_driver s');
  kp_queue held : Queue.queue_ok held (st_work s) -> Queue.queue_ok held (st_work s');
  kp_rest : (st_persistence s', st_pipeline s') = (st_persistence s, st_pipeline s)
}.
#[export] Instance keeps_preorder : PreOrder keeps.
Proof.
  split; [by split|]. intros s1 s2 s3 [A1 A2 A3 A4] [B1 B2 B3 B4].
  split; [auto|by etrans|auto|congruence].
Qed.
Lemma calls_keeps s s' : calls s s' -> keeps s s'.
Proof.
  intros Hc. split; [by apply calls_base|apply Hc|..]; pose proof (cl_rest _ _ Hc) as [=]; congruence.
Qed.
(** A change of the insights alone. *)
Lemma insights_keeps s c :
  (base_ok s -> coll_ok c /\ forall id row, c_insights c !! id = Some row -> tree_ok row) ->
  keeps s (s <| st_insights := c |>).
Proof.
  intros Hc. split; [|reflexivity|by intros held|reflexivity].
  intros Hs. destruct (Hc Hs) as [A B]. split; [exact A|exact B|apply Hs].
Qed.
(** A change of the work queue alone. *)
Lemma work_keeps s q :
  (forall held, Queue.queue_ok held (st_work s) -> Queue.queue_ok held q) -> keeps s (s <| st_work := q |>).
Proof. intros Hq. split; [|reflexivity|exact Hq|reflexivity]. intros [A B C]. by split. Qed.

(** ** Rows *)
Lemma refresh_keeps s id :
  base_ok s -> exists c, refresh_runtime_tracking (st_insights s) id = Some c /\ keeps s (s <| st_insights := c |>) /\
    c_insights c = c_insights (st_insights s).
Proof.
  intros Hs. destruct (refresh_runtime_tracking_spec _ id (bo_coll s Hs)) as (c & Hc & Hok & Er & _).
  exists c. split; [done|]. split; [|done]. apply insights_keeps. intros _. split; [done|]. rewrite Er. apply Hs.
Qed.
Lemma restore_ok c row changed :
  coll_ok c -> (forall id r, c_insights c !! id = Some r -> tree_ok r) -> tree_ok row ->
  i_insight_id row ∈ c_materialized c ->
  exists c', restore_after_update c row changed = Some c' /\ coll_ok c' /\
    (forall id r, c_insights c' !! id = Some r -> tree_ok r).
Proof.
  intros Hc Ht Hrow Hm. unfold restore_after_update.
  pose proof (coll_ok_put c _ row Hc (tree_deps _ Hrow) eq_refl Hm) as Hput.
  set (c1 := c <| c_insights := _ |>) in *.
  assert (Ht1 : forall id r, c_insights c1 !! id = Some r -> tree_ok r).
  { intros k r. cbn. rewrite lookup_insert_Some. intros [[_ <-]|[_ Hr]]; [done|by eapply Ht]. }
  destruct changed; [|by eauto].
  destruct (refresh_runtime_tracking_spec c1 (i_insight_id row) Hput) as (c2 & -> & Hok & Er & _).
  exists c2. split; [done|]. split; [done|]. by rewrite Er.
Qed.
Lemma get_mut_ok c id f :
  coll_ok c -> (forall k r, c_insights c !! k = Some r -> tree_ok r) -> (forall i, fixed_view (f i) = fixed_view i) ->
  coll_ok (get_mut c id f) /\ (forall k r, c_insights (get_mut c id f) !! k = Some r -> tree_ok r).
Proof.
  intros Hc Ht Hf. split.
  - assert (Hop : op_ok c (OpGetMut id f)).
    { intros row Hd Hi. pose proof (Hf row) as E. unfold fixed_view in E. injection E as E1 E2 E3.
      unfold deps_ok. by rewrite E2, E1. }
    destruct (run_coll_ok c (OpGetMut id f) Hc Hop) as (c' & [= <-] & Hc'). done.
  - intros k r. unfold get_mut. destruct (_ && _); cbn; rewrite lookup_alter;
      destruct (decide (id = k)) as [->|]; try (by apply Ht); intros (r0 & Hr0 & ->)%fmap_Some;
      (eapply tree_fixed; [apply Hf|by eapply Ht]).
Qed.

(** A row is taken, an operation runs on it, the row is put back. *)
Lemma with_row_keeps {A} s id (f : State -> Insight -> State * Insight * A) :
  (forall s row, calls s (f s row).1.1 /\ fixed_view (f s row).1.2 = fixed_view row) ->
  base_ok s ->
  exists s' a, with_row s id f = Some (s', a) /\ keeps s s' /\ rest s' = rest s /\
    (a = None -> c_insights (st_insights s) !! id = None).
Proof.
  intros Hf Hs. unfold with_row, take_for_update. destruct (c_insights (st_insights s) !! id) as [row|] eqn:Hrow.
  2:{ eexists _, _. split; [done|]. split; [reflexivity|done]. }
  set (c0 := (st_insights s) <| c_insights := delete id (c_insights (st_insights s)) |>).
  destruct (Hf (s <| st_insights := c0 |>) row) as [Hc Hx].
  destruct (f (s <| st_insights := c0 |>) row) as [[s1 row1] a]. cbn [fst snd] in Hc, Hx.
  destruct Hc as [E1 E2 Hok Hd Er].
  destruct (row_known _ _ _ (bo_coll s Hs) Hrow) as (Hid & _ & Hm).
  destruct (restore_ok (st_insights s1) row1 (negb (snapshot_fingerprint_hash row =? snapshot_fingerprint_hash row1)%Z))
    as (c' & -> & Hc' & Ht').
  - apply Hok. by apply coll_ok_drop, Hs.
  - intros k r. rewrite E1. cbn. intros [_ Hr]%lookup_delete_Some. by eapply (bo_trees s Hs).
  - eapply tree_fixed; [exact Hx|]. by eapply (bo_trees s Hs).
  - rewrite (fixed_id _ _ Hx), Hid, E2. exact Hm.
  - eexists _, _. split; [done|]. split; [|split; [|done]]; [|etrans; [exact Er|done]].
    unfold rest in Er. injection Er as Ew Epi Ep _ _ _ _ _ _. split.
    + intros _. split; [exact Hc'|exact Ht'|]. intros d' Ed'. cbn in Ed'.
      inversion Hd as [d d2 Hw Ex Ey|Ex Ey]; [|congruence]. rewrite Ed' in Ey. injection Ey as ->.
      apply Hw. by apply (bo_driver s Hs).
    + exact Hd.
    + intros held. cbn. by rewrite Ew.
    + cbn. congruence.
Qed.

(** ** Scheduling *)
Lemma retire_keeps s id : keeps s (retire_children s id).
Proof. apply work_keeps. intros held Hq. by eapply Queue.queue_ok_frame. Qed.
Lemma wake_keeps s id : keeps s (wake s id).
Proof. apply work_keeps. intros held Hq. by apply Queue.queue_wake_ok. Qed.
Lemma push_keeps s id kind : kind <> Recover -> keeps s (push_work s id kind).
Proof. intros Hk. apply work_keeps. intros held Hq. by apply Queue.push_ok. Qed.
Lemma push_children_keeps s id kind n :
  kind <> Recover -> keeps s (s <| st_work := Queue.push_children (st_work s) id kind n |>).
Proof. intros Hk. apply work_keeps. intros held Hq. by apply Queue.push_children_ok. Qed.
Lemma schedule_children_keeps s id : keeps s (schedule_insight_children s id).
Proof.
  unfold schedule_insight_children. destruct (negb _); [apply retire_keeps|].
  destruct (c_insights _ !! id) as [row|]; [|reflexivity]. destruct (gated row); [apply retire_keeps|].
  destruct (i_children row) as [|child l]; [reflexivity|]. destruct (negb _); [apply retire_keeps|]. cbv zeta.
  transitivity (if entry_placed row
                then s <| st_work := Queue.push_children (st_work s) id SplitChildren (length (child :: l)) |> else s).
  - destruct (entry_placed row); [by apply push_children_keeps|reflexivity].
  - destruct (bool_decide _); [by apply push_children_keeps|reflexivity].
Qed.
Lemma schedule_cleanup_keeps s id : keeps s (schedule_insight_cleanup s id).
Proof. unfold schedule_insight_cleanup. transitivity (push_work s id Cleanup); [by apply push_keeps|apply wake_keeps]. Qed.
Lemma schedule_descendants_keeps s id : keeps s (schedule_descendant_cleanup s id).
Proof.
  unfold schedule_descendant_cleanup. generalize (descendant_ids_for_parents (st_insights s) {[id]}). intros l.
  revert s. induction l as [|x l IH]; intros s; simpl; [reflexivity|]. etrans; [apply schedule_cleanup_keeps|apply IH].
Qed.

Lemma request_cancellation_keeps s id :
  base_ok s -> exists s' b, request_insight_cancellation s id = Some (s', b) /\ keeps s s'.
Proof.
  intros Hs. unfold request_insight_cancellation.
  destruct (c_insights (st_insights s) !! id) as [row|] eqn:Hrow; [|eexists _, _; split; [done|reflexivity]].
  destruct (match i_state row with New | Executed => false | _ => true end); [eexists _, _; split; [done|reflexivity]|].
  unfold take_for_update. rewrite Hrow. set (c0 := (st_insights s) <| c_insights := _ |>).
  destruct (row_known _ _ _ (bo_coll s Hs) Hrow) as (Hid & _ & Hm).
  destruct (restore_ok c0 (row <| i_suppress_child_entries := true |>) true) as (c' & -> & Hc' & Ht').
  - by apply coll_ok_drop, Hs.
  - intros k r. cbn. intros [_ Hr]%lookup_delete_Some. by eapply (bo_trees s Hs).
  - eapply (tree_fixed row); [apply fixed_suppress|]. by eapply (bo_trees s Hs).
  - change (i_insight_id (row <| i_suppress_child_entries := true |>)) with (i_insight_id row). by rewrite Hid.
  - eexists _, _. split; [done|]. transitivity (s <| st_insights := c' |>); [by apply insights_keeps|].
    etrans; [apply schedule_cleanup_keeps|apply schedule_descendants_keeps].
Qed.

(** ** Broker evidence *)
Lemma mark_settled_works row d id : works d (mark_settled row d id).
Proof.
  unfold mark_settled. destruct (d_pending d !! id) as [p|] eqn:Hp; [|reflexivity].
  destruct (pd_progress p) as [|k|] eqn:Hpr; [reflexivity| |reflexivity].
  destruct (is_ambiguous _ && _); [|reflexivity]. by eapply settle_works.
Qed.
Lemma settle_ambiguous_works row d : works d (settle_ambiguous row d).
Proof. unfold settle_ambiguous. apply (foldl_frame _ works). intros d' id. apply mark_settled_works. Qed.

Lemma reduce_terminal_keeps s id :
  base_ok s -> exists s', reduce_terminal_command_receipts s id = Some s' /\ keeps s s' /\ rest s' = rest s.
Proof.
  intros Hs. unfold reduce_terminal_command_receipts. destruct (negb _); [eexists; split; [done|]; split; [reflexivity|done]|].
  match goal with |- context [with_row s id ?f] =>
    destruct (with_row_keeps s id f) as (s' & a & -> & Hk & Hr & _); [|done|by eauto] end.
  intros t row. cbv zeta. cbn [fst].
  pose proof (poll_terminal_steps (enters := false) (st_now t) (t <| st_driver := settle_ambiguous row <$> st_driver t |>) row) as Hp.
  destruct (poll_terminal_mutations _ _ row) as [t' row']. apply steps_calls in Hp as [Hc Hf]. split; [|done].
  etrans; [|exact Hc]. apply driver_calls. destruct (st_driver t); constructor. apply settle_ambiguous_works.
Qed.

Lemma apply_evidence_keeps order event source ids s :
  base_ok s -> exists s' e, apply_evidence s order event source ids = Some (s', e) /\ keeps s s'.
Proof.
  revert s. induction ids as [|id ids IH]; intros s Hs; cbn [apply_evidence]; [eexists _, _; split; [done|reflexivity]|].
  destruct (c_insights (st_insights s) !! id) as [row|] eqn:Hrow; [|by apply IH].
  set (f i := (reduce_broker_order (st_now s) (st_now_us s) i order event source).1).
  set (s1 := s <| st_insights := get_mut (st_insights s) id f |>).
  assert (Hk : keeps s s1).
  { apply insights_keeps. intros [A B _]. apply get_mut_ok; [done|done|]. intros i. apply reduce_fixed. }
  pose proof (kp_base _ _ Hk Hs) as Hs1.
  cbv zeta. fold f. fold s1. destruct (reduce_broker_order (st_now s) (st_now_us s) row order event source) as [row1 red].
  destruct red; try (eexists _, _; split; [reflexivity|exact Hk]).
  - destruct (bool_decide _ && _); [eexists _, _; split; [reflexivity|exact Hk]|].
    destruct (IH s1 Hs1) as (s' & e & -> & Hk'). eexists _, _. split; [done|]. by etrans.
  - destruct (refresh_keeps s1 id Hs1) as (c & Hc & Hk' & _). rewrite Hc. eexists _, _. split; [done|]. by etrans.
Qed.

Lemma after_evidence_keeps s id parent :
  base_ok s -> exists s', after_evidence s id parent = Some s' /\ keeps s s'.
Proof.
  intros Hs. unfold after_evidence. destruct (refresh_keeps s id Hs) as (c & -> & Hk & _).
  set (s1 := s <| st_insights := c |>) in *. pose proof (kp_base _ _ Hk Hs) as Hs1.
  assert (H2' : exists s2, (if is_some_and (fun row => is_inactive (i_state row)) (c_insights (st_insights s1) !! id)
     then let* s := reduce_terminal_command_receipts s1 id in Some (retire_children s id) else Some s1) = Some s2 /\
     keeps s1 s2).
  { destruct (is_some_and _ _); [|eexists; split; [done|reflexivity]].
    destruct (reduce_terminal_keeps s1 id Hs1) as (s2 & -> & Hk2 & _). eexists. split; [done|].
    etrans; [done|apply retire_keeps]. }
  destruct H2' as (s2 & -> & Hk2). set (s3 := wake s2 id).
  set (s4 := if bool_decide (st_status s3 = StoppingStatus) then _ else _).
  assert (Hk4 : keeps s s4).
  { etrans; [exact Hk|]. etrans; [exact Hk2|]. transitivity s3; [apply wake_keeps|]. unfold s4.
    destruct (bool_decide _); [apply schedule_cleanup_keeps|apply schedule_children_keeps]. }
  destruct parent as [pid|]; [|eauto].
  destruct (is_some_and _ _); eexists; (split; [done|]); [etrans; [exact Hk4|apply schedule_descendants_keeps]|done].
Qed.

Lemma process_evidence_keeps s order event source response :
  base_ok s -> exists s' b, process_order_evidence s order event source response = Some (s', b) /\ keeps s s'.
Proof.
  intros Hs. unfold process_order_evidence. destruct (negb _); [eexists _, _; split; [done|reflexivity]|].
  destruct (_ && _); [eexists _, _; split; [done|reflexivity]|]. cbv zeta.
  match goal with |- context [apply_evidence s order event source ?l] =>
    destruct (apply_evidence_keeps order event source l s Hs) as (s1 & e & -> & Hk) end.
  destruct e as [| |id parent]; [by eauto|by eauto|].
  destruct (after_evidence_keeps s1 id parent (kp_base _ _ Hk Hs)) as (s2 & -> & Hk2). eexists _, _. split; [done|]. by etrans.
Qed.

Lemma trade_loop_keeps fuel late drained max n s :
  base_ok s -> exists s' k, trade_loop fuel late drained max n s = Some (s', k) /\ keeps s s'.
Proof.
  revert n s. induction fuel as [|fuel IH]; intros n s Hs; simpl; [eexists _, _; split; [done|reflexivity]|].
  destruct (_ && _); [eexists _, _; split; [done|reflexivity]|].
  destruct (match st_events s with [] => _ | _ => _ end) as [|[order event] rest']; [eexists _, _; split; [done|reflexivity]|].
  set (s1 := s <| st_events := rest' |>).
  assert (Hk : keeps s s1) by (split; [by intros [A B C]|reflexivity|by intros held|done]).
  destruct (process_evidence_keeps s1 order event TradeStream None (kp_base _ _ Hk Hs)) as (s2 & b & -> & Hk2).
  assert (Hk' : keeps s s2) by (by etrans).
  destruct (IH (S n) s2 (kp_base _ _ Hk' Hs)) as (s3 & k & -> & Hk3). eexists _, _. split; [done|]. by etrans.
Qed.

(** ** Results of commands *)
Lemma poll_pending_steps now (t : State) row :
  rtc (atomic (enters := false)) (t, row) (poll_pending_submission now t row).1.
Proof.
  unfold poll_pending_submission. destruct (poll_mutation now t row KSubmit) as [[t' row'] r] eqn:Hp.
  by eapply poll_steps.
Qed.
Lemma steps_op {A} (t : State) row (r : State * Insight * A) :
  rtc (atomic (enters := false)) (t, row) r.1 -> calls t r.1.1 /\ fixed_view r.1.2 = fixed_view row.
Proof. destruct r as [[t' row'] a]. apply steps_calls. Qed.

Lemma poll_submission_keeps s id :
  base_ok s -> exists s', poll_submission_of s id = Some s' /\ keeps s s'.
Proof.
  intros Hs. unfold poll_submission_of. match goal with |- context [with_row s id ?f] =>
    destruct (with_row_keeps s id f) as (s' & a & -> & Hk & _ & _); [|done|] end.
  { intros t row. apply steps_op, poll_pending_steps. }
  destruct a; eexists; (split; [done|]); [etrans; [exact Hk|apply schedule_children_keeps]|done].
Qed.

Lemma response_keeps s k order :
  base_ok s -> exists s' r,
    (let* (s, consumed) := process_order_evidence s order (o_status order) SubmitResponse
                             (uuid_parse (rcpt_insight_id (cmp_receipt k))) in
     match st_driver s with
     | Some d => if (consumed : bool)
                 then let '(d, r) := mark_reduced d (cmp_receipt k) in Some (s <| st_driver := Some d |>, r)
                 else Some (s, Ok ())
     | None => Some (s, Ok ())
     end) = Some (s', r) /\ keeps s s'.
Proof.
  intros Hs. match goal with |- context [process_order_evidence s ?o ?e ?src ?r] =>
    destruct (process_evidence_keeps s o e src r Hs) as (s1 & b & -> & Hk) end.
  destruct (st_driver s1) as [d|] eqn:Ed; [|by eauto]. destruct b; [|by eauto].
  pose proof (mark_reduced_works d (cmp_receipt k)) as Hw. destruct (mark_reduced d (cmp_receipt k)) as [d' r].
  eexists _, _. split; [done|]. etrans; [exact Hk|]. apply calls_keeps, driver_calls. by eapply works_Some.
Qed.

Lemma reduce_evidence_keeps s e :
  base_ok s -> exists s' r, reduce_evidence s e = Some (s', r) /\ keeps s s'.
Proof.
  intros Hs. unfold reduce_evidence. cbv zeta. set (owner := uuid_parse (cmd_insight_id (ce_command e))).
  set (s1 := match owner with Some id => wake s id | None => s end).
  assert (Hk : keeps s s1) by (unfold s1; destruct owner; [apply wake_keeps|reflexivity]).
  pose proof (kp_base _ _ Hk Hs) as Hs1. destruct (ce_progress e) as [|k|]; [by eauto| |by eauto].
  set (m := match cmp_outcome k with OrderResponse _ => _ | _ => _ end).
  assert (H2' : exists s2 r, m = Some (s2, r) /\ keeps s1 s2).
  { unfold m. destruct (cmp_outcome k); try (eexists _, _; split; [done|reflexivity]). by apply response_keeps. }
  destruct H2' as (s2 & r & -> & Hk2). assert (Hk12 : keeps s s2) by (by etrans).
  pose proof (kp_base _ _ Hk12 Hs) as Hs2. destruct r as [u|error]; [|by eauto].
  destruct owner as [id|]; [|by eauto].
  assert (H3' : exists s3, (if is_entry (cmd_action (ce_command e)) then poll_submission_of s2 id else Some s2) = Some s3
            /\ keeps s2 s3).
  { destruct (is_entry _); [by apply poll_submission_keeps|eexists; split; [done|reflexivity]]. }
  destruct H3' as (s3 & -> & Hk3). assert (Hk13 : keeps s s3) by (by etrans).
  destruct (reduce_terminal_keeps s3 id (kp_base _ _ Hk13 Hs)) as (s4 & -> & Hk4 & _).
  eexists _, _. split; [done|]. by etrans.
Qed.

Lemma command_loop_keeps fuel late n s :
  base_ok s -> exists s' r, command_loop fuel late n s = Some (s', r) /\ keeps s s'.
Proof.
  revert n s. induction fuel as [|fuel IH]; intros n s Hs; simpl; [eexists _, _; split; [done|reflexivity]|].
  destruct (_ && _); [eexists _, _; split; [done|reflexivity]|].
  destruct (st_driver s) as [d|] eqn:Ed; [|eexists _, _; split; [done|reflexivity]].
  destruct (next_ready_works d (bo_driver s Hs d Ed)) as (d' & r & -> & Hw).
  assert (Hk : keeps s (s <| st_driver := Some d' |>)) by (apply calls_keeps, driver_calls; by eapply works_Some).
  destruct r as [[e|]|error]; [|by eauto|by eauto].
  destruct (reduce_evidence_keeps _ e (kp_base _ _ Hk Hs)) as (s2 & r & -> & Hk2).
  assert (Hk12 : keeps s s2) by (by etrans). destruct r as [u|error]; [|by eauto].
  destruct (IH (S n) s2 (kp_base _ _ Hk12 Hs)) as (s3 & r & -> & Hk3). eexists _, _. split; [done|]. by etrans.
Qed.

(** ** The work queue *)

(** A part of a turn between which the requests [a] and [b] are out of the queue. *)
Record part (a b : list (Uuid * WorkKind)) (s s' : State) : Prop := {
  pt_base : base_ok s -> base_ok s';
  pt_driver : option_Forall2 works (st_driver s) (st_driver s');
  pt_queue : Queue.queue_ok a (st_work s) -> Queue.queue_ok b (st_work s');
  pt_rest : (st_persistence s', st_pipeline s') = (st_persistence s, st_pipeline s)
}.
Lemma part_trans a b c s1 s2 s3 : part a b s1 s2 -> part b c s2 s3 -> part a c s1 s3.
Proof. intros [A1 A2 A3 A4] [B1 B2 B3 B4]. split; [auto|by etrans|auto|congruence]. Qed.
Lemma keeps_part a s s' : keeps s s' -> part a a s s'.
Proof. intros [A B C D]. split; auto. Qed.
Lemma work_part a b s q :
  (Queue.queue_ok a (st_work s) -> Queue.queue_ok b q) -> part a b s (s <| st_work := q |>).
Proof. intros Hq. split; [|reflexivity|exact Hq|reflexivity]. intros [A B C]. by split. Qed.
Lemma release_part s w : part [work_key w] [] s (release_work s w).
Proof. apply work_part. apply Queue.queue_release_ok. Qed.

Lemma recover_keeps s id : base_ok s -> exists s', recover_insight_work s id = Some s' /\ keeps s s'.
Proof.
  intros Hs. unfold recover_insight_work. destruct (c_insights _ !! id) as [row|]; [|eexists; split; [done|reflexivity]].
  destruct (is_inactive _). { destruct (reduce_terminal_keeps s id Hs) as (s' & ? & ? & _). eauto. }
  destruct (_ || _); [eexists; split; [done|apply schedule_cleanup_keeps]|]. cbv zeta.
  eexists. split; [done|]. etrans; [|apply schedule_children_keeps].
  destruct (_ || _); [by apply push_keeps|reflexivity].
Qed.

Lemma add_keeps s row :
  base_ok s -> tree_ok row -> exists c, add_insight (st_insights s) row = Some c /\ keeps s (s <| st_insights := c |>).
Proof.
  intros Hs Hrow. destruct (add_insight_ok _ row (bo_coll s Hs) (tree_deps _ Hrow)) as (c & Hadd & Hc).
  exists c. split; [done|]. apply insights_keeps. intros _. split; [done|].
  unfold add_insight in Hadd. set (c1 := set_field _ _ (set_field _ _ _)) in Hadd.
  assert (Hc1 : coll_ok c1).
  { apply (coll_ok_frame (st_insights s)); [apply Hs| |done]. cbn.
    intros k r [[<- <-]|[Hne Hr]]%lookup_insert_Some; [split; [done|]; split; [by apply tree_deps|set_solver]|].
    destruct (row_known _ k r (bo_coll s Hs) Hr) as (? & ? & ?). set_solver. }
  destruct (refresh_runtime_tracking_spec c1 (i_insight_id row) Hc1) as (c2 & E2 & _ & Er & _).
  assert (c2 = c) as -> by congruence. intros k r. rewrite Er. cbn.
  intros [[_ <-]|[_ Hr]]%lookup_insert_Some; [done|by eapply (bo_trees s Hs)].
Qed.

Lemma activate_child_part s w :
  base_ok s -> wk_kind w = SplitChildren \/ wk_kind w = FilledChildren ->
  exists s', activate_child s w = Some s' /\ part [work_key w] [] s s'.
Proof.
  intros Hs Hw. unfold activate_child.
  destruct (_ || _).
  { eexists. split; [done|]. eapply part_trans; [apply release_part|apply keeps_part, retire_keeps]. }
  destruct (c_insights (st_insights s) !! wk_id w) as [parent|] eqn:Hp; [|eexists; split; [done|apply release_part]].
  destruct (gated parent); [eexists; split; [done|apply release_part]|].
  destruct (i_children parent !! wk_next_child w) as [template|] eqn:Ht; [|eexists; split; [done|apply release_part]].
  cbv zeta. set (next := mkWork (wk_id w) (wk_kind w) (S (wk_next_child w))).
  set (s1 := s <| st_work := Queue.push_back _ next |>).
  assert (Hk1 : part [work_key w] [] s s1).
  { apply work_part. intros Hq. apply (Queue.requeue_ok _ next).
    - by apply (Queue.queue_ok_frame _ (st_work s)).
    - unfold is_cleanup. cbn. by destruct Hw as [-> | ->]. }
  pose proof (pt_base _ _ _ _ Hk1 Hs) as Hs1.
  assert (Htree : tree_ok template).
  { destruct (bo_trees s Hs _ _ Hp) as [i _ Hch]. apply Hch. by eapply list_elem_of_lookup_2. }
  destruct (activates w parent template && negb _).
  - destruct (add_keeps s1 template Hs1 Htree) as (c & Hadd & Hk2). rewrite Hadd. eexists. split; [done|].
    eapply part_trans; [exact Hk1|]. apply keeps_part. etrans; [exact Hk2|]. by apply push_keeps.
  - destruct (_ && _); [|by eauto]. eexists. split; [done|]. eapply part_trans; [exact Hk1|]. apply keeps_part.
    etrans; [|apply schedule_children_keeps]. destruct (is_some_and _ _); [by apply push_keeps|reflexivity].
Qed.

Lemma close_row_steps now (t : State) row : rtc (atomic (enters := false)) (t, row) (close now t row).1.
Proof.
  unfold close. match goal with |- context [?m.1] => destruct m as [[t' row'] r] eqn:Hr end. by eapply close_steps.
Qed.
Lemma cancel_row_steps now (t : State) row : rtc (atomic (enters := false)) (t, row) (cancel now t row).1.
Proof. destruct (cancel now t row) as [[t' row'] r] eqn:Hr. by eapply cancel_steps. Qed.
Lemma cleanup_row_frame (t : State) row :
  calls t (cleanup_row t row).1.1 /\ fixed_view (cleanup_row t row).1.2 = fixed_view row.
Proof.
  unfold cleanup_row. destruct (i_state row); try (apply steps_op; solve [auto using cancel_row_steps, close_row_steps, poll_pending_steps]).
  destruct (_ && _); [|apply steps_op, cancel_row_steps]. split; [reflexivity|apply fixed_cancelled].
Qed.
Lemma run_request_frame w (t : State) row :
  calls t (run_request w t row).1.1 /\ fixed_view (run_request w t row).1.2 = fixed_view row.
Proof.
  unfold run_request. destruct (_ || _).
  - pose proof (cleanup_row_frame t row) as Hf. by destruct (cleanup_row t row) as [[t' row'] r].
  - destruct (submit (st_now t) t row) as [[t' row'] r] eqn:Hs. apply (steps_calls (enters := true) t row t' row').
    eapply (submit_steps (enters := true)); [done|by left].
Qed.

Lemma settle_request_part s w r active pending :
  wk_kind w = Cleanup \/ wk_kind w = SubmitWork ->
  is_cleanup w = true \/ Forall (fun w => is_cleanup w = false) (wq_ready (st_work s)) ->
  part [work_key w] [] s (settle_request s w r active pending).1.
Proof.
  intros Hk Hf. unfold settle_request. cbv zeta.
  assert (Hsleep : part [work_key w] [] s (s <| st_work := Queue.sleep (st_work s) w |>)).
  { apply work_part. intros Hq. by apply Queue.sleep_ok. }
  pose proof (release_part s w) as Hrel.
  destruct r as [[|rc]|e]; cbn [fst].
  - by destruct (_ && _).
  - done.
  - destruct e; cbn [fst]; try (by destruct (_ && _)).
    apply work_part. intros Hq. eapply (Queue.queue_ok_frame _ (Queue.push_front (st_work s) w)); [|done..].
    by eapply Queue.put_back_ok.
Qed.

Lemma run_work_part s w :
  base_ok s -> wk_kind w = Cleanup \/ wk_kind w = SubmitWork ->
  is_cleanup w = true \/ Forall (fun w => is_cleanup w = false) (wq_ready (st_work s)) ->
  exists s' b, run_work s w = Some (s', b) /\ part [work_key w] [] s s'.
Proof.
  intros Hs Hk Hf. unfold run_work.
  destruct (with_row_keeps s (wk_id w) (run_request w)) as (s1 & a & -> & Hk1 & Hr & _); [|done|].
  { intros t row. apply run_request_frame. }
  apply (keeps_part [work_key w]) in Hk1. unfold rest in Hr. injection Hr as Ew _ _ _ _ _ _ _ _.
  destruct a as [[[r active] pending]|].
  2:{ eexists _, _. split; [done|]. eapply part_trans; [exact Hk1|apply release_part]. }
  rewrite <- Ew in Hf. pose proof (settle_request_part s1 w r active pending Hk Hf) as Hp.
  destruct (settle_request s1 w r active pending) as [s2 stop]. cbn [fst] in Hp. eexists _, _. split; [done|].
  eapply part_trans; [exact Hk1|]. eapply part_trans; [exact Hp|]. apply keeps_part.
  destruct (_ && _); [apply schedule_children_keeps|reflexivity].
Qed.

(** A request that was popped is worked off. *)
Lemma process_work_part s w :
  base_ok s ->
  (wk_kind w <> Recover -> is_cleanup w = true \/ Forall (fun w => is_cleanup w = false) (wq_ready (st_work s))) ->
  exists s' b, process_work s w = Some (s', b) /\
    part (if bool_decide (wk_kind w = Recover) then [] else [work_key w]) [] s s'.
Proof.
  intros Hs Hf. unfold process_work. destruct (wk_kind w) eqn:Hk; cbn [bool_decide decide_rel];
    try (rewrite bool_decide_eq_false_2 by done); try (rewrite bool_decide_eq_true_2 by done).
  - destruct (recover_keeps s (wk_id w) Hs) as (s' & -> & Hk'). eexists _, _. split; [done|]. by apply keeps_part.
  - assert (Hrun := run_work_part s w Hs (or_intror Hk) (Hf ltac:(done))).
    assert (Hrel : exists s' b, Some (release_work s w, false) = Some (s', b) /\ part [work_key w] [] s s').
    { eexists _, _. split; [done|apply release_part]. }
    destruct (entries_enabled s); [|done]. destruct (insight_entry_permission s (wk_id w)); [done| |].
    + by destruct (is_none_or _ _).
    + eexists _, _. split; [done|]. eapply part_trans; [apply release_part|apply keeps_part, schedule_cleanup_keeps].
  - apply run_work_part; [done|by left|]. by apply Hf.
  - destruct (activate_child_part s w Hs) as (s' & -> & Hp); [by left|]. by eauto.
  - destruct (activate_child_part s w Hs) as (s' & -> & Hp); [by right|]. by eauto.
Qed.

Lemma work_loop_part fuel late n s :
  base_ok s -> Queue.queue_ok [] (st_work s) ->
  exists s' k, work_loop fuel late n s = Some (s', k) /\ part [] [] s s'.
Proof.
  revert n s. induction fuel as [|fuel IH]; intros n s Hs Hq; simpl.
  { eexists _, _. split; [done|]. by apply keeps_part. }
  destruct (_ && _); [eexists _, _; split; [done|by apply keeps_part]|].
  destruct (negb _); [eexists _, _; split; [done|by apply keeps_part]|].
  destruct (Queue.pop_next (st_work s)) as [[w q]|] eqn:Hpop; [|eexists _, _; split; [done|by apply keeps_part]].
  pose proof (Queue.pop_next_ok _ _ _ Hq Hpop) as Hp.
  set (s1 := s <| st_work := q |>). set (held := if bool_decide (wk_kind w = Recover) then [] else [work_key w]).
  assert (Hp1 : part [] held s s1 /\ Queue.queue_ok held q /\
    (wk_kind w <> Recover -> is_cleanup w = true \/ Forall (fun w => is_cleanup w = false) (wq_ready q))).
  { unfold held. case_bool_decide as Hk.
    - split; [by apply work_part|]. by split.
    - destruct Hp as [Hq1 Hfr]. split; [by apply work_part|]. split; [done|]. intros _.
      destruct (is_cleanup w) eqn:Hc; [by left|]. right. by apply Hfr. }
  destruct Hp1 as (Hp1 & Hq1 & Hf). pose proof (pt_base _ _ _ _ Hp1 Hs) as Hs1.
  destruct (process_work_part s1 w Hs1 Hf) as (s2 & stop & -> & Hp2). fold held in Hp2.
  assert (Hp12 : part [] [] s s2) by (by eapply part_trans). destruct stop; [by eauto|].
  destruct (IH (S n) s2 (pt_base _ _ _ _ Hp12 Hs) (pt_queue _ _ _ _ Hp2 Hq1)) as (s3 & k & -> & Hp3).
  eexists _, _. split; [done|]. by eapply part_trans.
Qed.
End Owner.
