(* ===== verification/ExecutionPersistence.v ===== *)
(** * ExecutionPersistence: when insights are saved
    ([src/core/strategy/execution_persistence.rs], [on_trade_update] of
    [src/core/strategy/mod.rs])

    Insights that changed, and owners of commands, are roots of a walk over
    their children; the walk yields every row after the rows of its children, so
    that a parent is saved no earlier than its descendants.  Rows are collected
    into a bounded batch, which the driver hands to the journal.  The readings of
    the clock during a turn are an argument ([Clock]). *)
From S2P Require Import Prelude.
From S2P Require Import OrderedSet.
From S2P Require Import Float64.
From S2P Require Import Text.
From S2P Require Import BrokerTypes.
From S2P Require Import TimeFrame.
From S2P Require Import InsightTypes.
From S2P Require Import Commands.
From S2P Require Import ExecutionData.
From S2P Require Import Insight.
From S2P Require Import Operations.
From S2P Require Import RecoveryViews.
From S2P Require Import Collection.
From S2P Require Import Checkpoint.
From S2P Require Import Journal.
From S2P Require Import CommandWorker.
From S2P Require Import CommandDriver.
From S2P Require Import SnapshotDependencies.
From S2P Require Import Pipeline.
From S2P Require Import WorkQueue.
From S2P Require Import StrategyOwner.

(** ** The walk *)
Definition canonical (c : InsightCollection) (child : Insight) : Insight :=
  unwrap_or (c_insights c !! i_insight_id child) child.
Fixpoint resolve_from (c : InsightCollection) (insight : Insight) (path : list nat) : option Insight :=
  match path with
  | [] => Some insight
  | index :: path =>
      match i_children insight !! index with
      | None => None
      | Some child => resolve_from c (canonical c child) path
      end
  end.
Definition resolve (c : InsightCollection) (root : Uuid) (path : list nat) : option Insight :=
  match c_insights c !! root with None => None | Some insight => resolve_from c insight path end.

Inductive WalkStep := Visited | WalkRow (insight : Insight) (materialized : bool) (frame : WalkFrame) | Finished.
Definition walk_new (root : Uuid) : CheckpointWalk := mkWalk root [mkFrame root [] 0].

(** A child whose canonical row was removed is not saved from its template. *)
Definition retired (c : InsightCollection) (id : Uuid) : bool :=
  was_materialized c id && is_none (c_insights c !! id).

Definition walk_step (w : CheckpointWalk) (c : InsightCollection)
    : CheckpointWalk * result WalkStep BrokerCommandError :=
  match cw_stack w with
  | [] => (w, Ok Finished)
  | frame :: below =>
      match resolve c (cw_root w) (wf_path frame) with
      | None => (w, Err (invalid "insight hierarchy changed while checkpointing"))
      | Some insight =>
          if negb (bool_decide (i_insight_id insight = wf_id frame))
          then (w, Err (invalid "insight hierarchy changed while checkpointing"))
          else
            match i_children insight !! wf_next_child frame with
            | Some child =>
                let index := wf_next_child frame in
                let stack := mkFrame (wf_id frame) (wf_path frame) (S index) :: below in
                let id := i_insight_id child in
                if retired c id then (mkWalk (cw_root w) stack, Ok Visited)
                else if bool_decide (id ∈ (wf_id <$> stack)) || (64 <=? length stack)
                then (mkWalk (cw_root w) stack,
                      Err (invalid "cyclic or excessive-depth insight checkpoint hierarchy"))
                else (mkWalk (cw_root w) (mkFrame id (wf_path frame ++ [index]) 0 :: stack), Ok Visited)
            | None =>
                (mkWalk (cw_root w) below,
                 Ok (WalkRow insight (is_some (c_insights c !! i_insight_id insight)) frame))
            end
      end
  end.

(** ** The roots *)
Definition default_persistence : ExecutionPersistence := mkPersistence [] ∅ None.
Definition persistence_ready (p : ExecutionPersistence) : bool :=
  is_some (ep_walk p) || match ep_roots p with [] => false | _ => true end.
Definition enqueue_root (p : ExecutionPersistence) (id : Uuid) : ExecutionPersistence :=
  if bool_decide (id ∈ ep_queued p) then p
  else mkPersistence (ep_roots p ++ [id]) ({[id]} ∪ ep_queued p) (ep_walk p).

(** [Vec::dedup]. *)
Fixpoint dedup (l : list Uuid) : list Uuid :=
  match l with
  | [] => []
  | x :: l' => match l' with
               | [] => [x]
               | y :: _ => if bool_decide (x = y) then dedup l' else x :: dedup l'
               end
  end.

(** ** The size of a row ([checkpoint_byte_budget] of [command_driver.rs]) *)
Class ReceiptJson := receipt_json : BrokerCommandReceipt -> string.
Definition saturating (z : Z) : Z := Z.min z (2 ^ 64 - 1).
Definition checkpoint_in_flight (d : Driver) : bool := is_some (d_persisting d).

Section Budget.
Context `{UuidText} `{Json} `{JournalJson} `{ReceiptJson}.

(** The share of one command; [None] is the panic on a command that is not owned. *)
Fixpoint command_bytes (d : Driver) (count : Z) (ids : list string)
    : option (result Z BrokerCommandError) :=
  match ids with
  | [] => Some (Ok count)
  | id :: ids =>
      let* p := d_pending d !! id in
      let r := saturating (64 + json_len (receipt_json (receipt (pd_command p)))) in
      let count := saturating (count + saturating (r * 2)) in
      if pd_durable p then command_bytes d count ids
      else
        match command_json (pd_command p) with
        | Err e => Some (Err (journal_error e))
        | Ok json => command_bytes d (saturating (count + json_len json)) ids
        end
  end.
Definition checkpoint_byte_budget (d : Driver) (row : InsightExecutionCheckpoint)
    : option (result Z BrokerCommandError) :=
  let count := saturating (64 + json_len (checkpoint_json row)) in
  let count := saturating (count + json_len (metadata_json (metadata_from_row row))) in
  command_bytes d count (commands_of d (x_insight_id row)).
End Budget.

(** ** One turn *)
Record Clock := mkClock {
  late_poll : bool;              (* after the acknowledgements *)
  late_dispatch : bool;          (* after the dispatch *)
  late_scan : nat -> bool;       (* before a root, by the work done *)
  late_row : nat -> bool         (* before a step of the walk *)
}.
(** The batch under construction. *)
Record Batch := mkRowBatch {
  rb_rows : list InsightExecutionCheckpoint;
  rb_ids : gset Uuid;
  rb_receipts : list BrokerCommandReceipt;
  rb_bytes : Z
}.

Section Turn.
Context {P : Type} `{UuidText} `{Json} `{CommandIds} `{JournalJson} `{ReceiptJson} `{Chrono} `{Fingerprint}
  `{FreshIds} `{LeafPipe P (StrategyState P)} `{LayoutJson}.
Abbreviation State := (StrategyState P).
Abbreviation pipeline_checkpoint := (execution_checkpoint (C := State)).

(** The row is saved as it is now. *)
Definition mark_saved (s : State) (d : Driver) (id : Uuid) : State :=
  let c := execution_saved (st_insights s) id in
  s <| st_insights := if has_pending_owner d id then c else execution_unpin c id |>.

(** The loop over the roots; the result is the work done so far. *)
Fixpoint scan_roots (clock : Clock) (limit processed : nat) (d : Driver) (roots : list Uuid) (s : State)
    : State * nat :=
  match roots with
  | [] => (s, processed)
  | id :: roots =>
      if bool_decide (id ∈ ep_queued (st_persistence s)) then scan_roots clock limit processed d roots s
      else if (processed =? limit) || late_scan clock processed then (s, processed)
      else
        let processed := S processed in
        match c_insights (st_insights s) !! id with
        | None => scan_roots clock limit processed d roots s
        | Some row =>
            let unchanged := checkpoint_execution_matches d id (snapshot_fingerprint_hash row) true
                               (pipeline_checkpoint (st_pipeline s) id) in
            if unchanged && negb (has_unpersisted_intents d id) && negb (has_consumable_receipts d row)
            then scan_roots clock limit processed d roots (mark_saved s d id)
            else scan_roots clock limit processed d roots
                   (s <| st_persistence := enqueue_root (st_persistence s) id |>)
        end
  end.

(** What a row of the walk contributes. *)
Inductive RowResult := RowSkipped | RowAdded (b : Batch) | RowTooLarge.
Definition add_row (s : State) (d : Driver) (b : Batch) (insight : Insight) (materialized : bool)
    : option (State * Batch * result RowResult BrokerCommandError) :=
  let id := i_insight_id insight in
  if bool_decide (id ∈ rb_ids b) then Some (s, b, Ok RowSkipped)
  else
    let b := mkRowBatch (rb_rows b) ({[id]} ∪ rb_ids b) (rb_receipts b) (rb_bytes b) in
    let pipeline := if materialized then pipeline_checkpoint (st_pipeline s) id else None in
    let row := capture insight (checkpoint_revision d id + 1) materialized pipeline in
    let applied := consumable_receipts d row in
    if checkpoint_execution_matches d id (snapshot_fingerprint_hash insight) materialized (x_pipeline row)
       && negb (has_unpersisted_intents d id) && match applied with [] => true | _ => false end
    then Some (if materialized then mark_saved s d id else s, b, Ok RowSkipped)
    else
      let* size := checkpoint_byte_budget d row in
      match size with
      | Err error => Some (s, b, Err error)
      | Ok size =>
          if (1024 * 1024 <? saturating (rb_bytes b + size))%Z then Some (s, b, Ok RowTooLarge)
          else Some (s, b, Ok (RowAdded (mkRowBatch (rb_rows b ++ [row]) (rb_ids b) (rb_receipts b ++ applied)
                                           (rb_bytes b + size)%Z)))
      end.

Definition with_walk (s : State) (w : CheckpointWalk) : State :=
  s <| st_persistence := mkPersistence (ep_roots (st_persistence s)) (ep_queued (st_persistence s)) (Some w) |>.

(** One round of the walk [w]; [false] ends the loop with the batch collected so far. *)
Definition step_walk (s : State) (w : CheckpointWalk) (d : Driver) (b : Batch)
    : option (State * result (Batch * bool) BrokerCommandError) :=
  let '(w', r) := walk_step w (st_insights s) in
  match r with
  | Err error => Some (with_walk s w', Err error)
  | Ok Visited => Some (with_walk s w', Ok (b, true))
  | Ok Finished =>
      let p := st_persistence s in
      Some (s <| st_persistence := mkPersistence (ep_roots p) (ep_queued p ∖ {[cw_root w]}) None |>, Ok (b, true))
  | Ok (WalkRow insight materialized frame) =>
      let* (s, b, r) := add_row (with_walk s w') d b insight materialized in
      match r with
      | Err error => Some (s, Err error)
      | Ok RowSkipped => Some (s, Ok (b, true))
      | Ok (RowAdded b) => Some (s, Ok (b, true))
      | Ok RowTooLarge =>
          let s := with_walk s (mkWalk (cw_root w') (frame :: cw_stack w')) in
          match rb_rows b with
          | [] => Some (s, Err (invalid "one insight execution checkpoint exceeds the 1 MiB limit"))
          | _ => Some (s, Ok (b, false))
          end
      end
  end.

(** The loop of the walk. *)
Fixpoint collect_rows (fuel : nat) (clock : Clock) (processed : nat) (d : Driver) (b : Batch) (s : State)
    : option (State * result (nat * Batch) BrokerCommandError) :=
  match fuel with
  | O => Some (s, Ok (processed, b))
  | S fuel =>
      if (32 <=? length (rb_rows b)) || late_row clock processed then Some (s, Ok (processed, b))
      else
        let processed := S processed in
        let step s w :=
          let* (s, r) := step_walk s w d b in
          match r with
          | Err error => Some (s, Err error)
          | Ok (b, true) => collect_rows fuel clock processed d b s
          | Ok (b, false) => Some (s, Ok (processed, b))
          end in
        let p := st_persistence s in
        match ep_walk p with
        | Some w => step s w
        | None =>
            match ep_roots p with
            | [] => Some (s, Ok (processed, b))
            | root :: roots =>
                match c_insights (st_insights s) !! root with
                | None =>
                    collect_rows fuel clock processed d b
                      (s <| st_persistence := mkPersistence roots (ep_queued p ∖ {[root]}) None |>)
                | Some _ =>
                    step (s <| st_persistence := mkPersistence roots (ep_queued p) (Some (walk_new root)) |>)
                      (walk_new root)
                end
            end
        end
  end.

(** [submit] is the answer of the journal's queue, see [persist_execution_checkpoints]. *)
Definition advance_execution_persistence (s : State) (max_work : nat) (budget_zero : bool) (clock : Clock)
    (submit : result unit BrokerCommandError) : option (State * result nat BrokerCommandError) :=
  let limit := Nat.min max_work 256 in
  if (limit =? 0) || budget_zero then Some (s, Ok 0)
  else
    match st_driver s with
    | None => Some (s, Ok 0)
    | Some d =>
        let* (d, r) := poll_acknowledgements d limit in
        match r with
        | Err error => Some (s <| st_driver := Some d |>, Err error)
        | Ok polled =>
            let* (d, r) := if late_poll clock then Some (d, Ok 0)
                           else dispatch_prepared_with_admission d (limit - polled) (entries_enabled s) (st_now_us s) in
            let s := s <| st_driver := Some d |> in
            match r with
            | Err error => Some (s, Err error)
            | Ok dispatched =>
                let processed := polled + dispatched in
                if checkpoint_in_flight d || (processed =? limit) || late_dispatch clock then Some (s, Ok processed)
                else
                  let roots := dedup (sort_unstable (execution_dirty_ids (st_insights s) 32 ++ pending_owner_ids d)) in
                  let '(s, processed) := scan_roots clock limit processed d roots s in
                  let* (s, r) := collect_rows (limit - processed) clock processed d (mkRowBatch [] ∅ [] 64) s in
                  match r with
                  | Err error => Some (s, Err error)
                  | Ok (processed, b) =>
                      match rb_rows b with
                      | [] => Some (s, Ok processed)
                      | rows =>
                          let* (d, r) := persist_execution_checkpoints d rows (rb_receipts b) submit in
                          let s := s <| st_driver := Some d |> in
                          match r with
                          | Err error => Some (s, Err error)
                          | Ok _ => Some (s, Ok processed)
                          end
                      end
                  end
            end
        end
    end.

(** ** A turn of the owner ([on_trade_update]) *)
Record TurnInput := mkTurnInput {
  ti_late_commands : nat -> bool;
  ti_trades : option (nat -> bool);         (* [None]: the budget is used up *)
  ti_drained : nat -> nat -> list (Order * TradeUpdateEvent);
  ti_work : option (nat -> bool);
  ti_persist : option (bool * Clock);       (* whether nothing is left of the budget *)
  ti_submit : result unit BrokerCommandError
}.
(** [execution_error.get_or_insert(error)] and [shutdown]. *)
Definition fail_execution (s : State) (error : BrokerCommandError) : State :=
  shutdown (s <| st_error := Some (unwrap_or (st_error s) error) |>).

Definition on_trade_update (s : State) (t : TurnInput) : option State :=
  let* (s, r) := reduce_ready_commands s 256 (ti_late_commands t) in
  match r with
  | Err error => Some (fail_execution s error)
  | Ok commands =>
      let* (s, trades) := match ti_trades t with
                          | Some late => on_trade_update_with_budget s (256 - commands) late (ti_drained t)
                          | None => Some (s, 0)
                          end in
      let* (s, work) := match ti_work t with
                        | Some late => process_insight_work s (256 - commands - trades) late
                        | None => Some (s, 0)
                        end in
      match ti_persist t with
      | None => Some s
      | Some (zero, clock) =>
          let* (s, r) := advance_execution_persistence s (256 - commands - trades - work) zero clock (ti_submit t) in
          match r with
          | Err error => Some (fail_execution s error)
          | Ok _ => Some s
          end
      end
  end.
End Turn.
