(* ===== verification/OwnerTurns.v ===== *)
(** * OwnerTurns: whole turns of the owner, and what happens between them

    The scheduler of checkpoints keeps each root once and never panics; with the
    parts of [StrategyOwnerFacts] a whole turn ([on_trade_update]) keeps the owner
    consistent, whatever the broker, the worker and the journal report between
    turns. *)
From stdpp Require Import relations.
From S2P Require Import Prelude.
From S2P Require Import OrderedSet.
From S2P Require Import Float64.
From S2P Require Import Text.
From S2P Require Import BrokerTypes.
From S2P Require Import TimeFrame.
From S2P Require Import InsightTypes.
From S2P Require Import Commands.
From S2P Require Import ExecutionData.
From S2P Require Import Insight.
From S2P Require Import Operations.
From S2P Require Import Submission.
From S2P Require Import RecoveryViews.
From S2P Require Import Collection.
From S2P Require Import CollectionInvariant.
From S2P Require Import Checkpoint.
From S2P Require Import Journal.
From S2P Require Import JournalFacts.
From S2P Require Import CommandWorkerFacts.
From S2P Require Import InsightInvariant.
From S2P Require Import Scripted.
From S2P Require Import CommandWorker.
From S2P Require Import CommandDriver.
From S2P Require Import CommandDriverFacts.
From S2P Require Import CommandLife.
From S2P Require Import DriverOwnership.
From S2P Require Import SnapshotDependencies.
From S2P Require Import Pipeline.
From S2P Require Import WorkQueue.
From S2P Require Import StrategyOwner.
From S2P Require Import StrategyOwnerFacts.
From S2P Require Import ExecutionPersistence.

(** ** The roots *)

(** Every queued root is in the list or being walked, and none twice. *)
Definition walking (p : ExecutionPersistence) : list Uuid := cw_root <$> option_list (ep_walk p).
Record persistence_ok (p : ExecutionPersistence) : Prop := {
  pk_nodup : NoDup (walking p ++ ep_roots p);
  pk_queued id : id ∈ ep_queued p <-> id ∈ walking p ++ ep_roots p
}.
Lemma default_persistence_ok : persistence_ok default_persistence.
Proof. split; [constructor|]. intros id. cbn. set_solver. Qed.
Lemma enqueue_root_ok p id : persistence_ok p -> persistence_ok (enqueue_root p id).
Proof.
  intros [Hn Hq]. unfold enqueue_root. case_bool_decide as Hin; [done|]. rewrite Hq in Hin. split; cbn.
  - change (walking (mkPersistence _ _ (ep_walk p))) with (walking p). rewrite app_assoc. apply NoDup_app.
    split; [done|]. split; [|apply NoDup_singleton]. intros x Hx ->%list_elem_of_singleton. done.
  - intros x. change (walking (mkPersistence _ _ (ep_walk p))) with (walking p).
    rewrite elem_of_union, elem_of_singleton, Hq, !elem_of_app, list_elem_of_singleton. tauto.
Qed.
(** The walk moves on; it ends; a root is dropped; a root is taken up. *)
Lemma walk_on_ok p w w' :
  persistence_ok p -> ep_walk p = Some w -> cw_root w' = cw_root w ->
  persistence_ok (mkPersistence (ep_roots p) (ep_queued p) (Some w')).
Proof. intros [Hn Hq] Hw Er. unfold walking in *. rewrite Hw in *. cbn in *. by split; cbn; rewrite Er. Qed.
Lemma walk_end_ok p w :
  persistence_ok p -> ep_walk p = Some w ->
  persistence_ok (mkPersistence (ep_roots p) (ep_queued p ∖ {[cw_root w]}) None).
Proof.
  intros [Hn Hq] Hw. unfold walking in *. rewrite Hw in *. cbn in *. apply NoDup_cons in Hn as [Hni Hn].
  split; cbn; [done|]. intros id. rewrite elem_of_difference, elem_of_singleton, Hq, elem_of_cons.
  split; [tauto|]. intros Hin. split; [by right|]. by intros ->.
Qed.
Lemma drop_root_ok p root roots :
  persistence_ok p -> ep_walk p = None -> ep_roots p = root :: roots ->
  persistence_ok (mkPersistence roots (ep_queued p ∖ {[root]}) None).
Proof.
  intros [Hn Hq] Hw Hr. unfold walking in *. rewrite Hw, Hr in *. cbn in *. apply NoDup_cons in Hn as [Hni Hn].
  split; cbn; [done|]. intros id. rewrite elem_of_difference, elem_of_singleton, Hq, elem_of_cons.
  split; [tauto|]. intros Hin. split; [by right|]. by intros ->.
Qed.
Lemma take_root_ok p root roots :
  persistence_ok p -> ep_walk p = None -> ep_roots p = root :: roots ->
  persistence_ok (mkPersistence roots (ep_queued p) (Some (walk_new root))).
Proof. intros [Hn Hq] Hw Hr. unfold walking in *. rewrite Hw, Hr in *. by split. Qed.

Lemma walk_step_root w c : cw_root (walk_step w c).1 = cw_root w.
Proof.
  unfold walk_step. destruct (cw_stack w) as [|frame below]; [done|]. destruct (resolve _ _ _); [|done].
  destruct (negb _); [done|]. destruct (i_children _ !! _); [|done]. cbv zeta.
  destruct (retired _ _); [done|]. by destruct (_ || _).
Qed.

Section Turns.
Context {P : Type} `{UuidText} `{Json} `{CommandIds} `{JournalJson} `{ReceiptJson} `{Chrono} `{Fingerprint}
  `{FreshIds} `{LeafPipe P (StrategyState P)} `{LayoutJson}.
Abbreviation State := (StrategyState P).

(** What the scheduler may change; the driver is that of the caller. *)
Record saves (s s' : State) : Prop := {
  sv_base : base_ok s -> base_ok s';
  sv_driver : st_driver s' = st_driver s;
  sv_work : st_work s' = st_work s;
  sv_pipeline : st_pipeline s' = st_pipeline s;
  sv_persistence : persistence_ok (st_persistence s) -> persistence_ok (st_persistence s')
}.
#[export] Instance saves_preorder : PreOrder saves.
Proof.
  split; [by split|]. intros s1 s2 s3 [A1 A2 A3 A4 A5] [B1 B2 B3 B4 B5]. split; [auto|congruence|congruence|congruence|auto].
Qed.
Lemma persistence_saves s p :
  (persistence_ok (st_persistence s) -> persistence_ok p) -> saves s (s <| st_persistence := p |>).
Proof. intros Hp. split; [|reflexivity|reflexivity|reflexivity|exact Hp]. intros [A B C]. by split. Qed.
Lemma mark_saved_saves s d id : saves s (mark_saved s d id).
Proof.
  unfold mark_saved. set (c := if has_pending_owner d id then _ else _).
  assert (E : c_insights c = c_insights (st_insights s) /\ (coll_ok (st_insights s) -> coll_ok c)).
  { unfold c. destruct (has_pending_owner d id); (split; [done|]); intros Hc.
    - destruct (run_coll_ok _ (OpSaved id) Hc I) as (c' & [= <-] & Hc'). done.
    - destruct (run_coll_ok _ (OpSaved id) Hc I) as (c1 & [= <-] & Hc1).
      destruct (run_coll_ok _ (OpUnpin id) Hc1 I) as (c2 & [= <-] & Hc2). done. }
  destruct E as [Er Hc]. split; [|reflexivity|reflexivity|reflexivity|done]. intros [A B C].
  split; [by apply Hc|cbn; by rewrite Er|done].
Qed.

Lemma scan_roots_saves clock limit n d roots s : saves s (scan_roots clock limit n d roots s).1.
Proof.
  revert n s. induction roots as [|id roots IH]; intros n s; simpl; [reflexivity|].
  case_bool_decide; [apply IH|]. destruct (_ || _); [reflexivity|].
  destruct (c_insights _ !! id); [|apply IH]. destruct (_ && _); (etrans; [|apply IH]); [apply mark_saved_saves|].
  apply persistence_saves. apply enqueue_root_ok.
Qed.

Lemma command_bytes_total d ids n :
  (forall id, id ∈ ids -> is_Some (d_pending d !! id)) -> is_Some (command_bytes d n ids).
Proof.
  revert n. induction ids as [|id ids IH]; intros n Hids; simpl; [by eauto|].
  destruct (Hids id) as [p ->]; [left|]. assert (Hr : forall x, x ∈ ids -> is_Some (d_pending d !! x)).
  { intros x Hx. apply Hids. by right. }
  destruct (pd_durable p); [by apply IH|]. destruct (command_json _); [by apply IH|by eauto].
Qed.
Lemma byte_budget_total d row : driver_ok d -> is_Some (checkpoint_byte_budget d row).
Proof.
  intros Hd. apply command_bytes_total. intros id Hid. unfold commands_of in Hid.
  apply (do_indexed d Hd) in Hid as (p & Hp & _). eauto.
Qed.

Lemma add_row_saves s d b insight m :
  driver_ok d -> exists s' b' r, add_row s d b insight m = Some (s', b', r) /\ saves s s' /\ st_persistence s' = st_persistence s.
Proof.
  intros Hd. unfold add_row. case_bool_decide; [eexists _, _, _; split; [done|]; split; [reflexivity|done]|]. cbv zeta.
  destruct (_ && _).
  { eexists _, _, _. split; [done|]. destruct m; [split; [apply mark_saved_saves|done]|split; [reflexivity|done]]. }
  match goal with |- context [checkpoint_byte_budget d ?row] => destruct (byte_budget_total d row Hd) as [size ->] end.
  destruct size as [size|e]; [|eexists _, _, _; split; [done|]; split; [reflexivity|done]].
  destruct (_ <? _)%Z; (eexists _, _, _; split; [done|]; split; [reflexivity|done]).
Qed.

Lemma with_walk_saves s w w' :
  ep_walk (st_persistence s) = Some w -> cw_root w' = cw_root w -> saves s (with_walk s w').
Proof. intros Hw Er. apply persistence_saves. intros Hp. by eapply walk_on_ok. Qed.
Lemma step_walk_saves s w d b :
  driver_ok d -> ep_walk (st_persistence s) = Some w ->
  exists s' r, step_walk s w d b = Some (s', r) /\ saves s s'.
Proof.
  intros Hd Hw. unfold step_walk. pose proof (walk_step_root w (st_insights s)) as Er.
  destruct (walk_step w (st_insights s)) as [w' r]. cbn [fst] in Er.
  pose proof (with_walk_saves s w w' Hw Er) as Hs1.
  destruct r as [[|insight m frame|]|e]; [by eauto| | |by eauto].
  - destruct (add_row_saves (with_walk s w') d b insight m Hd) as (s2 & b2 & r2 & -> & Hs2 & Ep).
    assert (Hs12 : saves s s2) by (by etrans).
    destruct r2 as [[|b3|]|e]; [by eauto|by eauto| |by eauto]. cbv zeta.
    assert (Hs3 : saves s (with_walk s2 (mkWalk (cw_root w') (frame :: cw_stack w')))).
    { etrans; [exact Hs12|]. apply (with_walk_saves s2 w'); [|done]. by rewrite Ep. }
    destruct (rb_rows b2); eauto.
  - eexists _, _. split; [done|]. apply persistence_saves. intros Hp. by apply walk_end_ok.
Qed.

Lemma collect_rows_saves fuel clock n d b s :
  driver_ok d -> exists s' r, collect_rows fuel clock n d b s = Some (s', r) /\ saves s s'.
Proof.
  intros Hd. revert n b s. induction fuel as [|fuel IH]; intros n b s; simpl; [eexists _, _; split; [done|reflexivity]|].
  destruct (_ || _); [eexists _, _; split; [done|reflexivity]|].
  assert (Hstep : forall t w, saves s t -> ep_walk (st_persistence t) = Some w -> exists s' r,
    (let* (s, r) := step_walk t w d b in
     match r with
     | Err error => Some (s, Err error)
     | Ok (b, true) => collect_rows fuel clock (S n) d b s
     | Ok (b, false) => Some (s, Ok (S n, b))
     end) = Some (s', r) /\ saves s s').
  { intros t w Hst Hw. destruct (step_walk_saves t w d b Hd Hw) as (t1 & r & -> & Hs1).
    assert (Hs : saves s t1) by (by etrans). destruct r as [[b1 [|]]|e]; [|by eauto|by eauto].
    destruct (IH (S n) b1 t1) as (s' & r & -> & Hs'). eexists _, _. split; [done|]. by etrans. }
  destruct (ep_walk (st_persistence s)) as [w|] eqn:Hw; [by apply Hstep|].
  destruct (ep_roots (st_persistence s)) as [|root roots] eqn:Hr; [eexists _, _; split; [done|reflexivity]|].
  destruct (c_insights (st_insights s) !! root).
  - apply Hstep; [|done]. apply persistence_saves. intros Hp. by apply take_root_ok.
  - match goal with |- context [collect_rows fuel clock (S n) d b ?t] => destruct (IH (S n) b t) as (s' & r & -> & Hs') end.
    eexists _, _. split; [done|]. etrans; [|exact Hs']. apply persistence_saves. intros Hp. by eapply drop_root_ok.
Qed.

(** ** A turn *)
Record owner_ok (s : State) : Prop := {
  oo_base : base_ok s;
  oo_queue : Queue.queue_ok [] (st_work s);
  oo_persistence : persistence_ok (st_persistence s)
}.
(** The commands before and after. *)
Definition commands_follow (s s' : State) : Prop := option_Forall2 follows (st_driver s) (st_driver s').
Lemma works_follow (s s' : State) :
  base_ok s -> option_Forall2 works (st_driver s) (st_driver s') -> commands_follow s s'.
Proof.
  intros Hs Hw. unfold commands_follow. inversion Hw as [d d' Hd E1 E2|E1 E2]; constructor.
  by apply Hd, (bo_driver s Hs).
Qed.

Lemma base_driver (s : State) d' :
  option_Forall2 works (st_driver s) (Some d') -> base_ok s -> base_ok (s <| st_driver := Some d' |>).
Proof. intros Hw. apply (calls_base s), driver_calls, Hw. Qed.

Lemma advance_total s max zero clock submit :
  owner_ok s -> exists s' r, advance_execution_persistence s max zero clock submit = Some (s', r) /\
    owner_ok s' /\ option_Forall2 works (st_driver s) (st_driver s') /\ st_pipeline s' = st_pipeline s.
Proof.
  intros Hs. assert (Hself : option_Forall2 works (st_driver s) (st_driver s)) by reflexivity.
  unfold advance_execution_persistence. cbv zeta. set (limit := Nat.min max 256).
  destruct (_ || _); [by eauto 10|]. destruct (st_driver s) as [d|] eqn:Ed.
  2:{ eexists _, _. split; [done|]. split; [done|]. rewrite Ed. split; [constructor|done]. }
  assert (Hput : forall d', works d d' -> owner_ok (s <| st_driver := Some d' |>) /\
                   option_Forall2 works (Some d) (Some d')).
  { intros d' Hw. assert (Hf : option_Forall2 works (st_driver s) (Some d')) by (rewrite Ed; by constructor).
    split; [|by constructor]. destruct Hs as [A B C]. split; [by apply base_driver|done|done]. }
  pose proof (bo_driver s (oo_base s Hs) d Ed) as Hd.
  destruct (poll_works d limit Hd) as (d1 & r & -> & Hw1). destruct (Hw1 Hd) as [Hd1 _].
  destruct r as [polled|e]; [|destruct (Hput d1 Hw1); eauto 10].
  assert (H2' : exists d2 r, (if late_poll clock then Some (d1, Ok 0)
     else dispatch_prepared_with_admission d1 (limit - polled) (entries_enabled s) (st_now_us s)) = Some (d2, r) /\ works d1 d2).
  { destruct (late_poll clock); [eexists _, _; split; [done|reflexivity]|by apply dispatch_works]. }
  destruct H2' as (d2 & r & -> & Hw2). destruct (Hw2 Hd1) as [Hd2 _].
  assert (Hw12 : works d d2) by (by etrans). destruct (Hput d2 Hw12) as [Hs2 Hf2]. set (s2 := s <| st_driver := Some d2 |>) in *.
  destruct r as [dispatched|e]; [|by eauto 10]. destruct (_ || _); [by eauto 10|].
  match goal with |- context [scan_roots clock limit ?n d2 ?l s2] =>
    pose proof (scan_roots_saves clock limit n d2 l s2) as Hscan; destruct (scan_roots clock limit n d2 l s2) as [s3 n3] end.
  cbn [fst] in Hscan.
  destruct (collect_rows_saves (limit - n3) clock n3 d2 (mkRowBatch [] ∅ [] 64) s3 (ow_ok _ Hd2)) as (s4 & r & -> & Hcol).
  assert (Hs4 : saves s2 s4) by (by etrans). destruct Hs2 as [A B C]. destruct Hs4 as [D1 D2 D3 Dp D4].
  assert (Hok4 : owner_ok s4) by (split; [auto|by rewrite D3|auto]).
  assert (Hf4 : option_Forall2 works (Some d) (st_driver s4)) by (by rewrite D2).
  assert (Hp4 : st_pipeline s4 = st_pipeline s) by (by rewrite Dp).
  destruct r as [[n4 b]|e]; [|by eauto 10]. destruct (rb_rows b) as [|row rows]; [by eauto 10|].
  destruct (persist_works d2 (row :: rows) (rb_receipts b) submit Hd2) as (d5 & r5 & -> & Hw5).
  assert (Hok5 : owner_ok (s4 <| st_driver := Some d5 |>)).
  { destruct Hok4 as [A4 B4 C4]. split; [|done|done]. apply base_driver; [|done]. rewrite D2. by constructor. }
  assert (Hf5 : option_Forall2 works (Some d) (Some d5)) by (constructor; by etrans).
  destruct r5; eauto 10.
Qed.

Lemma fail_keeps (s : State) e : keeps s (fail_execution s e).
Proof.
  unfold fail_execution. transitivity (s <| st_error := Some (unwrap_or (st_error s) e) |>).
  - split; [by intros [A B C]|reflexivity|by intros held|done].
  - apply calls_keeps, shutdown_calls.
Qed.
Lemma keeps_owner (s s' : State) : keeps s s' -> owner_ok s -> owner_ok s'.
Proof. intros [A B C [=]] [E F G]. split; [auto|auto|congruence]. Qed.
Lemma part_owner (s s' : State) : part [] [] s s' -> owner_ok s -> owner_ok s'.
Proof. intros [A B C [=]] [E F G]. split; [auto|auto|congruence]. Qed.

Lemma keeps_pipeline (s s' : State) : keeps s s' -> st_pipeline s' = st_pipeline s.
Proof. intros Hk. by pose proof (kp_rest _ _ Hk) as [=]. Qed.
Lemma fail_owner (s s1 : State) e :
  owner_ok s1 -> option_Forall2 works (st_driver s) (st_driver s1) -> st_pipeline s1 = st_pipeline s ->
  owner_ok (fail_execution s1 e) /\ option_Forall2 works (st_driver s) (st_driver (fail_execution s1 e)) /\
  st_pipeline (fail_execution s1 e) = st_pipeline s.
Proof.
  intros Hs Hw Hp. pose proof (fail_keeps s1 e) as Hk. split; [by eapply keeps_owner|].
  split; [etrans; [exact Hw|apply Hk]|by rewrite (keeps_pipeline _ _ Hk)].
Qed.
Lemma turn_total s t :
  owner_ok s -> exists s', on_trade_update s t = Some s' /\ owner_ok s' /\
    option_Forall2 works (st_driver s) (st_driver s') /\ st_pipeline s' = st_pipeline s.
Proof.
  intros Hs. unfold on_trade_update, reduce_ready_commands.
  destruct (command_loop_keeps (Nat.min 256 256) (ti_late_commands t) 0 s (oo_base s Hs)) as (s1 & r & -> & Hk1).
  pose proof (keeps_owner _ _ Hk1 Hs) as Hs1.
  destruct r as [commands|e].
  2:{ eexists. split; [done|]. apply fail_owner; [done|apply Hk1|by apply keeps_pipeline]. }
  assert (H2' : exists s2 n, match ti_trades t with
      | Some late => on_trade_update_with_budget s1 (256 - commands) late (ti_drained t)
      | None => Some (s1, 0) end = Some (s2, n) /\ keeps s1 s2).
  { destruct (ti_trades t); [by apply trade_loop_keeps, Hs1|eexists _, _; split; [done|reflexivity]]. }
  destruct H2' as (s2 & trades & -> & Hk2). pose proof (keeps_owner _ _ Hk2 Hs1) as Hs2.
  assert (H3' : exists s3 n, match ti_work t with
      | Some late => process_insight_work s2 (256 - commands - trades) late
      | None => Some (s2, 0) end = Some (s3, n) /\ part [] [] s2 s3).
  { destruct (ti_work t); [apply work_loop_part; apply Hs2|eexists _, _; split; [done|by apply keeps_part]]. }
  destruct H3' as (s3 & work & -> & Hp3). pose proof (part_owner _ _ Hp3 Hs2) as Hs3.
  assert (Hf3 : option_Forall2 works (st_driver s) (st_driver s3)).
  { etrans; [apply Hk1|]. etrans; [apply Hk2|apply Hp3]. }
  assert (Hl3 : st_pipeline s3 = st_pipeline s).
  { pose proof (pt_rest _ _ _ _ Hp3) as [= _ E]. by rewrite E, (keeps_pipeline _ _ Hk2), (keeps_pipeline _ _ Hk1). }
  destruct (ti_persist t) as [[zero clock]|]; [|by eauto 10].
  destruct (advance_total s3 (256 - commands - trades - work) zero clock (ti_submit t) Hs3)
    as (s4 & r & -> & Hs4 & Hf4 & Hl4).
  assert (Hf14 : option_Forall2 works (st_driver s) (st_driver s4)) by (by etrans).
  destruct r as [n|e]; (eexists; split; [done|]); [split; [done|]; split; [done|congruence]|].
  apply fail_owner; [done|done|congruence].
Qed.

(** ** The owner and its surroundings *)
Definition on_driver (s : State) (d : Driver) : State := s <| st_driver := Some d |>.
Inductive owner_step (s : State) : State -> Prop :=
| os_turn t s' : on_trade_update s t = Some s' -> owner_step s s'
| os_cancel id s' b : request_insight_cancellation s id = Some (s', b) -> owner_step s s'
| os_insight row c :      (* the strategy creates an insight *)
    tree_ok row -> add_insight (st_insights s) row = Some c -> owner_step s (s <| st_insights := c |>)
| os_persistent :         (* changed insights are tracked from here on *)
    owner_step s (s <| st_insights := enable_execution_persistence (st_insights s) |>)
| os_recovered ids :      (* restored insights are scheduled *)
    owner_step s (s <| st_work := Queue.restore (st_work s) ids |>)
| os_worker d w :         (* the worker works on and reports, once per command it was handed *)
    st_driver s = Some d -> evolves (journal_of d) (w_journal w) -> awaited (d <| d_worker := w |>) ->
    owner_step s (on_driver s (d <| d_worker := w |>))
| os_answer d ps w r :    (* the journal answers a batch *)
    st_driver s = Some d -> d_persisting d = Some ps -> ps_reply ps = Some None ->
    serve_checkpoint (d_worker d) (ps_batch ps) = (w, r) -> owner_step s (on_driver s (answered d ps w r))
| os_lost d ps error :    (* or is gone *)
    st_driver s = Some d -> d_persisting d = Some ps -> ps_reply ps = Some None ->
    owner_step s (on_driver s (answered d ps (d_worker d) (Err error)))
| os_world s' :           (* the clock, the universe, the status and the pipeline change *)
    st_insights s' = st_insights s -> st_driver s' = st_driver s -> st_work s' = st_work s ->
    st_persistence s' = st_persistence s -> owner_step s s'.

(** A strategy that just started. *)
Record started (s : State) : Prop := {
  sd_insights : st_insights s = collection_new;
  sd_driver d : st_driver s = Some d -> exists w order, d = from_journal w order /\ w_events w = [];
  sd_work : st_work s = default_queue;
  sd_persistence : st_persistence s = default_persistence
}.
Lemma started_ok s : started s -> owner_ok s.
Proof.
  intros [E1 E2 E3 E4]. split; [split| |].
  - rewrite E1. apply collection_new_ok.
  - rewrite E1. intros id row Hr. cbn in Hr. by rewrite lookup_empty in Hr.
  - intros d (w & order & -> & Ew)%E2. by apply start_owned.
  - rewrite E3. apply Queue.default_queue_ok.
  - rewrite E4. apply default_persistence_ok.
Qed.

Lemma on_driver_ok s d d' : st_driver s = Some d -> works d d' -> owner_ok s -> owner_ok (on_driver s d').
Proof. intros Ed Hw [A B C]. split; [apply base_driver; [by eapply works_Some|done]|done|done]. Qed.
Lemma answered_works d ps w r :
  d_persisting d = Some ps -> ps_reply ps = Some None -> w_events w = w_events (d_worker d) ->
  (driver_ok d -> journaled d -> advance d (answered d ps w r)) -> works d (answered d ps w r).
Proof. intros Hps Hr He Ha. by apply works_advance. Qed.

Lemma owner_step_ok s s' : owner_step s s' -> owner_ok s -> owner_ok s'.
Proof.
  intros Hst Hs. destruct Hst as [t s' Ht|id s' b Hc|row c Hrow Hc| |ids|d w Ed He Ha|d ps w r Ed Hps Hr Hw|d ps e Ed Hps Hr
    |s' E1 E2 E3 E4].
  - destruct (turn_total s t Hs) as (s2 & E & Hok & _). congruence.
  - destruct (request_cancellation_keeps s id (oo_base s Hs)) as (s2 & b2 & E & Hk).
    assert (s2 = s') as -> by congruence. by eapply keeps_owner.
  - destruct (add_keeps s row (oo_base s Hs) Hrow) as (c2 & E & Hk). assert (c2 = c) as -> by congruence.
    by eapply keeps_owner.
  - eapply (keeps_owner s); [|done]. apply insights_keeps. intros [A B _].
    destruct (run_coll_ok _ OpPersist A I) as (c & [= <-] & Hc). split; [done|exact B].
  - eapply (keeps_owner s); [|done]. apply work_keeps. intros held Hq. by eapply Queue.queue_ok_frame.
  - destruct (bo_driver s (oo_base s Hs) d Ed) as [D1 D2 D3]. destruct Hs as [[A1 A2 A3] B C].
    split; [split; [done|done|]|done|done]. intros d' [= <-].
    pose proof (turn_advance _ _ (turn_worker d w D1 He) D2) as [F1 _ F2]. by split.
  - eapply on_driver_ok; [done| |done]. apply answered_works; [done|done| |].
    + unfold serve_checkpoint in Hw. destruct (persist_execution_batch _ _). by injection Hw as <- _.
    + intros D1 D2. by apply (driver_step_advance d); [eapply DsAnswer|..].
  - eapply on_driver_ok; [done| |done]. apply answered_works; [done|done|done|].
    intros D1 D2. by apply (driver_step_advance d); [eapply DsLost|..].
  - destruct Hs as [[A1 A2 A3] B C]. split; [split|by rewrite E3|by rewrite E4]; rewrite ?E1, ?E2; done.
Qed.
Lemma owner_steps_ok s s' : rtc owner_step s s' -> owner_ok s -> owner_ok s'.
Proof. induction 1 as [|s1 s2 s3 Hst _ IH]; [done|]. intros Hs. by eapply IH, owner_step_ok. Qed.

End Turns.

(** ** A fill, and the child it lets in *)
Module OwnerDemo.
Definition receipts : ReceiptJson := fun r => rcpt_id r.
Definition names : FreshIds := fun n => bits (Pos.of_succ_nat n).
Inductive NoPipe := .
Definition pipes : LeafPipe NoPipe (StrategyState NoPipe) := {|
  leaf_name := fun p : NoPipe => match p with end;
  leaf_controls_expiration := fun p : NoPipe => match p with end;
  leaf_run := fun p : NoPipe => match p with end;
  leaf_retain := fun p : NoPipe => match p with end;
  leaf_forget := fun p : NoPipe => match p with end;
  leaf_checkpoint := fun p : NoPipe => match p with end;
  leaf_restore := fun p : NoPipe => match p with end;
  leaf_layout := fun p : NoPipe => match p with end
|}.
Definition layouts : LayoutJson := {|
  composite_layout name version parts := name +:+ version +:+ String.concat "," parts;
  wrapped_layout inner _ _ _ _ _ := inner
|}.
#[local] Existing Instances ids_json demo_fingerprint receipts names pipes layouts.

Definition child : Insight := set_quantity 1%Z (insight_new 8%N 0%Z Buy "BTCUSD" Manual default_timeframe 90%Z None) (Some 1%float).
Definition parent : Insight := add_child_insight (order_accepted 2%Z demo_new "entry-a") child (Some false).
Definition start : StrategyState NoPipe :=
  mkState collection_new (Some demo_driver) default_queue (mkPipeline ∅ ∅ no_dependencies) default_persistence []
    {["BTCUSD"%string := demo_asset]} [] Running false None 0%Z 0%Z 0 2%float.
Definition with_parent : InsightCollection := default collection_new (add_insight collection_new parent).
Definition watched : StrategyState NoPipe := start <| st_insights := with_parent |>.
Definition fill : Order := demo_order EvFilled 2%float 2%float.
Definition on_time : Clock := mkClock false false (fun _ => false) (fun _ => false).
Definition turn_input : TurnInput :=
  mkTurnInput (fun _ => false) (Some (fun _ => false)) (fun n _ => if n =? 0 then [(fill, EvFilled)] else [])
    (Some (fun _ => false)) (Some (false, on_time)) (Ok ()).
Definition after : StrategyState NoPipe := default watched (on_trade_update watched turn_input).

Lemma leaf_ok i : i_execution_data i = ∅ -> i_children i = [] -> tree_ok i.
Proof. intros Hd Hc. constructor; [unfold deps_ok; by rewrite Hd|]. rewrite Hc. by intros c Hin%elem_of_nil. Qed.
Lemma with_child_ok i c o :
  i_execution_data i = ∅ -> i_children i = [] -> i_execution_data c = ∅ -> i_children c = [] ->
  tree_ok (add_child_insight i c o).
Proof.
  intros Hd Hc Hdc Hcc. constructor; unfold add_child_insight; cbv zeta; [unfold deps_ok; fields; by rewrite Hd|].
  fields. rewrite Hc. intros x Hx. apply list_elem_of_singleton in Hx as ->. apply leaf_ok; split_match; by fields.
Qed.
Lemma parent_ok : tree_ok parent.
Proof. apply with_child_ok; vm_compute; reflexivity. Qed.
Lemma start_started : started start.
Proof. split; try done. intros d [= <-]. by exists demo_idle, 0%Z. Qed.
Lemma parent_added : add_insight collection_new parent = Some with_parent.
Proof. vm_compute. reflexivity. Qed.
Lemma reaches_watched : rtc owner_step start watched.
Proof. exact (rtc_once _ _ (os_insight start parent with_parent parent_ok parent_added)). Qed.

End OwnerDemo.
