(* ===== verification/EntryGate.v ===== *)
(** * EntryGate: when the owner lets an insight enter the market

    [may_enter] is the rule: nothing is entered below an insight that is terminal,
    closing, cancelling or suppressed; a child enters once its parent is filled, a
    split child once its parent's entry is placed, and so up to the root.  The walk
    of the source decides this rule, and every entry command the work queue creates
    obeys it. *)
From stdpp Require Import relations.
From S2P Require Import Prelude.
From S2P Require Import OrderedSet.
From S2P Require Import Float64.
From S2P Require Import Text.
From S2P Require Import BrokerTypes.
From S2P Require Import TimeFrame.
From S2P Require Import InsightTypes.
From S2P Require Import Commands.
From S2P Require Import ExecutionData.
From S2P Require Import Insight.
From S2P Require Import Operations.
From S2P Require Import Submission.
From S2P Require Import OrderReducer.
From S2P Require Import RecoveryViews.
From S2P Require Import Collection.
From S2P Require Import CollectionInvariant.
From S2P Require Import Checkpoint.
From S2P Require Import Journal.
From S2P Require Import CommandWorker.
From S2P Require Import CommandDriver.
From S2P Require Import CommandDriverFacts.
From S2P Require Import CommandLife.
From S2P Require Import DriverOwnership.
From S2P Require Import SnapshotDependencies.
From S2P Require Import Pipeline.
From S2P Require Import WorkQueue.
From S2P Require Import StrategyOwner.
From S2P Require Import StrategyOwnerFacts.
From S2P Require Import ExecutionPersistence.
From S2P Require Import CommandWorkerFacts.
From S2P Require Import InsightInvariant.
From S2P Require Import Scripted.
From S2P Require Import JournalFacts.
From S2P Require Import OwnerTurns.

(** ** The rule *)

(** A row under which entries are still made. *)
Record open_for_entry (row : Insight) : Prop := {
  oe_active : is_inactive (i_state row) = false;
  oe_not_closing : i_closing row = false;
  oe_not_cancelling : i_cancelling row = false;
  oe_not_suppressed : i_suppress_child_entries row = false
}.
Lemma gated_open row : gated row = false <-> open_for_entry row.
Proof. unfold gated. rewrite !orb_false_iff. split; [intros [[[? ?] ?] ?]|intros []]; repeat split; done. Qed.

(** [n] rows from the insight up to its root. *)
Inductive may_enter (c : InsightCollection) : nat -> Uuid -> Prop :=
| me_root id row :
    c_insights c !! id = Some row -> open_for_entry row -> i_parent_id row = None -> may_enter c 1 id
| me_child n id row pid parent :
    c_insights c !! id = Some row -> open_for_entry row -> i_parent_id row = Some pid ->
    c_insights c !! pid = Some parent ->
    (if i_is_split_insight row then entry_placed parent = true else i_state parent = Filled) ->
    may_enter c n pid -> may_enter c (S n) id.

Lemma walk_decides fuel c waiting id :
  permission_walk fuel c waiting id = PermReady <->
  waiting = false /\ exists n, n <= fuel /\ may_enter c n id.
Proof.
  revert waiting id. induction fuel as [|fuel IH]; intros waiting id; simpl.
  { split; [done|]. intros (_ & n & Hn & He). inversion He; lia. }
  destruct (c_insights c !! id) as [row|] eqn:Hrow.
  2:{ split; [done|]. intros (_ & n & _ & He). inversion He; congruence. }
  destruct (gated row) eqn:Hg.
  { split; [done|]. intros (_ & n & _ & He).
    inversion He; simplify_eq; by match goal with Ho : open_for_entry _ |- _ => apply gated_open in Ho; congruence end. }
  apply gated_open in Hg. destruct (i_parent_id row) as [pid|] eqn:Hp.
  2:{ destruct waiting; [naive_solver|]. split; [|done]. intros _. split; [done|].
      exists 1. split; [lia|]. by eapply me_root. }
  destruct (c_insights c !! pid) as [parent|] eqn:Hpar.
  2:{ split; [done|]. intros (_ & n & _ & He). inversion He; simplify_eq. }
  rewrite IH. set (blocked := if i_is_split_insight row then _ else _).
  assert (Hb : blocked = false <->
    (if i_is_split_insight row then entry_placed parent = true else i_state parent = Filled)).
  { unfold blocked. destruct (i_is_split_insight row); [by destruct (entry_placed parent)|].
    case_bool_decide; simpl; naive_solver. }
  rewrite orb_false_iff, Hb. split.
  - intros ([-> Hok] & n & Hn & He). split; [done|]. exists (S n). split; [lia|]. by eapply me_child.
  - intros (-> & n & Hn & He). inversion He; simplify_eq. split; [done|]. eexists. split; [|done]. lia.
Qed.

(** ** Who creates entries *)
Section Gate.
Context {P : Type} `{UuidText} `{Json} `{CommandIds} `{JournalJson} `{Chrono} `{Fingerprint} `{FreshIds}.
Abbreviation State := (StrategyState P).

(** The entries of [d'] are entries of [d], or belong to [owner]. *)
Definition entries_from (owner : option Uuid) (d d' : Driver) : Prop :=
  forall id p', d_pending d' !! id = Some p' -> is_entry (cmd_action (pd_command p')) = true ->
  (exists p, d_pending d !! id = Some p /\ pd_command p = pd_command p' /\ pd_owner_id p = pd_owner_id p') \/
  owner = Some (pd_owner_id p').
#[export] Instance entries_from_preorder owner : PreOrder (entries_from owner).
Proof.
  split; [intros d id p' Hp _; left; by eauto|]. intros d1 d2 d3 A B id p3 H3' He.
  destruct (B id p3 H3' He) as [(p2 & H2' & E1 & E2)|]; [|by right].
  destruct (A id p2 H2') as [(p1 & H1' & F1 & F2)|Ho]; [by rewrite E1|left|right; by rewrite <- E2].
  exists p1. split; [done|]. split; congruence.
Qed.
Lemma entries_same owner d d' : d_pending d' = d_pending d -> entries_from owner d d'.
Proof. intros E id p' Hp _. rewrite E in Hp. left. eauto. Qed.
(** One command changes, but not in what it is. *)
Lemma entries_update owner d d' id p p' :
  d_pending d' = <[id := p']> (d_pending d) -> d_pending d !! id = Some p ->
  pd_command p' = pd_command p -> pd_owner_id p' = pd_owner_id p -> entries_from owner d d'.
Proof.
  intros E Hp Ec Eo x q Hq _. left. rewrite E in Hq. apply lookup_insert_Some in Hq as [[<- <-]|[_ Hq]]; [|by eauto].
  exists p. by rewrite Ec, Eo.
Qed.

Lemma mark_reduced_entries owner d r : entries_from owner d (mark_reduced d r).1.
Proof.
  unfold mark_reduced. destruct (d_pending d !! _) as [p|] eqn:Hp; [|reflexivity]. destruct (negb _); [reflexivity|].
  destruct (pd_progress p); [reflexivity| |reflexivity]. by eapply entries_update.
Qed.
Lemma cancel_pending_entries owner d r : entries_from owner d (driver_cancel_pending_entry d r).1.
Proof.
  unfold driver_cancel_pending_entry. destruct (d_pending d !! _); [|reflexivity].
  destruct (_ && _); [by apply entries_same|reflexivity].
Qed.
Lemma settle_entries owner row d : entries_from owner d (settle_ambiguous row d).
Proof.
  unfold settle_ambiguous. apply (foldl_frame _ (entries_from owner)). intros d' id. unfold mark_settled.
  destruct (d_pending d' !! id) as [p|] eqn:Hp; [|reflexivity].
  destruct (_ && _); [by eapply entries_update|reflexivity].
Qed.
Lemma enqueue_entries owner d c now :
  (is_entry (cmd_action c) = true -> owner = uuid_parse (cmd_insight_id c)) ->
  entries_from owner d (enqueue_command d c now).1.
Proof.
  intros Ho. unfold enqueue_command. destruct (d_restoring d); [reflexivity|]. destruct (encode c); [|reflexivity].
  destruct (uuid_parse _) as [o|] eqn:Eo; [|reflexivity]. destruct (_ || _); [reflexivity|].
  destruct (d_pending d !! cmd_id c) eqn:En; [by destruct (command_eqb _ _)|].
  destruct (_ || _); [reflexivity|]. destruct (is_halted _); [reflexivity|]. destruct (_ && entries_stopped _); [reflexivity|].
  destruct (_ <? _)%Z; [reflexivity|]. cbn [fst].
  assert (E : d_pending (admit_pending (d <| d_last_admission_order := (d_last_admission_order d + 1)%Z |>) o c
             (new_pending o c now (d_last_admission_order d + 1))) =
           <[cmd_id c := new_pending o c now (d_last_admission_order d + 1)]> (d_pending d))
    by (unfold admit_pending; by destruct (is_teardown _)).
  intros id p'. rewrite E. intros [[<- <-]|[_ Hp]]%lookup_insert_Some He; [right; by apply Ho|left; eauto].
Qed.

(** The same of the strategy. *)
Definition enters_only (owner : option Uuid) (s s' : State) : Prop :=
  option_Forall2 (entries_from owner) (st_driver s) (st_driver s').
#[export] Instance enters_only_preorder owner : PreOrder (enters_only owner).
Proof. split; [intros s; by unfold enters_only|]. intros s1 s2 s3 A B. unfold enters_only in *. by etrans. Qed.

Lemma shutdown_enters owner s : enters_only owner s (shutdown s).
Proof. unfold enters_only, shutdown. cbn. destruct (st_driver s); constructor. by apply entries_same. Qed.
Lemma state_enqueue_enters owner s id a g :
  (is_entry a = true -> owner = Some id) -> enters_only owner s (state_enqueue s id a g).1.
Proof.
  intros Ho. unfold enters_only, state_enqueue. destruct (st_driver s) as [d|] eqn:Ed; [|cbn; rewrite Ed; constructor].
  match goal with |- context [enqueue_with_constraints d ?i a g ?c ?f ?n] =>
    pose proof (enqueue_entries owner d (command_new_with_constraints (j_strategy_id (w_journal (d_worker d)))
      (j_account_id (w_journal (d_worker d))) i a g c f) n) as He;
    change (enqueue_with_constraints d i a g c f n) with (enqueue_command d (command_new_with_constraints
      (j_strategy_id (w_journal (d_worker d))) (j_account_id (w_journal (d_worker d))) i a g c f) n) end.
  destruct (enqueue_command d _ _) as [d' r]. cbn in He.
  assert (Hd : entries_from owner d d') by (apply He; intros Ha; rewrite uuid_roundtrip; by apply Ho).
  destruct r; cbn; by constructor.
Qed.
Lemma state_reduced_enters owner s r : enters_only owner s (state_reduced s r).
Proof.
  unfold state_reduced. destruct (st_driver s) as [d|] eqn:Ed; [|reflexivity].
  pose proof (mark_reduced_entries owner d r) as Hr. destruct (mark_reduced d r) as [d' res]. cbn in Hr.
  transitivity (s <| st_driver := Some d' |>).
  - unfold enters_only. rewrite Ed. by constructor.
  - destruct (is_ok res); [reflexivity|apply shutdown_enters].
Qed.
Lemma state_cancel_enters owner s r : enters_only owner s (state_cancel_pending s r).1.
Proof.
  unfold state_cancel_pending. destruct (st_driver s) as [d|] eqn:Ed; [|reflexivity].
  pose proof (cancel_pending_entries owner d r) as Hr. destruct (driver_cancel_pending_entry d r) as [d' res]. cbn in Hr.
  unfold enters_only. rewrite Ed. by constructor.
Qed.

(** The steps of an operation on row [i] enter it at most, and only if they may. *)
Lemma steps_enter enters (s : State) i s' i' :
  rtc (atomic (enters := enters)) (s, i) (s', i') ->
  enters_only (if enters then Some (i_insight_id i) else None) s s'.
Proof.
  intros Hs. set (owner := if enters then _ else _).
  apply (steps_context (enters := enters) (enters_only owner) (i_insight_id i) (s, i) (s', i')); [|..|exact Hs|done].
  - intros c a g Ha. apply state_enqueue_enters. intros He. unfold owner. by rewrite (Ha He).
  - intros c rc. apply state_reduced_enters.
  - intros c rc. apply state_cancel_enters.
Qed.

Lemma same_driver_enters owner (s s' : State) : st_driver s' = st_driver s -> enters_only owner s s'.
Proof. intros E. unfold enters_only. by rewrite E. Qed.
Lemma with_row_enters {A} owner s id (f : State -> Insight -> State * Insight * A) s' a :
  with_row s id f = Some (s', a) ->
  (forall row, c_insights (st_insights s) !! id = Some row ->
     let t := s <| st_insights := (take_for_update (st_insights s) id).1 |> in enters_only owner t (f t row).1.1) ->
  enters_only owner s s'.
Proof.
  unfold with_row, take_for_update. intros Hw Hf. destruct (c_insights (st_insights s) !! id) as [row|]; [|by simplify_eq].
  specialize (Hf row eq_refl). cbv zeta in Hf. cbn [fst] in Hf.
  destruct (f _ row) as [[s1 row1] b]. cbn [fst] in Hf. destruct (restore_after_update _ _ _) as [c|]; [|done].
  simplify_eq. exact Hf.
Qed.
Lemma schedule_children_driver (s : State) id : st_driver (schedule_insight_children s id) = st_driver s.
Proof.
  unfold schedule_insight_children. destruct (negb _); [done|]. destruct (c_insights _ !! id) as [row|]; [|done].
  destruct (gated row); [done|]. destruct (i_children row); [done|]. destruct (negb _); [done|]. cbv zeta.
  by destruct (entry_placed row), (bool_decide _).
Qed.
Lemma reduce_terminal_enters s id s' :
  reduce_terminal_command_receipts s id = Some s' -> enters_only None s s'.
Proof.
  unfold reduce_terminal_command_receipts. destruct (negb _); [intros ?; by simplify_eq|]. intros Hr.
  destruct (with_row s id _) as [[s1 u]|] eqn:Hw; [|done]. simplify_eq. eapply with_row_enters; [exact Hw|].
  intros row _. cbv zeta. set (t := s <| st_insights := _ |>). cbn [fst].
  set (t1 := t <| st_driver := settle_ambiguous row <$> st_driver t |>). transitivity t1.
  - unfold enters_only, t1. cbn. destruct (st_driver s); constructor. apply settle_entries.
  - pose proof (poll_terminal_steps (enters := false) (st_now t1) t1 row) as Hp.
    destruct (poll_terminal_mutations (st_now t1) t1 row) as [t2 row2]. exact (steps_enter false t1 row t2 row2 Hp).
Qed.

Lemma steps_op_enters {A} (t : State) row (r : State * Insight * A) :
  rtc (atomic (enters := false)) (t, row) r.1 -> enters_only None t r.1.1.
Proof. destruct r as [[t' row'] a]. apply (steps_enter false). Qed.
Lemma cleanup_row_enters (t : State) row : enters_only None t (cleanup_row t row).1.1.
Proof.
  unfold cleanup_row. destruct (i_state row);
    try (apply (steps_op_enters t row); solve [auto using cancel_row_steps, close_row_steps, poll_pending_steps]).
  destruct (_ && _); [reflexivity|apply (steps_op_enters t row), cancel_row_steps].
Qed.
Lemma pending_submit_kind row : has_pending_submit row = true -> KSubmit ∈ pending_kinds row.
Proof.
  unfold has_pending_submit, has_pending, pending_kinds. intros (p & Hin & Hk)%existsb_exists.
  apply bool_decide_eq_true in Hk. apply list_elem_of_fmap. exists p. split; [done|]. by apply list_elem_of_In.
Qed.
Lemma enters_weaken owner (s s' : State) : enters_only None s s' -> enters_only owner s s'.
Proof.
  unfold enters_only. intros Hf. destruct Hf as [d d' He|]; constructor. intros id p' Hp Hen.
  destruct (He id p' Hp Hen) as [?|?]; [by left|done].
Qed.

(** A request enters its own insight, if it may; otherwise nothing. *)
Definition submits (s : State) (w : Work) : bool :=
  bool_decide (wk_kind w = SubmitWork) && entries_enabled s
  && negb (is_some_and has_pending_submit (c_insights (st_insights s) !! wk_id w)).
Lemma run_request_enters s w row :
  wk_kind w = Cleanup \/ wk_kind w = SubmitWork -> i_insight_id row = wk_id w ->
  c_insights (st_insights s) !! wk_id w = Some row ->
  let t := s <| st_insights := (take_for_update (st_insights s) (wk_id w)).1 |> in
  enters_only (if submits s w then Some (wk_id w) else None) t (run_request w t row).1.1.
Proof.
  intros Hk Hid Hrow. cbv zeta. set (t := s <| st_insights := _ |>). unfold submits, run_request. rewrite Hrow.
  change (entries_enabled t) with (entries_enabled s). cbn [is_some_and].
  destruct (bool_decide (wk_kind w = Cleanup) || negb (entries_enabled s)) eqn:Ec.
  - apply enters_weaken. pose proof (cleanup_row_enters t row) as Hcl. by destruct (cleanup_row t row) as [[t1 row1] r].
  - destruct (submit (st_now t) t row) as [[t1 row1] r] eqn:Hsub. cbn [fst].
    destruct (has_pending_submit row) eqn:Hp.
    + apply enters_weaken. apply (steps_enter false t row t1 row1). eapply submit_steps; [done|].
      right. by apply pending_submit_kind.
    + apply orb_false_iff in Ec as [Hnc ->%negb_false_iff]. apply bool_decide_eq_false in Hnc.
      destruct Hk as [|Hk]; [done|]. rewrite bool_decide_eq_true_2 by done. cbn. rewrite <- Hid.
      apply (steps_enter true t row t1 row1). eapply submit_steps; [done|by left].
Qed.
Lemma run_work_enters s w s' stop :
  base_ok s -> wk_kind w = Cleanup \/ wk_kind w = SubmitWork -> run_work s w = Some (s', stop) ->
  enters_only (if submits s w then Some (wk_id w) else None) s s'.
Proof.
  intros Hs Hk. unfold run_work. destruct (with_row s (wk_id w) (run_request w)) as [[s1 a]|] eqn:Hw; [|done].
  intros Hr. transitivity s1.
  - eapply with_row_enters; [exact Hw|]. intros row Hrow.
    destruct (row_known _ _ _ (bo_coll s Hs) Hrow) as (Hid & _ & _). by apply run_request_enters.
  - apply same_driver_enters. destruct a as [[[r active] pending]|]; [|by simplify_eq].
    destruct (settle_request s1 w r active pending) as [s2 b] eqn:Hset. simplify_eq.
    transitivity (st_driver s2); [by destruct (_ && _); [apply schedule_children_driver|]|].
    unfold settle_request in Hset. cbv zeta in Hset. repeat split_match_in Hset; by simplify_eq.
Qed.

Lemma activate_child_driver (s : State) w s' : activate_child s w = Some s' -> st_driver s' = st_driver s.
Proof.
  unfold activate_child. destruct (_ || _); [by intros [= <-]|].
  destruct (c_insights _ !! _) as [parent|]; [|by intros [= <-]]. destruct (gated parent); [by intros [= <-]|].
  destruct (i_children parent !! _) as [template|]; [|by intros [= <-]]. cbv zeta.
  set (s1 := s <| st_work := _ |>). destruct (_ && _).
  - destruct (add_insight _ _) as [c|]; [|done]. by intros [= <-].
  - destruct (_ && _); [|by intros [= <-]]. intros [= <-]. rewrite schedule_children_driver. by destruct (is_some_and _ _).
Qed.
Lemma recover_enters s id s' : recover_insight_work s id = Some s' -> enters_only None s s'.
Proof.
  unfold recover_insight_work. destruct (c_insights _ !! id) as [row|]; [|by intros [= <-]].
  destruct (is_inactive _); [apply reduce_terminal_enters|]. intros Hr. apply same_driver_enters. revert Hr.
  destruct (_ || _); [by intros [= <-]|]. intros [= <-]. rewrite schedule_children_driver. by destruct (_ || _).
Qed.

(** C7 The work queue is the gate of the market: a request creates an entry command only when it is
    a submission of its own insight that has none in flight, while the strategy runs and is not
    shutting down, and only if the insight may enter: neither it nor any ancestor is terminal,
    closing, cancelling or suppressed, its parent is filled (for a split child: has its entry
    placed), and so on up to a root at most 64 rows away.  Cleanups, recoveries and activations of
    children create no entry. *)
Theorem entries_need_permission s w s' stop d d' id p :
  base_ok s -> process_work s w = Some (s', stop) -> st_driver s = Some d -> st_driver s' = Some d' ->
  d_pending d !! id = None -> d_pending d' !! id = Some p -> is_entry (cmd_action (pd_command p)) = true ->
  wk_kind w = SubmitWork /\ pd_owner_id p = wk_id w /\ submits s w = true /\
  st_status s = Running /\ st_shutdown s = false /\
  exists n, n <= 64 /\ may_enter (st_insights s) n (wk_id w).
Proof.
  intros Hs Hw Ed Ed' Hn Hp He.
  assert (Hno : forall owner, enters_only owner s s' -> owner = Some (pd_owner_id p)).
  { intros owner Hf. unfold enters_only in Hf. rewrite Ed, Ed' in Hf. inversion Hf as [? ? Hd|].
    destruct (Hd id p Hp He) as [(q & Hq & _)|]; [congruence|done]. }
  assert (Hsame : st_driver s' = st_driver s -> False) by (intros E; by pose proof (Hno None (same_driver_enters _ _ _ E))).
  assert (Hrun : wk_kind w = Cleanup \/ wk_kind w = SubmitWork -> run_work s w = Some (s', stop) ->
            submits s w = true /\ pd_owner_id p = wk_id w).
  { intros Hk Hr. pose proof (Hno _ (run_work_enters s w s' stop Hs Hk Hr)) as Ho.
    destruct (submits s w); [|done]. split; congruence. }
  assert (Hsub : submits s w = true -> wk_kind w = SubmitWork /\ st_status s = Running /\ st_shutdown s = false).
  { unfold submits, entries_enabled. intros [[Hk%bool_decide_eq_true [Hst Hsh]%andb_prop]%andb_prop _]%andb_prop.
    split; [done|]. split; [by destruct (st_status s)|by destruct (st_shutdown s)]. }
  unfold process_work in Hw. destruct (wk_kind w) eqn:Hk.
  - destruct (recover_insight_work s (wk_id w)) as [s1|] eqn:Hr; [|done]. simplify_eq.
    by pose proof (Hno _ (recover_enters _ _ _ Hr)).
  - destruct (entries_enabled s) eqn:Hen.
    2:{ destruct Hrun as [Hsb _]; [by right|done|]. unfold submits in Hsb. rewrite Hen, andb_false_r in Hsb. done. }
    destruct (insight_entry_permission s (wk_id w)) eqn:Hperm.
    + destruct Hrun as [Hsb Ho]; [by right|done|]. destruct (Hsub Hsb) as (_ & Hst & Hsh).
      split; [done|]. split; [done|]. split; [done|]. split; [done|]. split; [done|].
      by apply walk_decides in Hperm as [_ Hperm].
    + destruct (is_none_or _ _) eqn:Hnone; [destruct Hsame; by simplify_eq|].
      destruct Hrun as [Hsb _]; [by right|done|]. unfold submits in Hsb. exfalso.
      destruct (c_insights (st_insights s) !! wk_id w) as [row|]; [|done]. simpl in Hnone, Hsb.
      destruct (has_pending_submit row); [|done]. by rewrite andb_false_r in Hsb.
    + destruct Hsame; by simplify_eq.
  - destruct Hrun as [Hsb _]; [by left|done|]. by destruct (Hsub Hsb).
  - destruct (activate_child s w) as [s1|] eqn:Ha; [|done]. simplify_eq.
    destruct Hsame. by eapply activate_child_driver.
  - destruct (activate_child s w) as [s1|] eqn:Ha; [|done]. simplify_eq.
    destruct Hsame. by eapply activate_child_driver.
Qed.
End Gate.

(** ** The child of a filled parent *)
Module GateDemo.
Import OwnerDemo.
#[local] Existing Instances ids_json demo_fingerprint receipts names pipes layouts.
Definition filled : StrategyState NoPipe :=
  (default (watched, 0) (on_trade_update_with_budget watched 8 (fun _ => false)
    (fun n _ => if n =? 0 then [(fill, EvFilled)] else []))).1.
Definition activated : StrategyState NoPipe :=
  (default (filled, 0) (process_insight_work filled 2 (fun _ => false))).1.
Definition request : Work := mkWork 8%N SubmitWork 0.
Definition sent : StrategyState NoPipe := (default (activated, true) (process_work activated request)).1.
Definition entry : option (string * PendingCommand) :=
  match st_driver sent with Some d => head (map_to_list (d_pending d)) | None => None end.

Lemma activated_ok : base_ok activated.
Proof.
  pose proof (owner_steps_ok _ _ reaches_watched (started_ok _ start_started)) as [Hb Hq _].
  destruct (trade_loop_keeps 8 (fun _ => false) (fun n _ => if n =? 0 then [(fill, EvFilled)] else []) 8 0 watched Hb)
    as (s1 & k1 & E1 & Hk1).
  assert (filled = s1) as Ef by (unfold filled, on_trade_update_with_budget; by rewrite E1).
  rewrite <- Ef in Hk1. destruct (work_loop_part 2 (fun _ => false) 0 filled (kp_base _ _ Hk1 Hb) (kp_queue _ _ Hk1 _ Hq))
    as (s2 & k2 & E2 & Hp2).
  assert (activated = s2) as -> by (unfold activated; change (process_insight_work filled 2 (fun _ => false))
    with (work_loop 2 (fun _ => false) 0 filled); by rewrite E2).
  apply (pt_base _ _ _ _ Hp2), (kp_base _ _ Hk1), Hb.
Qed.

Lemma entries_need_permission_witness :
  exists id p, entry = Some (id, p) /\ pd_owner_id p = 8%N /\ exists n, n <= 64 /\ may_enter (st_insights activated) n 8%N.
Proof.
  assert (Hw : exists stop, process_work activated request = Some (sent, stop)).
  { unfold sent. destruct (process_work activated request) as [[s' stop]|] eqn:Hp; [by eexists|]. by vm_compute in Hp. }
  destruct Hw as [stop Hw].
  assert (Ed : exists d, st_driver activated = Some d /\ d_pending d = ∅).
  { destruct (st_driver activated) as [d|] eqn:E; [|by vm_compute in E]. exists d. split; [done|].
    assert (E2 : d_pending <$> st_driver activated = Some ∅) by (vm_compute; reflexivity).
    rewrite E in E2. by injection E2. }
  destruct Ed as (d & Ed & Hempty).
  destruct entry as [[id p]|] eqn:Ee; [|by vm_compute in Ee]. exists id, p. split; [done|].
  unfold entry in Ee. destruct (st_driver sent) as [d'|] eqn:Ed'; [|done].
  assert (Hin : (id, p) ∈ map_to_list (d_pending d')) by (destruct (map_to_list _); [done|]; injection Ee as ->; left).
  apply elem_of_map_to_list in Hin.
  destruct (entries_need_permission activated request sent stop d d' id p activated_ok Hw Ed Ed') as (_ & Ho & _ & _ & _ & Hm).
  - by rewrite Hempty.
  - done.
  - assert (Hk : (is_entry ∘ cmd_action ∘ pd_command ∘ snd) <$> entry = Some true) by (vm_compute; reflexivity).
    unfold entry in Hk. rewrite Ed', Ee in Hk. by injection Hk.
  - split; [exact Ho|exact Hm].
Defined.
End GateDemo.
