(* ===== verification/PersistenceFacts.v ===== *)
(** * PersistenceFacts: what the scheduler of checkpoints saves, and when

    [saved_order] is the order in which the rows below a root are saved: every row
    after the rows of its children, the canonical row in place of the template, no
    row that was removed, and an error on a cycle or below 64 levels.  The walk of
    the source, which keeps its position as a stack of paths, yields this order.
    An insight leaves the dirty set only when the journal's row is its row. *)
From stdpp Require Import relations.
From S2P Require Import Prelude.
From S2P Require Import OrderedSet.
From S2P Require Import Float64.
From S2P Require Import Text.
From S2P Require Import BrokerTypes.
From S2P Require Import TimeFrame.
From S2P Require Import InsightTypes.
From S2P Require Import Commands.
From S2P Require Import ExecutionData.
From S2P Require Import Insight.
From S2P Require Import Operations.
From S2P Require Import Submission.
From S2P Require Import OrderReducer.
From S2P Require Import RecoveryViews.
From S2P Require Import Collection.
From S2P Require Import CollectionInvariant.
From S2P Require Import Checkpoint.
From S2P Require Import Journal.
From S2P Require Import CommandWorker.
From S2P Require Import CommandDriver.
From S2P Require Import CommandDriverFacts.
From S2P Require Import CommandLife.
From S2P Require Import DriverOwnership.
From S2P Require Import SnapshotDependencies.
From S2P Require Import Pipeline.
From S2P Require Import WorkQueue.
From S2P Require Import StrategyOwner.
From S2P Require Import StrategyOwnerFacts.
From S2P Require Import ExecutionPersistence.
From S2P Require Import CommandWorkerFacts.
From S2P Require Import InsightInvariant.
From S2P Require Import Scripted.
From S2P Require Import JournalFacts.
From S2P Require Import OwnerTurns.

(** ** The order of the rows *)
Section Walk.
Context `{Json}.

(** [room] levels are left below [insight]; [above] are its ancestors in the walk. *)
Definition cyclic : BrokerCommandError := invalid "cyclic or excessive-depth insight checkpoint hierarchy".
Definition saved_child (visit : Insight -> list (Insight * bool) * result unit BrokerCommandError)
    (c : InsightCollection) (open : list Uuid) (full : bool) (child : Insight)
    : list (Insight * bool) * result unit BrokerCommandError :=
  if retired c (i_insight_id child) then ([], Ok ())
  else if bool_decide (i_insight_id child ∈ open) || full then ([], Err cyclic)
  else visit (canonical c child).
Fixpoint in_turn {A} (f : A -> list (Insight * bool) * result unit BrokerCommandError) (l : list A)
    (last : list (Insight * bool) * result unit BrokerCommandError)
    : list (Insight * bool) * result unit BrokerCommandError :=
  match l with
  | [] => last
  | x :: l => match f x with
              | (rows, Err e) => (rows, Err e)
              | (rows, Ok _) => let '(rows', r) := in_turn f l last in (rows ++ rows', r)
              end
  end.
Fixpoint visit (room : nat) (c : InsightCollection) (above : list Uuid) (insight : Insight)
    : list (Insight * bool) * result unit BrokerCommandError :=
  let open := i_insight_id insight :: above in
  in_turn (saved_child match room with O => fun _ => ([], Ok ()) | S room => visit room c open end
             c open (room =? 0)) (i_children insight)
    ([(insight, is_some (c_insights c !! i_insight_id insight))], Ok ()).
Definition saved_order (c : InsightCollection) (row : Insight) : list (Insight * bool) * result unit BrokerCommandError :=
  visit 63 c [] row.

(** The walk, run to its end on a collection that stays as it is. *)
Fixpoint walk_run (n : nat) (w : CheckpointWalk) (c : InsightCollection)
    : list (Insight * bool) * option (result unit BrokerCommandError) :=
  match n with
  | O => ([], None)
  | S n =>
      match walk_step w c with
      | (_, Err e) => ([], Some (Err e))
      | (_, Ok Finished) => ([], Some (Ok ()))
      | (w, Ok Visited) => walk_run n w c
      | (w, Ok (WalkRow insight m _)) => let '(rows, r) := walk_run n w c in ((insight, m) :: rows, r)
      end
  end.

Lemma resolve_snoc c insight path k :
  resolve_from c insight (path ++ [k]) =
    match resolve_from c insight path with
    | Some x => match i_children x !! k with Some child => Some (canonical c child) | None => None end
    | None => None
    end.
Proof.
  revert insight. induction path as [|j path IH]; intros insight; simpl.
  - by destruct (i_children insight !! k).
  - destruct (i_children insight !! j); [apply IH|done].
Qed.
Lemma canonical_id c child : coll_ok c -> i_insight_id (canonical c child) = i_insight_id child.
Proof.
  intros Hc. unfold canonical. destruct (c_insights c !! i_insight_id child) as [row|] eqn:Hr; [|done].
  by apply (co_rows c Hc) in Hr as [? _].
Qed.

(** The rows of one result in front of another. *)
Definition followed_by (a : list (Insight * bool) * result unit BrokerCommandError)
    (rest : list (Insight * bool) * option (result unit BrokerCommandError)) :=
  match a with
  | (rows, Err e) => (rows, Some (Err e))
  | (rows, Ok _) => (rows ++ rest.1, rest.2)
  end.
Lemma followed_in_turn {A} (f : A -> list (Insight * bool) * result unit BrokerCommandError) x l last rest :
  followed_by (in_turn f (x :: l) last) rest = followed_by (f x) (followed_by (in_turn f l last) rest).
Proof.
  simpl. destruct (f x) as [rows [u|e]]; [|done]. destruct (in_turn f l last) as [rows' [u'|e']]; [|done].
  simpl. by rewrite app_assoc.
Qed.

Lemma followed_nil rest : followed_by ([], Ok ()) rest = rest.
Proof. by destruct rest. Qed.

(** One step of the walk at child [k] of the row on top. *)
Lemma walk_row_step c root below insight path k :
  resolve c root path = Some insight -> i_children insight !! k = None ->
  walk_step (mkWalk root (mkFrame (i_insight_id insight) path k :: below)) c =
    (mkWalk root below,
     Ok (WalkRow insight (is_some (c_insights c !! i_insight_id insight)) (mkFrame (i_insight_id insight) path k))).
Proof.
  intros Hres Hk. unfold walk_step. cbn [cw_stack cw_root wf_id wf_path wf_next_child].
  by rewrite Hres, bool_decide_eq_true_2, Hk by done.
Qed.
Lemma step_child c root below insight path k child :
  resolve c root path = Some insight -> i_children insight !! k = Some child ->
  let stack := mkFrame (i_insight_id insight) path (S k) :: below in
  walk_step (mkWalk root (mkFrame (i_insight_id insight) path k :: below)) c =
    if retired c (i_insight_id child) then (mkWalk root stack, Ok Visited)
    else if bool_decide (i_insight_id child ∈ i_insight_id insight :: (wf_id <$> below)) || (63 <=? length below)
    then (mkWalk root stack, Err cyclic)
    else (mkWalk root (mkFrame (i_insight_id child) (path ++ [k]) 0 :: stack), Ok Visited).
Proof.
  intros Hres Hk. unfold walk_step. cbn [cw_stack cw_root wf_id wf_path wf_next_child].
  by rewrite Hres, bool_decide_eq_true_2, Hk by done.
Qed.

(** The walk works off the children of the row on top, from child [k] on, and then the row. *)
Definition below_of (room : nat) (c : InsightCollection) (above : list Uuid) (insight : Insight) (l : list Insight)
    : list (Insight * bool) * result unit BrokerCommandError :=
  let open := i_insight_id insight :: above in
  in_turn (saved_child match room with O => fun _ => ([], Ok ()) | S room => visit room c open end c open (room =? 0)) l
    ([(insight, is_some (c_insights c !! i_insight_id insight))], Ok ()).
Lemma visit_below room c above insight : visit room c above insight = below_of room c above insight (i_children insight).
Proof. by destruct room. Qed.
Definition reaches (c : InsightCollection) (root : Uuid) (room : nat) (above : list Uuid) (below : list WalkFrame)
    (insight : Insight) (path : list nat) (k : nat) : Prop :=
  exists n, forall m, walk_run (n + m) (mkWalk root (mkFrame (i_insight_id insight) path k :: below)) c =
    followed_by (below_of room c above insight (drop k (i_children insight))) (walk_run m (mkWalk root below) c).

Lemma reaches_row c root room above below insight path k :
  resolve c root path = Some insight -> i_children insight !! k = None ->
  reaches c root room above below insight path k.
Proof.
  intros Hres Hk. exists 1. intros m. rewrite (drop_ge (i_children insight) k) by (by apply lookup_ge_None).
  cbn [Nat.add walk_run]. rewrite walk_row_step by done. simpl. by destruct (walk_run m _ c).
Qed.
Lemma drop_at {A} (l : list A) k x l' : x :: l' = drop k l -> l !! k = Some x /\ l' = drop (S k) l.
Proof.
  intros E. assert (Hk : l !! k = Some x) by (rewrite <- (Nat.add_0_r k), <- lookup_drop, <- E; done).
  split; [done|]. rewrite (drop_S _ _ _ Hk) in E. by injection E.
Qed.

Lemma walk_visits c root room above below insight path k :
  coll_ok c -> length below + room = 63 -> wf_id <$> below = above ->
  resolve c root path = Some insight -> reaches c root room above below insight path k.
Proof.
  intros Hc. revert above below insight path k.
  induction room as [|room IHroom]; intros above below insight path k Hlen Hbelow Hres.
  all: remember (drop k (i_children insight)) as l eqn:El; revert k El; induction l as [|child l IHl]; intros k El.
  all: try (apply reaches_row; [done|]; apply lookup_ge_None; apply (f_equal length) in El; rewrite length_drop in El; simpl in El; lia).
  all: destruct (drop_at _ _ _ _ El) as [Hk El']; destruct (IHl (S k) El') as [n Hn]; rewrite <- El' in Hn.
  all: pose proof (step_child c root below insight path k child Hres Hk) as Hstep; cbv zeta in Hstep; rewrite Hbelow in Hstep.
  all: unfold reaches; rewrite <- El; unfold below_of in *; cbv zeta in *.
  all: destruct (retired c (i_insight_id child)) eqn:Hret.
  1, 3: exists (S n); intros m; cbn [Nat.add walk_run]; rewrite Hstep, Hn, (followed_in_turn _ child);
        unfold saved_child at 2; rewrite Hret; by rewrite followed_nil.
  - exists 1. intros m. cbn [Nat.add walk_run]. rewrite Hstep. replace (63 <=? length below) with true by (symmetry; apply Nat.leb_le; lia).
    rewrite orb_true_r, (followed_in_turn _ child). unfold saved_child at 1. by rewrite Hret, orb_true_r.
  - replace (63 <=? length below) with false in Hstep by (symmetry; apply Nat.leb_gt; lia).
    rewrite orb_false_r in Hstep. destruct (bool_decide _) eqn:Hin.
    { exists 1. intros m. cbn [Nat.add walk_run]. rewrite Hstep, (followed_in_turn _ child). unfold saved_child at 1.
      by rewrite Hret, Hin. }
    assert (Hres' : resolve c root (path ++ [k]) = Some (canonical c child)).
    { unfold resolve in *. destruct (c_insights c !! root); [|done]. by rewrite resolve_snoc, Hres, Hk. }
    destruct (IHroom (i_insight_id insight :: above) (mkFrame (i_insight_id insight) path (S k) :: below)
                (canonical c child) (path ++ [k]) 0) as [n1 Hn1]; [simpl; lia|by rewrite fmap_cons, Hbelow|done|].
    exists (S (n1 + n)). intros m. cbn [Nat.add walk_run]. rewrite Hstep.
    rewrite <- (canonical_id c child Hc), <- Nat.add_assoc, Hn1, drop_0, Hn, (followed_in_turn _ child).
    unfold saved_child at 2. by rewrite Hret, Hin, (visit_below room).
Qed.

(** C33 The walk saves the rows below a root in post-order and terminates: on a collection that stays
    as it is, the walk from a root ends, and what it yields is exactly the reference order: each row
    after all the rows of its children, the canonical row wherever the collection has one, nothing
    from a template whose row was removed, and the error on the first child that is its own ancestor
    or lies below 64 levels, after the rows that precede it. *)
Theorem walk_is_post_order c root row :
  coll_ok c -> c_insights c !! root = Some row ->
  exists n, walk_run n (walk_new root) c = ((saved_order c row).1, Some (saved_order c row).2).
Proof.
  intros Hc Hr. destruct (co_rows c Hc _ _ Hr) as [Hid _].
  destruct (walk_visits c root 63 [] [] row [] 0 Hc eq_refl eq_refl) as [n Hn].
  { unfold resolve. by rewrite Hr. }
  exists (n + 1). unfold walk_new. rewrite <- Hid at 2. rewrite Hn, drop_0.
  change (below_of 63 c [] row (i_children row)) with (saved_order c row).
  destruct (saved_order c row) as [rows [[]|e]]; [|done]. simpl. by rewrite app_nil_r.
Qed.
End Walk.

(** ** Nothing is forgotten before it is saved *)
Section Dirty.
Context {P : Type} `{UuidText} `{Json} `{CommandIds} `{JournalJson} `{ReceiptJson} `{Chrono} `{Fingerprint}
  `{FreshIds} `{LeafPipe P (StrategyState P)} `{LayoutJson}.
Abbreviation State := (StrategyState P).
Abbreviation pipeline_checkpoint := (execution_checkpoint (C := State)).

(** The durable row of [id] is its row, and its commands are durable. *)
Definition is_saved (s : State) (d : Driver) (id : Uuid) : Prop :=
  exists row, c_insights (st_insights s) !! id = Some row /\
    checkpoint_execution_matches d id (snapshot_fingerprint_hash row) true (pipeline_checkpoint (st_pipeline s) id) = true /\
    has_unpersisted_intents d id = false.
Record forgets_saved (d : Driver) (s s' : State) : Prop := {
  fs_rows : c_insights (st_insights s') = c_insights (st_insights s);
  fs_pipeline : st_pipeline s' = st_pipeline s;
  fs_dirty id : id ∈ c_exec_dirty (st_insights s) -> id ∈ c_exec_dirty (st_insights s') \/ is_saved s' d id
}.
Lemma is_saved_same (s s' : State) d id :
  c_insights (st_insights s') = c_insights (st_insights s) -> st_pipeline s' = st_pipeline s ->
  is_saved s d id -> is_saved s' d id.
Proof. intros E1 E2 (row & Hr & Hm & Hu). exists row. by rewrite E1, E2. Qed.
#[export] Instance forgets_saved_preorder d : PreOrder (forgets_saved d).
Proof.
  split; [by split; auto|]. intros s1 s2 s3 [A1 A2 A3] [B1 B2 B3]. split; [congruence|congruence|].
  intros id Hid. destruct (A3 id Hid) as [H2'|Hs]; [by apply B3|]. right. by eapply is_saved_same.
Qed.
Lemma forgets_same d (s : State) p : forgets_saved d s (s <| st_persistence := p |>).
Proof. split; [done|done|by left]. Qed.
Lemma mark_saved_forgets d s id row :
  c_insights (st_insights s) !! id = Some row ->
  checkpoint_execution_matches d id (snapshot_fingerprint_hash row) true (pipeline_checkpoint (st_pipeline s) id) = true ->
  has_unpersisted_intents d id = false -> forgets_saved d s (mark_saved s d id).
Proof.
  intros Hr Hm Hu. unfold mark_saved. set (c := if has_pending_owner d id then _ else _).
  assert (E : c_insights c = c_insights (st_insights s) /\ c_exec_dirty c = c_exec_dirty (st_insights s) ∖ {[id]})
    by (unfold c; by destruct (has_pending_owner d id)).
  destruct E as [E1 E2]. split; [done|done|]. intros x Hx. cbn. rewrite E2, elem_of_difference, elem_of_singleton.
  destruct (decide (x = id)) as [->|Hne]; [|by left]. right. exists row. cbn. by rewrite E1.
Qed.

Lemma scan_roots_forgets clock limit n d roots s : forgets_saved d s (scan_roots clock limit n d roots s).1.
Proof.
  revert n s. induction roots as [|id roots IH]; intros n s; simpl; [reflexivity|].
  case_bool_decide; [apply IH|]. destruct (_ || _); [reflexivity|].
  destruct (c_insights _ !! id) as [row|] eqn:Hr; [|apply IH].
  destruct (_ && _) eqn:Hm; (etrans; [|apply IH]); [|apply forgets_same].
  apply andb_prop in Hm as [[Hm Hu%negb_true_iff]%andb_prop _]. by eapply mark_saved_forgets.
Qed.

(** A row the walk calls materialized is the row of the collection. *)
Definition canonical_row (s : State) (insight : Insight) (m : bool) : Prop :=
  m = true -> c_insights (st_insights s) !! i_insight_id insight = Some insight.
Lemma add_row_forgets s d b insight m s' b' r :
  canonical_row s insight m -> add_row s d b insight m = Some (s', b', r) -> forgets_saved d s s'.
Proof.
  intros Hcan. unfold add_row. case_bool_decide; [intros ?; by simplify_eq|]. cbv zeta.
  destruct (_ && _) eqn:Hm.
  - intros ?; simplify_eq. destruct m; [|reflexivity]. apply andb_prop in Hm as [[Hm Hu%negb_true_iff]%andb_prop _].
    eapply mark_saved_forgets; [by apply Hcan|exact Hm|done].
  - destruct (checkpoint_byte_budget _ _) as [[size|e]|]; [|intros ?; by simplify_eq|done].
    destruct (_ <? _)%Z; intros ?; by simplify_eq.
Qed.

Lemma resolve_canonical c root path insight :
  coll_ok c -> resolve c root path = Some insight ->
  is_some (c_insights c !! i_insight_id insight) = true -> c_insights c !! i_insight_id insight = Some insight.
Proof.
  intros Hc. unfold resolve. destruct (c_insights c !! root) as [row|] eqn:Hr; [|done].
  destruct path as [|k path] using rev_ind.
  - intros [= ->] _. by destruct (co_rows c Hc _ _ Hr) as [-> _].
  - rewrite resolve_snoc. destruct (resolve_from c row path) as [x|]; [|done].
    destruct (i_children x !! k) as [child|]; [|done]. intros [= <-]. rewrite (canonical_id c child Hc).
    unfold canonical. by destruct (c_insights c !! i_insight_id child).
Qed.
Lemma walk_row_canonical c w w' insight m frame :
  coll_ok c -> walk_step w c = (w', Ok (WalkRow insight m frame)) ->
  m = true -> c_insights c !! i_insight_id insight = Some insight.
Proof.
  intros Hc. unfold walk_step. destruct (cw_stack w) as [|f below]; [done|].
  destruct (resolve c (cw_root w) (wf_path f)) as [x|] eqn:Hres; [|done]. destruct (negb _); [done|].
  destruct (i_children x !! _) as [child|]; cbv zeta; [destruct (retired _ _); [done|by destruct (_ || _)]|].
  intros [= _ <- <- _]. by eapply resolve_canonical.
Qed.

Lemma step_walk_forgets s w d b s' r :
  coll_ok (st_insights s) -> step_walk s w d b = Some (s', r) -> forgets_saved d s s'.
Proof.
  intros Hc. unfold step_walk. destruct (walk_step w (st_insights s)) as [w' res] eqn:Hw.
  destruct res as [[|insight m frame|]|e]; try (intros ?; simplify_eq; apply forgets_same).
  destruct (add_row (with_walk s w') d b insight m) as [[[s1 b1] r1]|] eqn:Ha; [|done].
  assert (Hf : forgets_saved d s s1).
  { transitivity (with_walk s w'); [apply forgets_same|]. eapply add_row_forgets; [|exact Ha].
    intros Hm. by eapply walk_row_canonical. }
  destruct r1 as [[|b2|]|e]; try (intros ?; by simplify_eq). cbv zeta.
  destruct (rb_rows b1); intros ?; simplify_eq; (etrans; [exact Hf|apply forgets_same]).
Qed.
Lemma collect_rows_forgets fuel clock n d b s s' r :
  driver_ok d -> base_ok s -> collect_rows fuel clock n d b s = Some (s', r) -> forgets_saved d s s'.
Proof.
  intros Hd. revert n b s. induction fuel as [|fuel IH]; intros n b s Hs; simpl; [intros ?; by simplify_eq|].
  destruct (_ || _); [intros ?; by simplify_eq|].
  assert (Hstep : forall t w, base_ok t -> forgets_saved d s t -> ep_walk (st_persistence t) = Some w ->
    (let* (s, r) := step_walk t w d b in
     match r with
     | Err error => Some (s, Err error)
     | Ok (b, true) => collect_rows fuel clock (S n) d b s
     | Ok (b, false) => Some (s, Ok (S n, b))
     end) = Some (s', r) -> forgets_saved d s s').
  { intros t w Ht Hst Hw. destruct (step_walk_saves t w d b Hd Hw) as (t1 & r1 & E & Hsv). rewrite E.
    pose proof (step_walk_forgets _ _ _ _ _ _ (bo_coll t Ht) E) as Hf1. assert (Hf : forgets_saved d s t1) by (by etrans).
    destruct r1 as [[b1 [|]]|e]; [|intros ?; by simplify_eq|intros ?; by simplify_eq].
    intros Hr. etrans; [exact Hf|]. eapply IH; [by apply Hsv|exact Hr]. }
  assert (Hp : forall p, base_ok (s <| st_persistence := p |>)) by (intros p; destruct Hs as [A B C]; by split).
  destruct (ep_walk (st_persistence s)) as [w|] eqn:Hw; [by apply Hstep|].
  destruct (ep_roots (st_persistence s)) as [|root roots]; [intros ?; by simplify_eq|].
  destruct (c_insights (st_insights s) !! root).
  - apply Hstep; [apply Hp|apply forgets_same|done].
  - intros Hr. etrans; [apply forgets_same|]. eapply IH; [apply Hp|exact Hr].
Qed.

(** Handing a batch to the journal saves nothing yet. *)
Lemma persist_saved_rows d rows receipts submit d' r id :
  persist_execution_checkpoints d rows receipts submit = Some (d', r) ->
  d_saved_rows d' = d_saved_rows d /\ (has_unpersisted_intents d id = false -> has_unpersisted_intents d' id = false).
Proof.
  unfold persist_execution_checkpoints. destruct (is_some _); [intros ?; by simplify_eq|].
  destruct (check_receipts d rows receipts) as [[]|] eqn:Ec; [|intros ?; by simplify_eq].
  pose proof (check_receipts_spec _ _ _ Ec) as Hr.
  destruct (stage_rows _ _ _) as [[rows' intents]|]; [|done].
  destruct (with_intents rows' receipts intents) as [b|]; [|intros ?; by simplify_eq].
  destruct submit as [[]|]; [|intros ?; by simplify_eq].
  destruct (mark_applying _ true (d_pending d)) as [m|] eqn:Em; [|done]. intros ?; simplify_eq. split; [done|].
  destruct (mark_all_spec (fun p => p <| pd_applying := true |>) (rcpt_id <$> receipts) (d_pending d)) as (m' & Hm' & Hl).
  { done. }
  { intros x (rc & -> & Hin)%list_elem_of_fmap. destruct (Hr rc Hin) as (p & ? & _). eauto. }
  assert (m' = m) as -> by (unfold mark_applying in Em; congruence).
  unfold has_unpersisted_intents. cbn. intros Hu. apply not_true_iff_false. intros (x & Hx & Hd)%existsb_exists.
  apply not_true_iff_false in Hu. apply Hu. apply existsb_exists. exists x. split; [exact Hx|]. rewrite Hl in Hd.
  destruct (decide _); [|done]. by destruct (d_pending d !! x).
Qed.

(** C8 An insight stays marked as changed until exactly what it is has been made durable: a turn of the
    scheduler takes an insight off the dirty set only if the row the journal acknowledged last has its
    current fingerprint and its current position in the pipeline, and every one of its broker commands
    is durable too; whatever the order of the roots, the budget, and how far the walk got. *)
Theorem dirty_until_saved s max zero clock submit s' r id :
  owner_ok s -> advance_execution_persistence s max zero clock submit = Some (s', r) ->
  id ∈ c_exec_dirty (st_insights s) -> id ∉ c_exec_dirty (st_insights s') ->
  exists d, st_driver s' = Some d /\ is_saved s' d id.
Proof.
  intros Hs Hadv Hin Hout. unfold advance_execution_persistence in Hadv. cbv zeta in Hadv. set (limit := Nat.min max 256) in *.
  destruct (_ || _); [by simplify_eq|]. destruct (st_driver s) as [d|] eqn:Ed; [|by simplify_eq].
  pose proof (bo_driver s (oo_base s Hs) d Ed) as Hd.
  destruct (poll_works d limit Hd) as (d1 & r1 & E1 & Hw1). rewrite E1 in Hadv. destruct (Hw1 Hd) as [Hd1 _].
  destruct r1 as [polled|e]; [|by simplify_eq].
  assert (H2' : exists d2 r, (if late_poll clock then Some (d1, Ok 0)
     else dispatch_prepared_with_admission d1 (limit - polled) (entries_enabled s) (st_now_us s)) = Some (d2, r) /\ works d1 d2).
  { destruct (late_poll clock); [eexists _, _; split; [done|reflexivity]|by apply dispatch_works]. }
  destruct H2' as (d2 & r2 & E2 & Hw2). rewrite E2 in Hadv. destruct (Hw2 Hd1) as [Hd2 _].
  destruct r2 as [dispatched|e]; [|by simplify_eq]. destruct (_ || _); [by simplify_eq|].
  set (s2 := s <| st_driver := Some d2 |>) in Hadv.
  assert (Hs2 : base_ok s2).
  { apply base_driver; [|apply Hs]. rewrite Ed. constructor. by etrans. }
  match type of Hadv with context [scan_roots clock limit ?n d2 ?l s2] =>
    pose proof (scan_roots_saves clock limit n d2 l s2) as Hscan;
    pose proof (scan_roots_forgets clock limit n d2 l s2) as Hf; destruct (scan_roots clock limit n d2 l s2) as [s3 n3] end.
  cbn [fst] in Hscan, Hf.
  destruct (collect_rows_saves (limit - n3) clock n3 d2 (mkRowBatch [] ∅ [] 64) s3 (ow_ok _ Hd2)) as (s4 & r4 & E4 & Hcol).
  rewrite E4 in Hadv.
  pose proof (collect_rows_forgets _ _ _ _ _ _ _ _ (ow_ok _ Hd2) (sv_base _ _ Hscan Hs2) E4) as Hf4.
  assert (Hf24 : forgets_saved d2 s2 s4) by (by etrans).
  assert (Ed4 : st_driver s4 = Some d2) by (by rewrite (sv_driver _ _ Hcol), (sv_driver _ _ Hscan)).
  assert (Hsaved : id ∉ c_exec_dirty (st_insights s4) -> is_saved s4 d2 id).
  { intros Hn. destruct (fs_dirty _ _ _ Hf24 id Hin); done. }
  destruct r4 as [[n4 b]|e]; [|simplify_eq; by eauto]. destruct (rb_rows b) as [|row rows]; [simplify_eq; by eauto|].
  destruct (persist_execution_checkpoints d2 (row :: rows) (rb_receipts b) submit) as [[d5 r5]|] eqn:E5; [|done].
  destruct (persist_saved_rows _ _ _ _ _ _ id E5) as [F1 F2].
  assert (s' = s4 <| st_driver := Some d5 |>) as -> by (by destruct r5; simplify_eq).
  exists d5. split; [done|]. destruct (Hsaved Hout) as (rw & Hr & Hm & Hu). exists rw. split; [done|]. split; [|by apply F2].
  unfold checkpoint_execution_matches in *. by rewrite F1.
Qed.
End Dirty.

(** ** A parent and its child are saved *)
Module SavedDemo.
Import OwnerDemo.
#[local] Existing Instances ids_json demo_fingerprint receipts names pipes layouts.

Lemma walk_is_post_order_witness :
  exists n, walk_run n (walk_new 7%N) with_parent = ([(hd parent (i_children parent), false); (parent, true)], Some (Ok ())).
Proof.
  assert (Hr : c_insights with_parent !! 7%N = Some parent) by (vm_compute; reflexivity).
  destruct (walk_is_post_order with_parent 7%N parent) as [n Hn]; [|exact Hr|].
  - exact (bo_coll _ (oo_base _ (owner_steps_ok _ _ reaches_watched (started_ok _ start_started)))).
  - exists n. rewrite Hn. vm_compute. reflexivity.
Defined.

Definition tracked : InsightCollection := enable_execution_persistence collection_new.
Definition tracked_parent : InsightCollection := default tracked (add_insight tracked parent).
Definition changed : StrategyState NoPipe := watched <| st_insights := tracked_parent |>.
Definition advance_of (s : StrategyState NoPipe) : StrategyState NoPipe :=
  match advance_execution_persistence s 256 false on_time (Ok ()) with Some (s', _) => s' | None => s end.
Definition handed : StrategyState NoPipe := advance_of changed.
Definition in_flight : Driver := default demo_driver (st_driver handed).
Definition batch_of (d : Driver) : PersistingExecution :=
  default (mkPersisting [] [] [] None (mkBatch [] [] [])) (d_persisting d).
Definition served : Worker * result unit BrokerCommandError :=
  serve_checkpoint (d_worker in_flight) (ps_batch (batch_of in_flight)).
Definition durable : StrategyState NoPipe := on_driver handed (answered in_flight (batch_of in_flight) served.1 served.2).

Lemma parent_tracked : add_insight tracked parent = Some tracked_parent.
Proof. vm_compute. reflexivity. Qed.
Lemma changed_ok : owner_ok changed.
Proof.
  pose proof (owner_step_ok _ _ (os_persistent start) (started_ok _ start_started)) as H1'.
  exact (owner_step_ok _ _ (os_insight (start <| st_insights := tracked |>) parent tracked_parent parent_ok parent_tracked) H1').
Qed.
Lemma handed_owner_ok : owner_ok handed.
Proof.
  unfold handed, advance_of. destruct (advance_total changed 256 false on_time (Ok ()) changed_ok) as (s' & r & -> & Hok & _).
  exact Hok.
Qed.
Lemma durable_ok : owner_ok durable.
Proof.
  apply (owner_step_ok handed); [|exact handed_owner_ok].
  apply (os_answer handed in_flight (batch_of in_flight) served.1 served.2); [vm_compute; reflexivity..|].
  apply surjective_pairing.
Qed.
Lemma dirty_until_saved_witness :
  7%N ∈ c_exec_dirty (st_insights durable) /\
  exists s' d, advance_of durable = s' /\ st_driver s' = Some d /\ is_saved s' d 7%N.
Proof.
  assert (Hin : 7%N ∈ c_exec_dirty (st_insights durable)) by (apply (bool_decide_unpack _); vm_compute; exact I).
  split; [exact Hin|].
  destruct (advance_total durable 256 false on_time (Ok ()) durable_ok) as (s' & r & E & _).
  assert (Es : advance_of durable = s') by (unfold advance_of; by rewrite E).
  destruct (dirty_until_saved durable 256 false on_time (Ok ()) s' r 7%N durable_ok E Hin) as (d & Ed & Hs).
  - rewrite <- Es. apply (bool_decide_unpack _). vm_compute. exact I.
  - exists s', d. split; [exact Es|]. split; [exact Ed|exact Hs].
Defined.
End SavedDemo.
