(* ===== verification/PipelineRun.v ===== *)
(** * PipelineRun: running the insight pipeline

    Model of [run_insight_pipeline_budgeted] of [src/src/core/strategy/mod.rs].  The
    pipeline is moved out of the strategy while its stages run, so what a stage sees of
    it is the empty default; the row of the insight is moved out of the collection.

    What the clock and the user interface decide is an argument: [late n] and
    [stop n] tell, when [n] insights were processed, whether the time is used up and
    whether a shutdown was requested. *)
From S2P Require Import Prelude.
From S2P Require Import OrderedSet.
From S2P Require Import Text.
From S2P Require Import BrokerTypes.
From S2P Require Import TimeFrame.
From S2P Require Import InsightTypes.
From S2P Require Import Commands.
From S2P Require Import ExecutionData.
From S2P Require Import Insight.
From S2P Require Import Operations.
From S2P Require Import Collection.
From S2P Require Import Checkpoint.
From S2P Require Import Journal.
From S2P Require Import CommandDriver.
From S2P Require Import SnapshotDependencies.
From S2P Require Import Pipeline.
From S2P Require Import WorkQueue.
From S2P Require Import StrategyOwner.
From S2P Require Import ExecutionPersistence.

(** Which insights a run visits: the ids it was given, or all active ones in the
    order in which the hash set yields them. *)
Inductive Selection := Selected (ids : list Uuid) | FullPass (order : list Uuid).
Definition selected_ids (sel : Selection) : list Uuid :=
  match sel with Selected ids | FullPass ids => ids end.

(** How the stages of one turn ended. *)
Inductive StageEnd :=
| StagesDone
| StagesExit                                     (* an exit or a rejection ended the turn *)
| StagesDeferred (index : nat) (dependency : InsightPipeDeferral)
| StagesFailed (reason : text).

(** The budget of a run: whether the time is used up, whether a shutdown was requested. *)
Record RunBudget := mkRunBudget { rb_late : nat -> bool; rb_stop : nat -> bool }.
(** A run without a budget ends with a turn of the owner, which finds [t]. *)
Inductive RunMode := Within (b : RunBudget) | Completely (t : TurnInput).

Section Run.
Context {P : Type} `{UuidText} `{Json} `{CommandIds} `{JournalJson} `{ReceiptJson} `{Chrono} `{Fingerprint}
  `{FreshIds} `{LeafPipe P (StrategyState P)} `{LayoutJson}.
Abbreviation State := (StrategyState P).
Abbreviation Pipeline := (InsightPipeline P).
Abbreviation Stage := (Wrapped (Pipe P)).
Abbreviation pipeline_checkpoint := (execution_checkpoint (C := State)).

(** ** The stages of one state *)
Definition stage_verdict (w : Stage) (i : Insight) (index : nat) (r : InsightPipeResult) : option StageEnd :=
  match pr_deferred r with
  | Some dependency => Some (StagesDeferred index dependency)
  | None =>
      if negb (pr_success r)
      then Some (StagesFailed (unwrap_or (pr_message r) [Lit "Insight pipe "; Lit (pr_pipe_name r); Lit " failed"]))
      else if pr_passed r then None
      else if i_closing i || i_cancelling i || is_inactive (i_state i) then Some StagesExit
      else Some (StagesFailed (unwrap_or (pr_message r)
                   [Lit "Insight pipe "; Lit (pr_pipe_name r); Lit " did not pass"]))
  end.
Fixpoint stage_loop (start index : nat) (stages : list Stage) (s : State) (i : Insight)
    : list Stage * State * Insight * StageEnd :=
  match stages with
  | [] => ([], s, i, StagesDone)
  | w :: rest =>
      if (index <? start) || negb (should_run w i) then
        let '(rest, s, i, e) := stage_loop start (S index) rest s i in (w :: rest, s, i, e)
      else
        let '(w, s, i, r) := run_wrapped run_pipe w s i in
        match stage_verdict w i index r with
        | Some e => (w :: rest, s, i, e)
        | None => let '(rest, s, i, e) := stage_loop start (S index) rest s i in (w :: rest, s, i, e)
        end
  end.

(** A failed pipeline: a position stays, an entry on its way is cleaned up, anything else is rejected. *)
Definition pipeline_failed (s : State) (id : Uuid) (i : Insight) (reason : text) : State * Insight :=
  if bool_decide (i_state i = Filled)
  then (s, state_log (st_now s) i
             (Some ([Lit "Filled insight pipeline failed; position remains active: "] ++ reason)))
  else if has_pending_submit i || bool_decide (i_state i = Executed)
  then (schedule_insight_cleanup s id,
        state_log (st_now s) i (Some ([Lit "Insight pipeline failed; broker cleanup requested: "] ++ reason)))
  else if negb (is_inactive (i_state i)) then (s, order_rejected (st_now s) i reason)
  else (s, i).

(** ** The turn of one insight *)
Definition fingerprint_changed (before : option Z) (i : Insight) : bool :=
  match before with Some before => negb (before =? snapshot_fingerprint_hash i)%Z | None => false end.
Definition manages_expiration (p : Pipeline) (i : Insight) : bool :=
  existsb (fun w => pipe_controls_expiration (C := State) (wp_inner w) && matches_asset_and_alpha w i)
    (unwrap_or (ip_pipeline p !! i_state i) []).
Definition attempted_before (previous : option DeferredPipeResume) (dependency : InsightPipeDeferral)
    : option SnapshotReadRevision :=
  match previous with
  | Some resume => if bool_decide (dr_dependency resume = dependency) then dr_snapshot_attempted resume else None
  | None => None
  end.

(** The stages of the turn from [start] on; the fingerprint is taken before the
    first one runs. *)
Definition turn_stages (p : Pipeline) (s : State) (i : Insight) (start : nat) (before : option Z)
    : Pipeline * State * Insight * option Z * StageEnd :=
  match ip_pipeline p !! i_state i with
  | None => (p, s, i, before, StagesDone)
  | Some stages =>
      let before := if existsb (fun w => should_run w i) stages && negb (is_some before)
                    then Some (snapshot_fingerprint_hash i) else before in
      let '(stages, s, i', e) := stage_loop start 0 stages s i in
      (p <| ip_pipeline := <[i_state i := stages]> (ip_pipeline p) |>, s, i', before, e)
  end.
(** The row is out of the collection; the flag tells whether its fingerprint changed. *)
Definition insight_turn (p : Pipeline) (s : State) (id : Uuid) (i : Insight) : Pipeline * State * Insight * bool :=
  let state := i_state i in
  let clears_first := bool_decide (state = Filled) && i_first_on_fill i in
  let before := if can_expire i || clears_first then Some (snapshot_fingerprint_hash i) else None in
  let '(s, i, expired) := if can_expire i && negb (manages_expiration p i)
                          then has_expired (st_now s) s i else (s, i, false) in
  if expired then (p, s, i, fingerprint_changed before i)
  else
    let previous := ip_deferred p !! id in
    let start := match previous with Some resume => dr_index resume | None => 0 end in
    let p := p <| ip_deferred := delete id (ip_deferred p) |> in
    let '(p, s, i, before, e) := turn_stages p s i start before in
    match e with
    | StagesFailed reason =>
        let '(s, i) := pipeline_failed s id i reason in (p, s, i, fingerprint_changed before i)
    | StagesDeferred index dependency =>
        (p <| ip_deferred := <[id := mkResume state index dependency (attempted_before previous dependency)]>
                               (ip_deferred p) |>, s, i, fingerprint_changed before i)
    | StagesDone | StagesExit =>
        let i := if clears_first then set_first_on_fill (st_now s) i false else i in
        (p, s, i, fingerprint_changed before i)
    end.

(** ** A run *)
Record Pass := mkPass {
  pa_state : State;
  pa_pipeline : Pipeline;
  pa_touched : gset Uuid;
  pa_membership_changed : bool
}.

(** [if pipeline.forget_continuation(&id) { mark_execution_dirty(id) }]. *)
Definition forget_and_mark (p : Pipeline) (s : State) (id : Uuid) : Pipeline * State :=
  let '(p, known) := forget_continuation (C := State) p id in
  (p, if known then s <| st_insights := mark_execution_dirty (st_insights s) id |> else s).

(** A continuation that changed is saved again and has not seen the present snapshot. *)
Definition note_continuation (before : option InsightPipelineCheckpoint) (p : Pipeline) (s : State) (id : Uuid)
    : Pipeline * State :=
  if bool_decide (before = pipeline_checkpoint p id) then (p, s)
  else
    (mkPipeline (ip_pipeline p)
       (alter (fun resume => mkResume (dr_state resume) (dr_index resume) (dr_dependency resume) None) id
          (ip_deferred p))
       (SnapshotIndex.remove (ip_snapshots p) id),
     s <| st_insights := mark_execution_dirty (st_insights s) id |>).

(** One round of the loop; [None] is a panic. *)
Definition pass_insight (t : Pass) (id : Uuid) : option Pass :=
  let s := pa_state t in
  let p := pa_pipeline t in
  match c_insights (st_insights s) !! id with
  | Some row =>
      if is_inactive (i_state row) then
        let '(p, s) := forget_and_mark p s id in Some (mkPass s p (pa_touched t) (pa_membership_changed t))
      else
        let '(p, s) := match ip_deferred p !! id with
                       | Some resume => if negb (bool_decide (i_state row = dr_state resume))
                                        then forget_and_mark p s id else (p, s)
                       | None => (p, s)
                       end in
        let before_continuation := pipeline_checkpoint p id in
        let '(c, row) := take_for_update (st_insights s) id in
        match row with
        | None => Some (mkPass s p (pa_touched t) (pa_membership_changed t))
        | Some row =>
            let '(p, s, row, touched) := insight_turn p (s <| st_insights := c |>) id row in
            let touched := if touched then {[id]} ∪ pa_touched t else pa_touched t in
            let* c := restore_after_update (st_insights s) row (bool_decide (id ∈ touched)) in
            let '(p, s) := note_continuation before_continuation p (s <| st_insights := c |>) id in
            let '(waits, changed) := SnapshotIndex.update (ip_snapshots p) id (dr_dependency <$> ip_deferred p !! id) in
            Some (mkPass (schedule_insight_children s id) (p <| ip_snapshots := waits |>) touched
                    (pa_membership_changed t || changed))
        end
  | None =>
      let '(p, s) := forget_and_mark p s id in Some (mkPass s p (pa_touched t) (pa_membership_changed t))
  end.

Definition out_of_budget (mode : RunMode) (processed : nat) (s : State) : bool :=
  match mode with
  | Completely _ => false
  | Within b => (negb (processed =? 0) && rb_late b processed) || st_shutdown s || rb_stop b processed
  end.
Fixpoint pass_loop (mode : RunMode) (ids : list Uuid) (processed : nat) (last : option Uuid) (t : Pass)
    : option (Pass * option Uuid * nat) :=
  match ids with
  | [] => Some (t, last, processed)
  | id :: ids =>
      if out_of_budget mode processed (pa_state t) then Some (t, last, processed)
      else
        let* t := pass_insight t id in
        pass_loop mode ids (S processed) (Some id) t
  end.

(** A full pass first drops the continuations of insights that left their state. *)
Definition is_stale (c : InsightCollection) (active : gset Uuid) (id : Uuid) (resume : DeferredPipeResume) : bool :=
  match c_insights c !! id with
  | Some row => negb (bool_decide (id ∈ active) && bool_decide (i_state row = dr_state resume))
  | None => true
  end.
Fixpoint forget_all (ids : list Uuid) (p : Pipeline) (s : State) : Pipeline * State :=
  match ids with
  | [] => (p, s)
  | id :: ids =>
      forget_all ids (forget_continuation (C := State) p id).1
        (s <| st_insights := mark_execution_dirty (st_insights s) id |>)
  end.
Definition stale_ids (p : Pipeline) (s : State) (active : gset Uuid) : list Uuid :=
  List.filter (fun id => is_some_and (is_stale (st_insights s) active id) (ip_deferred p !! id))
    (btree_elements (dom (ip_deferred p))).
Definition prepare_full_pass (p : Pipeline) (s : State) (order : list Uuid) : Pipeline * State :=
  if bool_decide (ip_deferred p = ∅) then (p, s)
  else
    let active := list_to_set order : gset Uuid in
    let '(p, s) := forget_all (stale_ids p s active) p s in
    (p <| ip_pipeline := fmap (M := gmap InsightState)
            (map (fun w => with_inner w (retain_active (C := State) active (wp_inner w)))) (ip_pipeline p) |>, s).

(** The answer: the strategy, the last id consumed, how many were, and whether the
    snapshot notifier is rung. *)
Definition run_insight_pipeline_budgeted (s : State) (sel : Selection) (mode : RunMode)
    : option (State * option Uuid * nat * bool) :=
  let pipeline := st_pipeline s in
  let s := s <| st_pipeline := default_pipeline |> in
  let '(pipeline, s) := match sel with
                        | Selected _ => (pipeline, s)
                        | FullPass order => prepare_full_pass pipeline s order
                        end in
  let* (pass, last, processed) := pass_loop mode (selected_ids sel) 0 None (mkPass s pipeline ∅ false) in
  let s := (pa_state pass) <| st_pipeline := pa_pipeline pass |> in
  match mode with
  | Within _ => Some (s, last, processed, pa_membership_changed pass)
  | Completely t => let* s := on_trade_update s t in Some (s, last, processed, pa_membership_changed pass)
  end.
End Run.
