(* ===== verification/PipelineRunFacts.v ===== *)
(** * PipelineRunFacts: a pipeline run keeps the strategy consistent and loses nothing

    [effect] is what a stage may do to the strategy and to the insight it works on;
    the operations of an insight have it, and [PipeLaws] asks it of the leaf pipes.
    [passes] is what a part of a run guarantees: every component stays consistent,
    the snapshot index mirrors the continuations, and an insight that is not marked
    for saving afterwards is as it was. *)
From stdpp Require Import relations.
From S2P Require Import Prelude.
From S2P Require Import OrderedSet.
From S2P Require Import Float64.
From S2P Require Import Text.
From S2P Require Import BrokerTypes.
From S2P Require Import TimeFrame.
From S2P Require Import InsightTypes.
From S2P Require Import Commands.
From S2P Require Import ExecutionData.
From S2P Require Import Insight.
From S2P Require Import Operations.
From S2P Require Import Submission.
From S2P Require Import Collection.
From S2P Require Import CollectionInvariant.
From S2P Require Import Checkpoint.
From S2P Require Import Journal.
From S2P Require Import JournalFacts.
From S2P Require Import CommandWorkerFacts.
From S2P Require Import InsightInvariant.
From S2P Require Import CommandWorker.
From S2P Require Import CommandDriver.
From S2P Require Import CommandDriverFacts.
From S2P Require Import CommandLife.
From S2P Require Import DriverOwnership.
From S2P Require Import SnapshotDependencies.
From S2P Require Import Pipeline.
From S2P Require Import PipelineFacts.
From S2P Require Import WorkQueue.
From S2P Require Import StrategyOwner.
From S2P Require Import StrategyOwnerFacts.
From S2P Require Import ExecutionPersistence.
From S2P Require Import OwnerTurns.
From S2P Require Import Scripted.
From S2P Require Import PipelineRun.

(** ** What is marked for saving *)
Section Marks.
Context `{Json} `{Fingerprint}.

Definition fingerprint_of (c : InsightCollection) (id : Uuid) : option Z :=
  snapshot_fingerprint_hash <$> c_insights c !! id.
(** A row that is not marked afterwards was not marked before and is the same row. *)
Record marks (c c' : InsightCollection) : Prop := {
  mk_persistence : c_persistence c' = c_persistence c;
  mk_dirty id : c_persistence c = true -> id ∉ c_exec_dirty c' ->
    (id ∉ c_exec_dirty c) /\ fingerprint_of c' id = fingerprint_of c id
}.
#[export] Instance marks_preorder : PreOrder marks.
Proof.
  split; [by split|]. intros c1 c2 c3 [A1 A2] [B1 B2]. split; [congruence|].
  intros id Hp Hd. destruct (B2 id) as [Hd2 ->]; [congruence|done|]. by apply A2.
Qed.
Lemma marks_same c c' :
  c_insights c' = c_insights c -> c_exec_dirty c' = c_exec_dirty c -> c_persistence c' = c_persistence c -> marks c c'.
Proof. intros E1 E2 E3. split; [done|]. intros id _. unfold fingerprint_of. by rewrite E1, E2. Qed.
Lemma mark_dirty_marks c id : marks c (mark_execution_dirty c id).
Proof.
  unfold mark_execution_dirty. destruct (c_persistence c) eqn:Hp; [|done]. split; [done|].
  intros k _. cbn. unfold fingerprint_of. cbn. set_solver.
Qed.
(** A row is taken out, something happens, and it is put back. *)
Lemma restore_marks c c1 row row' changed c2 :
  c_insights c !! i_insight_id row = Some row ->
  marks (c <| c_insights := delete (i_insight_id row) (c_insights c) |>) c1 ->
  coll_ok (c1 <| c_insights := <[i_insight_id row' := row']> (c_insights c1) |>) ->
  restore_after_update c1 row' changed = Some c2 -> i_insight_id row' = i_insight_id row ->
  (changed = false -> snapshot_fingerprint_hash row' = snapshot_fingerprint_hash row) -> marks c c2.
Proof.
  intros Hrow [Hp Hm] Hok Hr Hid Hsame. unfold restore_after_update in Hr. rewrite Hid in *.
  set (id := i_insight_id row) in *. set (c1' := c1 <| c_insights := _ |>) in *.
  assert (Hc2 : c_persistence c2 = c_persistence c1 /\ c_insights c2 = <[id := row']> (c_insights c1) /\
    c_exec_dirty c2 = (if changed && c_persistence c1 then {[id]} ∪ c_exec_dirty c1 else c_exec_dirty c1)).
  { destruct changed; [|injection Hr as <-; done].
    destruct (refresh_form c1' id row' Hok) as (v & bs & bi & cn & o & E & _); [apply lookup_insert_eq|].
    rewrite E in Hr. by injection Hr as <-. }
  destruct Hc2 as (E1 & E2 & E3). split; [by rewrite E1|]. intros k Hpk Hk. rewrite E3 in Hk. cbn in Hp.
  rewrite Hp, Hpk, andb_true_r in Hk. cbn in Hm.
  destruct (Hm k Hpk) as [Hd Hf]; [destruct changed; set_solver|]. split; [done|].
  unfold fingerprint_of in *. rewrite E2. cbn in Hf. destruct (decide (k = id)) as [->|Hne].
  - rewrite lookup_insert_eq, Hrow. simpl. rewrite Hsame; [done|]. destruct changed; [set_solver|done].
  - rewrite lookup_insert_ne by done. by rewrite Hf, lookup_delete_ne.
Qed.
Lemma mark_dirty_in c id : c_persistence c = true -> id ∈ c_exec_dirty (mark_execution_dirty c id).
Proof. unfold mark_execution_dirty. intros ->. cbn. set_solver. Qed.
End Marks.

(** ** What a stage may do *)
Section Effects.
Context {P : Type} `{UuidText} `{Json} `{CommandIds} `{JournalJson} `{ReceiptJson} `{Chrono} `{Fingerprint}
  `{FreshIds} `{LeafPipe P (StrategyState P)} `{LayoutJson}.
Abbreviation State := (StrategyState P).
Abbreviation Pipeline := (InsightPipeline P).
Abbreviation Stage := (Wrapped (Pipe P)).
Abbreviation pipeline_checkpoint := (execution_checkpoint (C := State)).
Abbreviation pipe_cursor := (pipe_checkpoint (C := State)).

(** A part of a run: what it leaves in the place of the pipeline, which is moved
    out, does not matter. *)
Definition upholds (s s' : State) : Prop := keeps s (s' <| st_pipeline := st_pipeline s |>).
Lemma with_pipeline_keeps (s s' : State) (p : Pipeline) : keeps s s' -> keeps (s <| st_pipeline := p |>) (s' <| st_pipeline := p |>).
Proof.
  intros [A B C D]. split; [|exact B|exact C|cbn; congruence].
  intros [E1 E2 E3]. destruct A as [F1 F2 F3]; by split.
Qed.
Lemma repipe (s : State) p p' : (s <| st_pipeline := p |>) <| st_pipeline := p' |> = s <| st_pipeline := p' |>.
Proof. done. Qed.
#[export] Instance upholds_preorder : PreOrder upholds.
Proof.
  split.
  - intros s. unfold upholds. replace (s <| st_pipeline := st_pipeline s |>) with s by (by destruct s). reflexivity.
  - intros s1 s2 s3 H12 H23. unfold upholds in *. etrans; [exact H12|].
    apply (with_pipeline_keeps _ _ (st_pipeline s1)) in H23. by rewrite repipe in H23.
Qed.
Lemma keeps_upholds s s' : keeps s s' -> upholds s s'.
Proof.
  intros Hk. unfold upholds. replace (s' <| st_pipeline := st_pipeline s |>) with s'; [done|].
  pose proof (keeps_pipeline _ _ Hk) as E. destruct s'. cbn in *. by rewrite E.
Qed.
Lemma upholds_base s s' : upholds s s' -> base_ok s -> base_ok s'.
Proof. intros [Hb _ _ _] Hs. destruct (Hb Hs) as [A B C]. by split. Qed.
Lemma upholds_owner s s' p : upholds s s' -> owner_ok s -> owner_ok (s' <| st_pipeline := p |>).
Proof. intros Hu Hs. apply (keeps_owner _ _ Hu) in Hs as [[A B C] D E]. split; [by split|exact D|exact E]. Qed.

Record effect (x y : State * Insight) : Prop := {
  ef_upholds : upholds x.1 y.1;
  ef_marks : base_ok x.1 -> marks (st_insights x.1) (st_insights y.1);
  ef_known : base_ok x.1 -> c_materialized (st_insights x.1) ⊆ c_materialized (st_insights y.1);
  ef_id : i_insight_id y.2 = i_insight_id x.2;
  ef_tree : tree_ok x.2 -> tree_ok y.2
}.
#[export] Instance effect_preorder : PreOrder effect.
Proof.
  split; [by split|]. intros x y z [A1 A2 A3 A4 A5] [B1 B2 B3 B4 B5].
  split; [by etrans| | |congruence|auto]; intros Hb; pose proof (upholds_base _ _ A1 Hb) as Hy.
  - etrans; [by apply A2|by apply B2].
  - etrans; [by apply A3|by apply B3].
Qed.

(** The calls of an operation, and the operation. *)
Record same_rows (s s' : State) : Prop := {
  sr_rows : c_insights (st_insights s') = c_insights (st_insights s);
  sr_dirty : c_exec_dirty (st_insights s') = c_exec_dirty (st_insights s);
  sr_persistence : c_persistence (st_insights s') = c_persistence (st_insights s)
}.
#[export] Instance same_rows_preorder : PreOrder same_rows.
Proof. split; [by split|]. intros s1 s2 s3 [A1 A2 A3] [B1 B2 B3]. split; congruence. Qed.
Lemma steps_rows {enters} s i s' i' : rtc (atomic (enters := enters)) (s, i) (s', i') -> same_rows s s'.
Proof.
  intros Hs. apply (steps_context (enters := enters) same_rows (i_insight_id i) (s, i) (s', i'));
    [intros c a g _|intros c rc|intros c rc|exact Hs|done]; cbn.
  - unfold state_enqueue. destruct (st_driver c) as [d|]; [|done].
    destruct (enqueue_with_constraints _ _ _ _ _ _ _) as [d' [r|e]]; by split.
  - unfold state_reduced. destruct (st_driver c) as [d|]; [|done]. destruct (mark_reduced d rc) as [d' res].
    by destruct (is_ok res).
  - unfold state_cancel_pending. destruct (st_driver c) as [d|]; [|done].
    by destruct (driver_cancel_pending_entry d rc).
Qed.
Lemma steps_effect {enters} s i s' i' :
  rtc (atomic (enters := enters)) (s, i) (s', i') -> effect (s, i) (s', i').
Proof.
  intros Hs. destruct (steps_calls _ _ _ _ Hs) as [Hc Hf]. destruct (steps_rows _ _ _ _ Hs) as [E1 E2 E3].
  split; cbn; [by apply keeps_upholds, calls_keeps|intros _; by apply marks_same|intros _; by rewrite (cl_materialized _ _ Hc)|by apply fixed_id|by apply tree_fixed].
Qed.
Lemma local_effect (s : State) i i' : fixed_view i' = fixed_view i -> effect (s, i) (s, i').
Proof. intros Hf. split; cbn; [done|done|done|by apply fixed_id|by apply tree_fixed]. Qed.
Lemma keeps_effect s s' i : keeps s s' -> st_insights s' = st_insights s -> effect (s, i) (s', i).
Proof. intros Hk E. split; cbn; rewrite ?E; [by apply keeps_upholds|done..]. Qed.

(** What a leaf pipe promises: it works through the context, and its own
    continuations of other insights and its layout stay as they are. *)
Class PipeLaws := {
  run_effect l s i l' s' i' r : leaf_run l s i = (l', s', i', r) -> effect (s, i) (s', i');
  run_layout l s i l' s' i' r : leaf_run l s i = (l', s', i', r) -> leaf_layout (C := State) l' = leaf_layout (C := State) l;
  run_others l s i l' s' i' r id : leaf_run l s i = (l', s', i', r) -> id <> i_insight_id i ->
    leaf_checkpoint (C := State) l' id = leaf_checkpoint (C := State) l id;
  forget_layout l id : leaf_layout (C := State) (leaf_forget (C := State) l id) = leaf_layout (C := State) l;
  forget_others l id id' : id' <> id ->
    leaf_checkpoint (C := State) (leaf_forget (C := State) l id) id' = leaf_checkpoint (C := State) l id';
  retain_layout l active : leaf_layout (C := State) (leaf_retain (C := State) l active) = leaf_layout (C := State) l;
  retain_kept l active id : id ∈ active ->
    leaf_checkpoint (C := State) (leaf_retain (C := State) l active) id = leaf_checkpoint (C := State) l id
}.
Context `{PipeLaws}.

(** ** Cursors that stay *)

(** The layout and the continuations of the insights in [X] stay as they are. *)
Definition calm_pipe (X : Uuid -> Prop) (p p' : Pipe P) : Prop :=
  recovery_layout (C := State) p' = recovery_layout (C := State) p /\
  forall id, X id -> pipe_cursor id p' = pipe_cursor id p.
Definition calm (X : Uuid -> Prop) (w w' : Stage) : Prop :=
  same_config w w' /\ calm_pipe X (wp_inner w) (wp_inner w').
#[export] Instance calm_pipe_preorder X : PreOrder (calm_pipe X).
Proof.
  split; [by split|]. intros p1 p2 p3 [A1 A2] [B1 B2]. split; [congruence|]. intros id Hx. by rewrite B2, A2.
Qed.
#[export] Instance calm_preorder X : PreOrder (calm X).
Proof.
  split; [by split|]. intros w1 w2 w3 [(A1 & A2 & A3 & A4 & A5) Ap] [(B1 & B2 & B3 & B4 & B5) Bp].
  split; [repeat split; congruence|by etrans].
Qed.
Lemma calm_layout X w w' :
  calm X w w' -> wrapped_recovery_layout (C := State) w' = wrapped_recovery_layout (C := State) w.
Proof.
  intros [(E1 & E2 & E3 & E4 & E5) [El _]]. unfold wrapped_recovery_layout. by rewrite E1, E2, E3, E4, E5, El.
Qed.
Lemma calm_layouts X l l' :
  Forall2 (calm X) l l' -> map (wrapped_recovery_layout (C := State)) l' = map (wrapped_recovery_layout (C := State)) l.
Proof. induction 1 as [|w w' l l' Hw _ IH]; [done|]. simpl. by rewrite IH, (calm_layout _ _ _ Hw). Qed.
Lemma calm_layouts_fmap X (l l' : list Stage) :
  Forall2 (calm X) l l' -> wrapped_recovery_layout (C := State) <$> l' = wrapped_recovery_layout (C := State) <$> l.
Proof. induction 1 as [|w w' l l' Hw _ IH]; [done|]. by rewrite !fmap_cons, IH, (calm_layout _ _ _ Hw). Qed.
Lemma calm_at X (l l' : list Stage) index id :
  X id -> Forall2 (calm X) l l' ->
  (fun w => pipe_cursor id (wp_inner w)) <$> l' !! index = (fun w => pipe_cursor id (wp_inner w)) <$> l !! index.
Proof.
  intros Hx Hl. destruct (Forall2_lookup (calm X) l l') as [Hat _]. specialize (Hat Hl index).
  destruct Hat as [w w' [_ [_ Hw]]|]; [|done]. simpl. by rewrite Hw.
Qed.
(** A composite whose children are calm and whose own continuations stay. *)
Lemma calm_composite X (p p' : Pipe P) :
  (exists pipes resumed, p' = rebuilt p pipes resumed) -> composite p = true ->
  Forall2 (calm X) (children p) (children p') ->
  (forall id, X id -> suspended p' !! id = suspended p !! id) -> calm_pipe X p p'.
Proof.
  intros (pipes & resumed & ->) Hc Hl Hs. split.
  - destruct p as [l|ps rs|ps rs]; [done| |]; simpl in *; unfold recovery_layout; fold (recovery_layout (P := P) (C := State)).
    all: f_equal; by apply (calm_layouts X).
  - intros id Hx. assert (Hc' : composite (rebuilt p pipes resumed) = true) by (by destruct p).
    rewrite !checkpoint_composite, Hs by done. destruct (suspended p !! id) as [[st n]|]; [|done].
    pose proof (calm_at X _ _ n id Hx Hl) as Hat.
    destruct (children (rebuilt p pipes resumed) !! n), (children p !! n); simplify_eq/=; congruence.
Qed.

(** ** Running, forgetting and retaining *)
Definition others (i : Insight) (id : Uuid) : Prop := id <> i_insight_id i.
Lemma others_id i i' : i_insight_id i' = i_insight_id i -> others i' = others i.
Proof. unfold others. by intros ->. Qed.
Lemma same_config_refl (w : Stage) inner : same_config w (with_inner w inner).
Proof. by repeat split. Qed.
Lemma remember_others resumed id state t resumed' r id' :
  remember resumed id state t = (resumed', r) -> id' <> id -> resumed' !! id' = resumed !! id'.
Proof.
  destruct t; simpl; intros [= <- <-] Hne; rewrite ?lookup_insert_ne, ?lookup_delete_ne by done; done.
Qed.

Abbreviation run_ok p := (forall s i p' s' i' r,
  run_pipe p s i = (p', s', i', r) -> effect (s, i) (s', i') /\ calm_pipe (others i) p p').
Lemma run_wrapped_ok (w : Stage) s i w' s' i' r :
  run_ok (wp_inner w) -> run_wrapped run_pipe w s i = (w', s', i', r) ->
  effect (s, i) (s', i') /\ calm (others i) w w'.
Proof.
  intros Hrun Hr. unfold run_wrapped in Hr. destruct (run_pipe (wp_inner w) s i) as [[[q s1] i1] r1] eqn:E.
  simplify_eq. destruct (Hrun _ _ _ _ _ _ E) as [He Hc]. split; [done|]. split; [apply same_config_refl|done].
Qed.

(** The loops of the composites and of the stages differ in when they stop. *)
Lemma loop_skip (w : Stage) rest rest' (x y : State * Insight) i :
  effect x y /\ Forall2 (calm (others i)) rest rest' -> effect x y /\ Forall2 (calm (others i)) (w :: rest) (w :: rest').
Proof. intros [He Hl]. split; [done|]. by constructor. Qed.
Lemma loop_stop (w w' : Stage) rest (x y : State * Insight) i :
  effect x y /\ calm (others i) w w' -> effect x y /\ Forall2 (calm (others i)) (w :: rest) (w' :: rest).
Proof. intros [He Hw]. split; [done|]. by constructor. Qed.
Lemma loop_next (w w' : Stage) rest rest' (s : State) i s1 i1 (y : State * Insight) :
  effect (s, i) (s1, i1) /\ calm (others i) w w' ->
  effect (s1, i1) y /\ Forall2 (calm (others i1)) rest rest' ->
  effect (s, i) y /\ Forall2 (calm (others i)) (w :: rest) (w' :: rest').
Proof.
  intros [He Hw] [He2 Hl]. rewrite (others_id i i1 (ef_id _ _ He)) in Hl. split; [by etrans|]. by constructor.
Qed.
#[local] Hint Resolve loop_skip loop_stop : aqe.

Lemma and_loop_ok (pipes : list Stage) :
  (forall w, w ∈ pipes -> run_ok (wp_inner w)) -> forall start index s i ms pipes' s' i' t,
  and_loop run_pipe start index pipes s i ms = (pipes', s', i', t) ->
  effect (s, i) (s', i') /\ Forall2 (calm (others i)) pipes pipes'.
Proof.
  induction pipes as [|w rest IH]; intros Hall start index s i ms pipes' s' i' t Hr; simpl in Hr; [by simplify_eq|].
  assert (Hrest : forall v, v ∈ rest -> run_ok (wp_inner v)) by (intros v Hv; refine (Hall v _); by right).
  assert (Hw : run_ok (wp_inner w)) by (refine (Hall w _); left). specialize (IH Hrest).
  destruct (_ || _) in Hr.
  { destruct (and_loop _ _ _ rest _ _ _) as [[[? ?] ?] ?] eqn:El. simplify_eq. eauto with aqe. }
  destruct (run_wrapped run_pipe w s i) as [[[w' s1] i1] r1] eqn:Ew. apply (run_wrapped_ok _ _ _ _ _ _ _ Hw) in Ew.
  split_match_in Hr; [simplify_eq; auto with aqe|]. split_match_in Hr; [simplify_eq; auto with aqe|].
  destruct (and_loop _ _ _ rest _ _ _) as [[[? ?] ?] ?] eqn:El. simplify_eq. eauto using loop_next.
Qed.
Lemma or_loop_ok (pipes : list Stage) :
  (forall w, w ∈ pipes -> run_ok (wp_inner w)) -> forall start index s i es pipes' s' i' t,
  or_loop run_pipe start index pipes s i es = (pipes', s', i', t) ->
  effect (s, i) (s', i') /\ Forall2 (calm (others i)) pipes pipes'.
Proof.
  induction pipes as [|w rest IH]; intros Hall start index s i es pipes' s' i' t Hr; simpl in Hr; [by simplify_eq|].
  assert (Hrest : forall v, v ∈ rest -> run_ok (wp_inner v)) by (intros v Hv; refine (Hall v _); by right).
  assert (Hw : run_ok (wp_inner w)) by (refine (Hall w _); left). specialize (IH Hrest).
  destruct (_ || _) in Hr.
  { destruct (or_loop _ _ _ rest _ _ _) as [[[? ?] ?] ?] eqn:El. simplify_eq. eauto with aqe. }
  destruct (run_wrapped run_pipe w s i) as [[[w' s1] i1] r1] eqn:Ew. apply (run_wrapped_ok _ _ _ _ _ _ _ Hw) in Ew.
  repeat (split_match_in Hr; [simplify_eq; auto with aqe;
    try (destruct (or_loop _ _ _ rest _ _ _) as [[[? ?] ?] ?] eqn:El; simplify_eq; eauto using loop_next)|]).
  destruct (or_loop _ _ _ rest _ _ _) as [[[? ?] ?] ?] eqn:El. simplify_eq. eauto using loop_next.
Qed.

Lemma run_pipe_ok p : run_ok p.
Proof.
  induction p as [l|pipes resumed IH|pipes resumed IH] using pipe_tree_ind; intros s i p' s' i' r Hr; simpl in Hr.
  - destruct (leaf_run l s i) as [[[l' s1] i1] r1] eqn:El. simplify_eq. split; [by eapply run_effect|].
    split; simpl; [by eapply run_layout|]. intros id Hid. by eapply run_others.
  - destruct (and_loop _ _ _ _ _ _ _) as [[[pipes' s1] i1] t] eqn:El.
    destruct (remember _ _ _ t) as [resumed' r'] eqn:Em. simplify_eq.
    destruct (and_loop_ok pipes IH _ _ _ _ _ _ _ _ _ El) as [He Hl]. split; [done|].
    apply calm_composite; [by eexists _, _|done|done|]. intros id Hid. by eapply remember_others.
  - destruct (or_loop _ _ _ _ _ _ _) as [[[pipes' s1] i1] t] eqn:El.
    destruct (remember _ _ _ t) as [resumed' r'] eqn:Em. simplify_eq.
    destruct (or_loop_ok pipes IH _ _ _ _ _ _ _ _ _ El) as [He Hl]. split; [done|].
    apply calm_composite; [by eexists _, _|done|done|]. intros id Hid. by eapply remember_others.
Qed.

Lemma calm_map X (f : Pipe P -> Pipe P) (l : list Stage) :
  (forall w, w ∈ l -> calm_pipe X (wp_inner w) (f (wp_inner w))) ->
  Forall2 (calm X) l (map (fun w => with_inner w (f (wp_inner w))) l).
Proof.
  induction l as [|w l IH]; intros Hf; [constructor|]. simpl. constructor; [|apply IH; intros; apply Hf; by right].
  split; [apply same_config_refl|]. apply Hf. left.
Qed.
Lemma calm_insert X (l : list Stage) index w w' :
  l !! index = Some w -> calm X w w' -> Forall2 (calm X) l (<[index := w']> l).
Proof.
  intros Hi Hw. revert index Hi. induction l as [|v l IH]; intros [|index] Hi; simplify_eq/=; constructor;
    try done; by apply IH.
Qed.
Lemma forget_pipe_calm id (p : Pipe P) : calm_pipe (fun k => k <> id) p (forget_pipe (C := State) id p).
Proof.
  assert (Hch : forall pipes (resumed : gmap Uuid (InsightState * nat)),
    (forall w, w ∈ pipes -> calm_pipe (fun k => k <> id) (wp_inner w) (forget_pipe (C := State) id (wp_inner w))) ->
    Forall2 (calm (fun k => k <> id)) pipes
      match resumed !! id with
      | Some (_, index) =>
          match modify_at (fun w => (with_inner w (forget_pipe (C := State) id (wp_inner w)), ())) pipes index with
          | Some (pipes, _) => pipes
          | None => pipes
          end
      | None => pipes
      end).
  { intros pipes resumed Hw. destruct (resumed !! id) as [[st n]|]; [|done]. rewrite modify_at_lookup.
    destruct (pipes !! n) as [w|] eqn:En; [|done]. eapply calm_insert; [exact En|]. split; [apply same_config_refl|].
    apply Hw. by eapply list_elem_of_lookup_2. }
  induction p as [l|pipes resumed IH|pipes resumed IH] using pipe_tree_ind.
  - split; simpl; [apply forget_layout|]. intros k Hk. by apply forget_others.
  - apply calm_composite; [by eexists _, _|done|by apply Hch|]. intros k Hk. simpl. by rewrite lookup_delete_ne.
  - apply calm_composite; [by eexists _, _|done|by apply Hch|]. intros k Hk. simpl. by rewrite lookup_delete_ne.
Qed.
Lemma retain_active_calm active (p : Pipe P) :
  calm_pipe (fun k => k ∈ active) p (retain_active (C := State) active p).
Proof.
  assert (Hkeep : forall (resumed : gmap Uuid (InsightState * nat)) k, k ∈ active ->
    filter (fun kv : Uuid * (InsightState * nat) => kv.1 ∈ active) resumed !! k = resumed !! k).
  { intros resumed k Hk. rewrite map_lookup_filter. destruct (resumed !! k) as [v|]; [|done]. simpl.
    by rewrite option_guard_True by done. }
  induction p as [l|pipes resumed IH|pipes resumed IH] using pipe_tree_ind.
  - split; simpl; [apply retain_layout|]. intros k Hk. by apply retain_kept.
  - apply calm_composite; [by eexists _, _|done|by apply (calm_map _ (retain_active (C := State) active))|by apply Hkeep].
  - apply calm_composite; [by eexists _, _|done|by apply (calm_map _ (retain_active (C := State) active))|by apply Hkeep].
Qed.

(** ** The turn of one insight *)
Lemma stage_loop_ok start stages : forall index s i stages' s' i' e,
  stage_loop start index stages s i = (stages', s', i', e) ->
  effect (s, i) (s', i') /\ Forall2 (calm (others i)) stages stages'.
Proof.
  induction stages as [|w rest IH]; intros index s i stages' s' i' e Hr; simpl in Hr; [by simplify_eq|].
  destruct (_ || _) in Hr.
  { destruct (stage_loop _ _ rest _ _) as [[[? ?] ?] ?] eqn:El. simplify_eq. eauto with aqe. }
  destruct (run_wrapped run_pipe w s i) as [[[w' s1] i1] r1] eqn:Ew.
  apply (run_wrapped_ok _ _ _ _ _ _ _ (run_pipe_ok (wp_inner w))) in Ew.
  destruct (stage_verdict w' i1 index r1); [simplify_eq; auto with aqe|].
  destruct (stage_loop _ _ rest _ _) as [[[? ?] ?] ?] eqn:El. simplify_eq. eauto using loop_next.
Qed.
(** When no stage is to run, nothing happens. *)
Lemma stage_loop_idle start stages : forall index s i,
  existsb (fun w => should_run w i) stages = false -> stage_loop start index stages s i = (stages, s, i, StagesDone).
Proof.
  induction stages as [|w rest IH]; intros index s i; simpl; [done|]. intros [Hw Hl]%orb_false_iff.
  by rewrite Hw, orb_true_r, IH.
Qed.

Lemma state_log_effect (s : State) i now m : effect (s, i) (s, state_log now i m).
Proof. apply local_effect, fixed_core, core_state_log. Qed.
Lemma pipeline_failed_effect s id i reason s' i' : pipeline_failed s id i reason = (s', i') -> effect (s, i) (s', i').
Proof.
  unfold pipeline_failed. intros Hr. repeat (split_match_in Hr; simplify_eq); [apply state_log_effect| | |done].
  - etrans; [apply state_log_effect|]. by apply keeps_effect; [apply schedule_cleanup_keeps|].
  - apply local_effect, fixed_rejected.
Qed.

(** The parts of a pipeline that belong to the insights in [X] stay as they are. *)
Record calm_pipeline (X : Uuid -> Prop) (p p' : Pipeline) : Prop := {
  cp_stages st : option_Forall2 (Forall2 (calm X)) (ip_pipeline p !! st) (ip_pipeline p' !! st);
  cp_deferred id : X id -> ip_deferred p' !! id = ip_deferred p !! id
}.
#[export] Instance calm_pipeline_preorder X : PreOrder (calm_pipeline X).
Proof.
  split; [by split|]. intros p1 p2 p3 [A1 A2] [B1 B2]. split; [intros st; etrans; [apply A1|apply B1]|].
  intros id Hx. by rewrite B2, A2.
Qed.
Lemma calm_checkpoint X p p' id : calm_pipeline X p p' -> X id -> pipeline_checkpoint p' id = pipeline_checkpoint p id.
Proof.
  intros [Hs Hd] Hx. unfold execution_checkpoint. rewrite Hd by done. destruct (ip_deferred p !! id) as [r|]; [|done].
  specialize (Hs (dr_state r)). inversion Hs as [l l' Hl E1 E2|E1 E2]; [|done].
  pose proof (calm_at X l l' (dr_index r) id Hx Hl) as Hat.
  destruct (l' !! dr_index r) as [w'|], (l !! dr_index r) as [w|]; try done. cbn in Hat. injection Hat as Hw.
  by rewrite (calm_layouts_fmap X l l' Hl), Hw.
Qed.
Lemma calm_deferred X p (d : gmap Uuid DeferredPipeResume) :
  (forall id, X id -> d !! id = ip_deferred p !! id) -> calm_pipeline X p (p <| ip_deferred := d |>).
Proof. intros Hd. split; [done|]. exact Hd. Qed.
Lemma calm_stages X p st l l' :
  ip_pipeline p !! st = Some l -> Forall2 (calm X) l l' -> calm_pipeline X p (p <| ip_pipeline := <[st := l']> (ip_pipeline p) |>).
Proof.
  intros Hp Hl. split; [|done]. intros st'. cbn. destruct (decide (st' = st)) as [->|Hne].
  - rewrite lookup_insert_eq, Hp. by constructor.
  - by rewrite lookup_insert_ne.
Qed.
Lemma forget_calm p id : calm_pipeline (fun k => k <> id) p (forget_continuation (C := State) p id).1.
Proof.
  unfold forget_continuation. cbn. destruct (ip_deferred p !! id) as [r|]; [|by split]. cbn.
  set (p1 := mkPipeline (ip_pipeline p) (delete id (ip_deferred p)) (SnapshotIndex.remove (ip_snapshots p) id)).
  assert (Hp1 : calm_pipeline (fun k => k <> id) p p1).
  { split; [done|]. intros k Hk. cbn. by rewrite lookup_delete_ne. }
  destruct (ip_pipeline p !! dr_state r) as [l|] eqn:Hl; [|done]. rewrite modify_at_lookup.
  destruct (l !! dr_index r) as [w|] eqn:Hw; [|done]. cbn. etrans; [exact Hp1|]. apply (calm_stages _ p1 _ l); [done|].
  eapply calm_insert; [exact Hw|]. split; [apply same_config_refl|apply forget_pipe_calm].
Qed.

(** Without a fingerprint from before, the insight did not change. *)
Lemma changed_before before i : fingerprint_changed before i = false -> before = Some (snapshot_fingerprint_hash i) \/ before = None.
Proof. destruct before as [b|]; simpl; [|auto]. intros Hb%negb_false_iff%Z.eqb_eq. left. by rewrite Hb. Qed.
Lemma has_expired_effect (s : State) i s' i' b : has_expired (st_now s) s i = (s', i', b) -> effect (s, i) (s', i').
Proof.
  unfold has_expired. destruct (expire_if_due _ _ _) as [[s1 i1] r] eqn:E. intros [= <- <- _].
  exact (steps_effect (enters := false) _ _ _ _ (expire_steps _ _ _ _ _ _ E)).
Qed.

Lemma turn_stages_ok p s i start before p' s' i' before' e :
  turn_stages p s i start before = (p', s', i', before', e) ->
  before = None \/ before = Some (snapshot_fingerprint_hash i) ->
  effect (s, i) (s', i') /\ calm_pipeline (others i) p p' /\ ip_snapshots p' = ip_snapshots p /\
  ip_deferred p' = ip_deferred p /\
  (before' = Some (snapshot_fingerprint_hash i) \/ before = None /\ before' = None /\ i' = i /\ e = StagesDone).
Proof.
  unfold turn_stages. intros Hr Hb. destruct (ip_pipeline p !! i_state i) as [stages|] eqn:Hst.
  2:{ simplify_eq. split; [done|]. split; [done|]. split; [done|]. split; [done|]. destruct Hb; auto. }
  destruct (stage_loop start 0 stages s i) as [[[stages' s1] i1] e1] eqn:El. simplify_eq.
  destruct (stage_loop_ok _ _ _ _ _ _ _ _ _ El) as [He Hl]. split; [done|].
  split; [by apply (calm_stages _ p _ stages)|]. split; [done|]. split; [done|].
  destruct (existsb _ stages) eqn:Hex; simpl.
  - destruct Hb as [->| ->]; simpl; auto.
  - rewrite stage_loop_idle in El by done. simplify_eq. destruct Hb; auto.
Qed.

Lemma not_expired (s : State) i s' i' : has_expired (st_now s) s i = (s', i', false) -> s' = s /\ i' = i.
Proof.
  unfold has_expired, expire_if_due. cbv zeta. intros Hr.
  destruct (match i_state i with New | Executed => _ | Filled => _ | _ => _ end) as [[anchor n]|]; [|by simplify_eq].
  destruct (_ <? _)%Z; [by simplify_eq|]. destruct (expire_cleanup _ _ _) as [[s1 i1] r]. by injection Hr.
Qed.
Lemma insight_turn_ok p s i p' s' i' touched :
  insight_turn p s (i_insight_id i) i = (p', s', i', touched) ->
  effect (s, i) (s', i') /\ calm_pipeline (others i) p p' /\ ip_snapshots p' = ip_snapshots p /\
  (touched = false -> snapshot_fingerprint_hash i' = snapshot_fingerprint_hash i).
Proof.
  unfold insight_turn. intros Hr. cbv zeta in Hr. set (id := i_insight_id i) in *.
  set (clears := bool_decide (i_state i = Filled) && _) in *.
  set (before := if can_expire i || clears then _ else _) in *.
  assert (Hb : before = None \/ before = Some (snapshot_fingerprint_hash i)) by (unfold before; destruct (_ || _); auto).
  destruct (if can_expire i && negb (manages_expiration p i) then has_expired (st_now s) s i else (s, i, false))
    as [[s1 i1] expired] eqn:Ex.
  destruct expired.
  { destruct (can_expire i) eqn:Hc; simpl in Ex; [|done]. destruct (negb _); [|done]. simplify_eq.
    split; [by eapply has_expired_effect|]. split; [done|]. split; [done|].
    unfold before. simpl. intros Hf%negb_false_iff%Z.eqb_eq. done. }
  assert (s1 = s /\ i1 = i) as [-> ->].
  { destruct (_ && _) in Ex; [by eapply not_expired|by simplify_eq]. }
  destruct (turn_stages _ s i _ before) as [[[[p2 s2] i2] before2] e] eqn:Et.
  destruct (turn_stages_ok _ _ _ _ _ _ _ _ _ _ Et Hb) as (He & Hcalm & Hsnap & Hdef & Hfp). cbn in Hsnap, Hdef.
  assert (Hp2 : calm_pipeline (others i) p p2).
  { etrans; [|exact Hcalm]. apply calm_deferred. intros k Hk. by rewrite lookup_delete_ne. }
  assert (Hsame : forall j, fingerprint_changed before2 j = false ->
    snapshot_fingerprint_hash j = snapshot_fingerprint_hash i \/ before = None /\ i2 = i /\ e = StagesDone).
  { intros j Hj. destruct (changed_before _ _ Hj) as [E|E], Hfp as [Hfp|(E1 & E2 & E3 & E4)]; rewrite E in *;
      try (by injection Hfp as ->; left); try done. by right. }
  assert (Hdone : forall p' s' i' touched, (e = StagesDone \/ e = StagesExit) ->
    (p2, s2, if clears then set_first_on_fill (st_now s2) i2 false else i2,
     fingerprint_changed before2 (if clears then set_first_on_fill (st_now s2) i2 false else i2)) = (p', s', i', touched) ->
    effect (s, i) (s', i') /\ calm_pipeline (others i) p p' /\ ip_snapshots p' = ip_snapshots p /\
    (touched = false -> snapshot_fingerprint_hash i' = snapshot_fingerprint_hash i)).
  { intros ? ? ? ? _ [= <- <- <- <-]. split; [etrans; [exact He|]|].
    { destruct clears; [apply local_effect, fixed_first|done]. }
    split; [done|]. split; [done|]. intros [Hj|(Hn & -> & _)]%Hsame; [done|].
    destruct clears; [|done]. unfold before in Hn. by rewrite orb_true_r in Hn. }
  destruct e as [| |index dependency|reason]; [by apply Hdone; [left|]|by apply Hdone; [right|]| |].
  - simplify_eq. split; [done|]. split.
    { etrans; [exact Hp2|]. apply calm_deferred. intros k Hk. by rewrite lookup_insert_ne. }
    split; [done|]. intros [Hj|(_ & _ & ?)]%Hsame; done.
  - destruct (pipeline_failed s2 id i2 reason) as [s3 i3] eqn:Hf. simplify_eq. split; [etrans; [exact He|by eapply pipeline_failed_effect]|].
    split; [done|]. split; [done|]. intros [Hj|(_ & _ & ?)]%Hsame; done.
Qed.

(** ** A run *)

(** Between two moments of a run: the strategy and its pipeline. *)
Record passes (x y : State * Pipeline) : Prop := {
  ps_upholds : upholds x.1 y.1;
  ps_marks : marks (st_insights x.1) (st_insights y.1);
  ps_cursor id : c_persistence (st_insights x.1) = true -> id ∉ c_exec_dirty (st_insights y.1) ->
    pipeline_checkpoint y.2 id = pipeline_checkpoint x.2 id;
  ps_index : index_mirrors x.2 -> index_mirrors y.2
}.
#[export] Instance passes_preorder : PreOrder passes.
Proof.
  split; [by split|]. intros x y z [A1 A2 A3 A4] [B1 B2 B3 B4]. split; [by etrans|by etrans| |auto].
  intros id Hp Hd. pose proof (mk_persistence _ _ A2) as Ep. destruct (mk_dirty _ _ B2 id) as [Hd2 _]; [congruence|done|].
  rewrite B3, A3; [done|done|done|congruence|done].
Qed.
Lemma mark_dirty_keeps (s : State) id : keeps s (s <| st_insights := mark_execution_dirty (st_insights s) id |>).
Proof.
  apply insights_keeps. intros [A B _]. unfold mark_execution_dirty. destruct (c_persistence (st_insights s)); [|done].
  split; [by apply (coll_ok_quiet (st_insights s))|exact B].
Qed.
Lemma forget_known (p : Pipeline) id : (forget_continuation (C := State) p id).2 = is_some (ip_deferred p !! id).
Proof. unfold forget_continuation. cbn. by destruct (ip_deferred p !! id). Qed.
Lemma forget_index (p : Pipeline) id : index_mirrors p -> index_mirrors (forget_continuation (C := State) p id).1.
Proof.
  intros [Hw Hm].
  assert (E : ip_snapshots (forget_continuation (C := State) p id).1 = SnapshotIndex.remove (ip_snapshots p) id /\
              ip_deferred (forget_continuation (C := State) p id).1 = delete id (ip_deferred p)).
  { unfold forget_continuation. cbn. destruct (ip_deferred p !! id) as [r|] eqn:Hr; cbn; [|by rewrite delete_id].
    destruct (ip_pipeline p !! dr_state r) as [l|]; [|done]. rewrite modify_at_lookup. by destruct (l !! dr_index r). }
  destruct E as [E1 E2]. split; [rewrite E1; by apply SnapshotIndex.remove_ok|]. intros k.
  rewrite E1, E2, SnapshotIndex.remove_owners. destruct (decide (k = id)) as [->|Hne]; [by rewrite !lookup_delete_eq|].
  rewrite !lookup_delete_ne by done. apply Hm.
Qed.
Lemma forget_checkpoint (p : Pipeline) id k :
  k <> id \/ ip_deferred p !! id = None ->
  pipeline_checkpoint (forget_continuation (C := State) p id).1 k = pipeline_checkpoint p k.
Proof.
  destruct (decide (k = id)) as [->|Hne]; [|intros _; by apply (calm_checkpoint _ _ _ _ (forget_calm p id))].
  intros [|Hn]; [done|]. unfold forget_continuation. cbn. rewrite Hn. unfold execution_checkpoint. cbn. by rewrite Hn.
Qed.
Lemma forget_mark_passes (s : State) (p : Pipeline) id :
  passes (s, p) (s <| st_insights := mark_execution_dirty (st_insights s) id |>, (forget_continuation (C := State) p id).1).
Proof.
  split; cbn; [apply keeps_upholds, mark_dirty_keeps|apply mark_dirty_marks| |apply forget_index].
  intros k Hp Hk. apply forget_checkpoint. left. intros ->. by apply Hk, mark_dirty_in.
Qed.
Lemma forget_and_mark_passes (s : State) (p : Pipeline) id p' s' :
  forget_and_mark p s id = (p', s') -> passes (s, p) (s', p').
Proof.
  unfold forget_and_mark. pose proof (forget_known p id) as Hk. pose proof (forget_mark_passes s p id) as Hp.
  pose proof (forget_index p id) as Hi. pose proof (fun k => forget_checkpoint p id k) as Hc.
  destruct (forget_continuation p id) as [p1 known]. cbn in Hk, Hp, Hi, Hc. intros [= <- <-]. rewrite Hk.
  destruct (ip_deferred p !! id); [exact Hp|]. split; cbn; [done|done| |exact Hi]. intros k _ _. apply Hc. by right.
Qed.
Lemma forget_all_passes ids : forall (p : Pipeline) (s : State) p' s', forget_all ids p s = (p', s') -> passes (s, p) (s', p').
Proof.
  induction ids as [|id ids IH]; intros p s p' s'; simpl; [by intros [= <- <-]|]. intros Hf%IH.
  etrans; [apply forget_mark_passes|exact Hf].
Qed.

(** The end of a turn: the row is back, its continuation is noted, the index follows. *)
Definition indexed (p : Pipeline) (id : Uuid) : Pipeline :=
  p <| ip_snapshots := (SnapshotIndex.update (ip_snapshots p) id (dr_dependency <$> ip_deferred p !! id)).1 |>.
Lemma indexed_mirrors (p p' : Pipeline) id :
  index_mirrors p -> SnapshotIndex.waits_ok (ip_snapshots p') ->
  (forall k, k <> id -> sd_owners (ip_snapshots p') !! k = sd_owners (ip_snapshots p) !! k) ->
  (forall k, k <> id -> ip_deferred p' !! k = ip_deferred p !! k) -> index_mirrors (indexed p' id).
Proof.
  intros [_ Hm] Hw Ho Hd. split; [by apply SnapshotIndex.update_ok|]. intros k. cbn. rewrite SnapshotIndex.update_owners.
  destruct (decide (k = id)) as [->|Hne].
  - rewrite lookup_partial_alter_eq. unfold SnapshotIndex.kind_of. by destruct (ip_deferred p' !! id).
  - rewrite lookup_partial_alter_ne, Ho, Hd by done. apply Hm.
Qed.
Lemma note_passes (s : State) (p p0 : Pipeline) id p' s' :
  calm_pipeline (fun k => k <> id) p0 p -> ip_snapshots p = ip_snapshots p0 ->
  note_continuation (pipeline_checkpoint p0 id) p s id = (p', s') -> passes (s, p0) (s', indexed p' id).
Proof.
  intros Hc Hsn. unfold note_continuation. assert (Hd : forall k, k <> id -> ip_deferred p !! k = ip_deferred p0 !! k) by apply Hc.
  case_bool_decide as E; intros [= <- <-].
  - split; cbn [fst snd]; [done|done| |].
    + intros k _ _. change (pipeline_checkpoint p k = pipeline_checkpoint p0 k).
      destruct (decide (k = id)) as [->|Hne]; [done|by eapply calm_checkpoint].
    + intros Hm. eapply indexed_mirrors; [exact Hm|rewrite Hsn; apply Hm|by rewrite Hsn|exact Hd].
  - match goal with |- passes _ (_, indexed ?q id) => set (p1 := q) end. split; cbn [fst snd].
    + apply keeps_upholds, mark_dirty_keeps.
    + apply mark_dirty_marks.
    + intros k Hp Hk. change (pipeline_checkpoint p1 k = pipeline_checkpoint p0 k).
      assert (Hne : k <> id) by (intros ->; by apply Hk, mark_dirty_in).
      etrans; [|by eapply calm_checkpoint]. unfold p1, execution_checkpoint. cbn [ip_deferred ip_pipeline].
      by rewrite lookup_alter_ne.
    + intros Hm. eapply indexed_mirrors; [exact Hm| | |]; unfold p1; cbn [ip_snapshots ip_deferred].
      * apply SnapshotIndex.remove_ok. rewrite Hsn. apply Hm.
      * intros k Hk. by rewrite SnapshotIndex.remove_owners, lookup_delete_ne, Hsn.
      * intros k Hk. by rewrite lookup_alter_ne, Hd.
Qed.

(** The row is taken, has its turn and is put back. *)
Lemma row_turn (p : Pipeline) (s : State) id row p1 s1 row1 touched changed :
  base_ok s -> c_insights (st_insights s) !! id = Some row ->
  insight_turn p (s <| st_insights := (take_for_update (st_insights s) id).1 |>) id row = (p1, s1, row1, touched) ->
  (changed = false -> touched = false) ->
  exists c, restore_after_update (st_insights s1) row1 changed = Some c /\ upholds s (s1 <| st_insights := c |>) /\
    marks (st_insights s) c /\ calm_pipeline (fun k => k <> id) p p1 /\ ip_snapshots p1 = ip_snapshots p.
Proof.
  intros Hs Hrow Ht Hch. destruct (row_known _ _ _ (bo_coll s Hs) Hrow) as (Hid & _ & Hm).
  subst id. set (id := i_insight_id row) in *. set (s0 := s <| st_insights := _ |>) in Ht.
  destruct (insight_turn_ok _ _ _ _ _ _ _ Ht) as ([Hk Hmk Hkn Hi Htr] & Hcalm & Hsn & Hfp). cbn [fst snd] in *.
  assert (Hk0 : upholds s s0).
  { apply keeps_upholds, insights_keeps. intros _. split; [by apply coll_ok_drop, Hs|]. cbn. intros k r [_ Hr]%lookup_delete_Some.
    by eapply (bo_trees s Hs). }
  pose proof (upholds_base _ _ Hk0 Hs) as Hs0. specialize (Hmk Hs0). specialize (Hkn Hs0).
  assert (Hk1 : upholds s s1) by (by etrans). pose proof (upholds_base _ _ Hk1 Hs) as Hs1.
  assert (Htree : tree_ok row1) by (apply Htr; by eapply (bo_trees s Hs)).
  assert (Hmat : i_insight_id row1 ∈ c_materialized (st_insights s1)) by (rewrite Hi; by apply Hkn).
  destruct (restore_ok (st_insights s1) row1 changed) as (c & Hr & Hc & Htc); [apply Hs1|apply Hs1|done|done|].
  exists c. split; [done|]. split; [|split; [|done]].
  - etrans; [exact Hk1|]. by apply keeps_upholds, insights_keeps.
  - apply (restore_marks (st_insights s) (st_insights s1) row row1 changed); [done|exact Hmk| |exact Hr|exact Hi|by intros ?%Hch%Hfp].
    apply coll_ok_put; [apply Hs1|by apply tree_deps|done|done].
Qed.

Definition at_pass (t : Pass) : State * Pipeline := (pa_state t, pa_pipeline t).
Lemma schedule_children_passes (s : State) (p : Pipeline) id : passes (s, p) (schedule_insight_children s id, p).
Proof.
  assert (E : st_insights (schedule_insight_children s id) = st_insights s).
  { unfold schedule_insight_children. destruct (negb _); [done|]. destruct (c_insights _ !! id) as [row|]; [|done].
    destruct (gated row); [done|]. destruct (i_children row); [done|]. destruct (negb _); [done|]. cbv zeta.
    by destruct (entry_placed row), (bool_decide _). }
  split; cbn; rewrite ?E; [apply keeps_upholds, schedule_children_keeps|done|done|done].
Qed.
Lemma left_state_passes (s : State) (p : Pipeline) id row p' s' :
  match ip_deferred p !! id with
  | Some resume => if negb (bool_decide (i_state row = dr_state resume)) then forget_and_mark p s id else (p, s)
  | None => (p, s)
  end = (p', s') ->
  passes (s, p) (s', p') /\ c_insights (st_insights s') = c_insights (st_insights s).
Proof.
  intros Hf. assert (Hcase : (p', s') = (p, s) \/ forget_and_mark p s id = (p', s')).
  { destruct (ip_deferred p !! id) as [r|]; [destruct (negb _)|]; auto. }
  destruct Hcase as [[= -> ->]|Hf']; [done|]. split; [by eapply forget_and_mark_passes|].
  unfold forget_and_mark in Hf'. destruct (forget_continuation _ _) as [? known]. simplify_eq. destruct known; [|done].
  cbn. unfold mark_execution_dirty. by destruct (c_persistence _).
Qed.
Lemma pass_insight_passes t id :
  base_ok (pa_state t) -> exists t', pass_insight t id = Some t' /\ passes (at_pass t) (at_pass t').
Proof.
  destruct t as [s p touched membership]. cbn. intros Hs. unfold pass_insight. cbn.
  assert (Hforget : exists t', (let '(p, s) := forget_and_mark p s id in Some (mkPass s p touched membership)) = Some t' /\
    passes (s, p) (at_pass t')).
  { destruct (forget_and_mark p s id) as [p1 s1] eqn:Hf. eexists. split; [done|]. by eapply forget_and_mark_passes. }
  destruct (c_insights (st_insights s) !! id) as [row|] eqn:Hrow; [|done]. destruct (is_inactive (i_state row)); [done|].
  clear Hforget. match goal with |- context [let '(p, s) := ?m in _] => destruct m as [p0 s0] eqn:Hl end.
  destruct (left_state_passes _ _ _ _ _ _ Hl) as [H0' E0]. unfold take_for_update. rewrite E0, Hrow.
  pose proof (upholds_base _ _ (ps_upholds _ _ H0') Hs) as Hs0.
  match goal with |- context [insight_turn p0 ?s' id row] =>
    destruct (insight_turn p0 s' id row) as [[[p1 s1] row1] touched1] eqn:Ht end.
  set (touched' := if touched1 then {[id]} ∪ touched else touched).
  destruct (row_turn p0 s0 id row p1 s1 row1 touched1 (bool_decide (id ∈ touched'))) as (c & -> & Hk & Hmk & Hcalm & Hsn);
    [done|by rewrite E0|unfold take_for_update; by rewrite E0| |].
  { intros Hn%bool_decide_eq_false. destruct touched1; [|done]. unfold touched' in Hn. set_solver. }
  destruct (note_continuation _ p1 _ id) as [p2 s2] eqn:Hn. pose proof (note_passes _ _ _ _ _ _ Hcalm Hsn Hn) as Hp.
  unfold indexed in Hp. destruct (SnapshotIndex.update _ id _) as [waits changed]. eexists. split; [done|].
  etrans; [exact H0'|]. etrans; [|apply schedule_children_passes]. etrans; [|exact Hp].
  split; cbn; [exact Hk|exact Hmk|done|done].
Qed.
Lemma pass_loop_passes mode ids : forall processed last t,
  base_ok (pa_state t) -> exists t' last' n,
    pass_loop mode ids processed last t = Some (t', last', n) /\ passes (at_pass t) (at_pass t').
Proof.
  induction ids as [|id ids IH]; intros processed last t Hs; simpl; [by eexists _, _, _|].
  destruct (out_of_budget _ _ _); [by eexists _, _, _|].
  destruct (pass_insight_passes t id Hs) as (t1 & -> & Hp). pose proof (upholds_base _ _ (ps_upholds _ _ Hp) Hs) as Hs1.
  destruct (IH (S processed) (Some id) t1 Hs1) as (t2 & last2 & n & -> & Hp2). eexists _, _, _. split; [done|]. by etrans.
Qed.

(** A full pass first drops the continuations of insights that left their state. *)
Lemma forget_continuation_deferred (p : Pipeline) id :
  ip_deferred (forget_continuation (C := State) p id).1 = delete id (ip_deferred p).
Proof.
  unfold forget_continuation. cbn. destruct (ip_deferred p !! id) as [r|] eqn:Hr; cbn; [|by rewrite delete_id].
  destruct (ip_pipeline p !! dr_state r) as [l|]; [|done]. rewrite modify_at_lookup. by destruct (l !! dr_index r).
Qed.
Lemma forget_all_deferred ids : forall (p : Pipeline) (s : State) p' s' id,
  forget_all ids p s = (p', s') -> is_Some (ip_deferred p' !! id) -> is_Some (ip_deferred p !! id) /\ id ∉ ids.
Proof.
  induction ids as [|x ids IH]; intros p s p' s' id; simpl; [intros [= <- <-] ?; split; [done|set_solver]|].
  intros Hf Hd. destruct (IH _ _ _ _ _ Hf Hd) as [Hs Hn]. rewrite forget_continuation_deferred in Hs.
  destruct Hs as [r [Hne Hr]%lookup_delete_Some]. split; [by eexists|set_solver].
Qed.
Lemma prepare_passes (p : Pipeline) (s : State) order p' s' :
  prepare_full_pass p s order = (p', s') -> passes (s, p) (s', p').
Proof.
  unfold prepare_full_pass. case_bool_decide; [by intros [= <- <-]|]. set (active := list_to_set order : gset Uuid).
  destruct (forget_all _ p s) as [p1 s1] eqn:Hf. intros [= <- <-]. etrans; [by eapply forget_all_passes|].
  assert (Hin : forall id, is_Some (ip_deferred p1 !! id) -> id ∈ active).
  { intros id Hd. destruct (forget_all_deferred _ _ _ _ _ _ Hf Hd) as [[r Hr] Hn].
    destruct (decide (id ∈ active)) as [|Hout]; [done|]. exfalso. apply Hn. unfold stale_ids.
    apply list_elem_of_In, filter_In. split.
    - apply list_elem_of_In, elem_of_btree_elements, elem_of_dom. eauto.
    - rewrite Hr. simpl. unfold is_stale. destruct (c_insights (st_insights s) !! id); [|done].
      by rewrite bool_decide_eq_false_2. }
  set (stages := fmap (M := gmap InsightState) _ _).
  assert (Hcalm : calm_pipeline (fun k => k ∈ active) p1 (p1 <| ip_pipeline := stages |>)).
  { split; [|done]. intros st. cbn. unfold stages. rewrite lookup_fmap. destruct (ip_pipeline p1 !! st) as [l|]; constructor.
    apply (calm_map _ (retain_active (C := State) active)). intros w _. apply retain_active_calm. }
  split; cbn [fst snd]; [done|done| |done]. intros k _ _.
  destruct (decide (k ∈ active)) as [Hk|Hk]; [by apply (calm_checkpoint _ _ _ _ Hcalm)|].
  unfold execution_checkpoint. cbn. destruct (ip_deferred p1 !! k) eqn:E; [|done]. exfalso. apply Hk, Hin. by eexists.
Qed.

(** What a run does before its last reduction. *)
Lemma run_passes (s : State) sel mode :
  base_ok s -> exists t last n,
    (let '(p, s0) := match sel with
                     | Selected _ => (st_pipeline s, s <| st_pipeline := default_pipeline |>)
                     | FullPass order => prepare_full_pass (st_pipeline s) (s <| st_pipeline := default_pipeline |>) order
                     end in
     pass_loop mode (selected_ids sel) 0 None (mkPass s0 p ∅ false)) = Some (t, last, n) /\
    passes (s, st_pipeline s) (at_pass t).
Proof.
  intros Hs. set (s0 := s <| st_pipeline := default_pipeline |>).
  assert (H0' : passes (s, st_pipeline s) (s0, st_pipeline s)).
  { split; cbn; [|done|done|done]. unfold upholds, s0. rewrite repipe.
    replace (s <| st_pipeline := st_pipeline s |>) with s by (by destruct s). reflexivity. }
  destruct (match sel with Selected _ => (st_pipeline s, s0) | FullPass order => prepare_full_pass (st_pipeline s) s0 order end)
    as [p1 s1] eqn:E.
  assert (H1' : passes (s, st_pipeline s) (s1, p1)).
  { destruct sel; [by simplify_eq|]. etrans; [exact H0'|by eapply prepare_passes]. }
  destruct (pass_loop_passes mode (selected_ids sel) 0 None (mkPass s1 p1 ∅ false)) as (t & last & n & -> & Hp).
  { cbn. by eapply upholds_base; [apply (ps_upholds _ _ H1')|]. }
  eexists _, _, _. split; [done|]. by etrans.
Qed.

Lemma run_owner s sel mode :
  owner_ok s -> index_mirrors (st_pipeline s) ->
  exists s' last n ring, run_insight_pipeline_budgeted s sel mode = Some (s', last, n, ring) /\
    owner_ok s' /\ index_mirrors (st_pipeline s') /\ option_Forall2 works (st_driver s) (st_driver s').
Proof.
  intros Hs Hm. unfold run_insight_pipeline_budgeted. cbv zeta.
  destruct (run_passes s sel mode (oo_base s Hs)) as (t & last & n & E & Hp).
  match type of E with (let '(p, s0) := ?m in _) = _ => destruct m as [p0 s0] end. rewrite E.
  set (s1 := (pa_state t) <| st_pipeline := pa_pipeline t |>).
  assert (Hs1 : owner_ok s1) by (by apply (upholds_owner s), Hs; apply (ps_upholds _ _ Hp)).
  assert (Hw : option_Forall2 works (st_driver s) (st_driver s1)) by exact (kp_driver _ _ (ps_upholds _ _ Hp)).
  assert (Hm1 : index_mirrors (st_pipeline s1)) by exact (ps_index _ _ Hp Hm).
  destruct mode as [b|ti].
  - eexists _, _, _, _. split; [done|]. split; [done|]. split; [done|]. done.
  - destruct (turn_total s1 ti Hs1) as (s2 & -> & Hs2 & Hw2 & Ep). eexists _, _, _, _. split; [done|]. split; [done|].
    split; [by rewrite Ep|]. by etrans.
Qed.



(** ** Stages run in order, and go on where they stopped *)
Definition stage_frame (start index : nat) (stages stages' : list Stage) (e : StageEnd) : Prop :=
  length stages' = length stages /\ take (start - index) stages' = take (start - index) stages /\
  match e with
  | StagesDeferred n _ => index <= n < index + length stages /\ drop (S n - index) stages' = drop (S n - index) stages
  | _ => True
  end.
Lemma stage_frame_skip start index w rest rest' e :
  stage_frame start (S index) rest rest' e -> stage_frame start index (w :: rest) (w :: rest') e.
Proof.
  intros (Hl & Ht & Hn). unfold stage_frame. simpl. split; [by rewrite Hl|]. split.
  - destruct (start - index) as [|d] eqn:E; [done|]. simpl. replace d with (start - S index) by lia. by rewrite Ht.
  - destruct e as [| |n d|]; try done. destruct Hn as (Hb & Hr). split; [lia|].
    replace (S n - index) with (S (S n - S index)) by lia. done.
Qed.
Lemma stage_frame_ran start index (w w' : Stage) rest rest' e :
  start <= index -> stage_frame start (S index) rest rest' e -> stage_frame start index (w :: rest) (w' :: rest') e.
Proof.
  intros Hs (Hl & _ & Hn). unfold stage_frame. simpl. split; [by rewrite Hl|].
  replace (start - index) with 0 by lia. split; [done|]. destruct e as [| |n d|]; try done.
  destruct Hn as (Hb & Hr). split; [lia|]. replace (S n - index) with (S (S n - S index)) by lia. done.
Qed.
Lemma stage_frame_stop start index (w w' : Stage) rest e :
  start <= index -> match e with StagesDeferred n _ => n = index | _ => True end ->
  stage_frame start index (w :: rest) (w' :: rest) e.
Proof.
  intros Hs He. unfold stage_frame. simpl. split; [done|]. replace (start - index) with 0 by lia. split; [done|].
  destruct e as [| |n d|]; try done. subst n. split; [lia|]. by replace (S index - index) with 1 by lia.
Qed.
Lemma stage_loop_frame start stages : forall index s i stages' s' i' e,
  stage_loop start index stages s i = (stages', s', i', e) -> stage_frame start index stages stages' e.
Proof.
  induction stages as [|w rest IH]; intros index s i stages' s' i' e Hr; simpl in Hr; [by simplify_eq|].
  destruct ((index <? start) || negb (should_run w i)) eqn:E.
  - destruct (stage_loop _ _ rest _ _) as [[[? ?] ?] ?] eqn:El. simplify_eq. eapply stage_frame_skip, IH, El.
  - apply orb_false_iff in E as [Hs%Nat.ltb_ge _]. destruct (run_wrapped run_pipe w s i) as [[[w' s1] i1] r1].
    destruct (stage_verdict w' i1 index r1) as [e1|] eqn:Ev.
    + simplify_eq. apply stage_frame_stop; [done|]. unfold stage_verdict in Ev.
      repeat (split_match_in Ev; simplify_eq); done.
    + destruct (stage_loop _ _ rest _ _) as [[[? ?] ?] ?] eqn:El. simplify_eq. eapply stage_frame_ran, IH, El. done.
Qed.

Definition bucket (p : Pipeline) (st : InsightState) : list Stage := unwrap_or (ip_pipeline p !! st) [].
Definition resume_at (p : Pipeline) (id : Uuid) : nat := match ip_deferred p !! id with Some r => dr_index r | None => 0 end.
Lemma turn_stages_frame p s i start before p' s' i' b e :
  turn_stages p s i start before = (p', s', i', b, e) ->
  (forall st, st <> i_state i -> bucket p' st = bucket p st) /\
  stage_frame start 0 (bucket p (i_state i)) (bucket p' (i_state i)) e /\ ip_deferred p' = ip_deferred p.
Proof.
  unfold turn_stages. intros Hr. destruct (ip_pipeline p !! i_state i) as [stages|] eqn:Hst.
  2:{ simplify_eq. split; [done|]. split; [by split|done]. }
  destruct (stage_loop start 0 stages s i) as [[[stages' s1] i1] e1] eqn:El. simplify_eq.
  unfold bucket. cbn. split; [intros st Hne; by rewrite lookup_insert_ne|]. rewrite lookup_insert_eq, Hst.
  split; [by eapply stage_loop_frame|done].
Qed.
(** A turn touches the stages of one state only, not those before the resumption,
    nor those after a new suspension. *)
Lemma insight_turn_stages p s id i p' s' i' touched :
  insight_turn p s id i = (p', s', i', touched) ->
  (forall st, st <> i_state i -> bucket p' st = bucket p st) /\
  take (resume_at p id) (bucket p' (i_state i)) = take (resume_at p id) (bucket p (i_state i)) /\
  (p' = p \/ forall r, ip_deferred p' !! id = Some r ->
     dr_state r = i_state i /\ dr_index r < length (bucket p' (i_state i)) /\
     drop (S (dr_index r)) (bucket p' (i_state i)) = drop (S (dr_index r)) (bucket p (i_state i))).
Proof.
  unfold insight_turn. intros Hr. cbv zeta in Hr. fold (resume_at p id) in Hr.
  destruct (if can_expire i && _ then has_expired (st_now s) s i else (s, i, false)) as [[s1 i1] expired] eqn:Ex.
  destruct expired; [simplify_eq; by auto|].
  assert (s1 = s /\ i1 = i) as [-> ->].
  { destruct (_ && _) in Ex; [by eapply not_expired|by simplify_eq]. }
  destruct (turn_stages _ s i _ _) as [[[[p2 s2] i2] b2] e] eqn:Et.
  destruct (turn_stages_frame _ _ _ _ _ _ _ _ _ _ Et) as (Ho & (Hl & Ht & Hn) & Hd). rewrite Nat.sub_0_r in Ht.
  change (bucket (p <| ip_deferred := delete id (ip_deferred p) |>)) with (bucket p) in *.
  assert (Hno : ip_deferred p2 !! id = None) by (rewrite Hd; apply lookup_delete_eq).
  assert (Hend : p' = p2 \/ exists n d v, e = StagesDeferred n d /\
    p' = p2 <| ip_deferred := <[id := mkResume (i_state i) n d v]> (ip_deferred p2) |>).
  { destruct e as [| |n d|reason]; [simplify_eq; by left|simplify_eq; by left| |].
    - simplify_eq. right. by eexists _, _, _.
    - destruct (pipeline_failed s2 id i2 reason). simplify_eq. by left. }
  destruct Hend as [->|(n & d & v & -> & ->)].
  - split; [done|]. split; [done|]. right. intros r Hr'. congruence.
  - split; [done|]. split; [done|]. right. intros r. cbn. rewrite lookup_insert_eq. intros [= <-].
    destruct Hn as [Hb Hdrop]. rewrite Nat.sub_0_r in Hdrop. split; [done|]. split; [|done].
    change (n < length (bucket p2 (i_state i))). rewrite Hl. lia.
Qed.

Lemma forget_bucket (p : Pipeline) id st n :
  (forall r, ip_deferred p !! id = Some r -> n <= dr_index r) ->
  take n (bucket (forget_continuation (C := State) p id).1 st) = take n (bucket p st) /\
  ((forall r, ip_deferred p !! id = Some r -> dr_state r <> st) ->
   bucket (forget_continuation (C := State) p id).1 st = bucket p st).
Proof.
  intros Hle. unfold forget_continuation. cbn. destruct (ip_deferred p !! id) as [r|]; [|done]. specialize (Hle r eq_refl). cbn.
  destruct (ip_pipeline p !! dr_state r) as [l|] eqn:Hl; [|done]. rewrite modify_at_lookup.
  destruct (l !! dr_index r) as [w|]; [|done]. unfold bucket. cbn. destruct (decide (st = dr_state r)) as [->|Hne].
  - rewrite lookup_insert_eq, Hl. cbn. split; [by rewrite take_insert_ge|]. intros Hx. by destruct (Hx r).
  - by rewrite lookup_insert_ne.
Qed.

Lemma forget_and_mark_pipeline (p : Pipeline) s id p' s' :
  forget_and_mark p s id = (p', s') -> p' = (forget_continuation (C := State) p id).1.
Proof. unfold forget_and_mark. destruct (forget_continuation p id). by intros [= <- _]. Qed.
Lemma note_stages before (p : Pipeline) s id p' s' st : note_continuation before p s id = (p', s') -> bucket p' st = bucket p st.
Proof. unfold note_continuation. by case_bool_decide; intros [= <- _]. Qed.
(** A round that visits a row, down to its turn. *)
Lemma pass_insight_turn t id row t' :
  c_insights (st_insights (pa_state t)) !! id = Some row -> is_inactive (i_state row) = false -> pass_insight t id = Some t' ->
  exists p0 s1 p1 s2 row2 touched,
    (p0 = pa_pipeline t /\ (forall r, ip_deferred p0 !! id = Some r -> dr_state r = i_state row) \/
     p0 = (forget_continuation (C := State) (pa_pipeline t) id).1 /\
     exists r, ip_deferred (pa_pipeline t) !! id = Some r /\ dr_state r <> i_state row) /\
    insight_turn p0 s1 id row = (p1, s2, row2, touched) /\
    (forall st, bucket (pa_pipeline t') st = bucket p1 st) /\
    (forall r, ip_deferred (pa_pipeline t') !! id = Some r -> exists r0, ip_deferred p1 !! id = Some r0 /\
       dr_state r = dr_state r0 /\ dr_index r = dr_index r0).
Proof.
  destruct t as [s p touched membership]. unfold pass_insight. cbn. intros Hrow Hact Hp. rewrite Hrow, Hact in Hp.
  match type of Hp with context [let '(p, s) := ?m in _] => destruct m as [p0 s0] eqn:Hl end.
  destruct (left_state_passes _ _ _ _ _ _ Hl) as [_ E0]. unfold take_for_update in Hp. rewrite E0, Hrow in Hp.
  destruct (insight_turn p0 _ id row) as [[[p1 s1] row1] touched1] eqn:Ht. destruct (restore_after_update _ _ _) as [c|]; [|done].
  destruct (note_continuation _ p1 _ id) as [p2 s2] eqn:Hn. destruct (SnapshotIndex.update _ id _) as [waits changed].
  simplify_eq. cbn. eexists p0, _, p1, _, _, _. split; [|split; [exact Ht|split; [intros st; exact (note_stages _ _ _ _ _ _ st Hn)|]]].
  - destruct (ip_deferred p !! id) as [r|] eqn:Hr.
    2:{ injection Hl as <- <-. left. split; [done|]. intros r. by rewrite Hr. }
    case_bool_decide as E; simpl in Hl.
    { injection Hl as <- <-. left. split; [done|]. intros r'. rewrite Hr. by intros [= <-]. }
    right. split; [by eapply forget_and_mark_pipeline|]. exists r. split; [done|congruence].
  - intros r Hr. unfold note_continuation in Hn. case_bool_decide; simplify_eq; [by eauto|]. cbn in Hr.
    rewrite lookup_alter_eq in Hr. destruct (ip_deferred p1 !! id) as [r0|]; [|done]. simpl in Hr. injection Hr as <-.
    exists r0. by split.
Qed.

(** What a round does to the stages before a continuation. *)
Lemma pass_insight_stages t id t' r :
  ip_deferred (pa_pipeline t) !! id = Some r -> pass_insight t id = Some t' ->
  take (dr_index r) (bucket (pa_pipeline t') (dr_state r)) = take (dr_index r) (bucket (pa_pipeline t) (dr_state r)).
Proof.
  intros Hr Hp.
  assert (Hforget : take (dr_index r) (bucket (forget_continuation (C := State) (pa_pipeline t) id).1 (dr_state r)) =
    take (dr_index r) (bucket (pa_pipeline t) (dr_state r))).
  { apply forget_bucket. rewrite Hr. by intros ? [= <-]. }
  assert (Hgone : forall t', (let '(p, s) := forget_and_mark (pa_pipeline t) (pa_state t) id in
     Some (mkPass s p (pa_touched t) (pa_membership_changed t))) = Some t' ->
     pa_pipeline t' = (forget_continuation (C := State) (pa_pipeline t) id).1).
  { intros t2. destruct (forget_and_mark _ _ id) as [p1 s1] eqn:Hf. intros [= <-]. by eapply forget_and_mark_pipeline. }
  destruct (c_insights (st_insights (pa_state t)) !! id) as [row|] eqn:Hrow.
  2:{ unfold pass_insight in Hp. rewrite Hrow in Hp. by rewrite (Hgone _ Hp). }
  destruct (is_inactive (i_state row)) eqn:Hact.
  { unfold pass_insight in Hp. rewrite Hrow, Hact in Hp. by rewrite (Hgone _ Hp). }
  destruct (pass_insight_turn t id row t' Hrow Hact Hp) as (p0 & s1 & p1 & s2 & row2 & touched & Hp0 & Ht & Hb & _).
  rewrite Hb. destruct (insight_turn_stages _ _ _ _ _ _ _ _ Ht) as (Ho & Htake & _).
  destruct Hp0 as [[-> Hst]|[-> (r' & Hr' & Hne)]].
  - rewrite (Hst r Hr). unfold resume_at in Htake. by rewrite Hr in Htake.
  - assert (r' = r) as -> by congruence. by rewrite Ho.
Qed.

(** C11 A suspended stage is resumed, and completed stages are not run again: when a round of the
    pipeline leaves an insight suspended at a stage, the continuation names the state the insight
    was in and one of the stages of that state, and the stages behind it were not run; and the next
    round for the insight, whatever the strategy looks like then, leaves the stages before it
    as they are. *)
Theorem completed_stages_not_replayed t id row t1 r :
  c_insights (st_insights (pa_state t)) !! id = Some row -> is_inactive (i_state row) = false ->
  (forall r0, ip_deferred (pa_pipeline t) !! id = Some r0 -> dr_index r0 < length (bucket (pa_pipeline t) (dr_state r0))) ->
  pass_insight t id = Some t1 -> ip_deferred (pa_pipeline t1) !! id = Some r ->
  dr_state r = i_state row /\ dr_index r < length (bucket (pa_pipeline t1) (dr_state r)) /\
  drop (S (dr_index r)) (bucket (pa_pipeline t1) (dr_state r)) = drop (S (dr_index r)) (bucket (pa_pipeline t) (dr_state r)) /\
  forall t2 t3, pa_pipeline t2 = pa_pipeline t1 -> pass_insight t2 id = Some t3 ->
    take (dr_index r) (bucket (pa_pipeline t3) (dr_state r)) = take (dr_index r) (bucket (pa_pipeline t2) (dr_state r)).
Proof.
  intros Hrow Hact Hidx Hp Hr. split; [|split; [|split]].
  4:{ intros t2 t3 E Hp2. apply (pass_insight_stages t2 id); [by rewrite E|done]. }
  all: destruct (pass_insight_turn t id row t1 Hrow Hact Hp) as (p0 & s1 & p1 & s2 & row2 & touched & Hp0 & Ht & Hb & Hd).
  all: destruct (Hd r Hr) as (r0 & Hr0 & Est & Ein); rewrite ?Hb, ?Est, ?Ein.
  all: destruct (insight_turn_stages _ _ _ _ _ _ _ _ Ht) as (_ & Htake & Hn).
  all: assert (Hlen : bucket p0 (i_state row) = bucket (pa_pipeline t) (i_state row)) by
    (destruct Hp0 as [[-> _]|[-> (r' & Hr' & Hne)]]; [done|]; apply (forget_bucket _ _ _ 0); [lia|congruence]).
  all: destruct Hn as [->|Hn].
  2,4,6: destruct (Hn r0 Hr0) as (-> & Hlt & Hdrop); rewrite <- ?Hlen; done.
  all: destruct Hp0 as [[-> Hst]|[-> _]];
    [|exfalso; by rewrite forget_continuation_deferred, lookup_delete_eq in Hr0]; rewrite ?(Hst r0 Hr0); try done.
  rewrite <- (Hst r0 Hr0). by apply Hidx.
Qed.
End Effects.

(** ** A strategy whose second stage submits the entry *)
Module RunDemo.
Inductive Stage := Passes | Submits.
Abbreviation State := (StrategyState Stage).
(** A fingerprint that sees the mutations on their way. *)
Definition shape : Fingerprint := fun i => Z.of_nat (length (i_pending_mutations i)).
#[local] Existing Instances ids_json shape OwnerDemo.receipts OwnerDemo.names OwnerDemo.layouts.
Definition stage_name (l : Stage) : string := match l with Passes => "Passes" | Submits => "Submits" end.
Definition stages : LeafPipe Stage State := {|
  leaf_name := stage_name;
  leaf_controls_expiration _ := false;
  leaf_run l s i :=
    match l with
    | Passes => (l, s, i, pipe_result_new true true None (stage_name l))
    | Submits => let '(s, i, r) := submit (st_now s) s i in (l, s, i, from_mutation r (stage_name l))
    end;
  leaf_retain l _ := l;
  leaf_forget l _ := l;
  leaf_checkpoint _ _ := None;
  leaf_restore l _ c := (l, match c with Some _ => Err "unsupported" | None => Ok () end);
  leaf_layout := stage_name
|}.
#[local] Existing Instance stages.
Lemma stage_runs l s i l' s' i' r : leaf_run l s i = (l', s', i', r) -> l' = l /\ effect (s, i) (s', i').
Proof.
  destruct l; cbn [leaf_run stages].
  - intros [= <- <- <- <-]. split; reflexivity.
  - destruct (submit (st_now s) s i) as [[s1 i1] r1] eqn:E. intros [= <- <- <- <-]. split; [done|].
    eapply (steps_effect (enters := true)), submit_steps; [exact E|by left].
Qed.
#[local] Instance laws : PipeLaws.
Proof.
  split.
  - intros l s i l' s' i' r Hr. exact (proj2 (stage_runs _ _ _ _ _ _ _ Hr)).
  - intros l s i l' s' i' r Hr. by rewrite (proj1 (stage_runs _ _ _ _ _ _ _ Hr)).
  - reflexivity.
  - reflexivity.
  - reflexivity.
  - reflexivity.
  - reflexivity.
Qed.

Definition built : InsightPipeline Stage :=
  mkPipeline {[ New := [build_default (Leaf Passes); build_default (Leaf Submits)] ]} ∅ no_dependencies.
Definition start : State :=
  mkState collection_new (Some demo_driver) default_queue built default_persistence []
    {["BTCUSD"%string := demo_asset]} [] Running false None 0%Z 0%Z 0 2%float.
Definition persistent : State := start <| st_insights := enable_execution_persistence (st_insights start) |>.
Definition other : Insight := order_accepted 2%Z (OwnerDemo.child) "entry-b".
Definition first_in : InsightCollection := default collection_new (add_insight (st_insights persistent) demo_new).
Definition both_in : InsightCollection := default collection_new (add_insight first_in other).
Definition saved (s : State) (id : Uuid) : State := s <| st_insights := execution_saved (st_insights s) id |>.
Definition watched : State := saved (saved (persistent <| st_insights := both_in |>) 7%N) 8%N.
Definition free : RunBudget := mkRunBudget (fun _ => false) (fun _ => false).
Definition after : State :=
  match run_insight_pipeline_budgeted watched (Selected [7%N; 8%N]) (Within free) with
  | Some (s, _, _, _) => s
  | None => watched
  end.

Lemma built_started : started start.
Proof. split; try done. intros d [= <-]. by exists demo_idle, 0%Z. Qed.
Lemma saved_ok s id : owner_ok s -> owner_ok (saved s id).
Proof.
  intros [[A B C] D E]. split; [split|exact D|exact E]; [|exact B|exact C].
  by destruct (run_coll_ok _ (OpSaved id) A I) as (c' & [= <-] & Hc').
Qed.
Lemma watched_ok : owner_ok watched.
Proof.
  pose proof (owner_step_ok _ _ (os_persistent start) (started_ok _ built_started)) as Hp.
  assert (H7 : add_insight (st_insights persistent) demo_new = Some first_in) by (vm_compute; reflexivity).
  assert (H8 : add_insight first_in other = Some both_in) by (vm_compute; reflexivity).
  assert (T7 : tree_ok demo_new) by (apply OwnerDemo.leaf_ok; vm_compute; reflexivity).
  assert (T8 : tree_ok other) by (apply OwnerDemo.leaf_ok; vm_compute; reflexivity).
  pose proof (owner_step_ok _ _ (os_insight persistent demo_new first_in T7 H7) Hp) as Ho.
  apply saved_ok, saved_ok.
  exact (owner_step_ok _ _ (os_insight (persistent <| st_insights := first_in |>) other both_in T8 H8) Ho).
Qed.
Lemma watched_index : index_mirrors (st_pipeline watched).
Proof. split; [apply SnapshotIndex.no_dependencies_ok|]. intros id. cbn. by rewrite !lookup_empty. Qed.



(** The first stage passed and the second waits for the entry it queued; the next
    round asks the second one only. *)
Definition first_round : Pass := mkPass watched built ∅ false.
Definition suspended_round : Pass := default first_round (pass_insight first_round 7%N).
Definition next_round : Pass := default first_round (pass_insight suspended_round 7%N).
Lemma first_round_runs : pass_insight first_round 7%N = Some suspended_round.
Proof. vm_compute. reflexivity. Qed.
Lemma next_round_runs : pass_insight suspended_round 7%N = Some next_round.
Proof. vm_compute. reflexivity. Qed.
Lemma completed_stages_not_replayed_witness :
  exists r, ip_deferred (pa_pipeline suspended_round) !! 7%N = Some r /\ dr_state r = New /\ dr_index r = 1 /\
    take 1 (bucket (pa_pipeline next_round) New) = take 1 (bucket (pa_pipeline suspended_round) New) /\
    wp_runs_count <$> bucket (pa_pipeline next_round) New = [1; 2].
Proof.
  destruct (ip_deferred (pa_pipeline suspended_round) !! 7%N) as [r|] eqn:Hr; [|exfalso; vm_compute in Hr; discriminate Hr].
  assert (Hrow : c_insights (st_insights (pa_state first_round)) !! 7%N = Some demo_new) by (vm_compute; reflexivity).
  destruct (completed_stages_not_replayed first_round 7%N demo_new suspended_round r Hrow) as (Hst & _ & _ & Hnext).
  - vm_compute. reflexivity.
  - intros r0 Hr0. vm_compute in Hr0. discriminate Hr0.
  - exact first_round_runs.
  - exact Hr.
  - specialize (Hnext suspended_round next_round eq_refl next_round_runs).
    assert (Hi : dr_index r = 1) by (vm_compute in Hr; injection Hr as <-; reflexivity).
    assert (Hs : dr_state r = New) by (rewrite Hst; vm_compute; reflexivity).
    rewrite Hi, Hs in Hnext. exists r. split; [reflexivity|]. split; [exact Hs|]. split; [exact Hi|]. split; [exact Hnext|].
    vm_compute. reflexivity.
Defined.
End RunDemo.
