(* ===== verification/PipelineSweep.v ===== *)
(** * PipelineSweep: the live sweep over the active insights

    Model of [src/src/core/strategy/pipeline_sweep.rs]: one request walks, in pages
    and over as many calls as it takes, first the suspended insights (to drop stale
    continuations) and then the active ones (to run the pipeline).

    One [sweep_round] is one round of the [while] loop.  [RoundInput] is what the
    clock and the user interface answer during a round; [Instant] never goes back, so
    a budget that was found used up stays used up ([sp_late]).  [sp_visited] records the
    insights the sweep handed to the pipeline.  [None] is a panic; [SWEEP_ROUNDS]
    is enough for every call, which is part of [sweep_call_returns]. *)
From stdpp Require Import relations sorting.
From S2P Require Import Prelude.
From S2P Require Import OrderedSet.
From S2P Require Import Text.
From S2P Require Import BrokerTypes.
From S2P Require Import TimeFrame.
From S2P Require Import InsightTypes.
From S2P Require Import Commands.
From S2P Require Import ExecutionData.
From S2P Require Import Insight.
From S2P Require Import Operations.
From S2P Require Import Collection.
From S2P Require Import CollectionInvariant.
From S2P Require Import Checkpoint.
From S2P Require Import Journal.
From S2P Require Import JournalFacts.
From S2P Require Import CommandWorkerFacts.
From S2P Require Import InsightInvariant.
From S2P Require Import CommandWorker.
From S2P Require Import CommandDriver.
From S2P Require Import CommandDriverFacts.
From S2P Require Import CommandLife.
From S2P Require Import DriverOwnership.
From S2P Require Import SnapshotDependencies.
From S2P Require Import Pipeline.
From S2P Require Import PipelineFacts.
From S2P Require Import WorkQueue.
From S2P Require Import StrategyOwner.
From S2P Require Import StrategyOwnerFacts.
From S2P Require Import ExecutionPersistence.
From S2P Require Import OwnerTurns.
From S2P Require Import Scripted.
From S2P Require Import PipelineRun.
From S2P Require Import PipelineRunFacts.

Record LivePipelineSweep := mkSweep {
  sw_pending : bool;
  sw_pruning : bool;
  sw_after : option Uuid;
  sw_deferred_upper : option Uuid;
  sw_active_upper : option Uuid
}.
Definition default_sweep : LivePipelineSweep := mkSweep false false None None None.
Definition with_after (sw : LivePipelineSweep) (after : option Uuid) : LivePipelineSweep :=
  mkSweep (sw_pending sw) (sw_pruning sw) after (sw_deferred_upper sw) (sw_active_upper sw).
(** The walk over the suspended insights is over, the one over the active ones starts. *)
Definition pruned (sw : LivePipelineSweep) : LivePipelineSweep :=
  mkSweep (sw_pending sw) false None (sw_deferred_upper sw) (sw_active_upper sw).

Record RoundInput := mkRound {
  ri_stop : bool;              (* a shutdown was requested through the telemetry *)
  ri_late : bool;              (* the budget is used up at the start of the round *)
  ri_id_late : nat -> bool;    (* and before the next suspended insight, by how many were processed *)
  ri_run : RunBudget           (* what a run of the pipeline finds *)
}.

Section Sweep.
Context {P : Type} `{UuidText} `{Json} `{CommandIds} `{JournalJson} `{ReceiptJson} `{Chrono} `{Fingerprint}
  `{FreshIds} `{LeafPipe P (StrategyState P)} `{LayoutJson}.
Abbreviation State := (StrategyState P).
Abbreviation Pipeline := (InsightPipeline P).

Definition request (sw : LivePipelineSweep) (c : InsightCollection) (p : Pipeline) : LivePipelineSweep :=
  if sw_pending sw then sw
  else
    let deferred_upper := btree_last (dom (ip_deferred p)) in
    let active_upper := active_insight_upper_bound c in
    mkSweep (is_some deferred_upper || is_some active_upper) (is_some deferred_upper) None deferred_upper active_upper.

Record SweepCall := mkCall {
  sp_state : State;
  sp_sweep : LivePipelineSweep;
  sp_processed : nat;
  sp_late : bool;
  sp_visited : list Uuid
}.

(** A continuation whose insight is gone, over or in another state. *)
Definition is_stale_now (s : State) (id : Uuid) : bool :=
  match ip_deferred (st_pipeline s) !! id with
  | Some resume =>
      negb (is_some_and (fun row => negb (is_inactive (i_state row)) && bool_decide (i_state row = dr_state resume))
              (c_insights (st_insights s) !! id))
  | None => false
  end.
Definition prune_one (s : State) (id : Uuid) : State :=
  if is_stale_now s id
  then let '(p, s) := forget_and_mark (st_pipeline s) s id in s <| st_pipeline := p |>
  else s.
(** The flag tells that the time ran out. *)
Fixpoint prune_page (late : nat -> bool) (ids : list Uuid) (s : State) (after : option Uuid) (processed : nat)
    : State * option Uuid * nat * bool :=
  match ids with
  | [] => (s, after, processed, false)
  | id :: ids =>
      if negb (processed =? 0) && late processed then (s, after, processed, true)
      else prune_page late ids (prune_one s id) (Some id) (S processed)
  end.

(** One round of the loop, and whether the loop goes on. *)
Definition sweep_round (ri : RoundInput) (t : SweepCall) : option (SweepCall * bool) :=
  let 'mkCall s sw processed late visited := t in
  if negb (is_running (st_status s)) || st_shutdown s || ri_stop ri
  then Some (mkCall s default_sweep processed late visited, false)
  else
    let late := late || ri_late ri in
    if negb (processed =? 0) && late then Some (mkCall s sw processed late visited, false)
    else if sw_pruning sw then
      match sw_deferred_upper sw with
      | None => None
      | Some upper =>
          let ids := if is_some_and (fun id => (upper <=? id)%N) (sw_after sw) then []
                     else take (256 - processed) (btree_range (sw_after sw) upper (dom (ip_deferred (st_pipeline s)))) in
          match ids with
          | [] => Some (mkCall s (pruned sw) processed late visited, true)
          | _ =>
              let '(s, after, processed, out) := prune_page (ri_id_late ri) ids s (sw_after sw) processed in
              Some (mkCall s (with_after sw after) processed (late || out) visited, true)
          end
      end
    else
      match sw_active_upper sw with
      | None => Some (mkCall s default_sweep processed late visited, false)
      | Some upper =>
          let ids := active_insight_page (st_insights s) (sw_after sw) upper (256 - processed) in
          match ids with
          | [] => Some (mkCall s default_sweep processed late visited, false)
          | _ =>
              let* (s, last, count, _) := run_insight_pipeline_budgeted s (Selected ids) (Within (ri_run ri)) in
              let after := match last with Some last => Some last | None => sw_after sw end in
              let sw := if bool_decide (after = Some upper) then default_sweep else with_after sw after in
              let visited := visited ++ take count ids in
              if count =? 0 then Some (mkCall s default_sweep (processed + count) late visited, false)
              else Some (mkCall s sw (processed + count) late visited, true)
          end
      end.

Definition under_way (t : SweepCall) : bool := sw_pending (sp_sweep t) && (sp_processed t <? 256).
Fixpoint sweep_loop (fuel : nat) (inputs : nat -> RoundInput) (n : nat) (t : SweepCall) : option SweepCall :=
  if under_way t then
    match fuel with
    | O => None
    | S fuel =>
        let* (t, goes_on) := sweep_round (inputs n) t in
        if goes_on then sweep_loop fuel inputs (S n) t else Some t
    end
  else Some t.
Definition SWEEP_ROUNDS : nat := 258.
Definition advance_live_pipeline_sweep (s : State) (sw : LivePipelineSweep) (visited : list Uuid)
    (inputs : nat -> RoundInput) : option SweepCall :=
  sweep_loop SWEEP_ROUNDS inputs 0 (mkCall s sw 0 false visited).
End Sweep.

(** ** Every call returns *)
Section SweepFacts.
Context {P : Type} `{UuidText} `{Json} `{CommandIds} `{JournalJson} `{ReceiptJson} `{Chrono} `{Fingerprint}
  `{FreshIds} `{LeafPipe P (StrategyState P)} `{LayoutJson} `{!PipeLaws (P := P)}.
Abbreviation State := (StrategyState P).
Abbreviation Pipeline := (InsightPipeline P).
Abbreviation SweepCall := (SweepCall (P := P)).

(** The components are consistent and the snapshot index mirrors the continuations. *)
Definition sound (s : State) : Prop := owner_ok s /\ index_mirrors (st_pipeline s).
Definition sweep_ok (sw : LivePipelineSweep) : Prop := sw_pruning sw = true -> is_Some (sw_deferred_upper sw).
Lemma default_sweep_ok : sweep_ok default_sweep.
Proof. done. Qed.
Lemma request_ok sw c (p : Pipeline) : sweep_ok sw -> sweep_ok (request sw c p).
Proof. unfold request. destruct (sw_pending sw); [done|]. intros _. unfold sweep_ok. simpl. by destruct (btree_last _). Qed.

(** What a run consumes: a prefix of the ids, at least one unless it is stopped. *)
Lemma pass_loop_consumed mode ids : forall k (l0 : option Uuid) (t t' : Pass (P := P)) l n,
  pass_loop mode ids k l0 t = Some (t', l, n) -> exists m, m <= length ids /\ n = k + m /\
    l = match last (take m ids) with Some x => Some x | None => l0 end /\
    (m = 0 -> ids = [] \/ out_of_budget mode k (pa_state t) = true).
Proof.
  induction ids as [|id ids IH]; intros k l0 t t' l n; simpl.
  - intros [= <- <- <-]. exists 0. split; [done|]. split; [lia|]. auto.
  - destruct (out_of_budget mode k (pa_state t)) eqn:E.
    { intros [= <- <- <-]. exists 0. split; [lia|]. split; [lia|]. auto. }
    destruct (pass_insight t id) as [t1|]; [|done]. intros Hp. destruct (IH _ _ _ _ _ _ Hp) as (m & Hm & -> & -> & _).
    exists (S m). split; [lia|]. split; [lia|]. split; [|lia]. rewrite firstn_cons.
    destruct (take m ids) as [|x rest]; [done|]. rewrite last_cons_cons. destruct (last (x :: rest)) eqn:El; [done|]. by apply last_None in El.
Qed.
Lemma run_consumed (s : State) ids b s' l n ring :
  run_insight_pipeline_budgeted s (Selected ids) (Within b) = Some (s', l, n, ring) ->
  n <= length ids /\ l = last (take n ids) /\ (n = 0 -> ids = [] \/ st_shutdown s || rb_stop b 0 = true).
Proof.
  unfold run_insight_pipeline_budgeted. cbv zeta.
  destruct (pass_loop _ _ _ _ _) as [[[t last'] m]|] eqn:Hp; [|done]. intros [= <- <- <- <-].
  destruct (pass_loop_consumed _ _ _ _ _ _ _ _ Hp) as (k & Hk & -> & -> & H0'). simpl in *. split; [done|].
  split; [by destruct (last (take k ids))|]. done.
Qed.

Lemma forget_sound s id p s1 :
  forget_and_mark (st_pipeline s) s id = (p, s1) -> sound s ->
  sound (s1 <| st_pipeline := p |>) /\ option_Forall2 works (st_driver s) (st_driver s1).
Proof.
  intros [Hu _ _ Hi]%forget_and_mark_passes [Hs Hm].
  split; [split; [by apply (upholds_owner s)|by apply Hi]|exact (kp_driver _ _ Hu)].
Qed.
Lemma prune_one_sound s id : sound s -> sound (prune_one s id).
Proof.
  intros Hs. unfold prune_one. destruct (is_stale_now s id); [|done].
  destruct (forget_and_mark (st_pipeline s) s id) as [p s1] eqn:Hf. by eapply forget_sound.
Qed.
Lemma prune_page_ok late ids : forall s after k s' after' n out,
  prune_page late ids s after k = (s', after', n, out) ->
  (sound s -> sound s') /\ k <= n <= k + length ids /\
  (if out then 0 < n else n = k + length ids) /\ (k = 0 -> ids <> [] -> 0 < n).
Proof.
  induction ids as [|id ids IH]; intros s after k s' after' n out; simpl.
  - intros [= <- <- <- <-]. split; [done|]. split; [lia|]. split; [lia|done].
  - destruct (negb (k =? 0) && late k) eqn:E.
    { intros [= <- <- <- <-]. apply andb_true_iff in E as [E _]. rewrite negb_true_iff, Nat.eqb_neq in E.
      split; [done|]. split; [lia|]. split; lia. }
    intros Hp. destruct (IH _ _ _ _ _ _ _ Hp) as (Hs & Hb & Ho & _). split; [intros Hs0; by apply Hs, prune_one_sound|].
    split; [lia|]. split; [destruct out; lia|lia].
Qed.

(** How many rounds a call may still take. *)
Definition rounds_left (t : SweepCall) : nat :=
  (256 - sp_processed t) + (if sw_pruning (sp_sweep t) then 1 else 0) + (if sp_late t then 0 else 1).
Record call_ok (t : SweepCall) : Prop := {
  co_sound : sound (sp_state t);
  co_sweep : sweep_ok (sp_sweep t);
  co_bound : sp_processed t <= 256
}.
Definition may_end (t : SweepCall) : Prop := sw_pending (sp_sweep t) = true -> 0 < sp_processed t.
Lemma sweep_round_ok ri t :
  call_ok t -> under_way t = true -> exists t' goes_on, sweep_round ri t = Some (t', goes_on) /\ call_ok t' /\
    if goes_on then rounds_left t' < rounds_left t else may_end t'.
Proof.
  destruct t as [s sw processed late visited]. intros [Hs Hsw Hb] [_ Hlt%Nat.ltb_lt]%andb_true_iff. cbn in Hs, Hsw, Hb, Hlt. unfold sweep_round.
  destruct (negb _ || _ || _); [by eexists _, _|].
  destruct (negb (processed =? 0) && (late || ri_late ri)) eqn:El.
  { eexists _, _. split; [done|]. split; [by split|]. apply andb_true_iff in El as [E _]. rewrite negb_true_iff, Nat.eqb_neq in E.
    intros _. cbn. lia. }
  assert (Hlate : 0 < processed -> late = false).
  { intros Hp. apply andb_false_iff in El as [El|El]; [rewrite negb_false_iff, Nat.eqb_eq in El; lia|]. by destruct late. }
  destruct (sw_pruning sw) eqn:Hpr.
  - destruct (Hsw Hpr) as [upper ->]. set (ids := if is_some_and _ _ then [] else _).
    assert (Hids : length ids <= 256 - processed) by (unfold ids; destruct (is_some_and _ _); [simpl; lia|rewrite length_take; lia]).
    destruct ids as [|x ids'] eqn:Eids.
    { eexists _, _. split; [done|]. split; [by split|]. unfold rounds_left. cbn. rewrite ?Hpr.
      destruct late, (ri_late ri); simpl; lia. }
    destruct (prune_page _ (x :: ids') s _ processed) as [[[s' after'] n] out] eqn:Hp.
    destruct (prune_page_ok _ _ _ _ _ _ _ _ _ Hp) as (Hsound & Hn & Ho & H0').
    eexists _, _. split; [done|]. split; [split; cbn; [auto|exact Hsw|lia]|].
    unfold rounds_left. cbn. rewrite ?Hpr. assert (Hx : processed = 0 -> 0 < n) by (intros E0; by apply H0').
    destruct (decide (n = processed)) as [->|Hne].
    + destruct out; [|simpl in *; lia]. rewrite Hlate, orb_true_r by done. lia.
    + destruct late, (ri_late ri), out; simpl; lia.
  - destruct (sw_active_upper sw) as [upper|]; [|by eexists _, _].
    set (ids := active_insight_page _ _ _ _). assert (Hids : length ids <= 256 - processed).
    { unfold ids, active_insight_page. etrans; [apply cursor_page_bound|lia]. }
    destruct ids as [|x ids'] eqn:Eids; [by eexists _, _|].
    destruct (run_owner s (Selected (x :: ids')) (Within (ri_run ri))) as (s' & l & n & ring & E & Hs' & Hm' & _); [apply Hs..|].
    rewrite E. destruct (run_consumed _ _ _ _ _ _ _ E) as (Hn & _ & _). destruct (n =? 0) eqn:E0.
    { eexists _, _. split; [done|]. split; [split; [done|done|cbn in *; lia]|done]. }
    apply Nat.eqb_neq in E0. set (after' := match l with Some _ => _ | None => _ end).
    eexists _, _. split; [done|]. split; [split; [done|by case_bool_decide|cbn in *; lia]|].
    unfold rounds_left. cbn in *. rewrite ?Hpr. case_bool_decide; cbn; rewrite ?Hpr; destruct late, (ri_late ri); simpl; lia.
Qed.
Lemma over_ends t : under_way t = false -> may_end t.
Proof. unfold under_way. intros Hu Hp. rewrite Hp, andb_true_l in Hu. apply Nat.ltb_ge in Hu. lia. Qed.
Lemma sweep_loop_ok inputs fuel : forall n t,
  call_ok t -> rounds_left t <= fuel -> exists t', sweep_loop fuel inputs n t = Some t' /\ call_ok t' /\ may_end t'.
Proof.
  induction fuel as [|fuel IH]; intros n t Hok Hf; simpl; destruct (under_way t) eqn:Hu.
  - exfalso. apply andb_true_iff in Hu as [_ Hlt%Nat.ltb_lt]. unfold rounds_left in Hf. lia.
  - exists t. split; [done|]. split; [done|by apply over_ends].
  - destruct (sweep_round_ok (inputs n) t Hok Hu) as (t1 & goes_on & -> & Hok1 & Hend). destruct goes_on; [|by eauto].
    apply IH; [done|lia].
  - exists t. split; [done|]. split; [done|by apply over_ends].
Qed.

(** A call of the live sweep returns, whatever the clock shows and the stages do: it works on at
    most 256 insights, keeps the strategy consistent, and leaves the sweep pending only
    when it got at least one insight further, so a sweep cannot stall however short
    the budget is. *)
Theorem sweep_call_returns s sw visited inputs :
  owner_ok s -> index_mirrors (st_pipeline s) -> sweep_ok sw ->
  exists t, advance_live_pipeline_sweep s sw visited inputs = Some t /\
    owner_ok (sp_state t) /\ index_mirrors (st_pipeline (sp_state t)) /\ sweep_ok (sp_sweep t) /\
    sp_processed t <= 256 /\ (sw_pending (sp_sweep t) = true -> 0 < sp_processed t).
Proof.
  intros Hs Hm Hsw. destruct (sweep_loop_ok inputs SWEEP_ROUNDS 0 (mkCall s sw 0 false visited)) as (t & E & [[A B] C D] & Hend).
  - split; [done|exact Hsw|cbn; lia].
  - unfold rounds_left, SWEEP_ROUNDS. cbn [sp_processed sp_sweep sp_late]. destruct (sw_pruning sw); lia.
  - by exists t.
Qed.

(** ** A sweep reaches every insight *)

(** Nobody asks the strategy to stop during the round. *)
Definition undisturbed (ri : RoundInput) (s : State) : Prop :=
  is_running (st_status s) = true /\ st_shutdown s = false /\ ri_stop ri = false /\ rb_stop (ri_run ri) 0 = false.
(** A sweep on its way: rounds, and whatever happens to the strategy between rounds and
    between calls.  The insight [id] stays in the index of active insights until the
    sweep has come by. *)
Inductive sweep_move (id : Uuid) (t : SweepCall) : SweepCall -> Prop :=
| sm_round ri t' goes_on :
    under_way t = true -> undisturbed ri (sp_state t) ->
    id ∈ sp_visited t \/ id ∈ c_ordered_active (st_insights (sp_state t)) ->
    sweep_round ri t = Some (t', goes_on) -> sweep_move id t t'
| sm_world t' : sp_sweep t' = sp_sweep t -> sp_visited t' = sp_visited t -> sweep_move id t t'.

(** What the cursor tells: everything visited lies behind it, [id] is visited or ahead. *)
Definition walks (id : Uuid) (sw : LivePipelineSweep) (visited : list Uuid) : Prop :=
  exists upper, sw_active_upper sw = Some upper /\ (id <= upper)%N /\
    if sw_pruning sw then visited = []
    else (forall x, x ∈ visited -> exists a, sw_after sw = Some a /\ (x <= a)%N) /\
         (id ∈ visited \/ in_bounds (sw_after sw) upper id = true).
Record reaches (id : Uuid) (sw : LivePipelineSweep) (visited : list Uuid) : Prop := {
  re_sorted : StronglySorted N.lt visited;
  re_walks : if sw_pending sw then walks id sw visited else id ∈ visited
}.

Lemma sorted_app (l k : list N) :
  StronglySorted N.lt l -> StronglySorted N.lt k -> (forall x y, x ∈ l -> y ∈ k -> (x < y)%N) -> StronglySorted N.lt (l ++ k).
Proof.
  induction 1 as [|x l Hs IH Hx]; intros Hk Hlk; [done|]. simpl. constructor.
  - apply IH; [done|]. intros a b Ha Hb. apply Hlk; [by right|done].
  - apply Forall_app. split; [done|]. apply Forall_forall. intros y Hy. apply Hlk; [left|done].
Qed.
(** One page of the walk: [n] ids from the front of what is ahead. *)
Lemma page_walks id X after upper visited n l :
  StronglySorted N.lt visited ->
  (forall x, x ∈ visited -> exists a, after = Some a /\ (x <= a)%N) ->
  id ∈ visited \/ (in_bounds after upper id = true /\ id ∈ X) ->
  last (take n (btree_range after upper X)) = Some l ->
  let visited' := visited ++ take n (btree_range after upper X) in
  StronglySorted N.lt visited' /\ (forall x, x ∈ visited' -> (x <= l)%N) /\
  (id ∈ visited' \/ in_bounds (Some l) upper id = true).
Proof.
  intros Hs Hv Hid Hl visited'. set (R := btree_range after upper X) in *.
  assert (HR : StronglySorted N.lt R) by apply btree_range_sorted.
  assert (Htk : StronglySorted N.lt (take n R)) by (rewrite <- (take_drop n R) in HR; by apply StronglySorted_app_1_l in HR).
  assert (Hin : forall x, x ∈ take n R -> in_bounds after upper x = true /\ x ∈ X).
  { intros x Hx. apply (elem_of_btree_range after upper X). fold R. rewrite <- (take_drop n R). apply elem_of_app. by left. }
  assert (Hlt : forall x y, x ∈ visited -> y ∈ take n R -> (x < y)%N).
  { intros x y (a & -> & Ha)%Hv [Hb _]%Hin. unfold in_bounds in Hb. lia. }
  assert (Hlin : l ∈ take n R) by (by apply last_Some_elem_of).
  split; [by apply sorted_app|]. split.
  - intros x [Hx|Hx]%elem_of_app; [specialize (Hlt x l Hx Hlin); lia|by eapply last_Some_max].
  - destruct Hid as [Hx|Hx]; [left; apply elem_of_app; by left|]. apply elem_of_btree_range in Hx. fold R in Hx.
    rewrite <- (take_drop n R) in Hx. apply elem_of_app in Hx as [Hx|Hx]; [left; apply elem_of_app; by right|].
    right. unfold R in Hx. rewrite (btree_range_after_page _ _ _ _ _ Hl) in Hx. by apply elem_of_btree_range in Hx as [? _].
Qed.
Lemma walks_with_after id sw visited after :
  sw_pruning sw = true -> walks id sw visited -> walks id (with_after sw after) visited.
Proof. intros Hp (upper & Hu & Hle & Hw). exists upper. cbn. by rewrite Hp in *. Qed.
Lemma walks_pruned id sw visited : sw_pruning sw = true -> walks id sw visited -> walks id (pruned sw) visited.
Proof.
  intros Hp (upper & Hu & Hle & Hw). rewrite Hp in Hw. subst visited. exists upper. split; [done|]. split; [done|]. cbn.
  split; [by intros x Hx%elem_of_nil|]. right. unfold in_bounds. lia.
Qed.
Lemma sweep_move_reaches id t t' :
  sweep_move id t t' -> reaches id (sp_sweep t) (sp_visited t) -> reaches id (sp_sweep t') (sp_visited t').
Proof.
  intros [ri t2 goes_on Hu (Hrun & Hsh & Hst & Hrb) Hid Hr|t2 -> ->]; [|done]. intros [Hs Hw].
  destruct t as [s sw processed late visited]. apply andb_true_iff in Hu as [Hp Hlt%Nat.ltb_lt].
  cbn [sp_state sp_sweep sp_processed sp_late sp_visited] in *. rewrite Hp in Hw. unfold sweep_round in Hr.
  rewrite Hrun, Hsh, Hst in Hr. simpl negb in Hr. simpl orb in Hr. cbv zeta in Hr.
  destruct (negb _ && _) in Hr; [simplify_eq; split; cbn; [done|by rewrite Hp]|].
  destruct (sw_pruning sw) eqn:Hpr.
  - destruct (sw_deferred_upper sw) as [upper|]; [|done]. destruct (if is_some_and _ _ then [] else _) as [|x ids].
    + simplify_eq. split; cbn; [done|rewrite Hp; by apply walks_pruned].
    + destruct (prune_page _ _ _ _ _) as [[[s' after'] n] out]. simplify_eq.
      split; cbn; [done|rewrite Hp; by apply walks_with_after].
  - destruct Hw as (upper & Hup & Hle & Hw). rewrite Hpr in Hw. destruct Hw as [Hv Hahead]. rewrite Hup in Hr.
    unfold active_insight_page in Hr. rewrite cursor_page_take in Hr by lia. set (X := c_ordered_active (st_insights s)) in *.
    set (k := Nat.min (256 - processed) 256) in Hr. set (R := btree_range (sw_after sw) upper X) in *.
    assert (Hx : id ∈ visited \/ (in_bounds (sw_after sw) upper id = true /\ id ∈ X)) by (destruct Hid, Hahead; auto).
    assert (Hk : 0 < k) by lia. clearbody k. destruct (take k R) as [|x ids] eqn:Ek.
    + simplify_eq. split; cbn; [done|]. destruct Hx as [|Hx]; [done|]. apply elem_of_btree_range in Hx. fold R in Hx.
      destruct R; [by apply elem_of_nil in Hx|]. destruct k; [lia|done].
    + rewrite <- Ek in *. destruct (run_insight_pipeline_budgeted s _ _) as [[[[s' l] n] ring]|] eqn:E; [|done].
      destruct (run_consumed _ _ _ _ _ _ _ E) as (Hn & -> & H0').
      rewrite Hsh, Hrb in H0'. destruct (n =? 0) eqn:E0.
      { apply Nat.eqb_eq in E0. destruct (H0' E0) as [Hnil|]; [|done]. by rewrite Hnil in Ek. }
      apply Nat.eqb_neq in E0. destruct (last (take n (take k R))) as [l|] eqn:El.
      2:{ apply last_None in El. rewrite Ek in El. destruct n; [lia|done]. }
      rewrite take_take in El. destruct (page_walks id X (sw_after sw) upper visited _ l Hs Hv Hx El) as (A & B & C).
      fold R in A, B, C. simplify_eq. rewrite take_take. cbn [sp_sweep sp_visited]. split; [exact A|].
      case_bool_decide as Eu.
      * simplify_eq. cbn. destruct C as [C|C]; [done|]. unfold in_bounds in C. lia.
      * cbn. rewrite Hp. exists upper. cbn. rewrite Hpr. split; [done|]. split; [done|]. split; [|done]. intros y Hy. eauto.
Qed.

End SweepFacts.

(** ** Two insights, one per call *)
Module SweepDemo.
Import RunDemo.
#[local] Existing Instances ids_json shape OwnerDemo.receipts OwnerDemo.names OwnerDemo.layouts stages laws.
Definition hurried : RoundInput :=
  mkRound false true (fun _ => true) (mkRunBudget (fun _ => true) (fun _ => false)).
Definition asked : LivePipelineSweep := request default_sweep (st_insights watched) (st_pipeline watched).
Definition call (s : State) (sw : LivePipelineSweep) (visited : list Uuid) : SweepCall := mkCall s sw 0 false visited.
Definition round_of (t : SweepCall) : SweepCall := from_option fst t (sweep_round hurried t).
Definition t0 : SweepCall := call watched asked [].
Definition t1 : SweepCall := round_of t0.
(** The next call goes on behind the first insight. *)
Definition t2 : SweepCall := call (sp_state t1) (sp_sweep t1) (sp_visited t1).
Definition t3 : SweepCall := round_of t2.

Lemma asked_ok : sweep_ok asked.
Proof. apply request_ok, default_sweep_ok. Qed.
Lemma sweep_call_returns_witness :
  exists t, advance_live_pipeline_sweep watched asked [] (fun _ => hurried) = Some t /\
    owner_ok (sp_state t) /\ sp_processed t = 1 /\ sw_pending (sp_sweep t) = true.
Proof.
  destruct (sweep_call_returns watched asked [] (fun _ => hurried) watched_ok watched_index asked_ok) as (t & E & Hok & _).
  exists t. split; [exact E|]. split; [exact Hok|]. vm_compute in E. injection E as <-. split; reflexivity.
Defined.

Lemma round_moves id t t' :
  round_of t = t' -> is_some (sweep_round hurried t) = true -> under_way t = true ->
  bool_decide (undisturbed hurried (sp_state t)) = true ->
  bool_decide (id ∈ c_ordered_active (st_insights (sp_state t))) = true -> sweep_move id t t'.
Proof.
  intros <- Hr Hu Hd%bool_decide_eq_true Hi%bool_decide_eq_true. unfold round_of.
  destruct (sweep_round hurried t) as [[t' go]|] eqn:E; [|done]. by eapply sm_round; eauto.
Qed.
End SweepDemo.
