(* ===== verification/ExecutionRuntime.v ===== *)
(** * ExecutionRuntime: resuming suspended stages, and the barrier of the backtest

    Model of [src/src/core/strategy/execution_runtime.rs] and of
    [has_pending_broker_events] ([strategy/mod.rs]).  A suspended stage is resumed when the snapshot it
    waits for was observed anew ([resume_snapshot_pipes]) or when the driver answers
    the command it waits for ([resume_live_command_pipes]); a backtest advances its
    clock only after [drain_backtest_execution] found nothing left to do.

    What other threads answer is an argument: the snapshot caches
    ([SnapshotView]), the clock and shutdown requests ([ResumeInput], [DrainInput]), the
    iteration order of the pending commands, and the broker's own event queue.  One
    [drain_round] is one round of the [loop]; the wake-up it waits for in between is not
    ordered in any way.  [None] is a panic. *)
From stdpp Require Import relations sorting.
From S2P Require Import Prelude.
From S2P Require Import OrderedSet.
From S2P Require Import Float64.
From S2P Require Import Text.
From S2P Require Import BrokerTypes.
From S2P Require Import TimeFrame.
From S2P Require Import InsightTypes.
From S2P Require Import Commands.
From S2P Require Import ExecutionData.
From S2P Require Import Insight.
From S2P Require Import Operations.
From S2P Require Import Collection.
From S2P Require Import CollectionInvariant.
From S2P Require Import Checkpoint.
From S2P Require Import Journal.
From S2P Require Import JournalFacts.
From S2P Require Import CommandWorkerFacts.
From S2P Require Import InsightInvariant.
From S2P Require Import CommandWorker.
From S2P Require Import CommandDriver.
From S2P Require Import CommandDriverFacts.
From S2P Require Import CommandLife.
From S2P Require Import DriverOwnership.
From S2P Require Import SnapshotDependencies.
From S2P Require Import Pipeline.
From S2P Require Import PipelineFacts.
From S2P Require Import WorkQueue.
From S2P Require Import StrategyOwner.
From S2P Require Import StrategyOwnerFacts.
From S2P Require Import ExecutionPersistence.
From S2P Require Import OwnerTurns.
From S2P Require Import Scripted.
From S2P Require Import PipelineRun.
From S2P Require Import PipelineRunFacts.
From S2P Require Import PipelineSweep.

(** What the snapshot caches answer: the revision of an observation, and whether it can be read. *)
Record SnapshotView := mkView {
  sv_revision : SnapshotKind -> option SnapshotReadRevision;
  sv_ok : SnapshotKind -> bool
}.
(** What a call finds when it examined so many insights. *)
Record ResumeInput := mkResumeInput {
  ru_stop : nat -> bool;
  ru_late : nat -> bool;
  ru_run : nat -> RunBudget
}.
(** The deferrals that were tried, and at which revision of the driver. *)
Abbreviation Attempts := (gmap Uuid (InsightPipeDeferral * Z)).

(** What a round of the drain finds. *)
Record DrainInput := mkDrain {
  dn_stop : bool;                          (* a shutdown was requested through the telemetry *)
  dn_turn : TurnInput;                     (* the turn of the owner *)
  dn_run : TurnInput;                      (* and the one that ends a run of the pipeline *)
  dn_values : list PendingCommand;         (* the pending commands in their iteration order *)
  dn_ok : SnapshotKind -> bool;            (* the snapshot caches *)
  dn_broker_events : bool;                 (* the broker has trade events *)
  dn_stop_after : bool;                    (* a shutdown was requested during the wait *)
  dn_worker_finished : bool                (* the worker has exited *)
}.
Inductive DrainOutcome := DrainReturns (r : result unit text) | DrainGoesOn.

Section Runtime.
Context {P : Type} `{UuidText} `{Json} `{CommandIds} `{JournalJson} `{ReceiptJson} `{Chrono} `{Fingerprint}
  `{FreshIds} `{LeafPipe P (StrategyState P)} `{LayoutJson}.
Abbreviation State := (StrategyState P).
Abbreviation Pipeline := (InsightPipeline P).

(** ** Snapshots *)
Definition forget_now (s : State) (id : Uuid) : State :=
  let '(p, s) := forget_and_mark (st_pipeline s) s id in s <| st_pipeline := p |>.
Definition attempted_at (resume : DeferredPipeResume) (revision : SnapshotReadRevision) : DeferredPipeResume :=
  mkResume (dr_state resume) (dr_index resume) (dr_dependency resume) (Some revision).
(** A suspended insight is tried once per observation, or when its state changed. *)
Definition to_resume (s : State) (id : Uuid) (revision : SnapshotReadRevision) (resume : DeferredPipeResume) : bool :=
  negb (bool_decide (dr_snapshot_attempted resume = Some revision))
  || is_some_and (fun row => negb (bool_decide (i_state row = dr_state resume))) (c_insights (st_insights s) !! id).
Definition note_attempt (s : State) (id : Uuid) (revision : SnapshotReadRevision) (resume : DeferredPipeResume) : State :=
  s <| st_pipeline := (st_pipeline s) <| ip_deferred := <[id := attempted_at resume revision]> (ip_deferred (st_pipeline s)) |> |>.
Definition resume_one (s : State) (id : Uuid) (revision : SnapshotReadRevision) (b : RunBudget) : option State :=
  if negb (is_some_and (fun row => negb (is_inactive (i_state row))) (c_insights (st_insights s) !! id))
  then Some (forget_now s id)
  else
    match ip_deferred (st_pipeline s) !! id with
    | None => Some s
    | Some resume =>
        if to_resume s id revision resume then
          let* (s, _, _, _) := run_insight_pipeline_budgeted (note_attempt s id revision resume) (Selected [id]) (Within b) in
          Some s
        else Some s
    end.
(** The owners of one topic; the answer ends the call.  Every round examines one more
    insight, and 256 end the call, so the fuel is enough. *)
Definition RESUME_ROUNDS : nat := 256.
Fixpoint resume_topic (fuel : nat) (inp : ResumeInput) (kind : SnapshotKind) (revision : SnapshotReadRevision)
    (examined : nat) (s : State) : option (State * nat * option bool) :=
  match fuel with
  | O => None
  | S fuel =>
      let* (waits, next) := SnapshotIndex.next (ip_snapshots (st_pipeline s)) kind revision in
      let s := s <| st_pipeline := (st_pipeline s) <| ip_snapshots := waits |> |> in
      match next with
      | None => Some (s, examined, None)
      | Some id =>
          if ru_stop inp examined || st_shutdown s then Some (shutdown s, examined, Some false)
          else
            let examined := S examined in
            let* s := resume_one s id revision (ru_run inp examined) in
            if (256 <=? examined) || ru_late inp examined then Some (s, examined, Some true)
            else resume_topic fuel inp kind revision examined s
      end
  end.
Fixpoint resume_topics (view : SnapshotView) (inp : ResumeInput) (kinds : list SnapshotKind) (examined : nat) (s : State)
    : option (State * bool) :=
  match kinds with
  | [] => Some (s, false)
  | kind :: kinds =>
      match sv_revision view kind with
      | None => resume_topics view inp kinds examined s
      | Some revision =>
          if negb (sv_ok view kind) then resume_topics view inp kinds examined s
          else
            let* (s, examined, answer) := resume_topic RESUME_ROUNDS inp kind revision examined s in
            match answer with
            | Some b => Some (s, b)
            | None => resume_topics view inp kinds examined s
            end
      end
  end.
(** The answer tells whether the call ran out of time and wants to be called again. *)
Definition resume_snapshot_pipes (s : State) (view : SnapshotView) (inp : ResumeInput) : option (State * bool) :=
  resume_topics view inp (SnapshotIndex.topics (ip_snapshots (st_pipeline s))) 0 s.

(** ** Broker completions *)
Definition is_finished (p : BrokerCommandProgress) : bool :=
  match p with ProgressCompleted _ | ProgressFailed _ => true | ProgressQueued => false end.
Definition deferral_completed (d : Driver) (ok : SnapshotKind -> bool) (include_snapshots : bool)
    (dependency : InsightPipeDeferral) : bool :=
  match dependency with
  | DeferBrokerCommand receipt => is_some_and is_finished (progress d receipt)
  | DeferBrokerQueueCapacity => has_admission_capacity d
  | DeferBrokerOperationGroup group => operation_group_ready d group
  | DeferAccountSnapshot => include_snapshots && ok SnapAccount
  | DeferPositionSnapshot => include_snapshots && ok SnapPositions
  | DeferQuoteSnapshot symbol => include_snapshots && ok (SnapQuote symbol)
  end.
Definition is_ready_continuation (s : State) (d : Driver) (attempted : Attempts) (ok : SnapshotKind -> bool)
    (include_snapshots : bool) (id : Uuid) (resume : DeferredPipeResume) : bool :=
  negb (is_some_and (fun '(dependency, previous) =>
          (previous =? d_progress_revision d)%Z && bool_decide (dependency = dr_dependency resume)) (attempted !! id))
  && (is_some_and (fun row => negb (bool_decide (i_state row = dr_state resume))) (c_insights (st_insights s) !! id)
      || deferral_completed d ok include_snapshots (dr_dependency resume)).
Definition ready_execution_continuations (s : State) (attempted : Attempts) (ok : SnapshotKind -> bool)
    (include_snapshots : bool) : list Uuid :=
  match st_driver s with
  | None => []
  | Some d =>
      sort_unstable (take 256 (List.filter
        (fun id => is_some_and (is_ready_continuation s d attempted ok include_snapshots id) (ip_deferred (st_pipeline s) !! id))
        (btree_elements (dom (ip_deferred (st_pipeline s))))))
  end.
Definition revision_of (s : State) : Z := match st_driver s with Some d => d_progress_revision d | None => 0%Z end.
Definition attempt (s : State) (revision : Z) (attempted : Attempts) (id : Uuid) : Attempts :=
  match ip_deferred (st_pipeline s) !! id with
  | Some resume => <[id := (dr_dependency resume, revision)]> attempted
  | None => attempted
  end.

(** [run_insight_pipeline_selected]: to the end, and a turn of the owner. *)
Definition run_insight_pipeline_selected (s : State) (sel : Selection) (t : TurnInput) : option State :=
  let* (s, _, _, _) := run_insight_pipeline_budgeted s sel (Completely t) in Some s.
Fixpoint resume_ready (late : nat -> bool) (turns : nat -> TurnInput) (revision : Z) (count index : nat)
    (ids : list Uuid) (attempted : Attempts) (s : State) : option (State * Attempts * bool) :=
  match ids with
  | [] => Some (s, attempted, count =? 256)
  | id :: ids =>
      let attempted := attempt s revision attempted id in
      let* s := run_insight_pipeline_selected s (Selected [id]) (turns index) in
      if late index then Some (s, attempted, (S index <? count) || (count =? 256))
      else resume_ready late turns revision count (S index) ids attempted s
  end.
Definition retain_attempts (s : State) (attempted : Attempts) : Attempts :=
  filter (fun kv => is_Some (ip_deferred (st_pipeline s) !! kv.1)) attempted.
Definition resume_live_command_pipes (s : State) (attempted : Attempts) (late : nat -> bool) (turns : nat -> TurnInput)
    : option (State * Attempts * bool) :=
  let attempted := retain_attempts s attempted in
  let ready := ready_execution_continuations s attempted (fun _ => false) false in
  resume_ready late turns (revision_of s) (length ready) 0 ready attempted s.

(** ** The barrier *)
Definition has_ready_events_with_admission (d : Driver) (allow_entries : bool) : bool :=
  is_some (execution_stop_error (d_worker d))
  || match w_events (d_worker d) with [] => false | _ => true end
  || is_some (next_dispatch_id d allow_entries).
Definition has_execution_dirty (c : InsightCollection) : bool := negb (bool_decide (c_exec_dirty c = ∅)).
Definition has_pending_broker_events (s : State) (broker_events : bool) : bool :=
  match st_events s with [] => false | _ => true end
  || broker_events
  || is_some_and (fun d => has_ready_events_with_admission d (entries_enabled s)) (st_driver s)
  || Queue.is_ready_for_execution (st_work s) (insight_execution_enabled s)
  || ((persistence_ready (st_persistence s) || has_execution_dirty (st_insights s))
      && is_some_and (fun d => negb (checkpoint_in_flight d)) (st_driver s)).
Definition waits_for_broker (dependency : InsightPipeDeferral) : bool :=
  match dependency with
  | DeferBrokerCommand _ | DeferBrokerQueueCapacity | DeferBrokerOperationGroup _ => true
  | _ => false
  end.
Definition some_waits_for_broker (p : Pipeline) : bool :=
  existsb (fun kv => waits_for_broker (dr_dependency kv.2)) (map_to_list (ip_deferred p)).
Definition drain_failed (e : BrokerCommandError) : text := Lit "execution drain failed: " :: error_text e.

(** The end of a round: the wait, a shutdown and the worker's exit. *)
Definition drain_wait (s : State) (inp : DrainInput) : State :=
  let s := if dn_stop_after inp || st_shutdown s then shutdown s else s in
  if is_some (st_driver s) && dn_worker_finished inp
  then s <| st_error := Some (unwrap_or (st_error s) ClosedError) |> else s.
(** What is found when nothing can be resumed and no event is pending. *)
Definition drain_idle (s : State) (inp : DrainInput) : State * DrainOutcome :=
  if negb (is_some_and has_in_flight_work (st_driver s)) then
    (s, DrainReturns (if some_waits_for_broker (st_pipeline s)
                      then Err [Lit "execution continuation made no progress after broker completion"] else Ok ()))
  else if is_some_and (fun d => negb (has_external_execution_work d)) (st_driver s)
  then (s, DrainReturns (Err [Lit "queued execution has no dispatchable checkpoint or in-flight worker"]))
  else (drain_wait s inp, DrainGoesOn).
Definition drain_round (s : State) (attempted : Attempts) (inp : DrainInput) : option (State * Attempts * DrainOutcome) :=
  let s := if dn_stop inp || st_shutdown s then shutdown s else s in
  let* s := on_trade_update s (dn_turn inp) in
  match st_error s with
  | Some error => Some (s, attempted, DrainReturns (Err (drain_failed error)))
  | None =>
      match st_driver s ≫= (fun d => execution_failure d (dn_values inp) true) with
      | Some error => Some (shutdown s, attempted, DrainReturns (Err (drain_failed error)))
      | None =>
          match ready_execution_continuations s attempted (dn_ok inp) true with
          | [] =>
              if has_pending_broker_events s (dn_broker_events inp) then Some (s, attempted, DrainGoesOn)
              else let '(s, outcome) := drain_idle s inp in Some (s, attempted, outcome)
          | ready =>
              let attempted := fold_left (attempt s (revision_of s)) ready attempted in
              let* s := run_insight_pipeline_selected s (Selected ready) (dn_run inp) in
              Some (s, attempted, DrainGoesOn)
          end
      end
  end.
End Runtime.

(** ** Every call returns and keeps the strategy consistent *)
Section RuntimeFacts.
Context {P : Type} `{UuidText} `{Json} `{CommandIds} `{JournalJson} `{ReceiptJson} `{Chrono} `{Fingerprint}
  `{FreshIds} `{LeafPipe P (StrategyState P)} `{LayoutJson} `{!PipeLaws (P := P)}.
Abbreviation State := (StrategyState P).
Abbreviation Pipeline := (InsightPipeline P).
Abbreviation pipeline_checkpoint := (execution_checkpoint (C := State)).

(** What a part of the runtime does to a consistent strategy. *)
Definition serves (s s' : State) : Prop :=
  sound s -> sound s' /\ option_Forall2 works (st_driver s) (st_driver s').
#[export] Instance serves_preorder : PreOrder serves.
Proof.
  split; [intros s Hs; by split|]. intros s1 s2 s3 A B Hs. destruct (A Hs) as [H2' W]. destruct (B H2') as [H3' W'].
  split; [done|by etrans].
Qed.
Lemma serves_follow s s' : serves s s' -> sound s -> owner_ok s' /\ index_mirrors (st_pipeline s') /\ commands_follow s s'.
Proof. intros Hv Hs. destruct (Hv Hs) as [[A B] W]. split; [done|]. split; [done|]. by apply works_follow; [apply Hs|]. Qed.
Lemma keeps_serves s s' : keeps s s' -> serves s s'.
Proof.
  intros Hk [Hs Hm]. split; [split; [by eapply keeps_owner|by rewrite (keeps_pipeline _ _ Hk)]|exact (kp_driver _ _ Hk)].
Qed.
Lemma shutdown_serves s : serves s (shutdown s).
Proof. apply keeps_serves, calls_keeps, shutdown_calls. Qed.
Lemma forget_now_serves s id : serves s (forget_now s id).
Proof.
  intros Hs. unfold forget_now. destruct (forget_and_mark _ _ _) as [p s1] eqn:Hf. exact (forget_sound s id p s1 Hf Hs).
Qed.
Lemma repipe_serves (s : State) (p : Pipeline) : (index_mirrors (st_pipeline s) -> index_mirrors p) -> serves s (s <| st_pipeline := p |>).
Proof.
  intros Hp [[[A B C] D E] Hm]. split; [|done]. split; [|by apply Hp]. split; [by split|exact D|exact E].
Qed.
Lemma note_attempt_serves s id revision resume :
  ip_deferred (st_pipeline s) !! id = Some resume -> serves s (note_attempt s id revision resume).
Proof.
  intros Hr. apply repipe_serves. intros [A B]. split; [exact A|]. intros k. cbn. rewrite B.
  destruct (decide (k = id)) as [->|Hne]; [by rewrite lookup_insert_eq, Hr|by rewrite lookup_insert_ne].
Qed.
Lemma next_owners s k r s' x : SnapshotIndex.next s k r = Some (s', x) -> sd_owners s' = sd_owners s.
Proof.
  unfold SnapshotIndex.next. cbv zeta. destruct (sd_groups _ !! k) as [g|]; [|by intros [= <- _]].
  destruct (SnapshotIndex.next_loop SnapshotIndex.NEXT_ROUNDS (SnapshotIndex.observe_revision g r)) as [[g' y]|]; [|done].
  by intros [= <- _].
Qed.
Lemma next_serves s k r :
  sound s -> exists waits x, SnapshotIndex.next (ip_snapshots (st_pipeline s)) k r = Some (waits, x) /\
    serves s (s <| st_pipeline := (st_pipeline s) <| ip_snapshots := waits |> |>).
Proof.
  intros [_ [Hw _]]. destruct (SnapshotIndex.next_ok _ k r Hw) as (waits & x & E & Hw'). exists waits, x. split; [done|].
  apply repipe_serves. intros [_ Hm]. split; [done|]. intros id. cbn. by rewrite (next_owners _ _ _ _ _ E).
Qed.
Lemma run_serves s sel mode :
  sound s -> exists s' last n ring, run_insight_pipeline_budgeted s sel mode = Some (s', last, n, ring) /\ serves s s'.
Proof.
  intros [Hs Hm]. destruct (run_owner s sel mode Hs Hm) as (s' & last & n & ring & E & A & B & C).
  exists s', last, n, ring. split; [done|]. intros _. split; [by split|exact C].
Qed.
Lemma resume_one_serves s id revision b : sound s -> exists s', resume_one s id revision b = Some s' /\ serves s s'.
Proof.
  intros Hs. unfold resume_one. destruct (negb _); [eexists; split; [done|apply forget_now_serves]|].
  destruct (ip_deferred (st_pipeline s) !! id) as [resume|] eqn:Hr; [|by eexists].
  destruct (to_resume s id revision resume); [|by eexists].
  pose proof (note_attempt_serves s id revision resume Hr) as Hn. destruct (Hn Hs) as [Hs1 _].
  destruct (run_serves _ (Selected [id]) (Within b) Hs1) as (s' & last & n & ring & -> & Hv). eexists. split; [done|by etrans].
Qed.
Lemma resume_topic_serves inp kind revision fuel : forall examined s,
  sound s -> examined < 256 -> 256 <= examined + fuel ->
  exists s' n answer, resume_topic fuel inp kind revision examined s = Some (s', n, answer) /\ serves s s' /\
    (answer = None -> n < 256).
Proof.
  induction fuel as [|fuel IH]; intros examined s Hs Hlt Hf; [lia|]. cbn [resume_topic].
  destruct (next_serves s kind revision Hs) as (waits & x & -> & Hv). set (s1 := s <| st_pipeline := _ |>) in *.
  destruct (Hv Hs) as [Hs1 _]. destruct x as [id|]; [|by eexists _, _, _].
  destruct (ru_stop inp examined || st_shutdown s1).
  { eexists _, _, _. split; [done|]. split; [|done]. etrans; [exact Hv|apply shutdown_serves]. }
  destruct (resume_one_serves s1 id revision (ru_run inp (S examined)) Hs1) as (s2 & -> & Hv2). destruct (Hv2 Hs1) as [Hs2 _].
  destruct ((256 <=? S examined) || ru_late inp (S examined)) eqn:E.
  { eexists _, _, _. split; [done|]. split; [by etrans|done]. }
  apply orb_false_iff in E as [E%Nat.leb_gt _].
  destruct (IH (S examined) s2 Hs2) as (s3 & n & answer & -> & Hv3 & Hn); [lia..|].
  eexists _, _, _. split; [done|]. split; [|done]. etrans; [exact Hv|]. by etrans.
Qed.
Lemma resume_topics_serves view inp kinds : forall examined s,
  sound s -> examined < 256 -> exists s' b, resume_topics view inp kinds examined s = Some (s', b) /\ serves s s'.
Proof.
  induction kinds as [|kind kinds IH]; intros examined s Hs Hlt; cbn [resume_topics]; [by eexists _, _|].
  destruct (sv_revision view kind) as [revision|]; [|by apply IH]. destruct (negb _); [by apply IH|].
  destruct (resume_topic_serves inp kind revision RESUME_ROUNDS examined s Hs Hlt) as (s1 & n & answer & -> & Hv & Hn);
    [unfold RESUME_ROUNDS; lia|].
  destruct answer as [b|]; [by eexists _, _|]. destruct (Hv Hs) as [Hs1 _].
  destruct (IH n s1 Hs1 (Hn eq_refl)) as (s2 & b & -> & Hv2). eexists _, _. split; [done|by etrans].
Qed.
Lemma selected_serves s sel t : sound s -> exists s', run_insight_pipeline_selected s sel t = Some s' /\ serves s s'.
Proof.
  intros Hs. unfold run_insight_pipeline_selected. destruct (run_serves s sel (Completely t) Hs) as (s' & l & n & r & -> & Hv).
  by exists s'.
Qed.
Lemma resume_ready_serves late turns revision count ids : forall index attempted s,
  sound s -> exists s' attempted' b,
    resume_ready late turns revision count index ids attempted s = Some (s', attempted', b) /\ serves s s'.
Proof.
  induction ids as [|id ids IH]; intros index attempted s Hs; cbn [resume_ready]; [by eexists _, _, _|].
  destruct (selected_serves s (Selected [id]) (turns index) Hs) as (s1 & -> & Hv). destruct (late index); [by eexists _, _, _|].
  destruct (Hv Hs) as [Hs1 _]. destruct (IH (S index) (attempt s revision attempted id) s1 Hs1) as (s2 & a & b & -> & Hv2).
  eexists _, _, _. split; [done|by etrans].
Qed.
Lemma turn_serves s t : sound s -> exists s', on_trade_update s t = Some s' /\ serves s s'.
Proof.
  intros [Hs Hm]. destruct (turn_total s t Hs) as (s' & -> & Hs' & Hw & Ep). exists s'. split; [done|]. intros _.
  split; [split; [done|by rewrite Ep]|done].
Qed.

(** ** An unchanged wait is not tried again *)
Lemma checkpoint_fields (p : Pipeline) id c :
  pipeline_checkpoint p id = Some c -> exists r, ip_deferred p !! id = Some r /\
    ipc_state c = dr_state r /\ ipc_dependency c = dr_dependency r.
Proof.
  unfold execution_checkpoint. destruct (ip_deferred p !! id) as [r|]; [|done].
  destruct (ip_pipeline p !! dr_state r) as [l|]; [|done]. destruct (l !! dr_index r); [|done]. intros [= <-]. eauto.
Qed.
Lemma insight_turn_attempted p s id i p' s' i' touched r' :
  insight_turn p s id i = (p', s', i', touched) -> ip_deferred p' !! id = Some r' ->
  p' = p \/ dr_snapshot_attempted r' = attempted_before (ip_deferred p !! id) (dr_dependency r').
Proof.
  unfold insight_turn. intros Hr Hd. cbv zeta in Hr.
  destruct (if can_expire i && _ then has_expired (st_now s) s i else (s, i, false)) as [[s1 i1] expired].
  destruct expired; [simplify_eq; by auto|].
  destruct (turn_stages _ s1 i1 _ _) as [[[[p2 s2] i2] b2] e] eqn:Et.
  destruct (turn_stages_frame _ _ _ _ _ _ _ _ _ _ Et) as (_ & _ & E).
  assert (Hno : ip_deferred p2 !! id = None) by (rewrite E; apply lookup_delete_eq).
  destruct e as [| |n d|reason]; [by simplify_eq|by simplify_eq| |].
  - simplify_eq. right. cbn in Hd. rewrite lookup_insert_eq in Hd. by injection Hd as <-.
  - destruct (pipeline_failed s2 id i2 reason). by simplify_eq.
Qed.
Lemma noted_checkpoint before (p : Pipeline) (s : State) id p' s' :
  note_continuation before p s id = (p', s') -> pipeline_checkpoint p' id = pipeline_checkpoint p id.
Proof.
  unfold note_continuation. case_bool_decide; intros [= <- <-]; [done|]. unfold execution_checkpoint. cbn.
  rewrite lookup_alter_eq. by destruct (ip_deferred p !! id).
Qed.
(** A round for an insight whose continuation stays the same keeps what was attempted. *)
Lemma pass_insight_attempted (t t' : Pass (P := P)) id row r r' c :
  c_insights (st_insights (pa_state t)) !! id = Some row -> is_inactive (i_state row) = false ->
  pass_insight t id = Some t' -> ip_deferred (pa_pipeline t) !! id = Some r -> ip_deferred (pa_pipeline t') !! id = Some r' ->
  pipeline_checkpoint (pa_pipeline t) id = Some c -> pipeline_checkpoint (pa_pipeline t') id = Some c ->
  dr_snapshot_attempted r' = dr_snapshot_attempted r.
Proof.
  destruct t as [s p touched membership]. unfold pass_insight. cbn. intros Hrow Hact Hp Hr Hr' Hc Hc'. rewrite Hrow, Hact, Hr in Hp.
  destruct (checkpoint_fields _ _ _ Hc) as (r0 & Hr0 & Est & Edep). assert (r0 = r) as -> by congruence.
  destruct (checkpoint_fields _ _ _ Hc') as (r1 & Hr1 & Est' & Edep'). assert (r1 = r') as -> by congruence.
  match type of Hp with context [let '(p, s) := ?m in _] => destruct m as [p0 s0] eqn:Hl end.
  assert (E0 : c_insights (st_insights s0) = c_insights (st_insights s)).
  { eapply (left_state_passes s p id row p0 s0). by rewrite Hr. }
  unfold take_for_update in Hp. rewrite E0, Hrow in Hp.
  destruct (insight_turn p0 _ id row) as [[[p1 s1] row1] touched1] eqn:Ht. destruct (restore_after_update _ _ _) as [c1|]; [|done].
  destruct (note_continuation _ p1 _ id) as [p2 s2] eqn:Hn. destruct (SnapshotIndex.update _ id _) as [waits changed].
  simplify_eq. cbn in Hr'. change (pipeline_checkpoint p2 id = Some c) in Hc'. rewrite (noted_checkpoint _ _ _ _ _ _ Hn) in Hc'.
  destruct (checkpoint_fields _ _ _ Hc') as (r2 & Hr2 & Est2 & Edep2).
  case_bool_decide as Hst; simpl in Hl.
  - injection Hl as <- <-. unfold note_continuation in Hn. rewrite Hc, Hc', bool_decide_eq_true_2 in Hn by done.
    injection Hn as <- <-. assert (r2 = r') as -> by congruence.
    destruct (insight_turn_attempted _ _ _ _ _ _ _ _ _ Ht Hr') as [E| ->]; [congruence|]. unfold attempted_before.
    rewrite Hr, bool_decide_eq_true_2 by congruence. done.
  - apply forget_and_mark_pipeline in Hl. destruct (insight_turn_stages _ _ _ _ _ _ _ _ Ht) as (_ & _ & Hs').
    destruct Hs' as [E|Hs].
    + by rewrite E, Hl, forget_continuation_deferred, lookup_delete_eq in Hr2.
    + destruct (Hs r2 Hr2) as (E & _). congruence.
Qed.

(** C19 A suspended stage is not retried without a reason: after an insight was resumed for an observation of a
    snapshot and is left suspended at the same stage, on the same snapshot and
    in the same state as before, resuming it for the same observation again does nothing. *)
Theorem unchanged_wait_not_retried s id revision b s' b' row r c :
  resume_one s id revision b = Some s' ->
  c_insights (st_insights s') !! id = Some row -> is_inactive (i_state row) = false ->
  ip_deferred (st_pipeline s') !! id = Some r -> i_state row = dr_state r ->
  pipeline_checkpoint (st_pipeline s) id = Some c -> pipeline_checkpoint (st_pipeline s') id = Some c ->
  resume_one s' id revision b' = Some s'.
Proof.
  intros Hres Hrow' Hact' Hr' Hst' Hc Hc'.
  assert (Hat : dr_snapshot_attempted r = Some revision).
  2:{ unfold resume_one, to_resume. rewrite Hrow', Hr'. simpl. rewrite Hact'. simpl. by rewrite Hat, !bool_decide_eq_true_2. }
  unfold resume_one in Hres. destruct (is_some_and _ (c_insights _ !! id)) eqn:Hact; simpl in Hres.
  2:{ injection Hres as <-. unfold forget_now in Hr'. destruct (forget_and_mark _ _ _) as [p s1] eqn:Hf.
      apply forget_and_mark_pipeline in Hf. cbn in Hr'. by rewrite Hf, forget_continuation_deferred, lookup_delete_eq in Hr'. }
  destruct (c_insights (st_insights s) !! id) as [row0|] eqn:Hrow; [|done]. simpl in Hact. apply negb_true_iff in Hact.
  destruct (ip_deferred (st_pipeline s) !! id) as [r0|] eqn:Hr; [|simplify_eq; congruence].
  destruct (to_resume s id revision r0) eqn:Ht.
  2:{ injection Hres as <-. assert (r0 = r) as -> by congruence. unfold to_resume in Ht.
      apply orb_false_iff in Ht as [Ht _]. by apply negb_false_iff, bool_decide_eq_true in Ht. }
  set (s0 := note_attempt s id revision r0) in *.
  assert (Hc0 : pipeline_checkpoint (st_pipeline s0) id = Some c).
  { rewrite <- Hc. unfold s0, execution_checkpoint. cbn. by rewrite lookup_insert_eq, Hr. }
  assert (Hr0 : ip_deferred (st_pipeline s0) !! id = Some (attempted_at r0 revision)) by (cbn; by rewrite lookup_insert_eq).
  assert (Hrow0 : c_insights (st_insights s0) !! id = Some row0) by done. clearbody s0.
  unfold run_insight_pipeline_budgeted in Hres. cbn [selected_ids pass_loop] in Hres. cbv zeta in Hres.
  destruct (out_of_budget _ _ _); [simplify_eq; cbn in Hr'; rewrite Hr0 in Hr'; by injection Hr' as <-|].
  destruct (pass_insight _ id) as [t'|] eqn:Hp; [|done]. injection Hres as <-. cbn in Hr', Hc'.
  match type of Hp with pass_insight ?t id = _ =>
    exact (pass_insight_attempted t t' id row0 _ r c Hrow0 Hact Hp Hr0 Hr' Hc0 Hc') end.
Qed.

(** ** The barrier of the backtest *)
Lemma drain_wait_serves s inp : serves s (drain_wait s inp).
Proof.
  unfold drain_wait. cbv zeta. set (s1 := if _ || _ then shutdown s else s).
  assert (Hv : serves s s1) by (unfold s1; destruct (_ || _); [apply shutdown_serves|done]). clearbody s1.
  destruct (is_some _ && _); [|done]. etrans; [exact Hv|]. apply keeps_serves. split; [by intros [A B C]|done|by intros held|done].
Qed.
Lemma drain_round_serves s attempted inp :
  sound s -> exists s' attempted' outcome, drain_round s attempted inp = Some (s', attempted', outcome) /\ serves s s'.
Proof.
  intros Hs. unfold drain_round. cbv zeta. set (s0 := if _ || _ then shutdown s else s).
  assert (Hv0 : serves s s0) by (unfold s0; destruct (_ || _); [apply shutdown_serves|done]). clearbody s0. destruct (Hv0 Hs) as [Hs0 _].
  destruct (turn_serves s0 (dn_turn inp) Hs0) as (s1 & -> & Hv1). destruct (Hv1 Hs0) as [Hs1 _].
  assert (Hv : serves s s1) by (by etrans). clear Hv0 Hv1 Hs0.
  destruct (st_error s1); [by eexists _, _, _|]. destruct (st_driver s1 ≫= _).
  { eexists _, _, _. split; [done|]. etrans; [exact Hv|apply shutdown_serves]. }
  destruct (ready_execution_continuations _ _ _ _) as [|id ready].
  - destruct (has_pending_broker_events _ _); [by eexists _, _, _|]. unfold drain_idle.
    destruct (negb _); [by eexists _, _, _|]. destruct (is_some_and _ _); [by eexists _, _, _|].
    eexists _, _, _. split; [done|]. etrans; [exact Hv|apply drain_wait_serves].
  - destruct (selected_serves s1 (Selected (id :: ready)) (dn_run inp) Hs1) as (s2 & -> & Hv2).
    eexists _, _, _. split; [done|by etrans].
Qed.

(** Nothing is left to do before the clock may advance. *)
Record quiescent (s : State) : Prop := {
  qu_error : st_error s = None;
  qu_events : st_events s = [];
  qu_persisting d : st_driver s = Some d -> d_persisting d = None;
  qu_reports d : st_driver s = Some d -> w_events (d_worker d) = [];
  qu_commands d cid p : st_driver s = Some d -> d_pending d !! cid = Some p ->
    exists k, pd_progress p = ProgressCompleted k /\ (is_ambiguous (cmp_outcome k) = true -> pd_reduced p = true);
  qu_saved d : st_driver s = Some d -> c_exec_dirty (st_insights s) = ∅;
  qu_waits id r : ip_deferred (st_pipeline s) !! id = Some r -> is_Some (dependency_kind (dr_dependency r))
}.
Lemma awaits_none (m : gmap string PendingCommand) cid p :
  count_where awaits m = 0 -> m !! cid = Some p -> awaits p = false.
Proof. intros Hc Hp. rewrite (count_where_split _ _ cid), Hp in Hc. unfold counts_one in Hc. simpl in Hc. by destruct (awaits p). Qed.
Lemma failure_none include values p :
  find_map_failure include values = None -> p ∈ values -> failure_of include p = None.
Proof.
  induction values as [|q values IH]; [by intros _ Hp%elem_of_nil|]. simpl. destruct (failure_of include q) eqn:E; [done|].
  intros Hf [->|Hp]%elem_of_cons; auto.
Qed.
Lemma waits_snapshot dependency : waits_for_broker dependency = false -> is_Some (dependency_kind dependency).
Proof. destruct dependency; simpl; intros; try done; eauto. Qed.
(** A command that neither awaits nor failed. *)
Lemma settled_command p :
  awaits p = false -> failure_of true p = None ->
  exists k, pd_progress p = ProgressCompleted k /\ (is_ambiguous (cmp_outcome k) = true -> pd_reduced p = true).
Proof.
  unfold awaits, failure_of. destruct (pd_progress p) as [|k|e]; simpl; [done| |done]. intros _ Hf. exists k. split; [done|].
  intros Ha. rewrite Ha, andb_true_r in Hf. by destruct (pd_reduced p).
Qed.
Lemma idle_quiescent s inp :
  owner_ok s -> st_error s = None ->
  (forall d cid p, st_driver s = Some d -> d_pending d !! cid = Some p -> p ∈ dn_values inp) ->
  st_driver s ≫= (fun d => execution_failure d (dn_values inp) true) = None ->
  has_pending_broker_events s (dn_broker_events inp) = false ->
  negb (is_some_and has_in_flight_work (st_driver s)) = true -> some_waits_for_broker (st_pipeline s) = false -> quiescent s.
Proof.
  intros Hs Herr Hvals Hfail Hev Hidle Hwait. unfold has_pending_broker_events in Hev.
  rewrite !orb_false_iff in Hev. destruct Hev as ((((He & _) & Hr) & _) & Hsave).
  assert (Hd : forall d, st_driver s = Some d -> d_awaiting_completion d = 0 /\ d_persisting d = None).
  { intros d E. rewrite E in Hidle. simpl in Hidle. unfold has_in_flight_work in Hidle.
    apply negb_true_iff in Hidle. rewrite !orb_false_iff in Hidle. destruct Hidle as ((Ha & Hp) & _).
    apply negb_false_iff, Nat.eqb_eq in Ha. split; [done|]. by destruct (d_persisting d). }
  split; [done|by destruct (st_events s)|intros d E; by apply Hd| | | |].
  - intros d E. rewrite E in Hr. simpl in Hr. unfold has_ready_events_with_admission in Hr.
    rewrite !orb_false_iff in Hr. destruct Hr as ((_ & Hr) & _). by destruct (w_events (d_worker d)).
  - intros d cid p E Hp. rewrite E in Hfail. simpl in Hfail. unfold execution_failure in Hfail.
    destruct (execution_stop_error _); [done|]. apply settled_command; [|by eapply failure_none; [|by eapply Hvals]].
    apply (awaits_none (d_pending d) cid); [|done]. pose proof (ow_ok _ (bo_driver s (oo_base s Hs) d E)) as Hok.
    rewrite <- (do_awaiting d (do_core d Hok)). by apply Hd.
  - intros d E. rewrite E in Hsave. simpl in Hsave. unfold checkpoint_in_flight in Hsave.
    destruct (Hd d E) as [_ Hp]. rewrite Hp in Hsave. simpl in Hsave. rewrite andb_true_r in Hsave.
    apply orb_false_iff in Hsave as [_ Hx]. unfold has_execution_dirty in Hx.
    by apply negb_false_iff, bool_decide_eq_true in Hx.
  - intros id r Hi. apply waits_snapshot. apply not_true_is_false. intros Hb. unfold some_waits_for_broker in Hwait.
    apply not_true_iff_false in Hwait. apply Hwait, existsb_exists. exists (id, r). split; [|done].
    by apply list_elem_of_In, elem_of_map_to_list.
Qed.

End RuntimeFacts.

(** ** A stage that waits for the account, and an idle backtest *)
Module RuntimeDemo.
Import RunDemo.
Inductive Wait := WaitsForAccount.
Definition wait_stage : LeafPipe Wait (StrategyState Wait) := {|
  leaf_name _ := "WaitsForAccount";
  leaf_controls_expiration _ := false;
  leaf_run l s i := (l, s, i, pipe_result_deferred DeferAccountSnapshot "WaitsForAccount");
  leaf_retain l _ := l;
  leaf_forget l _ := l;
  leaf_checkpoint _ _ := None;
  leaf_restore l _ c := (l, match c with Some _ => Err "unsupported" | None => Ok () end);
  leaf_layout _ := "WaitsForAccount@1"
|}.
#[local] Existing Instances ids_json shape OwnerDemo.receipts OwnerDemo.names OwnerDemo.layouts wait_stage.
#[local] Instance wait_laws : PipeLaws.
Proof.
  split.
  - intros l s i l' s' i' r Hr. injection Hr as <- <- _. reflexivity.
  - intros [] s i [] s' i' r _. reflexivity.
  - reflexivity.
  - reflexivity.
  - reflexivity.
  - reflexivity.
  - reflexivity.
Qed.
Definition waiting : StrategyState Wait :=
  let p := mkPipeline {[ New := [build_default (Leaf WaitsForAccount)] ]} ∅ no_dependencies in
  let s := mkState collection_new (Some demo_driver) default_queue p default_persistence []
    {["BTCUSD"%string := demo_asset]} [] Running false None 0%Z 0%Z 0 2%float in
  let s := s <| st_insights := default collection_new (add_insight collection_new demo_new) |> in
  match run_insight_pipeline_budgeted s (Selected [7%N]) (Within free) with Some (s, _, _, _) => s | None => s end.
Definition observed : SnapshotReadRevision := mkReadRevision 1%N 1%Z 1%Z 1%Z.
Definition tried : StrategyState Wait := default waiting (resume_one waiting 7%N observed free).
(** The stage ran twice, and not a third time. *)
Lemma unchanged_wait_not_retried_witness :
  resume_one waiting 7%N observed free = Some tried /\ resume_one tried 7%N observed free = Some tried /\
  map wp_runs_count (bucket (st_pipeline tried) New) = [2].
Proof.
  assert (E : resume_one waiting 7%N observed free = Some tried) by (vm_compute; reflexivity).
  split; [exact E|]. split; [|vm_compute; reflexivity].
  destruct (c_insights (st_insights tried) !! 7%N) as [row|] eqn:Hrow; [|exfalso; vm_compute in Hrow; discriminate Hrow].
  destruct (ip_deferred (st_pipeline tried) !! 7%N) as [r|] eqn:Hr; [|exfalso; vm_compute in Hr; discriminate Hr].
  destruct (execution_checkpoint (C := StrategyState Wait) (st_pipeline waiting) 7%N) as [c|] eqn:Hc;
    [|exfalso; vm_compute in Hc; discriminate Hc].
  assert (Hst : i_state row = New) by (vm_compute in Hrow; injection Hrow as <-; reflexivity).
  assert (Hdr : dr_state r = New) by (vm_compute in Hr; injection Hr as <-; reflexivity).
  refine (unchanged_wait_not_retried waiting 7%N observed free tried free row r c E Hrow _ Hr _ Hc _).
  - rewrite Hst. reflexivity.
  - rewrite Hst, Hdr. reflexivity.
  - rewrite <- Hc. vm_compute. reflexivity.
Defined.

#[local] Existing Instances stages laws.
Definition quiet_turn : TurnInput :=
  mkTurnInput (fun _ => false) (Some (fun _ => false)) (fun _ _ => []) (Some (fun _ => false))
    (Some (false, OwnerDemo.on_time)) (Ok ()).
Definition idle : DrainInput :=
  mkDrain false quiet_turn quiet_turn [] (fun _ => false) false false false.
Lemma start_index : index_mirrors (st_pipeline start).
Proof. split; [apply SnapshotIndex.no_dependencies_ok|]. intros id. cbn. by rewrite !lookup_empty. Qed.
End RuntimeDemo.
