(* ===== verification/QuantitySizing.v ===== *)
(** * QuantitySizing: how much an insight may order

    Model of [src/src/core/utils/quantity_sizing.rs] and of the quantity readers of
    [src/src/core/insight/quantity.rs].  [SizingView] is what the functions read of the
    strategy context; [sz_order] is the order in which the hash set of active ids
    is iterated, which decides the order of the float sums.  A stack loop is a recursion on the
    number of insights in the trees it walks.  Functions that log into
    the insight return it, also when they fail. *)
From S2P Require Import Prelude.
From S2P Require Import Float64.
From S2P Require Import Text.
From S2P Require Import BrokerTypes.
From S2P Require Import TimeFrame.
From S2P Require Import InsightTypes.
From S2P Require Import Commands.
From S2P Require Import ExecutionData.
From S2P Require Import Insight.
From S2P Require Import InsightInvariant.
From S2P Require Import Operations.
From S2P Require Import RecoveryViews.
From S2P Require Import Collection.

Definition DEFAULT_RISK_PERCENT : Z := 2.

(** [x as usize]: NaN and negative numbers become zero, large ones the maximum. *)
Definition USIZE_MAX : Z := (2 ^ 64 - 1)%Z.
Definition f64_to_usize (x : f64) : Z :=
  match Prim2SF x with
  | S754_finite false m e =>
      Z.min USIZE_MAX (if (0 <=? e)%Z then (Z.pos m * 2 ^ e)%Z else (Z.pos m / 2 ^ (- e))%Z)
  | S754_infinity false => USIZE_MAX
  | _ => 0%Z
  end.
Fixpoint options_feq (a b : list (option f64)) : bool :=
  match a, b with
  | [], [] => true
  | x :: a, y :: b => opt_feq x y && options_feq a b
  | _, _ => false
  end.
Definition fsum (l : list f64) : f64 := fold_left PrimFloat.add l f0.

Record AssetQuantityLimits := mkLimits {
  ql_max_order_size : option f64;
  ql_max_total_size : option f64;
  ql_min_order_size : option f64;
  ql_quantity_base : option Z;
  ql_fractional : bool
}.
Definition from_asset (a : Asset) : AssetQuantityLimits :=
  mkLimits (a_max_order_size a) (a_max_total_size a) (a_min_order_size a) (a_quantity_base a) (a_fractional a).
Definition with_fractional (l : AssetQuantityLimits) (fractional : bool) : AssetQuantityLimits :=
  mkLimits (ql_max_order_size l) (ql_max_total_size l) (ql_min_order_size l) (ql_quantity_base l) fractional.
Definition without_total (l : AssetQuantityLimits) : AssetQuantityLimits :=
  mkLimits (ql_max_order_size l) None (ql_min_order_size l) (ql_quantity_base l) (ql_fractional l).

Record QuantitySplitResult := mkSplit {
  qs_parent_quantity : f64;
  qs_child_count : nat;
  qs_child_quantity_total : f64;
  qs_target_quantity : f64
}.
Definition total_quantity (r : QuantitySplitResult) : f64 := qs_parent_quantity r ⊕ qs_child_quantity_total r.

Definition normalised_percent_rate (value default_percent : Z) : f64 :=
  f64_of_Z (if (0 <? value)%Z then value else default_percent) ⊘ f100.
Definition account_size_from_equity_or_cash (a : Account) : f64 :=
  if f0 <. ac_equity a then ac_equity a else fmax (ac_cash a) (ac_buying_power a).
Definition validate_stop_for_side (i : Insight) (entry stop_loss : f64) : result unit text :=
  if negb (is_finite entry) || (entry <=. f0) || negb (is_finite stop_loss) || (stop_loss <=. f0)
  then Err [Lit "Entry and stop loss must be finite and positive"]
  else if match i_side i with Buy => entry <=. stop_loss | Sell => stop_loss <=. entry end
  then Err [Lit "Stop loss is invalid for the insight side"]
  else Ok ().
Definition invalid_asset_quantity (fractional : bool) (quantity : f64) : option string :=
  if negb fractional && (quantity <. f1) then Some "Asset is not fractionable"
  else if negb fractional && (EPSILON <. fabs (fract quantity)) then Some "Asset requires whole-unit quantity"
  else None.
Definition validate_sized_quantity (symbol : string) (quantity : f64) (l : AssetQuantityLimits) : result unit text :=
  if negb (is_finite quantity) || (quantity <=. f0) then Err [Lit "Calculated quantity is zero"]
  else
    match invalid_asset_quantity (ql_fractional l) quantity with
    | Some reason => Err [Lit "Asset "; Lit symbol; Lit " invalid quantity "; ShowF64 (Some 4) quantity; Lit ": "; Lit reason]
    | None =>
        match ql_min_order_size l with
        | Some minimum =>
            if quantity <. minimum
            then Err [Lit "Quantity "; ShowF64 (Some 4) quantity; Lit " is below minimum order size "; ShowF64 (Some 4) minimum]
            else Ok ()
        | None => Ok ()
        end
    end.

(** The grid of an asset's quantities. *)
Definition quantity_step (l : AssetQuantityLimits) : f64 :=
  if negb (ql_fractional l) then f1
  else
    match ql_quantity_base l with
    | Some base => powi 10%float (- (Z.max 0 (Z.min base 12)))
    | None =>
        match ql_min_order_size l with
        | Some v => if is_finite v && (f0 <. v) then v else 1e-8%float
        | None => 1e-8%float
        end
    end.
Definition floor_quantity (quantity : f64) (l : AssetQuantityLimits) : f64 :=
  if negb (is_finite quantity) || (quantity <=. f0) then f0
  else
    let step := quantity_step l in
    let units := quantity ⊘ step in
    fmin (floor (units ⊕ (fabs units ⊗ EPSILON ⊗ 4%float)) ⊗ step) quantity.

Definition round_whole_or_fractional_quantity (universe : gmap string Asset) (symbol : string) (quantity : f64)
    (fractional : bool) : result f64 text :=
  match universe !! symbol with
  | None => Err [Lit "Asset "; Lit symbol; Lit " not found"]
  | Some asset =>
      let l := with_fractional (from_asset asset) fractional in
      let rounded := floor_quantity quantity l in
      match validate_sized_quantity symbol rounded l with Err e => Err e | Ok _ => Ok rounded end
  end.

(** ** What other insights hold *)

(** A stack loop that marks ids as seen; the head of the list is the top of the stack. *)
Fixpoint tree_ids (fuel : nat) (stack : list Insight) (seen : gset Uuid) : gset Uuid :=
  match fuel, stack with
  | S fuel, row :: stack =>
      if bool_decide (i_insight_id row ∈ seen) then tree_ids fuel stack seen
      else tree_ids fuel (reverse (i_children row) ++ stack) ({[i_insight_id row]} ∪ seen)
  | _, _ => seen
  end.
Definition canonical_children (c : InsightCollection) (order : list Uuid) (id : Uuid) : list Uuid :=
  List.filter (fun k => is_some_and (fun row => bool_decide (i_parent_id row = Some id)) (c_insights c !! k)) order.
Fixpoint close_children (fuel : nat) (c : InsightCollection) (order ids : list Uuid) (seen : gset Uuid) : gset Uuid :=
  match fuel, ids with
  | S fuel, id :: ids =>
      let fresh := List.filter (fun k => negb (bool_decide (k ∈ seen))) (canonical_children c order id) in
      close_children fuel c order (fresh ++ ids) (list_to_set fresh ∪ seen)
  | _, _ => seen
  end.
(** The ids of a tree that is being resized and of everything below it. *)
Definition excluded_ids (c : InsightCollection) (order : list Uuid) (exclude : option Insight) : gset Uuid :=
  match exclude with
  | None => ∅
  | Some tree =>
      let seen := tree_ids (tree_size tree) [tree] ∅ in
      close_children (size seen + length order) c order (elements seen) seen
  end.
(** The insights that reserve quantity, each once, in the order of the visits. *)
Fixpoint visit (fuel : nat) (materialized : gset Uuid) (stack : list Insight) (seen : gset Uuid) : list Insight :=
  match fuel, stack with
  | S fuel, row :: stack =>
      if bool_decide (i_insight_id row ∈ seen) then visit fuel materialized stack seen
      else if is_inactive (i_state row) then visit fuel materialized stack ({[i_insight_id row]} ∪ seen)
      else
        row :: visit fuel materialized
                 (reverse (List.filter (fun child => negb (bool_decide (i_insight_id child ∈ materialized))) (i_children row)) ++ stack)
                 ({[i_insight_id row]} ∪ seen)
  | _, _ => []
  end.
Definition visit_quantity_insights (c : InsightCollection) (order : list Uuid) (exclude : option Insight) : list Insight :=
  let seeds := reverse (omap (fun id => c_insights c !! id) order) in
  visit (sum_list_with tree_size seeds) (c_materialized c) seeds (excluded_ids c order exclude).

Record InsightQuantitySize := mkQuantitySize {
  iq_total_count : nat;
  iq_total_quantity : f64;
  iq_new : nat;
  iq_executed : nat;
  iq_filled : nat;
  iq_insights : list Insight
}.
Definition count_state (st : InsightState) (l : list Insight) : nat :=
  length (List.filter (fun i => bool_decide (i_state i = st)) l).
Definition total_insight_quantity_size (c : InsightCollection) (order : list Uuid) (symbol : string) : InsightQuantitySize :=
  let l := List.filter (fun i => String.eqb (i_symbol i) symbol) (visit_quantity_insights c order None) in
  mkQuantitySize (length l) (fsum (map remaining_quantity l)) (count_state New l) (count_state Executed l)
    (count_state Filled l) l.
Definition allocated_quantity_excluding (c : InsightCollection) (order : list Uuid) (symbol : string) (tree : Insight) : f64 :=
  fsum (map remaining_quantity
          (List.filter (fun i => String.eqb (i_symbol i) symbol) (visit_quantity_insights c order (Some tree)))).
Definition is_pending_entry (i : Insight) : bool :=
  (bool_decide (i_state i = New) || bool_decide (i_state i = Executed)) && negb (bool_decide (i_order_type i = Market)).
Definition pending_order_count_excluding (c : InsightCollection) (order : list Uuid) (tree : Insight) : nat :=
  length (List.filter is_pending_entry (visit_quantity_insights c order (Some tree))).
(** The quantity of one tree, each id once; [tree_insights] are the active insights it adds up. *)
Definition tree_insights (i : Insight) : list Insight := visit (tree_size i) ∅ [i] ∅.
Definition tree_quantity_size (i : Insight) : f64 := fsum (map remaining_quantity (tree_insights i)).

(** ** Limits *)
Record SizingView := mkSizing {
  sz_universe : gmap string Asset;
  sz_insights : InsightCollection;
  sz_order : list Uuid;
  sz_features : list BrokerFeature;
  sz_account : option Account
}.
Definition available_asset_quantity (v : SizingView) (i : Insight) (limit : option f64) : result f64 text :=
  match limit with
  | None => Ok infinity
  | Some limit =>
      if is_finite limit && (f0 <. limit)
      then Ok (fmax (limit ⊖ allocated_quantity_excluding (sz_insights v) (sz_order v) (i_symbol i) i) f0)
      else Err [Lit "Invalid broker Asset max total quantity"]
  end.
Definition cap_asset_total_quantity (now : DateTime) (v : SizingView) (i : Insight) (desired : f64) (l : AssetQuantityLimits)
    : Insight * result f64 text :=
  if negb (is_finite desired) || (desired <=. f0)
  then (i, Err [Lit "Calculated quantity must be finite and positive"])
  else
    match available_asset_quantity v i (ql_max_total_size l) with
    | Err e => (i, Err e)
    | Ok available =>
        let capped := fmin desired available in
        let i := if available <. desired
                 then state_log now i (Some [Lit "Reached broker Asset max total quantity in pending insights: requested=";
                        ShowF64 (Some 8) desired; Lit " available="; ShowF64 (Some 8) available; Lit " capped="; ShowF64 (Some 8) capped])
                 else i in
        (i, Ok capped)
    end.
Definition available_pending_orders (v : SizingView) (i : Insight) : result (option nat) text :=
  if negb (bool_decide (FMaxTotalOrders ∈ sz_features v)) then Ok None
  else
    match sz_account v with
    | None => Err [Lit "Broker account snapshot unavailable for order-limit validation"]
    | Some account =>
        Ok ((fun limit => limit - pending_order_count_excluding (sz_insights v) (sz_order v) i) <$> ac_max_total_orders account)
    end.

(** The orders a stack takes when it is scaled (sums below [2^64]). *)
Definition scaled_orders (quantities : list f64) (l : AssetQuantityLimits) (maximum scale : f64) : Z :=
  fold_left (fun n q => (n + f64_to_usize (fmax (ceil (floor_quantity (q ⊗ scale) l ⊘ maximum)) f1))%Z) quantities 0%Z.
Fixpoint bisect (n : nat) (fits : f64 -> bool) (low high : f64) : f64 :=
  match n with
  | O => low
  | S n =>
      let mid := (low ⊕ high) ⊘ 2%float in
      if fits mid then bisect n fits mid high else bisect n fits low mid
  end.
Fixpoint floor_levels (symbol : string) (scale : f64) (l : AssetQuantityLimits) (quantities : list f64)
    : result (list f64) text :=
  match quantities with
  | [] => Ok []
  | q :: rest =>
      let q := floor_quantity (q ⊗ scale) l in
      match validate_sized_quantity symbol q l with
      | Err e => Err e
      | Ok _ => match floor_levels symbol scale l rest with Err e => Err e | Ok rest => Ok (q :: rest) end
      end
  end.
(** The scaled levels instead of an update in place. *)
Definition cap_quantity_levels (now : DateTime) (v : SizingView) (i : Insight) (quantities : list f64)
    (l : AssetQuantityLimits) : Insight * result (list f64 * f64) text :=
  if match quantities with [] => true | _ => existsb (fun q => negb (is_finite q) || (q <=. f0)) quantities end
  then (i, Err [Lit "Invalid DCA quantity levels"])
  else
    let desired := fsum quantities in
    match cap_asset_total_quantity now v i desired l with
    | (i, Err e) => (i, Err e)
    | (i, Ok capped) =>
        let scale := fmin (capped ⊘ desired) f1 in
        let finish i scale := (i, match floor_levels (i_symbol i) scale l quantities with
                                  | Err e => Err e
                                  | Ok levels => Ok (levels, scale)
                                  end) in
        match available_pending_orders v i with
        | Err e => (i, Err e)
        | Ok None => finish i scale
        | Ok (Some slots) =>
            if slots <? length quantities then (i, Err [Lit "Insufficient broker pending order slots for DCA levels"])
            else
              match ql_max_order_size l with
              | None => finish i scale
              | Some maximum =>
                  let maximum := floor_quantity maximum l in
                  if maximum <=. f0 then (i, Err [Lit "Invalid maximum order size"])
                  else
                    let fits scale := (scaled_orders quantities l maximum scale <=? Z.of_nat slots)%Z in
                    if fits scale then finish i scale
                    else
                      let scale := bisect 48 fits f0 scale in
                      finish (state_log now i (Some [Lit "Reached broker max total pending orders: DCA allocation scaled to=";
                                ShowF64 (Some 8) scale; Lit " available_slots="; ShowZ (Z.of_nat slots)])) scale
              end
        end
    end.

(** ** Splitting *)
Definition MAX_PARTS : Z := 65536.
Fixpoint plan_loop (n : nat) (maximum remaining : f64) (l : AssetQuantityLimits) : result (list f64) text :=
  match n with
  | O => Ok []
  | S n =>
      let part := floor_quantity (fmin remaining maximum) l in
      if (part <=. f0) || is_some_and (fun minimum => part <. minimum) (ql_min_order_size l) then Ok []
      else
        match validate_sized_quantity "entry" part l with
        | Err e => Err e
        | Ok _ =>
            match plan_loop n maximum (fmax (remaining ⊖ part) f0) l with
            | Err e => Err e
            | Ok parts => Ok (part :: parts)
            end
        end
  end.
Definition plan_quantity_parts (quantity : f64) (l : AssetQuantityLimits) (max_parts : option nat) : result (list f64) text :=
  let quantity := floor_quantity quantity l in
  match validate_sized_quantity "entry" quantity l with
  | Err e => Err e
  | Ok _ =>
      match (match ql_max_order_size l with
             | Some maximum => if is_finite maximum && (f0 <. maximum) then Ok (floor_quantity maximum l)
                               else Err [Lit "Invalid maximum order size"]
             | None => Ok quantity
             end) with
      | Err e => Err e
      | Ok maximum =>
          match validate_sized_quantity "entry" maximum l with
          | Err e => Err e
          | Ok _ =>
              let count := f64_to_usize (ceil (quantity ⊘ maximum)) in
              if (Z.min (match max_parts with Some n => Z.of_nat n | None => MAX_PARTS end) MAX_PARTS <? count)%Z
              then Err [Lit "Reached broker max total pending orders or safe split planning limit"]
              else plan_loop (Z.to_nat count) maximum quantity l
          end
      end
  end.

Definition validate_pending_tree_limits (v : SizingView) (i : Insight) : result unit text :=
  match sz_universe v !! i_symbol i with
  | None => Err [Lit "Asset is not loaded"]
  | Some asset =>
      match available_asset_quantity v i (a_max_total_size asset) with
      | Err e => Err e
      | Ok available =>
          if (available ⊕ 1e-8%float) <. tree_quantity_size i
          then Err [Lit "Reached broker Asset max total quantity in pending insights"]
          else
            match available_pending_orders v i with
            | Err e => Err e
            | Ok None => Ok ()
            | Ok (Some available) =>
                let count := length (List.filter (fun row => negb (bool_decide (i_order_type row = Market))) (tree_insights i)) in
                if available <? count
                then Err [Lit "Reached broker max total pending orders: requested="; ShowZ (Z.of_nat count);
                          Lit " available="; ShowZ (Z.of_nat available)]
                else Ok ()
            end
      end
  end.

(** A fragment of its parent's order, with the identity [id]. *)
Definition create_child_insight (now : DateTime) (id : Uuid) (parent : Insight) (quantity : f64) : Insight :=
  let child := insight_new id now (i_side parent) (i_symbol parent) (i_strategy_type parent) (i_timeframe parent)
                 (i_confidence parent) (Some (i_insight_id parent)) in
  let child := set_quantity now child (Some quantity) in
  let child := set_limit_price now child (i_limit_price parent) in
  let child := set_stop_price now child (i_stop_price parent) in
  let child := set_stop_loss_levels now child (i_stop_loss_levels parent) in
  let child := set_take_profit_levels now child (i_take_profit_levels parent) in
  let child := set_trailing_stop_price now child (i_trailing_stop_price parent) in
  let child := set_period_unfilled now child (i_period_unfilled parent) in
  let child := set_period_till_tp now child (i_period_till_tp parent) in
  let child := set_execution_depends now child (i_execution_depends parent) in
  add_child_insight parent child (Some true).
(** The ids are drawn one after the other; the answer is the next one. *)
Fixpoint create_children (now : DateTime) (ids : nat -> Uuid) (n : nat) (parent : Insight) (quantities : list f64) : Insight * nat :=
  match quantities with
  | [] => (parent, n)
  | q :: rest => create_children now ids (S n) (create_child_insight now (ids n) parent q) rest
  end.
(** The open orders of the children that are no fragments. *)
Fixpoint open_entries (fuel : nat) (stack : list Insight) : nat :=
  match fuel, stack with
  | S fuel, row :: stack =>
      if is_inactive (i_state row) then open_entries fuel stack
      else (if bool_decide (i_order_type row = Market) then 0 else 1) + open_entries fuel (reverse (i_children row) ++ stack)
  | _, _ => 0
  end.
Definition split_quantities (i : Insight) : list (option f64) :=
  map i_quantity (List.filter i_is_split_insight (i_children i)).
Definition drop_fragments (i : Insight) : Insight :=
  i <| i_children := List.filter (fun child => negb (i_is_split_insight child)) (i_children i) |>.
(** The slots and the target after the broker's limit on pending orders. *)
Definition limit_by_slots (now : DateTime) (i : Insight) (target : f64) (slots : option nat) (l : AssetQuantityLimits)
    : Insight * f64 * option nat :=
  match slots with
  | None => (i, target, None)
  | Some available =>
      let others := reverse (List.filter (fun child => negb (i_is_split_insight child)) (i_children i)) in
      let available := available - open_entries (sum_list_with tree_size others) others in
      if bool_decide (i_order_type i = Market) then (i, target, None)
      else
        match ql_max_order_size l with
        | None => (i, target, Some available)
        | Some maximum =>
            let capacity := floor_quantity maximum l ⊗ f64_of_Z (Z.of_nat available) in
            if capacity <. target
            then (state_log now i (Some [Lit "Reached broker max total pending orders: available="; ShowZ (Z.of_nat available);
                    Lit " quantity reduced from="; ShowF64 (Some 8) target; Lit " to="; ShowF64 (Some 8) capacity]),
                  capacity, Some available)
            else (i, target, Some available)
        end
  end.
(** What the children with a plan of their own have reserved. *)
Definition reserved_quantity (i : Insight) : f64 :=
  fsum (map tree_quantity_size (List.filter (fun child => negb (i_is_split_insight child)) (i_children i))).
Definition apply_max_order_size_with_child_legs (now : DateTime) (v : SizingView) (ids : nat -> Uuid) (n : nat) (i : Insight)
    (target_quantity : f64) (l : AssetQuantityLimits) : Insight * nat * result QuantitySplitResult text :=
  if existsb (fun child => i_is_split_insight child && (i_submitted child || negb (bool_decide (i_state child = New)))) (i_children i)
  then (i, n, Err [Lit "Cannot resize already-active split children"])
  else if existsb (fun child => i_is_split_insight child && match i_children child with [] => false | _ => true end) (i_children i)
  then (i, n, Err [Lit "Cannot rebuild split children with attached descendants; size the complete stack first"])
  else
    let reserved := reserved_quantity i in
    match cap_asset_total_quantity now v i (target_quantity ⊕ reserved) l with
    | (i, Err e) => (i, n, Err e)
    | (i, Ok capped_total) =>
        let target := floor_quantity (fmax (capped_total ⊖ reserved) f0) l in
        match available_pending_orders v i with
        | Err e => (i, n, Err e)
        | Ok slots =>
            let '(i, target, slots) := limit_by_slots now i target slots l in
            match plan_quantity_parts target l slots with
            | Err e => (i, n, Err e)
            | Ok [] => (i, n, Err [Lit "Calculated quantity is zero"])
            | Ok (parent_quantity :: fragments) =>
                let unchanged := options_feq (split_quantities i) (map Some fragments) in
                let '(i, n) := if unchanged then (i, n)
                               else create_children now ids n (drop_fragments i) fragments in
                (i, n, Ok (mkSplit parent_quantity (length fragments) (fsum fragments) target_quantity))
            end
        end
    end.
Definition split_summary (r : QuantitySplitResult) : text :=
  if negb (qs_child_count r =? 0)
  then [Lit ", parent_qty="; ShowF64 (Some 4) (qs_parent_quantity r); Lit ", children="; ShowZ (Z.of_nat (qs_child_count r));
        Lit ", child_qty="; ShowF64 (Some 4) (qs_child_quantity_total r); Lit ", target_qty="; ShowF64 (Some 4) (qs_target_quantity r)]
  else if qs_parent_quantity r <. qs_target_quantity r
  then [Lit ", capped_from="; ShowF64 (Some 4) (qs_target_quantity r)]
  else [].

(** ** Parts within the limits *)

(** A quantity that may be ordered. *)
Record part_ok (l : AssetQuantityLimits) (p : f64) : Prop := {
  po_finite : is_finite p = true;
  po_positive : f0 <. p = true;
  po_units : invalid_asset_quantity (ql_fractional l) p = None;
  po_minimum m : ql_min_order_size l = Some m -> p <. m = false
}.
(** Parts that are taken from a budget one after the other, never more than is left. *)
Fixpoint consumes (budget : f64) (parts : list f64) : Prop :=
  match parts with
  | [] => True
  | p :: rest => p <=. budget = true /\ consumes (fmax (budget ⊖ p) f0) rest
  end.

Lemma positive_flt x : is_finite x = true -> x <=. f0 = false -> f0 <. x = true.
Proof. intros Hf Hx. apply not_fle_flt; [by apply is_finite_not_nan|reflexivity|done]. Qed.
Lemma validated_ok symbol q l : validate_sized_quantity symbol q l = Ok () -> part_ok l q.
Proof.
  unfold validate_sized_quantity. destruct (negb (is_finite q) || (q <=. f0)) eqn:E; [done|].
  apply orb_false_iff in E as [Ef%negb_false_iff Ep]. destruct (invalid_asset_quantity _ _) eqn:Ei; [done|].
  intros Hm. split; [done|by apply positive_flt|done|]. intros m Em. rewrite Em in Hm. by destruct (q <. m).
Qed.
Lemma floor_quantity_le q l : (floor_quantity q l <=. f0 = true) \/ (is_nan q = false /\ floor_quantity q l <=. q = true).
Proof.
  unfold floor_quantity. destruct (negb (is_finite q) || (q <=. f0)) eqn:E; [by left|]. right.
  apply orb_false_iff in E as [Ef%negb_false_iff _]. apply is_finite_not_nan in Ef. split; [done|]. by apply fmin_le_r.
Qed.
Lemma fmax_zero_not_nan x : is_nan (fmax x f0) = false.
Proof. unfold fmax. destruct (is_nan x) eqn:E; [done|]. simpl. by destruct (x <. f0). Qed.
Lemma plan_loop_ok maximum l n : forall remaining parts,
  is_nan maximum = false -> is_nan remaining = false -> plan_loop n maximum remaining l = Ok parts ->
  consumes remaining parts /\ Forall (fun p => part_ok l p /\ p <=. maximum = true) parts /\ length parts <= n.
Proof.
  induction n as [|n IH]; intros remaining parts Hm Hr; simpl; [intros [= <-]; by repeat split|].
  set (part := floor_quantity (fmin remaining maximum) l).
  destruct ((part <=. f0) || _) eqn:E; [intros [= <-]; split; [done|]; split; [constructor|simpl; lia]|].
  apply orb_false_iff in E as [Ep _]. destruct (validate_sized_quantity _ part l) as [[]|e] eqn:Ev; [|done].
  destruct (plan_loop n maximum _ l) as [rest|e] eqn:Er; [|done]. intros [= <-].
  destruct (IH _ _ Hm (fmax_zero_not_nan _) Er) as (A & B & C).
  destruct (floor_quantity_le (fmin remaining maximum) l) as [Hz|[_ Hle]]; [fold part in Hz; congruence|]. fold part in Hle.
  split; [|split; [|simpl; lia]].
  - split; [|done]. eapply fle_trans; [exact Hle|by apply fmin_le_l].
  - constructor; [|done]. split; [by eapply validated_ok|]. eapply fle_trans; [exact Hle|by apply fmin_le_r].
Qed.
Lemma validated_not_nan symbol q l : validate_sized_quantity symbol q l = Ok () -> is_nan q = false.
Proof. intros Hv. by apply is_finite_not_nan, (po_finite l), (validated_ok symbol). Qed.

(** What the parts of a plan respect. *)
Record plan_ok (quantity : f64) (l : AssetQuantityLimits) (parts : list f64) : Prop := {
  pl_budget : consumes (floor_quantity quantity l) parts /\ floor_quantity quantity l <=. quantity = true;
  pl_parts : Forall (part_ok l) parts;
  pl_maximum m p : ql_max_order_size l = Some m -> p ∈ parts -> p <=. m = true
}.
Lemma plan_parts_ok quantity l max_parts parts :
  plan_quantity_parts quantity l max_parts = Ok parts -> plan_ok quantity l parts /\ (Z.of_nat (length parts) <= MAX_PARTS)%Z /\
  forall n, max_parts = Some n -> length parts <= n.
Proof.
  unfold plan_quantity_parts. set (q := floor_quantity quantity l). destruct (validate_sized_quantity _ q l) as [[]|e] eqn:Eq; [|done].
  destruct (match ql_max_order_size l with Some _ => _ | None => _ end) as [maximum|e] eqn:Em; [|done].
  destruct (validate_sized_quantity _ maximum l) as [[]|e] eqn:Ev; [|done]. cbv zeta.
  set (count := f64_to_usize _). set (bound := Z.min (match max_parts with Some _ => _ | None => _ end) MAX_PARTS).
  destruct (bound <? count)%Z eqn:Ec; [done|]. apply Z.ltb_ge in Ec. intros Hp.
  destruct (plan_loop_ok _ _ _ _ _ (validated_not_nan _ _ _ Ev) (validated_not_nan _ _ _ Eq) Hp) as (A & B & C).
  split; [split|].
  - split; [done|]. destruct (floor_quantity_le quantity l) as [Hz|[_ Hle]]; [|done]. fold q in Hz.
    apply validated_ok, po_positive in Eq. rewrite (fle_not_flt _ _ Hz) in Eq. done.
  - eapply Forall_impl; [exact B|]. by intros p [? _].
  - intros m p E Hin. rewrite Forall_forall in B. destruct (B p Hin) as [_ Hle]. rewrite E in Em.
    destruct (is_finite m && (f0 <. m)); [|done]. injection Em as Em.
    destruct (floor_quantity_le m l) as [Hz|[_ Hm]].
    + rewrite Em in Hz. apply validated_ok, po_positive in Ev. by rewrite (fle_not_flt _ _ Hz) in Ev.
    + rewrite Em in Hm. by eapply fle_trans.
  - unfold bound in Ec. unfold MAX_PARTS in *. split; [lia|]. intros n E. rewrite E in Ec. lia.
Qed.

(** ** Fragments *)

(** What the configuration calls on a fragment leave alone. *)
Definition size_view (i : Insight) := (core_view i, i_quantity i, i_is_split_insight i).
Lemma size_typed now i s m k : size_view (update_state_typed now i s m k) = size_view i.
Proof. unfold size_view. rewrite core_update_state_typed, update_state_typed_form. fields. reflexivity. Qed.
Ltac solve_size :=
  repeat first
    [ reflexivity
    | progress cbv zeta
    | rewrite size_typed
    | progress unfold update_state, state_log, update_order_class, update_order_type
    | case_decide
    | split_match
    | match goal with |- size_view (@set_field _ _ ?p ?inst ?v ?i) = _ =>
        transitivity (size_view i); [reflexivity|] end ].
Lemma size_limit_price now i p : size_view (set_limit_price now i p) = size_view i.
Proof. unfold set_limit_price. solve_size. Qed.
Lemma size_stop_price now i p : size_view (set_stop_price now i p) = size_view i.
Proof. unfold set_stop_price. solve_size. Qed.
Lemma size_stop_loss now i l : size_view (set_stop_loss_levels now i l) = size_view i.
Proof. unfold set_stop_loss_levels. solve_size. Qed.
Lemma size_take_profit now i l : size_view (set_take_profit_levels now i l) = size_view i.
Proof. unfold set_take_profit_levels. solve_size. Qed.
Lemma size_trailing now i p : size_view (set_trailing_stop_price now i p) = size_view i.
Proof. unfold set_trailing_stop_price. solve_size. Qed.
Lemma size_unfilled now i p : size_view (set_period_unfilled now i p) = size_view i.
Proof. unfold set_period_unfilled. solve_size. Qed.
Lemma size_till_tp now i p : size_view (set_period_till_tp now i p) = size_view i.
Proof. unfold set_period_till_tp. solve_size. Qed.
Lemma size_depends now i d : size_view (set_execution_depends now i d) = size_view i.
Proof. unfold set_execution_depends. solve_size. Qed.
Lemma size_log now i m : size_view (state_log now i m) = size_view i.
Proof. solve_size. Qed.
Create Rewrite HintDb size_frame.
#[export] Hint Rewrite size_limit_price size_stop_price size_stop_loss size_take_profit size_trailing size_unfilled
  size_till_tp size_depends size_log : size_frame.

(** A fragment of the quantity [q] without descendants or data. *)
Record fragment (q : f64) (child : Insight) : Prop := {
  fr_split : i_is_split_insight child = true;
  fr_quantity : i_quantity child = Some q;
  fr_children : i_children child = [];
  fr_data : i_execution_data child = ∅
}.
Lemma create_child_form now id parent q :
  exists child, create_child_insight now id parent q = parent <| i_children := i_children parent ++ [child] |> /\ fragment q child.
Proof.
  unfold create_child_insight. cbv zeta.
  match goal with |- context [add_child_insight parent ?c _] => set (child := c) end.
  assert (E : size_view child = size_view (set_quantity now (insight_new id now (i_side parent) (i_symbol parent)
    (i_strategy_type parent) (i_timeframe parent) (i_confidence parent) (Some (i_insight_id parent))) (Some q)))
    by (unfold child; by autorewrite with size_frame).
  clearbody child. unfold set_quantity in E. cbn [opt_feq] in E. unfold update_state in E.
  unfold size_view, core_view in E. simpl in E. injection E as _ _ _ _ _ _ _ _ _ Ec _ _ Ed Eq _.
  unfold add_child_insight. cbv zeta.
  match goal with |- context [if ?b then _ else _] => replace b with false by (fields; by rewrite Eq) end.
  eexists. split; [reflexivity|]. split; by fields.
Qed.
Lemma create_children_form now ids quantities : forall n parent,
  exists fragments, create_children now ids n parent quantities =
    (parent <| i_children := i_children parent ++ fragments |>, n + length quantities) /\ Forall2 fragment quantities fragments.
Proof.
  induction quantities as [|q rest IH]; intros n parent; simpl.
  - exists []. split; [|constructor]. rewrite app_nil_r, Nat.add_0_r. f_equal. by destruct parent.
  - destruct (create_child_form now (ids n) parent q) as (child & -> & Hf). destruct (IH (S n) (parent <| i_children := i_children parent ++ [child] |>)) as (fs & -> & Hfs).
    exists (child :: fs). split; [|by constructor]. f_equal; [|lia]. fields. rewrite <- app_assoc. reflexivity.
Qed.

(** A quantity equal to [q] for [==]. *)
Definition has_quantity (q : f64) (child : Insight) : Prop := exists x, i_quantity child = Some x /\ x ==. q = true.
Lemma options_feq_spec (l : list Insight) qs :
  options_feq (map i_quantity l) (map Some qs) = true -> Forall2 has_quantity qs l.
Proof.
  revert qs. induction l as [|c l IH]; intros [|q qs]; simpl; try done. intros [Hq Hl]%andb_true_iff.
  constructor; [|by apply IH]. destruct (i_quantity c) as [x|] eqn:E; [|done]. by exists x.
Qed.
Lemma fragment_quantity q child : is_finite q = true -> fragment q child -> has_quantity q child.
Proof. intros Hf [_ Hq _ _]. exists q. split; [done|]. by apply feq_refl, is_finite_not_nan. Qed.

Definition fragments_of (i : Insight) : list Insight := List.filter i_is_split_insight (i_children i).
Definition others_of (i : Insight) : list Insight := List.filter (fun child => negb (i_is_split_insight child)) (i_children i).
Lemma filter_all {A} (p : A -> bool) l : Forall (fun x => p x = true) l -> List.filter p l = l.
Proof. induction 1 as [|x l Hx _ IH]; [done|]. simpl. by rewrite Hx, IH. Qed.
Lemma filter_none {A} (p : A -> bool) l : Forall (fun x => p x = false) l -> List.filter p l = [].
Proof. induction 1 as [|x l Hx _ IH]; [done|]. simpl. by rewrite Hx. Qed.
Lemma filter_twice {A} (p : A -> bool) l : List.filter (fun x => negb (p x)) (List.filter (fun x => negb (p x)) l) = List.filter (fun x => negb (p x)) l.
Proof. apply filter_all, Forall_forall. intros x Hx%list_elem_of_In. by apply filter_In in Hx as [_ Hx]. Qed.
Lemma filter_opposite {A} (p : A -> bool) l : List.filter p (List.filter (fun x => negb (p x)) l) = [].
Proof. apply filter_none, Forall_forall. intros x Hx%list_elem_of_In. apply filter_In in Hx as [_ Hx]. by apply negb_true_iff in Hx. Qed.
Lemma fragments_split qs fs : Forall2 fragment qs fs -> Forall (fun x => i_is_split_insight x = true) fs.
Proof. induction 1 as [|q c qs fs [Hs _ _ _] _ IH]; constructor; auto. Qed.
Lemma replaced_fragments i qs fs :
  Forall2 fragment qs fs ->
  fragments_of ((drop_fragments i) <| i_children := i_children (drop_fragments i) ++ fs |>) = fs /\
  others_of ((drop_fragments i) <| i_children := i_children (drop_fragments i) ++ fs |>) = others_of i.
Proof.
  intros Hfs%fragments_split. unfold fragments_of, others_of, drop_fragments. fields. split.
  - rewrite List.filter_app, filter_opposite. by apply filter_all.
  - rewrite List.filter_app, filter_twice, (filter_none _ fs), app_nil_r; [done|].
    eapply Forall_impl; [exact Hfs|]. by intros x ->.
Qed.
Lemma children_log now i m : i_children (state_log now i m) = i_children i.
Proof. pose proof (core_state_log now i m) as E. unfold core_view in E. by injection E. Qed.
Lemma cap_children now v i d l i' r :
  cap_asset_total_quantity now v i d l = (i', r) -> size_view i' = size_view i /\
  forall capped, r = Ok capped -> exists available, available_asset_quantity v i (ql_max_total_size l) = Ok available /\ capped = fmin d available.
Proof.
  unfold cap_asset_total_quantity. destruct (_ || _); [by intros [= <- <-]|].
  destruct (available_asset_quantity _ _ _) as [available|e]; [|by intros [= <- <-]]. intros [= <- <-]. split.
  - destruct (available <. d); [apply size_log|done].
  - intros capped [= <-]. by exists available.
Qed.
(** The limit on pending orders only lowers the target. *)
Lemma slots_children now i target slots l i' target' slots' :
  limit_by_slots now i target slots l = (i', target', slots') ->
  size_view i' = size_view i /\ (target' = target \/ target' <. target = true).
Proof.
  unfold limit_by_slots. destruct slots as [a|]; [|intros [= <- <- _]; auto]. cbv zeta.
  destruct (bool_decide _); [intros [= <- <- _]; auto|].
  destruct (ql_max_order_size l); [|intros [= <- <- _]; auto].
  match goal with |- context [?c <. target] => destruct (c <. target) eqn:E end; intros [= <- <- _]; [|auto].
  split; [apply size_log|by right].
Qed.
Lemma cap_levels_size now v i qs l i' r : cap_quantity_levels now v i qs l = (i', r) -> size_view i' = size_view i.
Proof.
  unfold cap_quantity_levels. cbv zeta. destruct (match qs with [] => true | _ => _ end); [by intros [= <- _]|].
  destruct (cap_asset_total_quantity _ _ _ _ _) as [i1 r1] eqn:Ec. apply cap_children in Ec as [E _].
  destruct r1 as [capped|e]; [|by intros [= <- _]].
  intros Hr. assert (Hc : i' = i1 \/ exists m, i' = state_log now i1 m).
  { clear E. repeat (split_match_in Hr; simplify_eq); eauto. }
  destruct Hc as [->|[m ->]]; [done|]. by rewrite size_log.
Qed.
Lemma size_children i j : size_view i = size_view j -> i_children i = i_children j.
Proof. unfold size_view, core_view. by intros [=]. Qed.

Lemma floored_budget x l target b :
  target = floor_quantity x l \/ target <. floor_quantity x l = true -> b <=. target = true -> f0 <. b = true -> b <=. x = true.
Proof.
  intros Ht Hb Hp. assert (Hf : b <=. floor_quantity x l = true).
  { destruct Ht as [->|Ht]; [done|]. apply flt_fle. by eapply fle_flt_trans. }
  destruct (floor_quantity_le x l) as [Hz|[_ Hx]]; [|by eapply fle_trans].
  pose proof (fle_trans _ _ _ Hf Hz) as H0. apply fle_not_flt in H0. congruence.
Qed.

(** What a successful split leaves behind. *)
Record split_ok (v : SizingView) (target : f64) (l : AssetQuantityLimits) (i i' : Insight) (r : QuantitySplitResult)
    : Prop := {
  sp_parent : part_ok l (qs_parent_quantity r);
  sp_parent_max m : ql_max_order_size l = Some m -> qs_parent_quantity r <=. m = true;
  sp_count : length (fragments_of i') = qs_child_count r;
  sp_fragment c : c ∈ fragments_of i' -> exists q, has_quantity q c /\ part_ok l q /\
    forall m, ql_max_order_size l = Some m -> q <=. m = true;
  sp_budget : exists available budget qs,
    available_asset_quantity v i (ql_max_total_size l) = Ok available /\
    budget <=. fmax (fmin (target ⊕ reserved_quantity i) available ⊖ reserved_quantity i) f0 = true /\
    consumes budget (qs_parent_quantity r :: qs) /\ Forall2 has_quantity qs (fragments_of i');
  sp_others : others_of i' = others_of i;
  sp_id : i_insight_id i' = i_insight_id i
}.
Lemma Forall2_in {A B} (R : A -> B -> Prop) l k y : Forall2 R l k -> y ∈ k -> exists x, x ∈ l /\ R x y.
Proof.
  induction 1 as [|x z l k Hr _ IH]; [by intros Hy%elem_of_nil|]. intros [->|Hy]%elem_of_cons; [exists x; split; [left|done]|].
  destruct (IH Hy) as (w & Hw & ?). exists w. split; [by right|done].
Qed.
(** A plan whose parts the insight carries is a correct split. *)
Lemma plan_is_split v target l i i' q qs r plan available :
  plan_ok plan l (q :: qs) -> r = mkSplit q (length qs) (fsum qs) target -> Forall2 has_quantity qs (fragments_of i') ->
  others_of i' = others_of i -> i_insight_id i' = i_insight_id i ->
  available_asset_quantity v i (ql_max_total_size l) = Ok available ->
  floor_quantity plan l <=. fmax (fmin (target ⊕ reserved_quantity i) available ⊖ reserved_quantity i) f0 = true ->
  split_ok v target l i i' r.
Proof.
  intros [[Hc _] Hparts Hmax] -> Hqs Ho Hid Ha Hb. apply Forall_cons in Hparts as [Hq Hfr].
  split; cbn [qs_parent_quantity qs_child_count]; [done|intros m Em; apply (Hmax m q Em); left| | | |done|done].
  - by rewrite (Forall2_length _ _ _ Hqs).
  - intros c Hin. destruct (Forall2_in _ _ _ _ Hqs Hin) as (p & Hp & Hhas). exists p. rewrite Forall_forall in Hfr.
    split; [done|]. split; [by apply Hfr|]. intros m Em. apply (Hmax m p Em). by right.
  - by exists available, (floor_quantity plan l), qs.
Qed.
Lemma created_quantities l qs fs : Forall (part_ok l) qs -> Forall2 fragment qs fs -> Forall2 has_quantity qs fs.
Proof.
  intros Hq. induction 1 as [|q c qs fs Hf _ IH]; [done|]. apply Forall_cons in Hq as [Hq Hr].
  constructor; [|by apply IH]. apply fragment_quantity; [|done]. by apply (po_finite l).
Qed.

Lemma split_result now v ids n i target l i' n' r :
  apply_max_order_size_with_child_legs now v ids n i target l = (i', n', Ok r) -> split_ok v target l i i' r.
Proof.
  unfold apply_max_order_size_with_child_legs. destruct (existsb _ _); [done|]. destruct (existsb _ _); [done|]. cbv zeta.
  destruct (cap_asset_total_quantity _ _ _ _ _) as [i1 [capped|e]] eqn:Ec; [|done].
  apply cap_children in Ec as [Ec Hcap]. destruct (Hcap _ eq_refl) as (available & Ha & ->).
  destruct (available_pending_orders v i1) as [slots|e]; [|done].
  destruct (limit_by_slots _ _ _ _ _) as [[i2 target2] slots2] eqn:Es. apply slots_children in Es as [Es Htarget]. rewrite Ec in Es.
  destruct (plan_quantity_parts target2 l slots2) as [[|q fragments]|e] eqn:Ep; [done| |done].
  apply plan_parts_ok in Ep as [Hplan _].
  assert (Hb : floor_quantity target2 l <=. fmax (fmin (target ⊕ reserved_quantity i) available ⊖ reserved_quantity i) f0 = true).
  { eapply floored_budget; [exact Htarget|apply Hplan|]. eapply flt_fle_trans; [|apply (pl_budget _ _ _ Hplan)].
    apply (po_positive l), (Forall_inv (pl_parts _ _ _ Hplan)). }
  assert (Hch : i_children i2 = i_children i) by (by apply size_children).
  assert (Hid : i_insight_id i2 = i_insight_id i) by (unfold size_view, core_view in Es; by injection Es).
  destruct (options_feq _ _) eqn:Eu.
  - intros [= <- <- <-]. eapply plan_is_split; [exact Hplan|done|by apply options_feq_spec|unfold others_of; by rewrite Hch|done|done|done].
  - destruct (create_children_form now ids fragments n (drop_fragments i2)) as (fs & -> & Hfs).
    destruct (replaced_fragments i2 _ _ Hfs) as [Ef Eo].
    set (j := (drop_fragments i2) <| i_children := i_children (drop_fragments i2) ++ fs |>) in *.
    assert (Ej : i_insight_id j = i_insight_id i2) by reflexivity. clearbody j. intros [= <- <- <-].
    eapply plan_is_split; [exact Hplan|done| |rewrite Eo; unfold others_of; by rewrite Hch|congruence|done|done].
    rewrite Ef. eapply created_quantities; [|exact Hfs]. apply (Forall_inv_tail (pl_parts _ _ _ Hplan)).
Qed.

