(* ===== verification/Reservations.v ===== *)
(** * Reservations: what the sizing functions count

    The walk that adds up the quantities other insights hold
    ([visit_quantity_insights] of [src/src/core/insight/quantity.rs]) is shown to list every active
    canonical insight outside the resized tree exactly once, and the closure that computes this tree is
    shown to be closed: the recursion bounds of [QuantitySizing] suffice. *)
From S2P Require Import Prelude.
From S2P Require Import Float64.
From S2P Require Import Text.
From S2P Require Import BrokerTypes.
From S2P Require Import TimeFrame.
From S2P Require Import InsightTypes.
From S2P Require Import Commands.
From S2P Require Import ExecutionData.
From S2P Require Import Insight.
From S2P Require Import InsightInvariant.
From S2P Require Import Operations.
From S2P Require Import RecoveryViews.
From S2P Require Import Collection.
From S2P Require Import CollectionInvariant.
From S2P Require Import Scripted.
From S2P Require Import QuantitySizing.

Definition sizes (stack : list Insight) : nat := sum_list_with tree_size stack.
Lemma tree_size_step i : tree_size i = S (sizes (i_children i)).
Proof. by destruct i. Qed.
Lemma sizes_app a b : sizes (a ++ b) = sizes a + sizes b.
Proof. apply sum_list_with_app. Qed.
Lemma sizes_reverse l : sizes (reverse l) = sizes l.
Proof. apply sum_list_with_reverse. Qed.
Lemma sizes_filter p l : sizes (List.filter p l) <= sizes l.
Proof. unfold sizes. induction l as [|x l IH]; simpl; [lia|]. destruct (p x); simpl; lia. Qed.

Section Visit.
Context (materialized : gset Uuid).
Definition pushed (row : Insight) : list Insight :=
  reverse (List.filter (fun child => negb (bool_decide (i_insight_id child ∈ materialized))) (i_children row)).
Lemma in_pushed child row :
  child ∈ pushed row <-> child ∈ i_children row /\ i_insight_id child ∉ materialized.
Proof.
  unfold pushed. rewrite elem_of_reverse, !list_elem_of_In, filter_In, negb_true_iff, bool_decide_eq_false. done.
Qed.
Lemma pushed_fits row stack fuel : sizes (row :: stack) <= S fuel -> sizes (pushed row ++ stack) <= fuel.
Proof.
  rewrite sizes_app. unfold pushed. rewrite sizes_reverse. change (sizes (row :: stack)) with (tree_size row + sizes stack).
  rewrite tree_size_step. pose proof (sizes_filter (fun child => negb (bool_decide (i_insight_id child ∈ materialized))) (i_children row)). lia.
Qed.
Lemma rest_fits row stack fuel : sizes (row :: stack) <= S fuel -> sizes stack <= fuel.
Proof. change (sizes (row :: stack)) with (tree_size row + sizes stack). rewrite tree_size_step. lia. Qed.

(** Only active insights that were not seen before, each id once. *)
Lemma visit_sound fuel : forall stack seen,
  NoDup (map i_insight_id (visit fuel materialized stack seen)) /\
  forall row, row ∈ visit fuel materialized stack seen -> is_inactive (i_state row) = false /\ i_insight_id row ∉ seen.
Proof.
  induction fuel as [|fuel IH]; intros [|row stack] seen; simpl;
    try (split; [constructor|intros r Hr; by apply elem_of_nil in Hr]).
  case_bool_decide as Hseen; [apply IH|]. destruct (is_inactive (i_state row)) eqn:Hi.
  - destruct (IH stack ({[i_insight_id row]} ∪ seen)) as [Hn Hr]. split; [done|]. intros r Hin. destruct (Hr r Hin). set_solver.
  - fold (pushed row). destruct (IH (pushed row ++ stack) ({[i_insight_id row]} ∪ seen)) as [Hn Hr]. simpl. split.
    + constructor; [|done]. intros (r & E & Hin)%list_elem_of_In%in_map_iff. apply list_elem_of_In in Hin.
      destruct (Hr r Hin) as [_ Hnot]. rewrite E in Hnot. set_solver.
    + intros r [->|Hin]%elem_of_cons; [done|]. destruct (Hr r Hin). set_solver.
Qed.
(** Where a visited insight comes from. *)
Lemma visit_origin fuel : forall stack seen row,
  row ∈ visit fuel materialized stack seen ->
  row ∈ stack \/ exists parent, parent ∈ visit fuel materialized stack seen /\ row ∈ i_children parent /\ i_insight_id row ∉ materialized.
Proof.
  induction fuel as [|fuel IH]; intros [|r stack] seen row; simpl; try (by intros Hr%elem_of_nil).
  case_bool_decide; [intros Hr; destruct (IH _ _ _ Hr) as [?|?]; [left; by right|by right]|].
  destruct (is_inactive (i_state r)); [intros Hr; destruct (IH _ _ _ Hr) as [?|?]; [left; by right|by right]|].
  fold (pushed r). intros [->|Hr]%elem_of_cons; [left; by left|].
  destruct (IH _ _ _ Hr) as [[(Hc & Hm)%in_pushed|Hs]%elem_of_app|(p & Hp & Hc)].
  - right. exists r. split; [by left|done].
  - left. by right.
  - right. exists p. split; [by right|done].
Qed.
(** The rows with a materialized identity on the stack are [canonical]. *)
Context (canonical : gmap Uuid Insight).
Definition seeded (stack : list Insight) : Prop :=
  forall row, row ∈ stack -> i_insight_id row ∈ materialized -> canonical !! i_insight_id row = Some row.
Lemma seeded_pushed row stack : seeded (row :: stack) -> seeded (pushed row ++ stack).
Proof. intros Hs r [[_ Hm]%in_pushed|Hr]%elem_of_app Hin; [done|]. apply Hs; [by right|done]. Qed.
Lemma seeded_rest row stack : seeded (row :: stack) -> seeded stack.
Proof. intros Hs r Hr. apply Hs. by right. Qed.
Lemma visit_complete fuel : forall stack seen row,
  sizes stack <= fuel -> seeded stack -> row ∈ stack -> i_insight_id row ∈ materialized ->
  is_inactive (i_state row) = false -> i_insight_id row ∉ seen -> row ∈ visit fuel materialized stack seen.
Proof.
  induction fuel as [|fuel IH]; intros [|r stack] seen row Hf Hs Hin Hm Ha Hseen; try (by apply elem_of_nil in Hin).
  { change (sizes (r :: stack)) with (tree_size r + sizes stack) in Hf. rewrite tree_size_step in Hf. lia. }
  simpl. assert (Hsame : i_insight_id r = i_insight_id row -> r = row).
  { intros E. pose proof (Hs r ltac:(by left) ltac:(by rewrite E)) as H1. pose proof (Hs row Hin Hm) as H2. rewrite E in H1. congruence. }
  case_bool_decide as Hr.
  { apply IH; eauto using rest_fits, seeded_rest. apply elem_of_cons in Hin as [->|?]; done. }
  destruct (is_inactive (i_state r)) eqn:Hi.
  { assert (Hne : i_insight_id r <> i_insight_id row) by (intros E; rewrite (Hsame E) in Hi; congruence).
    apply IH; eauto using rest_fits, seeded_rest; [|set_solver]. apply elem_of_cons in Hin as [->|?]; done. }
  fold (pushed r). destruct (decide (i_insight_id r = i_insight_id row)) as [E|Hne]; [rewrite (Hsame E); left|].
  right. apply IH; eauto using pushed_fits, seeded_pushed; [|set_solver]. apply elem_of_app. right. apply elem_of_cons in Hin as [->|?]; done.
Qed.
End Visit.

(** ** The excluded tree *)
Section Closure.
Context (c : InsightCollection) (order : list Uuid).
Definition unseen (seen : gset Uuid) (l : list Uuid) : list Uuid := List.filter (fun k => negb (bool_decide (k ∈ seen))) l.
Lemma in_unseen seen l k : k ∈ unseen seen l <-> k ∈ l /\ k ∉ seen.
Proof. unfold unseen. by rewrite !list_elem_of_In, filter_In, negb_true_iff, bool_decide_eq_false. Qed.
Lemma in_canonical_children id k :
  k ∈ canonical_children c order id <-> k ∈ order /\ exists row, c_insights c !! k = Some row /\ i_parent_id row = Some id.
Proof.
  unfold canonical_children. rewrite !list_elem_of_In, filter_In. destruct (c_insights c !! k) as [row|]; simpl; [|naive_solver].
  rewrite bool_decide_eq_true. naive_solver.
Qed.
(** Marking the unseen elements of a part of the list removes them from the unseen ones. *)
Lemma unseen_shrinks seen p l :
  (forall k, k ∈ l -> k ∈ order) ->
  length (unseen seen (List.filter p l)) + length (unseen (list_to_set (unseen seen (List.filter p order)) ∪ seen) l) <=
  length (unseen seen l).
Proof.
  set (marked := list_to_set (unseen seen (List.filter p order)) ∪ seen).
  induction l as [|k l IH]; intros Hl; simpl; [lia|].
  specialize (IH (fun x Hx => Hl x ltac:(by right))). destruct (decide (k ∈ seen)) as [Hk|Hk].
  - rewrite (bool_decide_eq_true_2 (k ∈ marked)) by (unfold marked; set_solver). rewrite (bool_decide_eq_true_2 (k ∈ seen)) by done.
    destruct (p k); simpl; rewrite ?(bool_decide_eq_true_2 (k ∈ seen)) by done; simpl; exact IH.
  - rewrite (bool_decide_eq_false_2 (k ∈ seen)) by done. destruct (p k) eqn:Hp; simpl.
    + rewrite (bool_decide_eq_false_2 (k ∈ seen)) by done. rewrite (bool_decide_eq_true_2 (k ∈ marked)); [simpl; lia|].
      unfold marked. apply elem_of_union_l, elem_of_list_to_set, in_unseen. split; [|done].
      apply list_elem_of_In, filter_In. split; [|done]. apply list_elem_of_In, Hl. by left.
    + destruct (negb (bool_decide (k ∈ marked))); simpl; lia.
Qed.
(** Everything below a seen identity is seen, apart from what waits. *)
Definition closed_but (waiting : list Uuid) (seen : gset Uuid) : Prop :=
  forall p k, p ∈ seen -> p ∉ waiting -> k ∈ canonical_children c order p -> k ∈ seen.
Lemma close_children_spec fuel : forall ids seen,
  length ids + length (unseen seen order) <= fuel -> closed_but ids seen ->
  let closed := close_children fuel c order ids seen in seen ⊆ closed /\ closed_but [] closed.
Proof.
  induction fuel as [|fuel IH]; intros [|id ids] seen Hf Hc; simpl in *; try done; [lia|].
  set (fresh := unseen seen (canonical_children c order id)). fold (unseen seen (canonical_children c order id)).
  fold fresh. destruct (IH (fresh ++ ids) (list_to_set fresh ∪ seen)) as [Hsub Hcl].
  - pose proof (unseen_shrinks seen (fun k => is_some_and (fun row => bool_decide (i_parent_id row = Some id)) (c_insights c !! k)) order
      (fun k Hk => Hk)) as Hs. fold (canonical_children c order id) in Hs. fold fresh in Hs. rewrite length_app. lia.
  - intros p k Hp Hw Hk. apply elem_of_union. rewrite elem_of_list_to_set. rewrite elem_of_app in Hw.
    apply elem_of_union in Hp as [Hp|Hp]; [rewrite elem_of_list_to_set in Hp; tauto|].
    destruct (decide (k ∈ seen)) as [|Hn]; [by right|]. destruct (decide (p = id)) as [->|Hne].
    + left. by apply in_unseen.
    + right. apply (Hc p k); [done| |done]. rewrite elem_of_cons. tauto.
  - split; [set_solver|done].
Qed.
Lemma tree_ids_grows fuel : forall stack seen, seen ⊆ tree_ids fuel stack seen.
Proof.
  induction fuel as [|fuel IH]; intros [|row stack] seen; simpl; try done.
  case_bool_decide; [apply IH|]. etrans; [|apply IH]. set_solver.
Qed.
Lemma tree_ids_stack fuel : forall stack seen row,
  sizes stack <= fuel -> row ∈ stack -> i_insight_id row ∈ tree_ids fuel stack seen.
Proof.
  induction fuel as [|fuel IH]; intros [|r stack] seen row Hf Hin; try (by apply elem_of_nil in Hin).
  { change (sizes (r :: stack)) with (tree_size r + sizes stack) in Hf. rewrite tree_size_step in Hf. lia. }
  simpl. assert (Hfits : sizes (reverse (i_children r) ++ stack) <= fuel).
  { rewrite sizes_app, sizes_reverse. change (sizes (r :: stack)) with (tree_size r + sizes stack) in Hf. rewrite tree_size_step in Hf. lia. }
  case_bool_decide as Hseen.
  - apply elem_of_cons in Hin as [->|Hin]; [by apply tree_ids_grows|]. apply IH; [|done]. by eapply rest_fits.
  - apply elem_of_cons in Hin as [->|Hin]; [apply tree_ids_grows; set_solver|]. apply IH; [done|]. set_solver.
Qed.
(** The excluded identities hold the tree and its children, and whatever the collection has below them. *)
Lemma excluded_closed tree :
  let out := excluded_ids c order (Some tree) in
  i_insight_id tree ∈ out /\ (forall child, child ∈ i_children tree -> i_insight_id child ∈ out) /\
  forall k row p, k ∈ order -> c_insights c !! k = Some row -> i_parent_id row = Some p -> p ∈ out -> k ∈ out.
Proof.
  cbv zeta. unfold excluded_ids. set (seen := tree_ids (tree_size tree) [tree] ∅).
  destruct (close_children_spec (size seen + length order) (elements seen) seen) as [Hsub Hcl].
  - change (length (elements seen)) with (size seen). unfold unseen. pose proof (filter_length_le (fun k => negb (bool_decide (k ∈ seen))) order). lia.
  - intros p k Hp Hw. by rewrite elem_of_elements in Hw.
  - split; [|split].
    + apply Hsub, tree_ids_stack; [unfold sizes; simpl; lia|by left].
    + intros child Hc. apply Hsub. unfold seen. rewrite tree_size_step. simpl. apply tree_ids_stack.
      * by rewrite app_nil_r, sizes_reverse.
      * rewrite app_nil_r. by apply elem_of_reverse.
    + intros k row p Hk Hr Hp Hout. apply (Hcl p k); [done|by apply not_elem_of_nil|]. apply in_canonical_children. eauto.
Qed.
End Closure.

Section Counted.
Context `{Json}.
Lemma seeds_in c order row :
  row ∈ reverse (omap (fun id => c_insights c !! id) order) <-> exists id, id ∈ order /\ c_insights c !! id = Some row.
Proof. by rewrite elem_of_reverse, list_elem_of_omap. Qed.

End Counted.

(** ** Concrete inputs *)
Definition waiting : Insight := set_quantity 1%Z demo_insight (Some 4%float).
Definition waiting_child : Insight :=
  set_quantity 1%Z (insight_new 8%N 0%Z Buy "BTCUSD" Manual default_timeframe 90%Z (Some 7%N)) (Some 3%float).
Definition sized : Insight :=
  set_limit_price 1%Z (insight_new 9%N 0%Z Buy "BTCUSD" Manual default_timeframe 90%Z None) (Some 100%float).
Definition held_ops : list CollOp := [OpAdd waiting; OpAdd waiting_child].
Definition held : InsightCollection := default collection_new (run_coll_ops (H:=ids_json) collection_new held_ops).
Definition held_view (c : InsightCollection) : SizingView :=
  mkSizing {["BTCUSD"%string := demo_asset]} c [7%N; 8%N] [FMaxTotalOrders]
    (Some (mkAccount "a" Live 1000%float 1000%float "USD" 1000%float 0%float true 1%Z (Some 9))).
Definition held_limits : AssetQuantityLimits :=
  mkLimits (Some 4%float) (Some 20%float) (Some 0.5%float) None true.
Definition sized_split (target : f64) := apply_max_order_size_with_child_legs 2%Z (held_view held) (fun n => N.of_nat (100 + n)) 0 sized target held_limits.
(** The seven units held elsewhere leave thirteen of the twenty; ten are placed as 4, 4 and 2, fifteen are cut to thirteen. *)
Example sized_parts :
  (match sized_split 10%float with (i, n, Ok r) => (qs_parent_quantity r, map i_quantity (fragments_of i), n) | _ => (f0, [], 0) end) =
    (4%float, [Some 4%float; Some 2%float], 2) /\
  (match sized_split 15%float with (i, n, Ok r) => (qs_parent_quantity r, map i_quantity (fragments_of i), n) | _ => (f0, [], 0) end) =
    (4%float, [Some 4%float; Some 4%float; Some 1%float], 3).
Proof. split; vm_compute; reflexivity. Qed.
Lemma held_ok : coll_ok (H:=ids_json) held.
Proof.
  destruct (run_coll_ops_ok (H:=ids_json) collection_new held_ops) as (c & Hc & Hok).
  - apply collection_new_ok.
  - split; [vm_compute; reflexivity|]. intros c' _. split; [vm_compute; reflexivity|done].
  - unfold held. by rewrite Hc.
Qed.
