(* ===== verification/TradingClock.v ===== *)
(** * TradingClock: times of day in pipe configurations

    Model of the parsing, normalisation and window tests of
    [src/src/core/pipeline/allow_trading_window.rs] and
    [src/src/core/pipeline/end_of_day_close.rs], with the [str] methods they use.  A window from [start] to
    [end] on the clock of a day may cross midnight; both files test it in the same way, and the
    theorems say that the test is the one of the circle of minutes. *)
From S2P Require Import Prelude.
From S2P Require Import Text.
From S2P Require Import TimeFrame.
From stdpp Require Import pretty.
From Stdlib Require Import Ascii.
Local Open Scope Z_scope.

(** ** Strings *)

(** [str::split_once] at a character. *)
Fixpoint split_once (c : Ascii.ascii) (s : string) : option (string * string) :=
  match s with
  | EmptyString => None
  | String a s' =>
      if Ascii.eqb a c then Some (EmptyString, s')
      else match split_once c s' with Some (before, after) => Some (String a before, after) | None => None end
  end.
(** [str::split] at a character. *)
Fixpoint split_at (c : Ascii.ascii) (s : string) : list string :=
  match s with
  | EmptyString => [EmptyString]
  | String a s' =>
      match split_at c s' with
      | part :: rest => if Ascii.eqb a c then EmptyString :: part :: rest else String a part :: rest
      | [] => []
      end
  end.
Fixpoint join_with (sep : string) (l : list string) : string :=
  match l with
  | [] => EmptyString
  | [x] => x
  | x :: rest => (x +:+ sep +:+ join_with sep rest)%string
  end.
Fixpoint digits_value (acc : Z) (s : string) : option Z :=
  match s with
  | EmptyString => Some acc
  | String a s' =>
      if is_ascii_digit a then digits_value (acc * 10 + (Z.of_nat (Ascii.nat_of_ascii a) - 48)) s' else None
  end.
Definition parse_unsigned (s : string) : option Z :=
  match s with EmptyString => None | _ => digits_value 0 s end.
(** [str::parse::<i64>] and [str::parse::<u32>]: an optional sign, digits, and the range. *)
Definition parse_i64 (s : string) : option Z :=
  let value := match s with
               | String a s' =>
                   if Ascii.eqb a "-"%char then Z.opp <$> parse_unsigned s'
                   else if Ascii.eqb a "+"%char then parse_unsigned s' else parse_unsigned s
               | EmptyString => None
               end in
  match value with Some v => if (i64_min <=? v) && (v <=? i64_max) then Some v else None | None => None end.
Definition parse_u32 (s : string) : option Z :=
  let value := match s with
               | String a s' => if Ascii.eqb a "+"%char then parse_unsigned s' else parse_unsigned s
               | EmptyString => None
               end in
  match value with Some v => if v <=? u32_max then Some v else None | None => None end.
(** [{:02}] of a number below one hundred. *)
Definition digit (n : Z) : Ascii.ascii := Ascii.ascii_of_nat (48 + Z.to_nat n).
Definition two_digits (n : Z) : string := String (digit (n / 10)) (String (digit (n mod 10)) EmptyString).
Definition show_clock (minutes : Z) : string := (two_digits (minutes / 60) +:+ ":" +:+ two_digits (minutes mod 60))%string.
Fixpoint is_ascii (s : string) : bool :=
  match s with EmptyString => true | String a s' => (Ascii.nat_of_ascii a <? 128)%nat && is_ascii s' end.

(** ** Times of day *)
Definition clock_of (hour minute : Z) : option Z :=
  if (0 <=? hour) && (hour <=? 23) && (0 <=? minute) && (minute <=? 59) then Some (hour * 60 + minute) else None.
Definition parse_minutes (value : string) : option Z :=
  match split_once ":"%char (trim value) with
  | None => None
  | Some (hour, minute) =>
      match parse_i64 hour, parse_i64 minute with Some hour, Some minute => clock_of hour minute | _, _ => None end
  end.
Definition normalize_time (value default : string) : string :=
  match parse_minutes value with Some minutes => show_clock minutes | None => default end.
Definition DEFAULT_START_UTC : string := "06:00".
Definition DEFAULT_END_UTC : string := "20:00".
Definition DEFAULT_ALLOWED_DAYS : string := "0,1,2,3,4,5,6".
Definition listed_days (value : string) : list Z :=
  List.filter (fun day => day <=? 6) (omap (fun item => parse_u32 (trim item)) (split_at ","%char value)).
Definition normalize_days (value : string) : string :=
  match listed_days value with
  | [] => DEFAULT_ALLOWED_DAYS
  | days => join_with "," (map (fun day => pretty (Z.to_N day)) days)
  end.
(** The test of both files: a window may cross midnight. *)
Definition in_window (start finish minutes : Z) : bool :=
  if start <=? finish then (start <=? minutes) && (minutes <=? finish) else (start <=? minutes) || (minutes <=? finish).

(** [chrono]'s [weekday().num_days_from_monday()]; the first of January 1970 was a Thursday. *)
Class Weekdays := {
  dt_weekday : DateTime -> Z;
  dt_weekday_spec t : dt_weekday t = (t / ns_day + 3) mod 7
}.

Section Windows.
Context `{Chrono} `{Weekdays}.
Definition minutes_of (now : DateTime) : Z := dt_hour now * 60 + dt_minute now.
(** [AllowTradingWindowPipe::allows]. *)
Definition allows (start_utc end_utc allowed_days : string) (now : DateTime) : result unit text :=
  let weekday := dt_weekday now in
  let days := listed_days allowed_days in
  if negb (match days with [] => true | _ => false end) && negb (existsb (Z.eqb weekday) days)
  then Err [Lit "Trading not allowed on weekday "; ShowZ weekday]
  else if in_window (unwrap_or (parse_minutes start_utc) 360) (unwrap_or (parse_minutes end_utc) 1200) (minutes_of now)
  then Ok ()
  else Err [Lit "Outside trading window "; Lit start_utc; Lit "-"; Lit end_utc; Lit " UTC"].
End Windows.

(** ** The end of the day *)
Definition DEFAULT_MINUTES_BEFORE_END_OF_DAY : Z := 15.
Definition DEFAULT_END_OF_DAY_TIME_UTC : string := "23:45".
Definition MINUTES_PER_DAY : Z := 24 * 60.
Definition normalise_positive_minutes (value default : Z) : Z := if 0 <? value then value else default.
Definition parse_utc_time_minutes (value : string) : option Z :=
  let trimmed := trim value in
  if str_is_empty trimmed then None
  else
    match (match split_once ":"%char trimmed with
           | Some (hour, minute) => Some (trim hour, trim minute)
           | None =>
               if (str_len trimmed =? 4)%nat && is_ascii trimmed
               then Some (String.substring 0 2 trimmed, String.substring 2 2 trimmed)
               else None
           end) with
    | None => None
    | Some (hour, minute) =>
        match parse_i64 hour, parse_i64 minute with Some hour, Some minute => clock_of hour minute | _, _ => None end
    end.
Definition minutes_to_time (minutes : Z) : string := show_clock (Z.max 0 (Z.min minutes (MINUTES_PER_DAY - 1))).
Definition normalise_utc_time (value : string) : string :=
  match parse_utc_time_minutes value with Some minutes => minutes_to_time minutes | None => DEFAULT_END_OF_DAY_TIME_UTC end.
(** The default parses ([default_end_of_day]), so the inner [None] is never reached. *)
Definition end_of_day_minutes (time : string) : Z :=
  match parse_utc_time_minutes time with
  | Some minutes => minutes
  | None => unwrap_or (parse_utc_time_minutes DEFAULT_END_OF_DAY_TIME_UTC) 0
  end.
Example default_end_of_day : parse_utc_time_minutes DEFAULT_END_OF_DAY_TIME_UTC = Some 1425.
Proof. reflexivity. Qed.
Definition close_window_start_minutes (before : Z) (time : string) : Z := (end_of_day_minutes time - before) mod MINUTES_PER_DAY.
Definition is_close_window (before : Z) (time : string) (minutes : Z) : bool :=
  in_window (close_window_start_minutes before time) (end_of_day_minutes time) minutes.

(** ** Correctness *)
Definition day_minute (m : Z) : Prop := 0 <= m < MINUTES_PER_DAY.
Lemma clock_range hour minute m : clock_of hour minute = Some m -> day_minute m.
Proof. unfold clock_of, day_minute, MINUTES_PER_DAY. intros Hm. repeat case_match; simplify_eq. lia. Qed.
Lemma parse_utc_range value m : parse_utc_time_minutes value = Some m -> day_minute m.
Proof. unfold parse_utc_time_minutes. intros Hm. repeat case_match; simplify_eq. all: by eapply clock_range. Qed.
Lemma parse_minutes_range value m : parse_minutes value = Some m -> day_minute m.
Proof. unfold parse_minutes. intros Hm. repeat case_match; simplify_eq. by eapply clock_range. Qed.
Lemma end_of_day_range time : day_minute (end_of_day_minutes time).
Proof.
  unfold end_of_day_minutes. destruct (parse_utc_time_minutes time) as [m|] eqn:E; [by eapply parse_utc_range|].
  rewrite default_end_of_day. unfold day_minute, MINUTES_PER_DAY. simpl. lia.
Qed.

(** The test is the one on the circle: a minute is in the window exactly if it is reached from the
    start no later than the end is. *)
Lemma in_window_circle start finish m :
  day_minute start -> day_minute finish -> day_minute m ->
  in_window start finish m = ((m - start) mod MINUTES_PER_DAY <=? (finish - start) mod MINUTES_PER_DAY).
Proof.
  unfold day_minute, in_window, MINUTES_PER_DAY. intros Hs Hf Hm.
  assert (Hmod : forall x, - 1440 < x < 1440 -> x mod (24 * 60) = if 0 <=? x then x else x + 1440).
  { intros x Hx. destruct (0 <=? x) eqn:E; [apply Z.mod_small; lia|]. symmetry. apply (Z.mod_unique _ _ (-1)); lia. }
  rewrite !Hmod by lia. destruct (start <=? finish) eqn:E1, (0 <=? m - start) eqn:E2, (0 <=? finish - start) eqn:E3; lia.
Qed.
(** The window before the end of the day: at most [before] minutes, counted around the clock. *)
Lemma close_window_circle before time m :
  day_minute m ->
  is_close_window before time m = ((end_of_day_minutes time - m) mod MINUTES_PER_DAY <=? before mod MINUTES_PER_DAY).
Proof.
  intros Hm. pose proof (end_of_day_range time) as He. unfold is_close_window, close_window_start_minutes.
  set (e := end_of_day_minutes time) in *. clearbody e.
  assert (Hd : MINUTES_PER_DAY <> 0) by done.
  assert (Hs : day_minute ((e - before) mod MINUTES_PER_DAY)) by (unfold day_minute; apply Z.mod_pos_bound; done).
  rewrite in_window_circle by done. rewrite !Zminus_mod_idemp_r.
  replace (e - (e - before)) with before by lia. replace (m - (e - before)) with (before - (e - m)) by lia.
  rewrite (Zminus_mod before (e - m)).
  pose proof (Z.mod_pos_bound before MINUTES_PER_DAY ltac:(done)) as Hb. pose proof (Z.mod_pos_bound (e - m) MINUTES_PER_DAY ltac:(done)) as Hx.
  set (y := before mod MINUTES_PER_DAY) in *. set (x := (e - m) mod MINUTES_PER_DAY) in *. clearbody x y. unfold MINUTES_PER_DAY in *.
  destruct (Z.leb_spec x y).
  - rewrite Z.mod_small by lia. apply Z.leb_le. lia.
  - rewrite <- (Z.mod_unique (y - x) (24 * 60) (-1) (y - x + 24 * 60)) by lia. apply Z.leb_gt. lia.
Qed.

Definition clock_reads (m : Z) : bool :=
  bool_decide (parse_minutes (show_clock m) = Some m) && bool_decide (parse_utc_time_minutes (show_clock m) = Some m).
Lemma clock_reads_all : forallb clock_reads (seqZ 0 MINUTES_PER_DAY) = true.
Proof. vm_compute. reflexivity. Qed.
(** Clock texts round trip: the text [HH:MM] of every minute of a day is read back as that minute by the
    parsers of both pipes, so that normalising a configuration neither changes a valid time nor leaves an
    invalid one. *)
Theorem clock_roundtrip m :
  day_minute m ->
  parse_minutes (show_clock m) = Some m /\ parse_utc_time_minutes (minutes_to_time m) = Some m /\
  (forall v d, parse_minutes v = Some m -> parse_minutes (normalize_time v d) = Some m) /\
  (forall v, parse_utc_time_minutes v = Some m -> parse_utc_time_minutes (normalise_utc_time v) = Some m).
Proof.
  intros Hm. pose proof clock_reads_all as Hall. rewrite forallb_forall in Hall.
  specialize (Hall m). rewrite <- list_elem_of_In, elem_of_seqZ in Hall. unfold day_minute in Hm.
  apply andb_true_iff in Hall as [H1%bool_decide_eq_true H2%bool_decide_eq_true]; [|lia].
  assert (E : minutes_to_time m = show_clock m) by (unfold minutes_to_time; f_equal; lia).
  rewrite E. split; [done|]. split; [done|]. unfold normalize_time, normalise_utc_time.
  split; [by intros v d ->|intros v ->; by rewrite E].
Qed.

Lemma minutes_of_range `{Chrono} now : day_minute (minutes_of now).
Proof. unfold minutes_of, day_minute, MINUTES_PER_DAY. rewrite dt_hour_spec, dt_minute_spec. pose proof (Z.mod_pos_bound (now / ns_hour) 24). pose proof (Z.mod_pos_bound (now / ns_minute) 60). lia. Qed.
Lemma configured_range value default : day_minute default -> day_minute (unwrap_or (parse_minutes value) default).
Proof. intros Hd. destruct (parse_minutes value) as [m|] eqn:E; [by eapply parse_minutes_range|done]. Qed.
(** C17 Both window pipes test the circle of the minutes of a day, whether their window crosses midnight or not: trading
    is allowed exactly on a listed weekday and at a minute that is reached from the start no later than the
    end is; the day closes exactly at the minutes that the end follows within the configured number of
    minutes, this number taken modulo a day. *)
Theorem windows_are_circular `{Chrono} `{Weekdays} start_utc end_utc allowed_days before time now :
  let start := unwrap_or (parse_minutes start_utc) 360 in
  let finish := unwrap_or (parse_minutes end_utc) 1200 in
  (allows start_utc end_utc allowed_days now = Ok () <->
     (listed_days allowed_days = [] \/ dt_weekday now ∈ listed_days allowed_days) /\
     (minutes_of now - start) mod MINUTES_PER_DAY <= (finish - start) mod MINUTES_PER_DAY) /\
  (is_close_window before time (minutes_of now) = true <->
     (end_of_day_minutes time - minutes_of now) mod MINUTES_PER_DAY <= before mod MINUTES_PER_DAY).
Proof.
  cbv zeta. pose proof (minutes_of_range now) as Hm. split.
  - unfold allows. rewrite in_window_circle by (first [done|apply configured_range; unfold day_minute, MINUTES_PER_DAY; lia]).
    assert (Hd : negb (match listed_days allowed_days with [] => true | _ => false end) &&
        negb (existsb (Z.eqb (dt_weekday now)) (listed_days allowed_days)) = false <->
      listed_days allowed_days = [] \/ dt_weekday now ∈ listed_days allowed_days).
    { rewrite andb_false_iff, !negb_false_iff, existsb_exists. rewrite list_elem_of_In. split.
      - intros [Hn|(x & Hx & ->%Z.eqb_eq)]; [left; by destruct (listed_days allowed_days)|by right].
      - intros [->|Hx]; [by left|right]. eexists. split; [exact Hx|apply Z.eqb_refl]. }
    destruct (negb _ && negb _); [split; [done|]; intros [Hl _]; by apply Hd in Hl|].
    destruct (Z.leb_spec ((minutes_of now - unwrap_or (parse_minutes start_utc) 360) mod MINUTES_PER_DAY)
      ((unwrap_or (parse_minutes end_utc) 1200 - unwrap_or (parse_minutes start_utc) 360) mod MINUTES_PER_DAY)) as [Hle|Hgt].
    + split; [intros _; split; [by apply Hd|done]|done].
    + split; [done|]. intros [_ Hle]. lia.
  - rewrite close_window_circle by done. apply Z.leb_le.
Qed.

(** ** Concrete inputs *)
#[refine] Instance civil_weekdays : Weekdays := {| dt_weekday t := (t / ns_day + 3) mod 7 |}.
Proof. abstract (intros t; reflexivity). Defined.
(** Half past one at night lies in a window from 22:00 to 02:00, and a day that ends at 00:05 closes from 23:50 on;
    a full day of minutes before the end is the end alone. *)
Lemma windows_are_circular_witness :
  (dt_weekday (90 * ns_minute) = 3 /\ allows (H := civil_chrono) "22:00" "02:00" "3,4" (90 * ns_minute) = Ok ()) /\
  is_close_window 15 "00:05" 1430 = true /\ is_close_window 1440 "23:45" 1424 = false.
Proof.
  split; [split; [reflexivity|]|split; reflexivity].
  apply (windows_are_circular (H := civil_chrono) "22:00" "02:00" "3,4" 15 "00:05" (90 * ns_minute)).
  split; [right; vm_compute; left|vm_compute; discriminate].
Defined.
Lemma clock_roundtrip_witness : parse_minutes (show_clock 485) = Some 485 /\ show_clock 485 = "08:05"%string.
Proof. split; [apply clock_roundtrip; unfold day_minute, MINUTES_PER_DAY; lia|reflexivity]. Defined.
