(* ===== verification/BuiltinPipes.v ===== *)
(** * BuiltinPipes: the pipes the engine ships

    Model of the leaf pipes of [src/src/core/pipeline/]: one constructor of [BuiltinPipe] and one [run]
    function per file.  A pipe sees the strategy through [StrategyContext] (what it may ask the broker to
    do) and [MarketContext] (what it reads); both are classes over the type of the context, as the trait
    object is in the code.  A pipe that creates insights draws their ids one after the other from
    [ctx_fresh].  A frame of market history is the number of its rows and the value of the last row of a
    column, [None] for a column that is missing, not numeric, or null there; the profit model of a quote is not read. *)
From S2P Require Import Prelude.
From S2P Require Import Float64.
From S2P Require Import Text.
From S2P Require Import BrokerTypes.
From S2P Require Import TimeFrame.
From S2P Require Import InsightTypes.
From S2P Require Import Commands.
From S2P Require Import Insight.
From S2P Require Import Operations.
From S2P Require Import Collection.
From S2P Require Import CommandWorker.
From S2P Require Import SnapshotDependencies.
From S2P Require Import Checkpoint.
From S2P Require Import Pipeline.
From S2P Require Import QuantitySizing.
From S2P Require Import TradingClock.

(** ** What pipes read *)
Record Quote := mkQuote {
  q_symbol : string;
  q_bid : f64;
  q_ask : f64;
  q_bid_size : f64;
  q_ask_size : f64;
  q_last : option f64;
  q_last_size : option f64;
  q_timestamp : DateTime
}.
Definition valid_market_values (q : Quote) : bool :=
  is_finite (q_bid q) && is_finite (q_ask q) && (f0 <. q_bid q) && (q_bid q <=. q_ask q)
  && is_finite (q_bid_size q) && is_finite (q_ask_size q) && (f0 <=. q_bid_size q) && (f0 <=. q_ask_size q)
  && forallb (fun value => is_finite value && (f0 <. value)) (option_list (q_last q))
  && forallb (fun value => is_finite value && (f0 <=. value)) (option_list (q_last_size q)).
Definition asset_multiplier (asset : Asset) : f64 := f64_of_Z (Z.max (unwrap_or (a_contract_size asset) 1%Z) 1).
Definition effective_buying_power_from (account : Account) (asset : Asset) (buying_power_is_leveraged : bool) : f64 :=
  if a_marginable asset && negb buying_power_is_leveraged
  then ac_buying_power account ⊗ f64_of_Z (Z.max (ac_leverage account) 1) else ac_buying_power account.

Record Frame := mkHistory { fr_height : nat; fr_last : string -> option f64 }.
Inductive StrategyMode := BacktestMode | LiveMode.
#[export] Instance StrategyMode_eq_dec : EqDecision StrategyMode.
Proof. solve_decision. Defined.
Class MarketContext (C : Type) := {
  ctx_insights : C -> InsightCollection;
  ctx_order : C -> list Uuid;              (** the order in which the active ids are iterated *)
  ctx_mode : C -> StrategyMode;
  ctx_native_bid_ask : C -> bool;          (** the data feed has [NativeBidAsk] *)
  ctx_latest_quote : C -> string -> result Quote ReadError;
  ctx_history : C -> gmap string Frame;
  ctx_account : C -> result Account ReadError;
  ctx_cached_account : C -> option Account;
  ctx_execution_risk : C -> f64;
  ctx_min_reward_risk_ratio : C -> f64;
  set_min_reward_risk_ratio : C -> f64 -> C;
  ctx_request_cancellation : C -> Uuid -> C * result bool BrokerCommandError;
  ctx_clock : C -> DateTime;               (** the clock of log entries *)
  ctx_fresh : C -> nat -> Uuid
}.

(** ** The pipes *)
Inductive BuiltinPipe :=
| AllowTradingWindowPipe (start_utc end_utc allowed_days : string)
| BasicStopLossPipe
| BasicTakeProfitPipe
| CancelOppositePipe
| CloseMarketChangedPipe
| DynamicQuantityToRiskPipe (maximum_cost_basis minimum_cost_basis : f64)
| EndOfDayClosePipe (minutes_before_end_of_day : Z) (end_of_day_time_utc : string)
| FullAccountQuantityToRiskPipe
| InsightSubmitPipe
| InsightTtlConfigPipe (period_unfilled period_till_tp : option Z)
| MarketOrderEntryPipe
| MinimumRiskToRewardPipe (minimum_rr : option f64)
| PercentageDcaLevelsPipe (dca_percentage : f64) (dca_levels : Z)
| PercentageRiskToQuantityPipe (risk_percent : Z)
| RejectExpiredInsightPipe
| ScaleOutPipe (sell_off_percentage : f64).

(** The constructors that normalise their arguments. *)
Definition allow_trading_window_new (start_utc end_utc allowed_days : string) : BuiltinPipe :=
  AllowTradingWindowPipe (normalize_time start_utc DEFAULT_START_UTC) (normalize_time end_utc DEFAULT_END_UTC)
    (normalize_days allowed_days).
Definition allow_trading_window_weekdays (start_utc end_utc : string) : BuiltinPipe :=
  allow_trading_window_new start_utc end_utc "0,1,2,3,4".
Definition end_of_day_close_new (minutes : Z) (time : string) : BuiltinPipe :=
  EndOfDayClosePipe (normalise_positive_minutes minutes DEFAULT_MINUTES_BEFORE_END_OF_DAY) (normalise_utc_time time).
Definition normalise_period (value : Z) : option Z :=
  if (0 <? value)%Z && (value <=? u32_max)%Z then Some value else None.
Definition insight_ttl_config_new (period_unfilled period_till_tp : Z) : BuiltinPipe :=
  InsightTtlConfigPipe (normalise_period period_unfilled) (normalise_period period_till_tp).
Definition percentage_dca_levels_new (dca_percentage : f64) (dca_levels : Z) : BuiltinPipe :=
  PercentageDcaLevelsPipe dca_percentage (Z.max dca_levels 1).
(** [f64::clamp]: NaN stays. *)
Definition fclamp (low high x : f64) : f64 := if x <. low then low else if high <. x then high else x.
Definition scale_out_new (sell_off_percentage : f64) : BuiltinPipe :=
  ScaleOutPipe (if is_finite sell_off_percentage then fclamp f0 f1 sell_off_percentage else sell_off_percentage).

Definition builtin_name (p : BuiltinPipe) : string :=
  match p with
  | AllowTradingWindowPipe _ _ _ => "AllowTradingWindowPipe"
  | BasicStopLossPipe => "BasicStopLossPipe"
  | BasicTakeProfitPipe => "BasicTakeProfitPipe"
  | CancelOppositePipe => "CancelOppositePipe"
  | CloseMarketChangedPipe => "CloseMarketChangedPipe"
  | DynamicQuantityToRiskPipe _ _ => "DynamicQuantityToRiskPipe"
  | EndOfDayClosePipe _ _ => "EndOfDayClosePipe"
  | FullAccountQuantityToRiskPipe => "FullAccountQuantityToRiskPipe"
  | InsightSubmitPipe => "InsightSubmitPipe"
  | InsightTtlConfigPipe _ _ => "InsightTtlConfigPipe"
  | MarketOrderEntryPipe => "MarketOrderEntryPipe"
  | MinimumRiskToRewardPipe _ => "MinimumRiskToRewardPipe"
  | PercentageDcaLevelsPipe _ _ => "PercentageDcaLevelsPipe"
  | PercentageRiskToQuantityPipe _ => "PercentageRiskToQuantityPipe"
  | RejectExpiredInsightPipe => "RejectExpiredInsightPipe"
  | ScaleOutPipe _ => "ScaleOutPipe"
  end.
Definition builtin_version (p : BuiltinPipe) : string :=
  match p with AllowTradingWindowPipe _ _ _ => "1.1" | _ => "1.0" end.

Section Run.
Context {C : Type} `{StrategyContext C} `{MarketContext C} `{UuidText} `{Chrono} `{Weekdays}.
Abbreviation Outcome := (C * Insight * InsightPipeResult)%type.
Definition has_feature (ctx : C) (feature : BrokerFeature) : bool := bool_decide (feature ∈ ctx_broker_features ctx).
Definition sizing_of (ctx : C) : SizingView :=
  mkSizing (ctx_universe ctx) (ctx_insights ctx) (ctx_order ctx) (ctx_broker_features ctx) (ctx_cached_account ctx).
Definition effective_buying_power (ctx : C) (account : Account) (asset : Asset) : f64 :=
  effective_buying_power_from account asset (has_feature ctx FBuyingPowerLeveraged).
Definition stop_loss (i : Insight) : option f64 := i_stop_loss_levels i ≫= head.
Definition exit_by_close (ctx : C) (i : Insight) (name : string) : Outcome :=
  let '(ctx, i, r) := close (ctx_clock ctx) ctx i in (ctx, i, from_exit_mutation r name).
Definition already_closing (ctx : C) (i : Insight) (name : string) : Outcome :=
  (ctx, i, pipe_result_new false true (Some [Lit "Insight is already being closed"]) name).

(** *** [quantity_sizing::entry_price] and [exit_trigger.rs] *)
Definition invalid_quote (symbol : string) : ReadError := SnapshotUnavailableError (SnapQuote symbol) SnapInvalid.
Definition checked_quote (ctx : C) (i : Insight) : result Quote ReadError :=
  match ctx_latest_quote ctx (i_symbol i) with
  | Err e => Err e
  | Ok quote =>
      if negb (String.eqb (q_symbol quote) (i_symbol i)) || negb (valid_market_values quote)
      then Err (invalid_quote (i_symbol i)) else Ok quote
  end.
Definition entry_side (i : Insight) (quote : Quote) : f64 := match i_side i with Buy => q_ask quote | Sell => q_bid quote end.
Definition exit_side (i : Insight) (quote : Quote) : f64 := match i_side i with Buy => q_bid quote | Sell => q_ask quote end.
Definition sizing_entry_price (ctx : C) (i : Insight) : result f64 ReadError :=
  match opt_or (i_limit_price i) (i_stop_price i) with
  | Some entry => Ok entry
  | None => match checked_quote ctx i with Err e => Err e | Ok quote => Ok (entry_side i quote) end
  end.
Inductive ExitTrigger := StopLossTrigger | TakeProfitTrigger.
Definition rising (t : ExitTrigger) (i : Insight) : bool :=
  match t, i_side i with StopLossTrigger, Sell | TakeProfitTrigger, Buy => true | _, _ => false end.
Definition trigger_price (ctx : C) (t : ExitTrigger) (i : Insight) : result (option f64) ReadError :=
  if bool_decide (ctx_mode ctx = LiveMode) && ctx_native_bid_ask ctx
  then match checked_quote ctx i with Err e => Err e | Ok quote => Ok (Some (exit_side i quote)) end
  else
    match ctx_history ctx !! i_symbol i with
    | None => Err (OtherReadError "No history found")
    | Some history =>
        Ok (match fr_height history with O => None | S _ => fr_last history (if rising t i then "high" else "low") end)
    end.
Definition reached (ctx : C) (t : ExitTrigger) (i : Insight) (level : f64) : result bool ReadError :=
  match trigger_price ctx t i with
  | Err e => Err e
  | Ok price =>
      Ok (is_some_and (fun price => is_finite price && (if rising t i then level <=. price else price <=. level)) price)
  end.

(** *** [allow_trading_window.rs] *)
Definition run_allow_trading_window (start_utc end_utc allowed_days : string) (ctx : C) (i : Insight)
    : BuiltinPipe * C * Insight * InsightPipeResult :=
  let name := "AllowTradingWindowPipe"%string in
  let start_utc := normalize_time start_utc DEFAULT_START_UTC in
  let end_utc := normalize_time end_utc DEFAULT_END_UTC in
  let allowed_days := normalize_days allowed_days in
  (AllowTradingWindowPipe start_utc end_utc allowed_days, ctx, i,
   match allows start_utc end_utc allowed_days (ctx_current_time ctx) with
   | Ok _ => pipe_result_new true true (Some [Lit "Trading window passed"]) name
   | Err reason => pipe_result_new false true (Some reason) name
   end).

(** *** [basic_stop_loss.rs] *)
Definition run_basic_stop_loss (ctx : C) (i : Insight) : Outcome :=
  let name := "BasicStopLossPipe"%string in
  if has_pending_close i then exit_by_close ctx i name
  else
    match stop_loss i with
    | None => (ctx, i, pipe_result_new true true (Some [Lit "Insight does not have stop loss set"]) name)
    | Some level =>
        if has_feature ctx FOcoOrder
        then (ctx, i, pipe_result_new true true (Some [Lit "Stop loss is managed by the broker's native OCO protection"]) name)
        else if i_closing i then already_closing ctx i name
        else
          match reached ctx StopLossTrigger i level with
          | Err e => (ctx, i, from_read_error e name)
          | Ok true => exit_by_close ctx i name
          | Ok false => (ctx, i, pipe_result_new true true None name)
          end
    end.

(** *** [basic_take_profit.rs] *)
Definition quantity_round (ctx : C) (value : f64) (symbol : string) : f64 :=
  match ctx_universe ctx !! symbol with Some asset => quantity_round_for_asset value asset | None => value end.
Definition dynamic_round (ctx : C) (value : f64) (symbol : string) : f64 :=
  match ctx_universe ctx !! symbol with Some asset => dynamic_round_for_asset value asset | None => value end.
Definition take_profit_hit (ctx : C) (i : Insight) (levels : list f64) : Outcome :=
  let name := "BasicTakeProfitPipe"%string in
  if 1 <? length levels then
    if negb (has_feature ctx FPartialClose) then exit_by_close ctx i name
    else
      let quantity := quantity_round ctx (remaining_quantity i ⊘ 2%float) (i_symbol i) in
      match try_close_partial (ctx_clock ctx) ctx i quantity None with
      | (ctx, i, Ok Applied) =>
          (ctx, set_take_profit_levels (ctx_clock ctx) i (Some (tail levels)),
           pipe_result_new false true (Some [Lit "Partial take profit hit for "; Lit (i_symbol i)]) name)
      | (ctx, i, r) => (ctx, i, from_mutation r name)
      end
  else exit_by_close ctx i name.
Definition run_basic_take_profit (ctx : C) (i : Insight) : Outcome :=
  let name := "BasicTakeProfitPipe"%string in
  match i_take_profit_levels i with
  | None =>
      if has_pending_close i then exit_by_close ctx i name
      else (ctx, i, pipe_result_new true true (Some [Lit "Insight does not have take profit set"]) name)
  | Some [] => if has_pending_close i then exit_by_close ctx i name else (ctx, i, pipe_result_new true true None name)
  | Some (current :: rest as levels) =>
      if negb (has_pending_close i) && has_feature ctx FOcoOrder
         && ((length levels =? 1) || negb (has_feature ctx FPartialClose))
      then (ctx, i, pipe_result_new true true (Some [Lit "Take profit is managed by the broker's native OCO protection"]) name)
      else if i_closing i && negb (has_pending_close i) then already_closing ctx i name
      else
        match (if has_pending_close i then Ok true else reached ctx TakeProfitTrigger i current) with
        | Err e => (ctx, i, from_read_error e name)
        | Ok true => take_profit_hit ctx i levels
        | Ok false => (ctx, i, pipe_result_new true true None name)
        end
  end.

(** *** [cancel_opposite.rs] *)
Definition is_opposite (i other : Insight) : bool :=
  String.eqb (i_symbol other) (i_symbol i) && negb (bool_decide (i_side other = i_side i))
  && negb (i_insight_id other =? i_insight_id i)%N
  && (bool_decide (i_state other = New) || bool_decide (i_state other = Executed)).
Definition opposite_ids (ctx : C) (i : Insight) : list Uuid :=
  map i_insight_id (List.filter (is_opposite i) (omap (fun id => c_insights (ctx_insights ctx) !! id) (ctx_order ctx))).
Fixpoint cancel_each (ids : list Uuid) (affected : nat) (ctx : C) : C * result nat BrokerCommandError :=
  match ids with
  | [] => (ctx, Ok affected)
  | id :: ids =>
      match ctx_request_cancellation ctx id with
      | (ctx, Ok requested) => cancel_each ids (if requested then S affected else affected) ctx
      | (ctx, Err e) => (ctx, Err e)
      end
  end.
Definition run_cancel_opposite (ctx : C) (i : Insight) : Outcome :=
  let name := "CancelOppositePipe"%string in
  match cancel_each (opposite_ids ctx i) 0 ctx with
  | (ctx, Err e) => (ctx, i, from_mutation (Err e) name)
  | (ctx, Ok affected) =>
      (ctx, i, pipe_result_new true true (Some [Lit "Requested cancellation of "; ShowZ (Z.of_nat affected);
         Lit " opposite-side entries for "; Lit (i_symbol i)]) name)
  end.

(** *** [close_market_changed.rs] *)
Definition run_close_market_changed (ctx : C) (i : Insight) : Outcome :=
  let name := "CloseMarketChangedPipe"%string in
  if has_pending_close i then exit_by_close ctx i name
  else if i_closing i then already_closing ctx i name
  else if i_market_changed i then exit_by_close ctx i name
  else (ctx, i, pipe_result_new true true None name).

(** *** The sizing pipes *)
Definition failed (ctx : C) (i : Insight) (message : text) (name : string) : Outcome :=
  (ctx, i, pipe_result_new false false (Some message) name).
Definition rejected (ctx : C) (i : Insight) (message : text) (name : string) : Outcome :=
  (ctx, order_rejected (ctx_clock ctx) i message, pipe_result_new false true (Some message) name).
(** Split the target and take the first part. *)
Definition size_order (ctx : C) (i : Insight) (target : f64) (l : AssetQuantityLimits) (name : string)
    (message : QuantitySplitResult -> text) : Outcome :=
  match apply_max_order_size_with_child_legs (ctx_clock ctx) (sizing_of ctx) (ctx_fresh ctx) 0 i target l with
  | (i, _, Err e) => rejected ctx i e name
  | (i, _, Ok split) =>
      (ctx, set_quantity (ctx_clock ctx) i (Some (qs_parent_quantity split)), pipe_result_new true true (Some (message split)) name)
  end.
Definition quantity_message (split : QuantitySplitResult) : text :=
  [Lit "Quantity set to "; ShowF64 (Some 4) (total_quantity split)] ++ split_summary split.
Definition positive_entry (ctx : C) (i : Insight) (name : string) : f64 + Outcome :=
  match sizing_entry_price ctx i with
  | Err e => inr (ctx, i, from_read_error e name)
  | Ok entry => if is_finite entry && (f0 <. entry) then inl entry else inr (failed ctx i [Lit "Entry price must be positive"] name)
  end.
Definition asset_missing (ctx : C) (i : Insight) (name : string) : Outcome :=
  failed ctx i [Lit "Asset "; Lit (i_symbol i); Lit " not found"] name.
(** The unlimited quantity of [dynamic_quantity_to_risk.rs], rounded and split. *)
Definition rounded_order (ctx : C) (i : Insight) (quantity : f64) (asset : Asset) (name : string) : Outcome :=
  match round_whole_or_fractional_quantity (ctx_universe ctx) (i_symbol i) quantity (a_fractional asset) with
  | Err message => rejected ctx i message name
  | Ok target => size_order ctx i target (from_asset asset) name quantity_message
  end.

Definition risk_limits_ok (ctx : C) (maximum minimum : f64) : bool :=
  is_finite maximum && negb (maximum <=. f0) && is_finite minimum && negb (minimum <. f0) && negb (maximum <. minimum)
  && is_finite (ctx_execution_risk ctx) && (f0 <=. ctx_execution_risk ctx) && (ctx_execution_risk ctx <=. f1)
  && negb (ctx_execution_risk ctx ==. f0).
Definition dynamic_target (ctx : C) (i : Insight) (entry stop : f64) (asset : Asset) (working : f64) (name : string) : Outcome :=
  let multiplier := asset_multiplier asset in
  let risk_per_share := fabs (entry ⊖ stop) ⊗ multiplier in
  if risk_per_share <=. f0 then failed ctx i [Lit "Risk per share must be positive"] name
  else rounded_order ctx i (fmin ((working ⊗ ctx_execution_risk ctx) ⊘ risk_per_share) (working ⊘ (entry ⊗ multiplier))) asset name.
Definition run_dynamic_quantity (maximum minimum : f64) (ctx : C) (i : Insight) : Outcome :=
  let name := "DynamicQuantityToRiskPipe"%string in
  match positive_entry ctx i name with
  | inr out => out
  | inl entry =>
      match stop_loss i with
      | None => failed ctx i [Lit "Insight does not have stop loss set."] name
      | Some stop =>
          if is_some (i_quantity i) then (ctx, i, pipe_result_new true true (Some [Lit "Quantity already set"]) name)
          else
            match validate_stop_for_side i entry stop with
            | Err message => failed ctx i message name
            | Ok _ =>
                if negb (risk_limits_ok ctx maximum minimum) then failed ctx i [Lit "Invalid cost-basis limits or execution risk"] name
                else
                  match ctx_universe ctx !! i_symbol i with
                  | None => asset_missing ctx i name
                  | Some asset =>
                      match ctx_account ctx with
                      | Err e => (ctx, i, from_read_error e name)
                      | Ok account =>
                          let working := effective_buying_power ctx account asset
                                         ⊗ (f64_of_Z (Z.min (i_confidence i) 100) ⊘ f100) in
                          if negb (is_finite working) || (working <=. f0)
                          then failed ctx i [Lit "Available capital must be finite and positive"] name
                          else if working <. minimum
                          then (ctx, order_rejected (ctx_clock ctx) i [Lit "Working capital "; ShowF64 (Some 2) working;
                                  Lit " is below minimum cost basis "; ShowF64 (Some 2) minimum],
                                pipe_result_new false true (Some [Lit "Working capital below minimum cost basis"]) name)
                          else dynamic_target ctx i entry stop asset (if maximum <. working then maximum else working) name
                      end
                  end
            end
      end
  end.

(** *** [full_account_quantity_to_risk.rs] *)
Definition run_full_account_quantity (ctx : C) (i : Insight) : Outcome :=
  let name := "FullAccountQuantityToRiskPipe"%string in
  match positive_entry ctx i name with
  | inr out => out
  | inl entry =>
      match stop_loss i with
      | None => failed ctx i [Lit "Insight does not have stop loss set."] name
      | Some stop =>
          match validate_stop_for_side i entry stop with
          | Err message => failed ctx i message name
          | Ok _ =>
              match ctx_universe ctx !! i_symbol i with
              | None => asset_missing ctx i name
              | Some asset =>
                  match ctx_account ctx with
                  | Err e => (ctx, i, from_read_error e name)
                  | Ok account =>
                      let capital := effective_buying_power ctx account asset in
                      if negb (is_finite capital) || (capital <=. f0) then failed ctx i [Lit "Available capital must be positive"] name
                      else rounded_order ctx i (capital ⊘ (entry ⊗ asset_multiplier asset)) asset name
                  end
              end
          end
      end
  end.

(** *** [percentage_risk_to_quantity.rs] *)
Definition risk_rate (risk_percent : Z) : f64 := normalised_percent_rate risk_percent DEFAULT_RISK_PERCENT.
Definition risk_message (risk_per_unit account_size : f64) (split : QuantitySplitResult) : text :=
  let total := total_quantity split in
  let actual := risk_per_unit ⊗ total in
  [Lit "Position sized: qty="; ShowF64 (Some 4) total] ++ split_summary split ++
  [Lit ", risk="; ShowF64 (Some 2) actual; Lit " ("; ShowF64 (Some 2) ((actual ⊘ account_size) ⊗ f100); Lit "%)"].
Definition risk_target (risk_percent : Z) (account_size capital entry stop : f64) (asset : Asset) : f64 :=
  let multiplier := asset_multiplier asset in
  floor_quantity (fmin ((account_size ⊗ risk_rate risk_percent) ⊘ (fabs (entry ⊖ stop) ⊗ multiplier))
                       (capital ⊘ (entry ⊗ multiplier))) (from_asset asset).
Definition run_percentage_risk (risk_percent : Z) (ctx : C) (i : Insight) : Outcome :=
  let name := "PercentageRiskToQuantityPipe"%string in
  match ctx_universe ctx !! i_symbol i with
  | None => asset_missing ctx i name
  | Some asset =>
      match ctx_account ctx with
      | Err e => (ctx, i, from_read_error e name)
      | Ok account =>
          let account_size := account_size_from_equity_or_cash account in
          if negb (is_finite account_size) || (account_size <=. f0) then failed ctx i [Lit "Account size must be positive"] name
          else
            match positive_entry ctx i name with
            | inr out => out
            | inl entry =>
                match stop_loss i with
                | None => failed ctx i [Lit "Stop loss must be set before position sizing"] name
                | Some stop =>
                    if negb (f0 <. stop) then failed ctx i [Lit "Stop loss must be positive before position sizing"] name
                    else
                      match validate_stop_for_side i entry stop with
                      | Err message => failed ctx i message name
                      | Ok _ =>
                          let risk_per_unit := fabs (entry ⊖ stop) ⊗ asset_multiplier asset in
                          if risk_per_unit <=. EPSILON then failed ctx i [Lit "Entry and stop loss cannot be the same price"] name
                          else
                            let capital := effective_buying_power ctx account asset in
                            if negb (is_finite capital) || (capital <=. f0) || (f1 <. risk_rate risk_percent)
                            then failed ctx i [Lit "Invalid buying power or risk percentage"] name
                            else size_order ctx i (risk_target risk_percent account_size capital entry stop asset) (from_asset asset)
                                   name (risk_message risk_per_unit account_size)
                      end
                end
            end
      end
  end.

(** *** [end_of_day_close.rs] *)
Definition run_end_of_day_close (minutes : Z) (time : string) (ctx : C) (i : Insight)
    : BuiltinPipe * C * Insight * InsightPipeResult :=
  let name := "EndOfDayClosePipe"%string in
  let same (out : Outcome) := let '(ctx, i, r) := out in (EndOfDayClosePipe minutes time, ctx, i, r) in
  if has_pending_close i then same (exit_by_close ctx i name)
  else if negb (bool_decide (i_state i = Filled)) then same (ctx, i, pipe_result_new true true None name)
  else if i_closing i then same (already_closing ctx i name)
  else
    let minutes := normalise_positive_minutes minutes DEFAULT_MINUTES_BEFORE_END_OF_DAY in
    let time := normalise_utc_time time in
    let '(ctx, i, r) :=
      if negb (is_close_window minutes time (minutes_of (ctx_current_time ctx)))
      then (ctx, i, pipe_result_new true true None name) else exit_by_close ctx i name in
    (EndOfDayClosePipe minutes time, ctx, i, r).

(** *** [insight_submit.rs] *)
Definition run_insight_submit (ctx : C) (i : Insight) : Outcome :=
  let name := "InsightSubmitPipe"%string in
  if has_pending_submit i
  then let '(ctx, i, r) := poll_pending_submission (ctx_clock ctx) ctx i in (ctx, i, from_mutation r name)
  else if bool_decide (i_state i = New) then
    if has_feature ctx FMaxTotalOrders && is_none (ctx_cached_account ctx)
    then (ctx, i, pipe_result_deferred DeferAccountSnapshot name)
    else
      match validate_pending_tree_limits (sizing_of ctx) i with
      | Err message => (ctx, state_log (ctx_clock ctx) i (Some message), pipe_result_new false true (Some message) name)
      | Ok _ => let '(ctx, i, r) := submit (ctx_clock ctx) ctx i in (ctx, i, from_mutation r name)
      end
  else (ctx, i, pipe_result_new true true (Some [Lit "Insight submitted"]) name).

(** *** [insight_ttl_config.rs] *)
Definition show_period (period : option Z) : text :=
  match period with Some p => [Lit "Some("; ShowZ p; Lit ")"] | None => [Lit "None"] end.
Definition run_insight_ttl_config (period_unfilled period_till_tp : option Z) (ctx : C) (i : Insight) : Outcome :=
  (ctx, set_period_till_tp (ctx_clock ctx) (set_period_unfilled (ctx_clock ctx) i period_unfilled) period_till_tp,
   pipe_result_new true true
     (Some ([Lit "Insight TTL configured: period_unfilled="] ++ show_period period_unfilled ++
            [Lit ", period_till_tp="] ++ show_period period_till_tp)) "InsightTtlConfigPipe").

(** *** [market_order_entry.rs] *)
Definition last_close (ctx : C) (symbol : string) : option f64 :=
  match ctx_history ctx !! symbol with
  | Some history =>
      match fr_height history with
      | O => None
      | S _ =>
          match fr_last history "close" with
          | Some price => if is_finite price && (f0 <. price) then Some price else None
          | None => None
          end
      end
  | None => None
  end.
Definition run_market_order_entry (ctx : C) (i : Insight) : Outcome :=
  let name := "MarketOrderEntryPipe"%string in
  if is_some (i_limit_price i) || is_some (i_stop_price i) || negb (bool_decide (i_state i = New)) || i_submitted i
     || has_pending_submit i
  then (ctx, i, pipe_result_new true true (Some [Lit "Insight already has an entry or is no longer editable"]) name)
  else
    match last_close ctx (i_symbol i) with
    | Some price =>
        (ctx, set_limit_price (ctx_clock ctx) i (Some price),
         pipe_result_new true true (Some [Lit "Limit price set to close: "; ShowF64 None price]) name)
    | None => failed ctx i [Lit "Failed to get close price for limit"] name
    end.

(** *** [minimum_risk_to_reward.rs] *)
Definition target_invalid (i : Insight) (entry level : f64) : bool :=
  negb (is_finite level) || (level <=. f0) || match i_side i with Buy => level <=. entry | Sell => entry <=. level end.
Definition judge_reward (ctx : C) (i : Insight) (entry minimum stop take : f64) : Outcome :=
  let name := "MinimumRiskToRewardPipe"%string in
  let risk := fabs (entry ⊖ stop) in
  let reward := fabs (take ⊖ entry) in
  let rr := if f0 <. risk then reward ⊘ risk else f0 in
  if rr <. minimum
  then (ctx, order_rejected (ctx_clock ctx) i [Lit "Risk to reward ratio "; ShowF64 (Some 2) rr; Lit " is below minimum "; ShowF64 (Some 2) minimum],
        pipe_result_new false true (Some [Lit "Risk to reward ratio below minimum"]) name)
  else (ctx, i, pipe_result_new true true None name).
Definition check_reward (ctx : C) (i : Insight) : Outcome :=
  let name := "MinimumRiskToRewardPipe"%string in
  match sizing_entry_price ctx i with
  | Err e => (ctx, i, from_read_error e name)
  | Ok entry =>
      match stop_loss i, i_take_profit_levels i with
      | Some stop, Some levels =>
          if negb (is_finite entry) || (entry <=. f0)
          then failed ctx i [Lit "Insight does not have limit price, stop loss or take profit set."] name
          else
            let minimum := ctx_min_reward_risk_ratio ctx in
            if negb (is_finite minimum) || (minimum <=. f0)
            then failed ctx i [Lit "Minimum reward risk ratio is not configured"] name
            else
              match validate_stop_for_side i entry stop with
              | Err message => failed ctx i message name
              | Ok _ =>
                  if match levels with [] => true | _ => existsb (target_invalid i entry) levels end
                  then failed ctx i [Lit "Take profit is invalid for the insight side"] name
                  else judge_reward ctx i entry minimum stop (List.last levels entry)
              end
      | _, _ => failed ctx i [Lit "Insight does not have limit price, stop loss or take profit set."] name
      end
  end.
Definition run_minimum_risk_to_reward (minimum_rr : option f64) (ctx : C) (i : Insight) : Outcome :=
  match minimum_rr with
  | None => check_reward ctx i
  | Some ratio =>
      if negb (is_finite ratio) || (ratio <=. f0)
      then failed ctx i [Lit "Minimum reward risk ratio must be finite and positive"] "MinimumRiskToRewardPipe"
      else check_reward (set_min_reward_risk_ratio ctx ratio) i
  end.

(** *** [reject_expired_insight.rs] *)
Definition run_reject_expired (ctx : C) (i : Insight) : Outcome :=
  let name := "RejectExpiredInsightPipe"%string in
  match expire_if_due (ctx_clock ctx) ctx i with
  | (ctx, i, Some r) => (ctx, i, from_exit_mutation r name)
  | (ctx, i, None) => (ctx, i, pipe_result_new true true None name)
  end.

(** *** [scale_out.rs] *)
Definition scale_level_hit (i : Insight) (t : ExitTrigger) (price : f64) (levels : list f64) : option f64 :=
  match head levels with
  | Some level => if (if rising t i then level <=. price else price <=. level) then Some level else None
  | None => None
  end.
Definition scale_price (ctx : C) (i : Insight) : result f64 ReadError :=
  match pending_close_price i with
  | Some price => Ok price
  | None => match checked_quote ctx i with Err e => Err e | Ok quote => Ok (exit_side i quote) end
  end.
(** The quantity of a level, or the result that ends the run. *)
Definition scale_quantity (fraction : f64) (ctx : C) (i : Insight) (remaining : f64) (all_of_it : bool) : f64 + InsightPipeResult :=
  let name := "ScaleOutPipe"%string in
  if all_of_it then inl remaining
  else
    match ctx_universe ctx !! i_symbol i with
    | None => inr (pipe_result_new false false (Some [Lit "Asset not found"]) name)
    | Some asset =>
        let scaled := floor_quantity (remaining ⊗ fraction) (from_asset asset) in
        if scaled <=. f0
        then inr (pipe_result_new true true (Some [Lit "Scale-out quantity is below the asset quantity step"]) name)
        else inl (fmin scaled remaining)
    end.
Definition scale_close (ctx : C) (i : Insight) (sl_hit tp_hit : option f64) (sl_levels tp_levels : list f64)
    (kind : string) (level quantity : f64) (partial_close_supported : bool) : Outcome :=
  let name := "ScaleOutPipe"%string in
  match try_close_partial (ctx_clock ctx) ctx i quantity (Some level) with
  | (ctx, i, Ok Applied) =>
      let i := if is_none sl_hit && is_some tp_hit && match tp_levels with [] => false | _ => true end
               then set_take_profit_levels (ctx_clock ctx) i (Some (tail tp_levels)) else i in
      let i := if is_some sl_hit && match sl_levels with [] => false | _ => true end
               then set_stop_loss_levels (ctx_clock ctx) i (Some (tail sl_levels)) else i in
      (ctx, i, pipe_result_new true false
         (Some [Lit "Scale out triggered on "; Lit kind; Lit " for "; Lit (i_symbol i); Lit " qty "; ShowF64 (Some 4) quantity;
                Lit " @ "; ShowF64 (Some 4) level;
                Lit (if partial_close_supported then ""
                     else "; broker does not support partial closes, so the remaining position was closed")]) name)
  | (ctx, i, r) => (ctx, i, from_mutation r name)
  end.
Definition run_scale_out (fraction : f64) (ctx : C) (i : Insight) : Outcome :=
  let name := "ScaleOutPipe"%string in
  if negb (has_pending_close i) && (negb (is_finite fraction) || (fraction <=. f0))
  then failed ctx i [Lit "Scale-out fraction must be finite and greater than zero"] name
  else if negb (bool_decide (i_state i = Filled)) then (ctx, i, pipe_result_new true true (Some [Lit "Insight is not filled"]) name)
  else if i_closing i && negb (has_pending_close i)
  then (ctx, i, pipe_result_new false true (Some [Lit "Insight is already closing"]) name)
  else
    let remaining := remaining_quantity i in
    if remaining <=. f0 then (ctx, i, pipe_result_new false true (Some [Lit "No remaining quantity to scale out"]) name)
    else
      match scale_price ctx i with
      | Err e => (ctx, i, from_read_error e name)
      | Ok price =>
          let tp_levels := unwrap_or (i_take_profit_levels i) [] in
          let sl_levels := unwrap_or (i_stop_loss_levels i) [] in
          let tp_hit := scale_level_hit i TakeProfitTrigger price tp_levels in
          let sl_hit := scale_level_hit i StopLossTrigger price sl_levels in
          match (match sl_hit, tp_hit with
                 | Some level, _ => Some ("stop loss"%string, level)
                 | None, Some level => Some ("take profit"%string, level)
                 | None, None => None
                 end) with
          | None => (ctx, i, pipe_result_new true true None name)
          | Some (kind, level) =>
              let final := (is_some tp_hit && (length tp_levels =? 1)) || (is_some sl_hit && (length sl_levels =? 1)) in
              let native_oco := has_feature ctx FOcoOrder in
              let partial_close_supported := has_feature ctx FPartialClose in
              if native_oco && final
              then (ctx, i, pipe_result_new true true (Some [Lit "Final "; Lit kind; Lit " for "; Lit (i_symbol i);
                     Lit " is managed by the broker's native OCO protection"]) name)
              else if native_oco && negb partial_close_supported
              then (ctx, i, pipe_result_new true true (Some [Lit "Intermediate "; Lit kind; Lit " for "; Lit (i_symbol i);
                     Lit " requires partial-close support; waiting for broker-managed final protection"]) name)
              else
                match scale_quantity fraction ctx i remaining (final || negb partial_close_supported) with
                | inr r => (ctx, i, r)
                | inl quantity => scale_close ctx i sl_hit tp_hit sl_levels tp_levels kind level quantity partial_close_supported
                end
          end
      end.

(** *** [percentage_dca_levels.rs] *)
Definition dca_name : string := "PercentageDcaLevelsPipe".
Definition dca_editable (i : Insight) : bool :=
  bool_decide (i_state i = New) && negb (i_submitted i) && negb (has_pending_submit i)
  && negb (existsb (fun child => i_submitted child || has_pending_submit child || is_some (i_order_id child)) (i_children i)).
Definition calculate_dca_quantities (total : f64) (price_levels : list f64) : list f64 :=
  let denominator := fsum (map (fun price => f1 ⊘ price) price_levels) in
  map (fun price => (total ⊘ denominator) ⊗ (f1 ⊘ price)) price_levels.
(** The entry and the rounded levels behind it. *)
Definition dca_price_levels (ctx : C) (i : Insight) (percentage entry : f64) (levels : nat) : list f64 :=
  entry :: map (fun level =>
                  let distance := percentage ⊗ f64_of_Z (Z.of_nat level) in
                  dynamic_round ctx (entry ⊗ match i_side i with Buy => f1 ⊖ distance | Sell => f1 ⊕ distance end) (i_symbol i))
             (seq 1 levels).
Definition dca_stop (ctx : C) (i : Insight) (entry stop : f64) (price_levels : list f64) : f64 :=
  let last := List.last price_levels entry in
  dynamic_round ctx (match i_side i with
                     | Buy => last ⊖ ((entry ⊖ stop) ⊘ 2%float)
                     | Sell => last ⊕ ((stop ⊖ entry) ⊘ 2%float)
                     end) (i_symbol i).
Fixpoint plans_all (quantities : list f64) (l : AssetQuantityLimits) : result unit text :=
  match quantities with
  | [] => Ok ()
  | q :: rest => match plan_quantity_parts q l None with Err e => Err e | Ok _ => plans_all rest l end
  end.
(** The insight of one level, before it is sized. *)
Definition dca_level (ctx : C) (n : nat) (i : Insight) (price : f64) : Insight :=
  let now := ctx_clock ctx in
  let child := insight_new (ctx_fresh ctx n) now (i_side i) (i_symbol i) (i_strategy_type i) (i_timeframe i)
                 (i_confidence i) (Some (i_insight_id i)) in
  let child := set_limit_price now child (Some price) in
  let child := set_stop_loss_levels now child (i_stop_loss_levels i) in
  let child := set_take_profit_levels now child (i_take_profit_levels i) in
  set_execution_depends now child
    [match i_side i with Buy => UpStateConfirmationModel | Sell => DownStateConfirmationModel end].
(** The child of one level; the answer has the next fresh id and the number of its fragments. *)
Definition dca_child (ctx : C) (n : nat) (i : Insight) (price quantity : f64) (l : AssetQuantityLimits)
    : result (Insight * nat * nat) text :=
  match apply_max_order_size_with_child_legs (ctx_clock ctx) (sizing_of ctx) (ctx_fresh ctx) (S n) (dca_level ctx n i price)
          (floor_quantity quantity l) l with
  | (_, _, Err e) => Err e
  | (child, n, Ok split) =>
      Ok (set_quantity (ctx_clock ctx) child (Some (qs_parent_quantity split)), n, qs_child_count split)
  end.
Fixpoint dca_children (ctx : C) (n count : nat) (i : Insight) (rows : list (f64 * f64)) (l : AssetQuantityLimits)
    {struct rows} : Insight * result nat text :=
  match rows with
  | [] => (i, Ok count)
  | (price, quantity) :: rows =>
      match dca_child ctx n i price quantity l with
      | Err e => (i, Err e)
      | Ok (child, n, fragments) => dca_children ctx n (count + fragments) (add_child_insight i child None) rows l
      end
  end.
(** From the validated plan on. *)
Definition dca_build (ctx : C) (i : Insight) (levels : Z) (price_levels quantities : list f64) (stop : f64)
    (l : AssetQuantityLimits) : Outcome :=
  let now := ctx_clock ctx in
  let i := set_stop_loss now (drop_fragments i) (Some stop) in
  match apply_max_order_size_with_child_legs now (sizing_of ctx) (ctx_fresh ctx) 0 i (floor_quantity (List.hd f0 quantities) l) l with
  | (i, _, Err message) => rejected ctx i message dca_name
  | (i, n, Ok split) =>
      let i := set_quantity now i (Some (qs_parent_quantity split)) in
      match dca_children ctx n (qs_child_count split) i (tail (zip price_levels quantities)) l with
      | (i, Err message) => rejected ctx i message dca_name
      | (i, Ok fragments) =>
          match validate_pending_tree_limits (sizing_of ctx) i with
          | Err message => (ctx, state_log now i (Some message), pipe_result_new false true (Some message) dca_name)
          | Ok _ =>
              (ctx, i, pipe_result_new true true (Some [Lit "Added "; ShowZ levels; Lit " DCA levels to insight with ";
                 ShowZ (Z.of_nat fragments); Lit " broker-size split fragments"]) dca_name)
          end
      end
  end.
Definition dca_plan (ctx : C) (i : Insight) (percentage : f64) (levels : Z) (entry stop desired : f64) (l : AssetQuantityLimits)
    : Outcome :=
  let price_levels := dca_price_levels ctx i percentage entry (Z.to_nat levels) in
  if existsb (fun price => negb (is_finite price) || (price <=. f0)) price_levels
  then (ctx, i, pipe_result_new false true (Some [Lit "Invalid DCA price levels"]) dca_name)
  else
    match cap_quantity_levels (ctx_clock ctx) (sizing_of ctx) i (calculate_dca_quantities desired price_levels) l with
    | (i, Err message) => (ctx, i, pipe_result_new false true (Some message) dca_name)
    | (i, Ok (quantities, _)) =>
        let new_stop := dca_stop ctx i entry stop price_levels in
        match (match validate_stop_for_side i entry stop with
               | Err e => Err e
               | Ok _ => validate_stop_for_side i (List.last price_levels entry) new_stop
               end) with
        | Err message => failed ctx i message dca_name
        | Ok _ =>
            match plans_all quantities l with
            | Err message => failed ctx i message dca_name
            | Ok _ => dca_build ctx i levels price_levels quantities new_stop l
            end
        end
    end.
Definition dca_entry (ctx : C) (i : Insight) : result f64 ReadError :=
  match opt_or (i_limit_price i) (i_stop_price i) with
  | Some entry => Ok entry
  | None => match ctx_latest_quote ctx (i_symbol i) with Err e => Err e | Ok quote => Ok (entry_side i quote) end
  end.
Definition run_percentage_dca (percentage : f64) (levels : Z) (ctx : C) (i : Insight) : Outcome :=
  if negb (is_finite percentage) || (percentage <=. f0) || (1024 <? levels)%Z
  then failed ctx i [Lit "DCA requires a positive finite spacing and at most 1024 levels"] dca_name
  else if negb (dca_editable i) then failed ctx i [Lit "DCA must be configured before submission"] dca_name
  else if is_none (i_quantity i)
  then (ctx, i, pipe_result_new true true (Some [Lit "Insight does not have a desired quantity"]) dca_name)
  else if is_some (i_parent_id i)
  then (ctx, i, pipe_result_new true true (Some [Lit "Insight is already a child insight"]) dca_name)
  else
    match dca_entry ctx i with
    | Err e => (ctx, i, from_read_error e dca_name)
    | Ok entry =>
        match stop_loss i with
        | None => failed ctx i [Lit "Insight does not have stop loss set"] dca_name
        | Some stop =>
            match ctx_universe ctx !! i_symbol i with
            | None => failed ctx i [Lit "Asset "; Lit (i_symbol i); Lit " is not in the strategy universe"] dca_name
            | Some asset =>
                if existsb (fun child => negb (i_is_split_insight child)) (i_children i)
                then (ctx, i, pipe_result_new true true (Some [Lit "Insight already has DCA child levels"]) dca_name)
                else
                  match cap_asset_total_quantity (ctx_clock ctx) (sizing_of ctx) i (tree_quantity_size i) (from_asset asset) with
                  | (i, Err message) => (ctx, i, pipe_result_new false true (Some message) dca_name)
                  | (i, Ok desired) => dca_plan ctx i percentage levels entry stop desired (without_total (from_asset asset))
                  end
            end
        end
    end.

(** ** The leaf interface *)
Definition builtin_run (p : BuiltinPipe) (ctx : C) (i : Insight) : BuiltinPipe * C * Insight * InsightPipeResult :=
  let same (out : Outcome) := let '(ctx, i, r) := out in (p, ctx, i, r) in
  match p with
  | AllowTradingWindowPipe start_utc end_utc allowed_days => run_allow_trading_window start_utc end_utc allowed_days ctx i
  | BasicStopLossPipe => same (run_basic_stop_loss ctx i)
  | BasicTakeProfitPipe => same (run_basic_take_profit ctx i)
  | CancelOppositePipe => same (run_cancel_opposite ctx i)
  | CloseMarketChangedPipe => same (run_close_market_changed ctx i)
  | DynamicQuantityToRiskPipe maximum minimum => same (run_dynamic_quantity maximum minimum ctx i)
  | EndOfDayClosePipe minutes time => run_end_of_day_close minutes time ctx i
  | FullAccountQuantityToRiskPipe => same (run_full_account_quantity ctx i)
  | InsightSubmitPipe => same (run_insight_submit ctx i)
  | InsightTtlConfigPipe unfilled till_tp => same (run_insight_ttl_config unfilled till_tp ctx i)
  | MarketOrderEntryPipe => same (run_market_order_entry ctx i)
  | MinimumRiskToRewardPipe ratio => same (run_minimum_risk_to_reward ratio ctx i)
  | PercentageDcaLevelsPipe percentage levels => same (run_percentage_dca percentage levels ctx i)
  | PercentageRiskToQuantityPipe percent => same (run_percentage_risk percent ctx i)
  | RejectExpiredInsightPipe => same (run_reject_expired ctx i)
  | ScaleOutPipe fraction => same (run_scale_out fraction ctx i)
  end.
(** No pipe of this file keeps a continuation: the trait's default hooks. *)
Definition builtin_leaf : LeafPipe BuiltinPipe C := {|
  leaf_name := builtin_name;
  leaf_controls_expiration p := match p with RejectExpiredInsightPipe => true | _ => false end;
  leaf_run := builtin_run;
  leaf_retain p _ := p;
  leaf_forget p _ := p;
  leaf_checkpoint _ _ := None;
  leaf_restore p _ saved :=
    (p, match saved with Some _ => Err "pipe does not support this saved continuation"%string | None => Ok () end);
  leaf_layout p := (builtin_name p +:+ "@" +:+ builtin_version p)%string
|}.
End Run.
