(* ===== verification/DcaLevels.v ===== *)
(** * DcaLevels: the stack of [PercentageDcaLevelsPipe]

    What the DCA pipe ([src/src/core/pipeline/percentage_dca_levels.rs]) builds, over any context: the levels it
    adds, their quantities and the limits the whole tree respects. *)
From S2P Require Import Prelude.
From S2P Require Import Float64.
From S2P Require Import Text.
From S2P Require Import BrokerTypes.
From S2P Require Import TimeFrame.
From S2P Require Import InsightTypes.
From S2P Require Import Commands.
From S2P Require Import ExecutionData.
From S2P Require Import Insight.
From S2P Require Import InsightInvariant.
From S2P Require Import Operations.
From S2P Require Import Scripted.
From S2P Require Import RecoveryViews.
From S2P Require Import Collection.
From S2P Require Import Pipeline.
From S2P Require Import QuantitySizing.
From S2P Require Import TradingClock.
From S2P Require Import BuiltinPipes.

Section Stack.
Context {C : Type} `{StrategyContext C} `{MarketContext C}.

(** An order of the limits [l] with the fragments below it. *)
Record order_ok (l : AssetQuantityLimits) (i : Insight) : Prop := {
  or_quantity : exists q, has_quantity q i /\ part_ok l q /\ forall m, ql_max_order_size l = Some m -> q <=. m = true;
  or_fragments c : c ∈ fragments_of i -> exists q, has_quantity q c /\ part_ok l q /\
    forall m, ql_max_order_size l = Some m -> q <=. m = true
}.
Record level_ok (l : AssetQuantityLimits) (i child : Insight) : Prop := {
  lv_order : order_ok l child;
  lv_parent : i_parent_id child = Some (i_insight_id i);
  lv_split : i_is_split_insight child = false;
  lv_side : i_side child = i_side i;
  lv_symbol : i_symbol child = i_symbol i
}.
Lemma set_quantity_has now i q : is_finite q = true -> has_quantity q (set_quantity now i (Some q)).
Proof.
  intros Hf. unfold set_quantity. destruct (opt_feq _ _) eqn:E.
  - destruct (i_quantity i) as [x|] eqn:Eq; [|done]. by exists x.
  - exists q. split; [|by apply feq_refl, is_finite_not_nan]. unfold update_state. rewrite update_state_typed_form. by fields.
Qed.
Lemma set_quantity_children now i q : i_children (set_quantity now i q) = i_children i.
Proof. pose proof (core_set_quantity now i q) as E. unfold core_view in E. by injection E. Qed.
Lemma sized_order now v target l i j r :
  split_ok v target l i j r -> order_ok l (set_quantity now j (Some (qs_parent_quantity r))).
Proof.
  intros [Hp Hm _ Hf _ _ _]. split.
  - exists (qs_parent_quantity r). split; [by apply set_quantity_has, (po_finite l)|]. by split.
  - unfold fragments_of. rewrite set_quantity_children. exact Hf.
Qed.

Lemma dca_level_core ctx n i price : core_view (dca_level ctx n i price) =
  core_view (insight_new (ctx_fresh ctx n) (ctx_clock ctx) (i_side i) (i_symbol i) (i_strategy_type i) (i_timeframe i)
    (i_confidence i) (Some (i_insight_id i))).
Proof.
  assert (E : size_view (dca_level ctx n i price) = size_view (insight_new (ctx_fresh ctx n) (ctx_clock ctx) (i_side i) (i_symbol i)
    (i_strategy_type i) (i_timeframe i) (i_confidence i) (Some (i_insight_id i))))
    by (unfold dca_level; cbv zeta; by autorewrite with size_frame).
  exact (f_equal (fun x => x.1.1) E).
Qed.
Lemma split_symbol now v ids n i target l i' n' r :
  apply_max_order_size_with_child_legs now v ids n i target l = (i', n', r) -> i_side i' = i_side i /\ i_symbol i' = i_symbol i.
Proof.
  unfold apply_max_order_size_with_child_legs. destruct (existsb _ _); [by intros [= <- _ _]|]. destruct (existsb _ _); [by intros [= <- _ _]|].
  cbv zeta. destruct (cap_asset_total_quantity _ _ _ _ _) as [i1 r1] eqn:Ec. apply cap_children in Ec as [E1 _].
  assert (Hsame : forall j, size_view j = size_view i -> i_side j = i_side i /\ i_symbol j = i_symbol i)
    by (intros j E; unfold size_view, core_view in E; by injection E).
  destruct r1 as [capped|e]; [|intros [= <- _ _]; by apply Hsame]. destruct (available_pending_orders v i1) as [slots|e]; [|intros [= <- _ _]; by apply Hsame].
  destruct (limit_by_slots _ _ _ _ _) as [[i2 target2] slots2] eqn:Es. apply slots_children in Es as [E2 _]. rewrite E1 in E2.
  destruct (plan_quantity_parts target2 l slots2) as [[|q fragments]|e]; [intros [= <- _ _]; by apply Hsame| |intros [= <- _ _]; by apply Hsame].
  destruct (options_feq _ _); [intros [= <- _ _]; by apply Hsame|].
  destruct (create_children_form now ids fragments n (drop_fragments i2)) as (fs & -> & Hfs). intros [= <- _ _]. exact (Hsame i2 E2).
Qed.
Lemma dca_child_level ctx n i price quantity l child n' count :
  dca_child ctx n i price quantity l = Ok (child, n', count) ->
  order_ok l child /\ i_side child = i_side i /\ i_symbol child = i_symbol i.
Proof.
  unfold dca_child. destruct (apply_max_order_size_with_child_legs _ _ _ _ (dca_level ctx n i price) _ _) as [[child1 k] [split|e]] eqn:E; [|done].
  pose proof (sized_order (ctx_clock ctx) _ _ _ _ _ _ (split_result _ _ _ _ _ _ _ _ _ _ E)) as Ho. apply split_symbol in E as [Es Ey].
  intros [= <- _ _]. split; [exact Ho|].
  pose proof (core_set_quantity (ctx_clock ctx) child1 (Some (qs_parent_quantity split))) as Hq.
  pose proof (dca_level_core ctx n i price) as Hn. unfold core_view in Hq, Hn. injection Hq. injection Hn. simpl. intros. split; congruence.
Qed.
Lemma added_level l i child :
  order_ok l child -> i_side child = i_side i -> i_symbol child = i_symbol i ->
  exists child', add_child_insight i child None = i <| i_children := i_children i ++ [child'] |> /\ level_ok l i child'.
Proof.
  intros [(q & (x & Hx & Hq) & Hp) Hf] Hs Hy. eexists. unfold add_child_insight. cbv zeta. split; [reflexivity|].
  match goal with |- context [is_none (i_quantity ?c)] => replace (is_none (i_quantity c)) with false by (fields; by rewrite Hx) end.
  split; [|by fields|by fields|by fields|by fields]. split; [|exact Hf]. exists q. split; [|done]. exists x. by fields.
Qed.
Lemma dca_children_levels ctx l rows : forall n count i i' fragments,
  dca_children ctx n count i rows l = (i', Ok fragments) ->
  exists levels, i' = i <| i_children := i_children i ++ levels |> /\ length levels = length rows /\ Forall (level_ok l i) levels.
Proof.
  induction rows as [|[price quantity] rows IH]; intros n count i i' fragments; simpl.
  - intros [= <- _]. exists []. rewrite app_nil_r. split; [by destruct i|]. by split.
  - destruct (dca_child ctx n i price quantity l) as [[[child n'] k]|e] eqn:E; [|done].
    apply dca_child_level in E as (Ho & Hs & Hy). destruct (added_level l i child Ho Hs Hy) as (child' & -> & Hl).
    intros (levels & -> & Hlen & Hall)%IH. exists (child' :: levels). fields. rewrite <- app_assoc. split; [done|].
    split; [simpl; by rewrite Hlen|]. constructor; [done|]. eapply Forall_impl; [exact Hall|]. intros c [A1 A2 A3 A4 A5]. by split.
Qed.

Lemma level_parent l i j child :
  i_insight_id j = i_insight_id i -> i_side j = i_side i -> i_symbol j = i_symbol i -> level_ok l i child -> level_ok l j child.
Proof. intros E1 E2 E3 [A1 A2 A3 A4 A5]. split; congruence. Qed.
Lemma order_levels l i levels :
  order_ok l i -> Forall (fun child => i_is_split_insight child = false) levels ->
  order_ok l (i <| i_children := i_children i ++ levels |>) /\
  others_of (i <| i_children := i_children i ++ levels |>) = others_of i ++ levels.
Proof.
  intros [Hq Hf] Hl. unfold others_of, fragments_of in *. fields. rewrite List.filter_app.
  rewrite (filter_all (fun child => negb (i_is_split_insight child)) levels)
    by (eapply Forall_impl; [exact Hl|]; by intros x ->).
  split; [|done]. split; [exact Hq|]. unfold fragments_of. fields. intros c. rewrite List.filter_app, (filter_none _ levels Hl), app_nil_r. apply Hf.
Qed.
Lemma floor_levels_length symbol scale l qs : forall qs', floor_levels symbol scale l qs = Ok qs' -> length qs' = length qs.
Proof.
  induction qs as [|q qs IH]; intros qs'; simpl; [by intros [= <-]|]. destruct (validate_sized_quantity _ _ _); [|done].
  destruct (floor_levels symbol scale l qs) as [rest|]; [|done]. intros [= <-]. simpl. by rewrite (IH rest).
Qed.
Lemma finished_length symbol (k i' : Insight) x l qs qs' scale :
  (k, match floor_levels symbol x l qs with Err e => Err e | Ok levels => Ok (levels, x) end) = (i', Ok (qs', scale)) ->
  length qs' = length qs.
Proof. destruct (floor_levels symbol x l qs) eqn:E; [|done]. intros [= _ <- _]. by eapply floor_levels_length. Qed.
Lemma cap_levels_length now v i qs l i' qs' scale :
  cap_quantity_levels now v i qs l = (i', Ok (qs', scale)) -> length qs' = length qs.
Proof.
  unfold cap_quantity_levels. cbv zeta. destruct (match qs with [] => true | _ => _ end); [done|].
  destruct (cap_asset_total_quantity _ _ _ _ _) as [i1 [capped|e]]; [|done].
  destruct (available_pending_orders v i1) as [[slots|]|e]; [|apply finished_length|done]. destruct (slots <? length qs); [done|].
  destruct (ql_max_order_size l) as [m|]; [|apply finished_length]. destruct (floor_quantity m l <=. f0); [done|].
  destruct (scaled_orders _ _ _ _ <=? _)%Z; apply finished_length.
Qed.

(** What the pipe leaves of an insight when it passes: its own order and one child per level are within the
    limits of the asset, and the tree fits what the account and other insights leave. *)
Record stack_ok (ctx : C) (levels : nat) (asset : Asset) (i i' : Insight) : Prop := {
  sk_order : order_ok (without_total (from_asset asset)) i';
  sk_levels : length (others_of i') = levels /\ Forall (level_ok (without_total (from_asset asset)) i') (others_of i');
  sk_identity : (i_insight_id i', i_side i', i_symbol i') = (i_insight_id i, i_side i, i_symbol i);
  sk_limits : validate_pending_tree_limits (sizing_of ctx) i' = Ok ()
}.
Lemma dca_built ctx i levels prices quantities stop asset s' i' r :
  others_of i = [] -> length prices = length quantities ->
  dca_build ctx i levels prices quantities stop (without_total (from_asset asset)) = (s', i', r) -> pr_passed r = true ->
  stack_ok ctx (pred (length prices)) asset i i'.
Proof.
  intros Hno Hlen. unfold dca_build. cbv zeta. set (l := without_total (from_asset asset)).
  set (i0 := set_stop_loss (ctx_clock ctx) (drop_fragments i) (Some stop)).
  assert (E0 : core_view i0 = core_view (drop_fragments i)) by apply core_set_stop_loss.
  destruct (apply_max_order_size_with_child_legs _ _ _ 0 i0 _ l) as [[j n] [split|e]] eqn:E; [|by intros [= <- <- <-]].
  pose proof (split_result _ _ _ _ _ _ _ _ _ _ E) as Hs. apply split_symbol in E as [Es Ey].
  pose proof (sized_order (ctx_clock ctx) _ _ _ _ _ _ Hs) as Ho. destruct Hs as [_ _ _ _ _ Hothers Hid].
  set (j1 := set_quantity (ctx_clock ctx) j (Some (qs_parent_quantity split))) in *.
  assert (E1 : core_view j1 = core_view j) by apply core_set_quantity.
  destruct (dca_children ctx n _ j1 _ l) as [j2 [fragments|e]] eqn:Ed; [|by intros [= <- <- <-]].
  apply dca_children_levels in Ed as (lv & -> & Hn & Hall).
  destruct (order_levels l j1 lv Ho) as [Ho2 Hoth]; [by eapply Forall_impl; [exact Hall|intros c []]|].
  set (j2 := j1 <| i_children := i_children j1 ++ lv |>) in *.
  destruct (validate_pending_tree_limits (sizing_of ctx) j2) as [[]|e] eqn:Ev; [|by intros [= <- <- <-]]. intros [= <- <- <-] _.
  assert (Hj : others_of j1 = []).
  { unfold others_of. replace (i_children j1) with (i_children j) by (unfold core_view in E1; by injection E1). fold (others_of j). rewrite Hothers.
    unfold others_of. replace (i_children i0) with (i_children (drop_fragments i)) by (unfold core_view in E0; by injection E0).
    unfold drop_fragments. fields. rewrite filter_twice. exact Hno. }
  rewrite Hj, app_nil_l in Hoth.
  assert (Hsame : (i_insight_id j1, i_side j1, i_symbol j1) = (i_insight_id i, i_side i, i_symbol i)).
  { unfold core_view in E0, E1. injection E0. injection E1. cbn. intros. congruence. }
  split; [exact Ho2| |exact Hsame|exact Ev]. rewrite Hoth. split; [|eapply Forall_impl; [exact Hall|]; intros c; by apply level_parent].
  rewrite Hn. destruct prices, quantities; try done. simpl. rewrite length_zip. simpl in Hlen. lia.
Qed.

Lemma no_others i : existsb (fun child => negb (i_is_split_insight child)) (i_children i) = false -> others_of i = [].
Proof.
  intros He. apply filter_none, Forall_forall. intros c Hc%list_elem_of_In. destruct (negb (i_is_split_insight c)) eqn:E; [|done].
  rewrite <- He. symmetry. apply existsb_exists. eauto.
Qed.
Lemma dca_prices ctx i percentage entry levels : length (dca_price_levels ctx i percentage entry levels) = S levels.
Proof. unfold dca_price_levels. simpl. by rewrite length_map, length_seq. Qed.
Lemma stack_same ctx levels asset i j i' : size_view j = size_view i -> stack_ok ctx levels asset j i' -> stack_ok ctx levels asset i i'.
Proof.
  intros E [A B Hid D]. split; [exact A|exact B| |exact D]. rewrite Hid. unfold size_view, core_view in E. injection E. intros. congruence.
Qed.
Lemma dca_planned ctx i percentage levels entry stop desired asset s' i' r :
  others_of i = [] ->
  dca_plan ctx i percentage levels entry stop desired (without_total (from_asset asset)) = (s', i', r) -> pr_passed r = true ->
  stack_ok ctx (Z.to_nat levels) asset i i'.
Proof.
  intros Hno. unfold dca_plan. cbv zeta. set (prices := dca_price_levels _ _ _ _ _). destruct (existsb _ prices); [by intros [= <- <- <-]|].
  destruct (cap_quantity_levels _ _ i _ _) as [i1 [[quantities scale]|e]] eqn:Ec; [|by intros [= <- <- <-]].
  pose proof (cap_levels_size _ _ _ _ _ _ _ Ec) as Ei. apply cap_levels_length in Ec.
  destruct (match validate_stop_for_side i1 entry stop with Ok _ => _ | Err e => _ end); [|by intros [= <- <- <-]].
  destruct (plans_all quantities _); [|by intros [= <- <- <-]]. intros Hr Hp. apply (stack_same _ _ _ _ i1); [exact Ei|].
  replace (Z.to_nat levels) with (pred (length prices)) by (unfold prices; by rewrite dca_prices).
  eapply dca_built; [|unfold calculate_dca_quantities in Ec; by rewrite Ec, length_map|exact Hr|exact Hp].
  unfold others_of. by rewrite (size_children _ _ Ei).
Qed.

(** C16 A DCA stack has its levels and keeps the limits: when the pipe passes, the insight is as it was, or it has become a
    stack with the configured number of levels, each a child of its side and symbol that is no split; its own order,
    the order of every level and all their fragments have finite positive quantities in the units of the
    asset, between its minimum and its maximum order size; and the tree as a whole fits into what other
    insights leave of the quantity and of the pending orders. *)
Theorem dca_stack_within_limits percentage levels ctx i s' i' r :
  run_percentage_dca percentage levels ctx i = (s', i', r) -> pr_passed r = true ->
  i' = i \/ exists asset, ctx_universe ctx !! i_symbol i = Some asset /\ stack_ok ctx (Z.to_nat levels) asset i i'.
Proof.
  unfold run_percentage_dca. destruct (_ || _); [by intros [= <- <- <-]|]. destruct (negb (dca_editable i)); [by intros [= <- <- <-]|].
  destruct (is_none _); [intros [= <- <- <-]; by left|]. destruct (is_some (i_parent_id i)); [intros [= <- <- <-]; by left|].
  destruct (dca_entry ctx i) as [entry|e]; [|intros [= <- <- <-]; by destruct e]. destruct (stop_loss i) as [stop|]; [|by intros [= <- <- <-]].
  destruct (ctx_universe ctx !! i_symbol i) as [asset|] eqn:Ea; [|by intros [= <- <- <-]].
  destruct (existsb _ _) eqn:Eo; [intros [= <- <- <-]; by left|]. apply no_others in Eo.
  destruct (cap_asset_total_quantity _ _ i _ _) as [i1 [desired|e]] eqn:Ec; [|by intros [= <- <- <-]]. apply cap_children in Ec as [Ei _].
  intros Hr Hp. right. exists asset. split; [done|]. apply (stack_same _ _ _ _ i1); [exact Ei|].
  eapply dca_planned; [|exact Hr|exact Hp]. unfold others_of. by rewrite (size_children _ _ Ei).
Qed.
End Stack.
