(* ===== verification/BuiltinPipeFacts.v ===== *)
(** * BuiltinPipeFacts: what the built-in pipes may do

    The strategy as the context of its pipes ([MarketContext] of [StrategyState]; what a pipe reads of the
    market is an argument), and the theorems about the pipes of [BuiltinPipes]: each of them keeps the
    promises of [PipeLaws], so that the theorems about pipeline runs hold for every pipeline built from them;
    entries come from [InsightSubmitPipe] alone; and the sizing pipes stay within the limits of
    [QuantitySizing]. *)
From S2P Require Import Prelude.
From S2P Require Import OrderedSet.
From S2P Require Import Float64.
From S2P Require Import Text.
From S2P Require Import BrokerTypes.
From S2P Require Import TimeFrame.
From S2P Require Import InsightTypes.
From S2P Require Import Commands.
From S2P Require Import ExecutionData.
From S2P Require Import Insight.
From S2P Require Import InsightInvariant.
From S2P Require Import Operations.
From S2P Require Import Scripted.
From S2P Require Import Submission.
From S2P Require Import OrderReducer.
From S2P Require Import RecoveryViews.
From S2P Require Import Collection.
From S2P Require Import CollectionInvariant.
From S2P Require Import Checkpoint.
From S2P Require Import Journal.
From S2P Require Import JournalFacts.
From S2P Require Import CommandWorkerFacts.
From S2P Require Import CommandWorker.
From S2P Require Import CommandDriver.
From S2P Require Import CommandDriverFacts.
From S2P Require Import CommandLife.
From S2P Require Import DriverOwnership.
From S2P Require Import SnapshotDependencies.
From S2P Require Import Pipeline.
From S2P Require Import PipelineFacts.
From S2P Require Import WorkQueue.
From S2P Require Import StrategyOwner.
From S2P Require Import StrategyOwnerFacts.
From S2P Require Import ExecutionPersistence.
From S2P Require Import EntryGate.
From S2P Require Import OwnerTurns.
From S2P Require Import PipelineRun.
From S2P Require Import PipelineRunFacts.
From S2P Require Import QuantitySizing.
From S2P Require Import TradingClock.
From S2P Require Import BuiltinPipes.
From S2P Require Import DcaLevels.

(** What a strategy reads of its broker, its feed and the clock. *)
Record MarketView := mkMarket {
  mv_mode : StrategyMode;
  mv_native_bid_ask : bool;
  mv_quote : string -> result Quote ReadError;
  mv_history : gmap string Frame;
  mv_account : result Account ReadError;
  mv_cached_account : option Account;
  mv_execution_risk : f64;
  mv_order : list Uuid;
  mv_clock : DateTime;
  mv_fresh : nat -> Uuid
}.

Section Facts.
Context `{UuidText} `{Json} `{CommandIds} `{JournalJson} `{ReceiptJson} `{Chrono} `{Fingerprint}
  `{FreshIds} `{LayoutJson} `{Weekdays}.
Abbreviation State := (StrategyState BuiltinPipe).
Context (market : State -> MarketView).
(** The strategy as a pipe sees it. A panic of the cancellation request is excluded in consistent states
    ([request_cancellation_keeps]). *)
#[local] Instance market_context : MarketContext State := {|
  ctx_insights := st_insights;
  ctx_order s := mv_order (market s);
  ctx_mode s := mv_mode (market s);
  ctx_native_bid_ask s := mv_native_bid_ask (market s);
  ctx_latest_quote s := mv_quote (market s);
  ctx_history s := mv_history (market s);
  ctx_account s := mv_account (market s);
  ctx_cached_account s := mv_cached_account (market s);
  ctx_execution_risk s := mv_execution_risk (market s);
  ctx_min_reward_risk_ratio := st_min_rr;
  set_min_reward_risk_ratio s ratio := s <| st_min_rr := ratio |>;
  ctx_request_cancellation s id :=
    match request_insight_cancellation s id with Some (s, b) => (s, Ok b) | None => (s, Err ClosedError) end;
  ctx_clock s := mv_clock (market s);
  ctx_fresh s := mv_fresh (market s)
|}.
#[local] Instance leaf : LeafPipe BuiltinPipe State := builtin_leaf.

(** ** What a pipe may do *)

(** Within [effect], and entering the insight it works on at most. *)
Record legal (enters : bool) (x y : State * Insight) : Prop := {
  lg_effect : effect x y;
  lg_entries : enters_only (if enters then Some (i_insight_id x.2) else None) x.1 y.1
}.
#[export] Instance legal_preorder enters : PreOrder (legal enters).
Proof.
  split; [by split|]. intros x y z [A1 A2] [B1 B2]. split; [by etrans|].
  rewrite (ef_id _ _ A1) in B2. by etrans.
Qed.
Lemma steps_legal {enters} (s : State) i s' i' : rtc (atomic (enters := enters)) (s, i) (s', i') -> legal enters (s, i) (s', i').
Proof. intros Hs. split; [exact (steps_effect _ _ _ _ Hs)|exact (steps_enter _ _ _ _ _ Hs)]. Qed.
Lemma tree_legal enters (s : State) i j :
  i_insight_id j = i_insight_id i -> (tree_ok i -> tree_ok j) -> legal enters (s, i) (s, j).
Proof. intros Hi Ht. split; [|reflexivity]. by split; cbn. Qed.
Lemma core_legal enters (s : State) i j : core_view j = core_view i -> legal enters (s, i) (s, j).
Proof. intros Hc%fixed_core. apply tree_legal; [by apply fixed_id|by apply tree_fixed]. Qed.
Lemma context_legal enters (s s' : State) i :
  keeps s s' -> st_driver s' = st_driver s ->
  (base_ok s -> marks (st_insights s) (st_insights s') /\ c_materialized (st_insights s) ⊆ c_materialized (st_insights s')) ->
  legal enters (s, i) (s', i).
Proof.
  intros Hk Hd Hm. split; [|by apply same_driver_enters].
  split; cbn; [by apply keeps_upholds|intros Hs; apply (Hm Hs)|intros Hs; apply (Hm Hs)|done|done].
Qed.
Lemma ratio_legal enters (s : State) i ratio : legal enters (s, i) (s <| st_min_rr := ratio |>, i).
Proof. apply context_legal; [|done|done]. split; [intros [A B C]; by split|reflexivity|by intros held|done]. Qed.

(** The request marks what it gates. *)
Lemma schedule_cleanup_frame (s : State) id : st_insights (schedule_insight_cleanup s id) = st_insights s /\ st_driver (schedule_insight_cleanup s id) = st_driver s.
Proof. done. Qed.
Lemma schedule_descendants_frame (s : State) id :
  st_insights (schedule_descendant_cleanup s id) = st_insights s /\ st_driver (schedule_descendant_cleanup s id) = st_driver s.
Proof.
  unfold schedule_descendant_cleanup. generalize (descendant_ids_for_parents (st_insights s) {[id]}). intros l.
  revert s. induction l as [|x l IH]; intros s; simpl; [done|]. destruct (IH (schedule_insight_cleanup s x)) as [-> ->]. done.
Qed.
Lemma restore_materialized (c : InsightCollection) row c' :
  coll_ok (c <| c_insights := <[i_insight_id row := row]> (c_insights c) |>) ->
  restore_after_update c row true = Some c' -> c_materialized c ⊆ c_materialized c'.
Proof.
  intros Hok Hr. unfold restore_after_update in Hr. cbv zeta in Hr. cbn iota in Hr.
  destruct (refresh_form _ (i_insight_id row) row Hok) as (v & bs & bi & cn & o & E & _); [apply lookup_insert_eq|].
  rewrite E in Hr. injection Hr as <-. cbn. set_solver.
Qed.
Lemma request_cancellation_legal enters (s : State) id s' b i :
  request_insight_cancellation s id = Some (s', b) -> legal enters (s, i) (s', i).
Proof.
  unfold request_insight_cancellation. destruct (c_insights (st_insights s) !! id) as [row|] eqn:Hrow; [|intros [= <- <-]; reflexivity].
  destruct (match i_state row with New | Executed => false | _ => true end); [intros [= <- <-]; reflexivity|].
  unfold take_for_update. rewrite Hrow. set (row' := row <| i_suppress_child_entries := true |>). set (c0 := (st_insights s) <| c_insights := _ |>).
  destruct (restore_after_update c0 row' true) as [c'|] eqn:Hr; [|done]. intros [= <- <-].
  set (s1 := s <| st_insights := c' |>). destruct (schedule_descendants_frame (schedule_insight_cleanup s1 id) id) as [Ei Ed].
  assert (Hs : base_ok s -> coll_ok (c0 <| c_insights := <[i_insight_id row' := row']> (c_insights c0) |>) /\ i_insight_id row = id /\ tree_ok row').
  { intros Hs. destruct (row_known _ _ _ (bo_coll s Hs) Hrow) as (Hid & _ & Hm).
    assert (Ht : tree_ok row') by (eapply (tree_fixed row); [apply fixed_suppress|]; by eapply (bo_trees s Hs)).
    split; [|done]. apply coll_ok_put; [by apply coll_ok_drop, Hs|by apply tree_deps|done|].
    change (i_insight_id row') with (i_insight_id row). by rewrite Hid. }
  transitivity (s1, i); [apply context_legal|].
  - apply insights_keeps. intros Hb. destruct (Hs Hb) as (Hok & Hid & Ht).
    destruct (restore_ok c0 row' true) as (c2 & Hr2 & Hc2 & Ht2); [by apply coll_ok_drop, Hb| |done| |].
    + intros k r. cbn. intros [_ Hk]%lookup_delete_Some. by eapply (bo_trees s Hb).
    + change (i_insight_id row') with (i_insight_id row). destruct (row_known _ _ _ (bo_coll s Hb) Hrow) as (_ & _ & Hm). by rewrite Hid.
    + rewrite Hr in Hr2. injection Hr2 as <-. done.
  - done.
  - intros Hb. destruct (Hs Hb) as (Hok & Hid & _). split; cbn.
    + apply (restore_marks _ c0 row row' true); [by rewrite Hid| |exact Hok|exact Hr|done|done].
      rewrite Hid. reflexivity.
    + change (c_materialized (st_insights s)) with (c_materialized c0). by eapply restore_materialized.
  - apply context_legal; [|by rewrite Ed|by rewrite Ei].
    etrans; [apply schedule_cleanup_keeps|apply schedule_descendants_keeps].
Qed.

(** ** Operations of the pipes *)
Lemma close_legal enters now (s : State) i s' i' r : close now s i = (s', i', r) -> legal enters (s, i) (s', i').
Proof. intros E. eapply steps_legal, close_steps, E. Qed.
Lemma close_partial_legal enters now (s : State) i q p s' i' r :
  try_close_partial now s i q p = (s', i', r) -> legal enters (s, i) (s', i').
Proof. intros E. eapply steps_legal, close_steps, E. Qed.
Lemma expire_legal enters now (s : State) i s' i' r : expire_if_due now s i = (s', i', r) -> legal enters (s, i) (s', i').
Proof. intros E. eapply steps_legal, expire_steps, E. Qed.
Lemma submit_legal now (s : State) i s' i' r : submit now s i = (s', i', r) -> legal true (s, i) (s', i').
Proof. intros E. eapply steps_legal, submit_steps; [exact E|by left]. Qed.
Lemma poll_submission_legal enters now (s : State) i s' i' r :
  poll_pending_submission now s i = (s', i', r) -> legal enters (s, i) (s', i').
Proof.
  unfold poll_pending_submission. destruct (poll_mutation now s i KSubmit) as [[s1 i1] r1] eqn:E. intros [= <- <- _].
  eapply steps_legal, poll_steps, E.
Qed.
Lemma cancel_each_legal enters ids : forall n (s : State) s' r i, cancel_each ids n s = (s', r) -> legal enters (s, i) (s', i).
Proof.
  induction ids as [|id ids IH]; intros n s s' r i; simpl; [by intros [= <- _]|].
  destruct (request_insight_cancellation s id) as [[s1 b]|] eqn:E.
  - intros Hr. etrans; [by eapply request_cancellation_legal|by eapply IH].
  - by intros [= <- _].
Qed.

(** Splitting adds leaves. *)
Definition grown (i j : Insight) : Prop := i_insight_id j = i_insight_id i /\ (tree_ok i -> tree_ok j).
#[export] Instance grown_preorder : PreOrder grown.
Proof. split; [by split|]. intros i j k [A1 A2] [B1 B2]. split; [congruence|auto]. Qed.
Lemma grown_core i j : core_view j = core_view i -> grown i j.
Proof. intros Hc%fixed_core. split; [by apply fixed_id|by apply tree_fixed]. Qed.
Lemma grown_size i j : size_view j = size_view i -> grown i j.
Proof. intros E. apply grown_core. exact (f_equal (fun x => x.1.1) E). Qed.
Lemma grown_legal enters (s : State) i j : grown i j -> legal enters (s, i) (s, j).
Proof. intros [Hi Ht]. by apply tree_legal. Qed.
Lemma tree_children i children :
  tree_ok i -> (forall child, child ∈ children -> tree_ok child) -> tree_ok (i <| i_children := children |>).
Proof. intros Ht Hc. inversion Ht as [j Hd _]. subst j. constructor; [exact Hd|]. fields. exact Hc. Qed.
Lemma leaf_tree i : i_execution_data i = ∅ -> i_children i = [] -> tree_ok i.
Proof. intros Hd Hc. constructor; [unfold deps_ok; by rewrite Hd|]. rewrite Hc. by intros c Hin%elem_of_nil. Qed.
Lemma fragments_tree qs fs : Forall2 fragment qs fs -> forall child, child ∈ fs -> tree_ok child.
Proof.
  intros Hf child Hc. destruct (Forall2_in _ _ _ _ Hf Hc) as (q & _ & [_ _ Hch Hd]). by apply leaf_tree.
Qed.
Lemma tree_child i child : tree_ok i -> child ∈ i_children i -> tree_ok child.
Proof. intros Ht Hc. inversion Ht as [j _ Hall]. subst j. by apply Hall. Qed.
Lemma drop_grown i : grown i (drop_fragments i).
Proof.
  split; [done|]. intros Ht. apply tree_children; [done|]. intros child [Hc _]%list_elem_of_In%filter_In.
  apply (tree_child i); [done|by apply list_elem_of_In].
Qed.
Lemma split_grown now v ids n i target l i' n' r :
  apply_max_order_size_with_child_legs now v ids n i target l = (i', n', r) -> grown i i'.
Proof.
  unfold apply_max_order_size_with_child_legs. destruct (existsb _ _); [by intros [= <- _ _]|]. destruct (existsb _ _); [by intros [= <- _ _]|].
  cbv zeta. destruct (cap_asset_total_quantity _ _ _ _ _) as [i1 r1] eqn:Ec. apply cap_children in Ec as [E1%grown_size _].
  destruct r1 as [capped|e]; [|by intros [= <- _ _]]. destruct (available_pending_orders v i1) as [slots|e]; [|by intros [= <- _ _]].
  destruct (limit_by_slots _ _ _ _ _) as [[i2 target2] slots2] eqn:Es. apply slots_children in Es as [E2%grown_size _].
  assert (E : grown i i2) by (by etrans). clear E1 E2.
  destruct (plan_quantity_parts target2 l slots2) as [[|q fragments]|e]; [by intros [= <- _ _]| |by intros [= <- _ _]].
  destruct (options_feq _ _); [by intros [= <- _ _]|].
  destruct (create_children_form now ids fragments n (drop_fragments i2)) as (fs & -> & Hfs). intros [= <- _ _].
  etrans; [exact E|]. etrans; [apply drop_grown|]. split; [done|]. intros Ht. apply tree_children; [done|].
  intros child [Hc|Hc]%elem_of_app; [by apply (tree_child (drop_fragments i2))|by eapply fragments_tree].
Qed.
Lemma add_child_grown i child b : tree_ok child -> grown i (add_child_insight i child b).
Proof.
  intros Hc. split; [done|]. intros Ht. unfold add_child_insight. cbv zeta. apply tree_children; [done|].
  intros x [Hx|Hx]%elem_of_app; [by apply (tree_child i)|]. apply list_elem_of_singleton in Hx as ->.
  inversion Hc as [j Hd Hall]. subst j. split_match; constructor; fields; done.
Qed.
Lemma rejected_grown now i m : grown i (order_rejected now i m).
Proof. apply grown_core, core_order_rejected. Qed.
Lemma quantity_grown now i q : grown i (set_quantity now i q).
Proof. apply grown_core, core_set_quantity. Qed.
Lemma log_grown now i m : grown i (state_log now i m).
Proof. apply grown_core, core_state_log. Qed.

(** ** The pipes *)

(** An outcome that a pipe may leave. *)
Definition allowed (enters : bool) (s : State) (i : Insight) (out : State * Insight * InsightPipeResult) : Prop :=
  legal enters (s, i) out.1.
Lemma allowed_same enters (s : State) i r : allowed enters s i (s, i, r).
Proof. unfold allowed. reflexivity. Qed.
Lemma allowed_failed enters (s : State) i m n : allowed enters s i (failed s i m n).
Proof. apply allowed_same. Qed.
Lemma allowed_closing enters (s : State) i n : allowed enters s i (already_closing s i n).
Proof. apply allowed_same. Qed.
Lemma allowed_grown enters (s : State) i j r : grown i j -> allowed enters s i (s, j, r).
Proof. apply grown_legal. Qed.
Lemma allowed_after enters (s : State) i j out : grown i j -> allowed enters s j out -> allowed enters s i out.
Proof. intros Hg Ho. unfold allowed in *. etrans; [by eapply grown_legal|exact Ho]. Qed.
Lemma allowed_rejected enters (s : State) i m n : allowed enters s i (rejected s i m n).
Proof. apply allowed_grown, rejected_grown. Qed.
Lemma allowed_exit enters (s : State) i n : allowed enters s i (exit_by_close s i n).
Proof.
  unfold allowed, exit_by_close. destruct (close _ s i) as [[s' i'] r] eqn:E. by eapply close_legal.
Qed.
Lemma allowed_entry enters (s : State) i n out : positive_entry s i n = inr out -> allowed enters s i out.
Proof. unfold positive_entry. intros Hr. repeat (split_match_in Hr; simplify_eq); apply allowed_same. Qed.
Lemma allowed_size enters (s : State) i target l n m : allowed enters s i (size_order s i target l n m).
Proof.
  unfold size_order. destruct (apply_max_order_size_with_child_legs _ _ _ _ _ _ _) as [[j k] r] eqn:E. apply split_grown in E.
  destruct r; [|by eapply allowed_after, allowed_rejected]. apply allowed_grown. etrans; [exact E|apply quantity_grown].
Qed.
Lemma allowed_rounded enters (s : State) i q a n : allowed enters s i (rounded_order s i q a n).
Proof. unfold rounded_order. destruct (round_whole_or_fractional_quantity _ _ _ _); [apply allowed_size|apply allowed_rejected]. Qed.
Create HintDb pipes.
#[local] Hint Resolve allowed_same allowed_failed allowed_closing allowed_rejected allowed_exit allowed_size allowed_rounded : pipes.
(** Every branch of a pipe is one of these. *)
Ltac solve_pipe := repeat first [split_match | progress cbv zeta]; auto with pipes.

Lemma stop_loss_allowed enters (s : State) i : allowed enters s i (run_basic_stop_loss s i).
Proof. unfold run_basic_stop_loss. solve_pipe. Qed.
Lemma take_profit_hit_allowed enters (s : State) i l : allowed enters s i (take_profit_hit s i l).
Proof.
  unfold take_profit_hit. cbv zeta. destruct (1 <? length l); [|auto with pipes]. destruct (negb _); [auto with pipes|].
  destruct (try_close_partial _ s i _ _) as [[s' i'] r] eqn:E. apply (close_partial_legal enters) in E.
  destruct r as [[]|]; [|exact E|exact E]. unfold allowed. etrans; [exact E|]. apply grown_legal, grown_core, core_set_take_profit.
Qed.
Lemma take_profit_allowed enters (s : State) i : allowed enters s i (run_basic_take_profit s i).
Proof. unfold run_basic_take_profit. pose proof (take_profit_hit_allowed enters s i). solve_pipe. Qed.
Lemma cancel_opposite_allowed enters (s : State) i : allowed enters s i (run_cancel_opposite s i).
Proof.
  unfold run_cancel_opposite. cbv zeta. destruct (cancel_each _ 0 s) as [s' r] eqn:E.
  apply (cancel_each_legal enters) with (i := i) in E. by destruct r.
Qed.
Lemma market_changed_allowed enters (s : State) i : allowed enters s i (run_close_market_changed s i).
Proof. unfold run_close_market_changed. solve_pipe. Qed.
Lemma dynamic_allowed enters maximum minimum (s : State) i : allowed enters s i (run_dynamic_quantity maximum minimum s i).
Proof.
  unfold run_dynamic_quantity. cbv zeta. destruct (positive_entry s i _) eqn:E; [|by eapply allowed_entry].
  unfold dynamic_target, asset_missing. solve_pipe; apply allowed_grown, rejected_grown.
Qed.
Lemma full_account_allowed enters (s : State) i : allowed enters s i (run_full_account_quantity s i).
Proof.
  unfold run_full_account_quantity. cbv zeta. destruct (positive_entry s i _) eqn:E; [|by eapply allowed_entry].
  unfold asset_missing. solve_pipe.
Qed.
Lemma percentage_allowed enters percent (s : State) i : allowed enters s i (run_percentage_risk percent s i).
Proof.
  unfold run_percentage_risk, asset_missing. cbv zeta. destruct (ctx_universe s !! _); [|auto with pipes].
  destruct (ctx_account s); [|auto with pipes]. destruct (_ || _); [auto with pipes|].
  destruct (positive_entry s i _) eqn:E; [|by eapply allowed_entry]. solve_pipe.
Qed.
Lemma insight_submit_allowed (s : State) i : allowed true s i (run_insight_submit s i).
Proof.
  unfold run_insight_submit. cbv zeta. destruct (has_pending_submit i).
  - destruct (poll_pending_submission _ s i) as [[s' i'] r] eqn:E. by eapply poll_submission_legal.
  - destruct (bool_decide _); [|auto with pipes]. destruct (_ && _); [auto with pipes|].
    destruct (validate_pending_tree_limits _ i); [|apply allowed_grown, log_grown].
    destruct (submit _ s i) as [[s' i'] r] eqn:E. by eapply submit_legal.
Qed.
Lemma ttl_allowed enters a b (s : State) i : allowed enters s i (run_insight_ttl_config a b s i).
Proof. apply allowed_grown. apply grown_size. by rewrite size_till_tp, size_unfilled. Qed.
Lemma market_entry_allowed enters (s : State) i : allowed enters s i (run_market_order_entry s i).
Proof. unfold run_market_order_entry. solve_pipe. apply allowed_grown, grown_core, core_set_limit_price. Qed.
Lemma check_reward_allowed enters (s : State) i : allowed enters s i (check_reward s i).
Proof. unfold check_reward, judge_reward. solve_pipe; apply allowed_grown, rejected_grown. Qed.
Lemma reward_allowed enters ratio (s : State) i : allowed enters s i (run_minimum_risk_to_reward ratio s i).
Proof.
  unfold run_minimum_risk_to_reward. destruct ratio as [ratio|]; [|apply check_reward_allowed].
  destruct (_ || _); [auto with pipes|]. unfold allowed. etrans; [apply ratio_legal|apply check_reward_allowed].
Qed.
Lemma expired_allowed enters (s : State) i : allowed enters s i (run_reject_expired s i).
Proof.
  unfold run_reject_expired. destruct (expire_if_due _ s i) as [[s' i'] r] eqn:E. apply (expire_legal enters) in E. by destruct r.
Qed.
Lemma scale_close_allowed enters (s : State) i sh th sl tp k lv q b : allowed enters s i (scale_close s i sh th sl tp k lv q b).
Proof.
  unfold scale_close. destruct (try_close_partial _ s i _ _) as [[s' i'] r] eqn:E. apply (close_partial_legal enters) in E.
  destruct r as [[]|]; [|exact E|exact E]. unfold allowed. etrans; [exact E|]. cbv zeta. apply grown_legal, grown_core.
  repeat split_match; rewrite ?core_set_stop_loss, ?core_set_take_profit; done.
Qed.
Lemma scale_out_allowed enters fraction (s : State) i : allowed enters s i (run_scale_out fraction s i).
Proof. unfold run_scale_out. pose proof (scale_close_allowed enters s i) as Hc. solve_pipe. Qed.

(** The levels of a DCA stack. *)
Lemma dca_child_tree (s : State) n i price quantity l child n' count :
  dca_child s n i price quantity l = Ok (child, n', count) -> tree_ok child.
Proof.
  unfold dca_child. destruct (apply_max_order_size_with_child_legs _ _ _ _ (dca_level s n i price) _ _) as [[child1 k] [split|e]] eqn:E; [|done].
  apply split_grown in E as [_ Ht]. intros [= <- _ _]. apply quantity_grown, Ht. apply (grown_size (insight_new (ctx_fresh s n) (ctx_clock s)
    (i_side i) (i_symbol i) (i_strategy_type i) (i_timeframe i) (i_confidence i) (Some (i_insight_id i)))).
  - unfold dca_level. cbv zeta. by autorewrite with size_frame.
  - by apply leaf_tree.
Qed.
Lemma dca_children_grown (s : State) rows l : forall n count i i' r, dca_children s n count i rows l = (i', r) -> grown i i'.
Proof.
  induction rows as [|[price quantity] rows IH]; intros n count i i' r; simpl; [by intros [= <- _]|].
  destruct (dca_child s n i price quantity l) as [[[child n'] k]|e] eqn:E; [|by intros [= <- _]].
  intros Hr%IH. etrans; [by eapply add_child_grown, dca_child_tree|exact Hr].
Qed.
Lemma stop_grown now i stop : grown i (set_stop_loss now (drop_fragments i) (Some stop)).
Proof. etrans; [apply drop_grown|]. apply grown_core. unfold set_stop_loss. apply core_set_stop_loss. Qed.
Lemma dca_build_allowed enters (s : State) i levels prices quantities stop l :
  allowed enters s i (dca_build s i levels prices quantities stop l).
Proof.
  unfold dca_build. cbv zeta. eapply allowed_after; [apply stop_grown|].
  destruct (apply_max_order_size_with_child_legs _ _ _ _ _ _ _) as [[i1 n] r] eqn:E. apply split_grown in E.
  eapply allowed_after; [exact E|]. destruct r as [split|e]; [|auto with pipes].
  eapply allowed_after; [apply quantity_grown|]. destruct (dca_children _ _ _ _ _ _) as [i2 r] eqn:Ed. apply dca_children_grown in Ed.
  eapply allowed_after; [exact Ed|]. destruct r; [|auto with pipes].
  destruct (validate_pending_tree_limits _ i2); [auto with pipes|apply allowed_grown, log_grown].
Qed.
Lemma dca_plan_allowed enters (s : State) i percentage levels entry stop desired l :
  allowed enters s i (dca_plan s i percentage levels entry stop desired l).
Proof.
  unfold dca_plan. cbv zeta. destruct (existsb _ _); [auto with pipes|].
  destruct (cap_quantity_levels _ _ i _ l) as [i1 r] eqn:E. apply cap_levels_size, grown_size in E. eapply allowed_after; [exact E|].
  pose proof (dca_build_allowed enters s i1) as Hb. solve_pipe.
Qed.
Lemma dca_allowed enters percentage levels (s : State) i : allowed enters s i (run_percentage_dca percentage levels s i).
Proof.
  unfold run_percentage_dca. repeat (case_match; auto with pipes).
  all: match goal with Hc : cap_asset_total_quantity _ _ _ _ _ = _ |- _ => apply cap_children in Hc as [Hc%grown_size _] end.
  - eapply allowed_after; [eassumption|apply dca_plan_allowed].
  - by apply allowed_grown.
Qed.

Definition is_submit_pipe (p : BuiltinPipe) : bool := match p with InsightSubmitPipe => true | _ => false end.
Lemma builtin_runs p (s : State) i p' s' i' r :
  builtin_run p s i = (p', s', i', r) -> legal (is_submit_pipe p) (s, i) (s', i') /\ leaf_layout (C := State) p' = leaf_layout (C := State) p.
Proof.
  assert (Hout : forall out b, allowed b s i out -> (let '(ctx, j, q) := out in (p, ctx, j, q)) = (p', s', i', r) ->
    legal b (s, i) (s', i') /\ leaf_layout (C := State) p' = leaf_layout (C := State) p).
  { intros [[s1 i1] r1] b Ha [= <- <- <- <-]. done. }
  destruct p; cbn [builtin_run is_submit_pipe]; try (apply Hout).
  - unfold run_allow_trading_window. intros [= <- <- <- <-]. done.
  - apply stop_loss_allowed.
  - apply take_profit_allowed.
  - apply cancel_opposite_allowed.
  - apply market_changed_allowed.
  - apply dynamic_allowed.
  - unfold run_end_of_day_close. cbv zeta. pose proof (allowed_exit false s i "EndOfDayClosePipe") as He.
    repeat match goal with |- context [if ?b then _ else _] => destruct b end;
      repeat match goal with |- context [exit_by_close s i ?n] => destruct (exit_by_close s i n) as [[s1 i1] r1] end;
      intros [= <- <- <- <-]; split; try done; exact He.
  - apply full_account_allowed.
  - apply insight_submit_allowed.
  - apply ttl_allowed.
  - apply market_entry_allowed.
  - apply reward_allowed.
  - apply dca_allowed.
  - apply percentage_allowed.
  - apply expired_allowed.
  - apply scale_out_allowed.
Qed.
#[local] Instance builtin_laws : PipeLaws (P := BuiltinPipe).
Proof.
  split; try reflexivity.
  - intros l s i l' s' i' r Hr. exact (lg_effect _ _ _ (proj1 (builtin_runs _ _ _ _ _ _ _ Hr))).
  - intros l s i l' s' i' r Hr. exact (proj2 (builtin_runs _ _ _ _ _ _ _ Hr)).
Qed.

(** ** Pipelines of built-in pipes *)

(** C13 A strategy whose pipeline is made of the built-in pipes, composites included, is never broken by running
    it: whichever insights a run visits, whatever the pipes read of the market, wherever the budget ends
    it, it returns; the components are consistent afterwards, the index of snapshot waits lists exactly
    the suspended insights, and every broker command has moved along its life. *)
Theorem builtin_pipelines_keep_strategy (s : State) sel mode :
  owner_ok s -> index_mirrors (st_pipeline s) ->
  exists s' last n ring, run_insight_pipeline_budgeted s sel mode = Some (s', last, n, ring) /\
    owner_ok s' /\ index_mirrors (st_pipeline s') /\ commands_follow s s'.
Proof.
  intros Hs Hm. destruct (run_owner s sel mode Hs Hm) as (s' & last & n & ring & E & Hs' & Hm' & Hw).
  exists s', last, n, ring. split; [done|]. split; [done|]. split; [done|]. by apply works_follow; [apply Hs|].
Qed.

(** C14 Entries come from [InsightSubmitPipe] alone, and only for the insight it runs on: after a run of any other
    built-in pipe the driver holds no entry command that it did not hold before, and after a run of that
    pipe only entries of this insight are new. *)
Theorem entries_come_from_submit p (s : State) i p' s' i' r :
  builtin_run p s i = (p', s', i', r) ->
  enters_only (if is_submit_pipe p then Some (i_insight_id i) else None) s s' /\ i_insight_id i' = i_insight_id i.
Proof. intros Hr. destruct (builtin_runs _ _ _ _ _ _ _ Hr) as [[He Hn] _]. split; [exact Hn|exact (ef_id _ _ He)]. Qed.

(** ** Sizing *)

(** What the account can buy, and for the two risk pipes what the risk budget allows. *)
Definition working_capital (s : State) (i : Insight) (account : Account) (asset : Asset) (maximum : f64) : f64 :=
  let working := effective_buying_power s account asset ⊗ (f64_of_Z (Z.min (i_confidence i) 100) ⊘ f100) in
  if maximum <. working then maximum else working.
Definition purchase_limit (p : BuiltinPipe) (s : State) (i : Insight) (account : Account) (asset : Asset) (entry stop : f64)
    : option f64 :=
  let power := effective_buying_power s account asset in
  let price := entry ⊗ asset_multiplier asset in
  let risk := fabs (entry ⊖ stop) ⊗ asset_multiplier asset in
  match p with
  | FullAccountQuantityToRiskPipe => Some (power ⊘ price)
  | DynamicQuantityToRiskPipe maximum _ =>
      let working := working_capital s i account asset maximum in
      Some (fmin ((working ⊗ ctx_execution_risk s) ⊘ risk) (working ⊘ price))
  | PercentageRiskToQuantityPipe percent =>
      Some (fmin ((account_size_from_equity_or_cash account ⊗ risk_rate percent) ⊘ risk) (power ⊘ price))
  | _ => None
  end.
(** The insight is a split of a target within [limit]. *)
Definition sized (s : State) (asset : Asset) (limit : f64) (i i' : Insight) : Prop :=
  exists target j split, target <=. fmax limit f0 = true /\ split_ok (sizing_of s) target (from_asset asset) i j split /\
    i' = set_quantity (ctx_clock s) j (Some (qs_parent_quantity split)).
Lemma floor_below q l : floor_quantity q l <=. fmax q f0 = true.
Proof.
  destruct (floor_quantity_le q l) as [Hz|[Hn Hq]].
  - eapply fle_trans; [exact Hz|]. apply fmax_ge_r. reflexivity.
  - eapply fle_trans; [exact Hq|]. unfold fmax. rewrite Hn. simpl. destruct (q <. f0) eqn:E; [by apply flt_fle|by apply fle_refl].
Qed.
Lemma passed_rejected (s : State) i m n : pr_passed (rejected s i m n).2 = false.
Proof. done. Qed.
Lemma size_order_sized (s : State) i target asset limit n m s' i' r :
  size_order s i target (from_asset asset) n m = (s', i', r) -> pr_passed r = true -> target <=. fmax limit f0 = true ->
  sized s asset limit i i'.
Proof.
  unfold size_order. destruct (apply_max_order_size_with_child_legs _ _ _ _ _ _ _) as [[j k] [split|e]] eqn:E; intros [= <- <- <-]; [|done].
  intros _ Ht. exists target, j, split. split; [done|]. split; [|done]. eapply split_result, E.
Qed.
Lemma rounded_order_sized (s : State) i q asset n s' i' r :
  rounded_order s i q asset n = (s', i', r) -> pr_passed r = true -> sized s asset q i i'.
Proof.
  unfold rounded_order, round_whole_or_fractional_quantity. destruct (ctx_universe s !! i_symbol i) as [a|]; [|by intros [= <- <- <-]].
  destruct (validate_sized_quantity _ _ _); [|by intros [= <- <- <-]]. intros Hr Hp. eapply size_order_sized; [exact Hr|done|apply floor_below].
Qed.

Lemma read_error_fails e n : pr_passed (from_read_error e n) = false.
Proof. by destruct e. Qed.
Lemma entry_outcome (s : State) i n :
  match positive_entry s i n with
  | inl entry => sizing_entry_price s i = Ok entry
  | inr out => pr_passed out.2 = false
  end.
Proof.
  unfold positive_entry. destruct (sizing_entry_price s i); [by destruct (_ && _)|apply read_error_fails].
Qed.
(** A pipe ends without passing, leaves the insight, or has sized it. *)
Definition sizing_outcome (p : BuiltinPipe) (s : State) (i : Insight) (out : State * Insight * InsightPipeResult) : Prop :=
  pr_passed out.2 = false \/ out.1.2 = i \/
  exists asset account entry stop limit,
    ctx_universe s !! i_symbol i = Some asset /\ ctx_account s = Ok account /\ sizing_entry_price s i = Ok entry /\
    stop_loss i = Some stop /\ validate_stop_for_side i entry stop = Ok () /\
    purchase_limit p s i account asset entry stop = Some limit /\ sized s asset limit i out.1.2.
Lemma sizing_failed p (s : State) i m n : sizing_outcome p s i (failed s i m n).
Proof. by left. Qed.
Lemma sizing_read_error p (s s' : State) i j e n : sizing_outcome p s i (s', j, from_read_error e n).
Proof. left. apply read_error_fails. Qed.
Lemma sizing_same p (s s' : State) i r : sizing_outcome p s i (s', i, r).
Proof. by right; left. Qed.
Lemma sizing_sized p (s : State) i asset account entry stop limit out :
  ctx_universe s !! i_symbol i = Some asset -> ctx_account s = Ok account -> sizing_entry_price s i = Ok entry ->
  stop_loss i = Some stop -> validate_stop_for_side i entry stop = Ok () ->
  purchase_limit p s i account asset entry stop = Some limit ->
  (pr_passed out.2 = true -> sized s asset limit i out.1.2) -> sizing_outcome p s i out.
Proof.
  intros Ea Ec Ee Es Ev El Hout. destruct (pr_passed out.2) eqn:Hp; [|by left]. right; right.
  exists asset, account, entry, stop, limit. eauto 10.
Qed.
#[local] Hint Resolve sizing_failed sizing_read_error sizing_same : pipes.
Lemma rounded_sized (s : State) i q asset n :
  let out := rounded_order s i q asset n in pr_passed out.2 = true -> sized s asset q i out.1.2.
Proof. cbv zeta. destruct (rounded_order s i q asset n) as [[s' i'] r] eqn:E. intros Hp. by eapply rounded_order_sized. Qed.
Lemma target_sized (s : State) i q asset n m :
  let out := size_order s i (floor_quantity q (from_asset asset)) (from_asset asset) n m in
  pr_passed out.2 = true -> sized s asset q i out.1.2.
Proof.
  cbv zeta. destruct (size_order s i _ _ n m) as [[s' i'] r] eqn:E. intros Hp. eapply size_order_sized; [exact E|done|apply floor_below].
Qed.
Lemma dynamic_outcome maximum minimum (s : State) i :
  sizing_outcome (DynamicQuantityToRiskPipe maximum minimum) s i (run_dynamic_quantity maximum minimum s i).
Proof.
  unfold run_dynamic_quantity. cbv zeta. pose proof (entry_outcome s i "DynamicQuantityToRiskPipe") as He.
  destruct (positive_entry s i _) as [entry|out]; [|by left]. destruct (stop_loss i) as [stop|] eqn:Es; [|auto with pipes].
  destruct (is_some (i_quantity i)); [auto with pipes|]. destruct (validate_stop_for_side i entry stop) as [[]|e] eqn:Ev; [|auto with pipes].
  destruct (negb _); [auto with pipes|]. destruct (ctx_universe s !! i_symbol i) as [asset|] eqn:Ea; [|apply sizing_failed].
  destruct (ctx_account s) as [account|e] eqn:Ec; [|auto with pipes]. destruct (_ || _); [auto with pipes|]. destruct (_ <. minimum); [by left|].
  unfold dynamic_target. cbv zeta. destruct (_ <=. f0); [auto with pipes|]. eapply sizing_sized; try done. apply rounded_sized.
Qed.
Lemma full_account_outcome (s : State) i : sizing_outcome FullAccountQuantityToRiskPipe s i (run_full_account_quantity s i).
Proof.
  unfold run_full_account_quantity. cbv zeta. pose proof (entry_outcome s i "FullAccountQuantityToRiskPipe") as He.
  destruct (positive_entry s i _) as [entry|out]; [|by left]. destruct (stop_loss i) as [stop|] eqn:Es; [|auto with pipes].
  destruct (validate_stop_for_side i entry stop) as [[]|e] eqn:Ev; [|auto with pipes].
  destruct (ctx_universe s !! i_symbol i) as [asset|] eqn:Ea; [|apply sizing_failed].
  destruct (ctx_account s) as [account|e] eqn:Ec; [|auto with pipes]. destruct (_ || _); [auto with pipes|].
  eapply sizing_sized; try done. apply rounded_sized.
Qed.
Lemma percentage_outcome percent (s : State) i :
  sizing_outcome (PercentageRiskToQuantityPipe percent) s i (run_percentage_risk percent s i).
Proof.
  unfold run_percentage_risk. cbv zeta. destruct (ctx_universe s !! i_symbol i) as [asset|] eqn:Ea; [|apply sizing_failed].
  destruct (ctx_account s) as [account|e] eqn:Ec; [|auto with pipes]. destruct (_ || _); [auto with pipes|].
  pose proof (entry_outcome s i "PercentageRiskToQuantityPipe") as He.
  destruct (positive_entry s i _) as [entry|out]; [|by left]. destruct (stop_loss i) as [stop|] eqn:Es; [|auto with pipes].
  destruct (negb (f0 <. stop)); [auto with pipes|]. destruct (validate_stop_for_side i entry stop) as [[]|e] eqn:Ev; [|auto with pipes].
  destruct (_ <=. EPSILON); [auto with pipes|]. destruct (_ || _); [auto with pipes|].
  eapply sizing_sized; try done. apply target_sized.
Qed.
Definition is_sizing_pipe (p : BuiltinPipe) : bool :=
  match p with DynamicQuantityToRiskPipe _ _ | FullAccountQuantityToRiskPipe | PercentageRiskToQuantityPipe _ => true | _ => false end.

(** C15 The sizing pipes stay in their budget: when one of the three passes, the insight is as it was, or the asset, the account,
    an entry price and a valid stop were known and the insight is a split, within the limits of the asset
    and of what other insights leave, of a target that is not above what the account can buy at this price
    and, for the two risk pipes, not above what the configured risk allows at this distance to the stop. *)
Theorem sizing_pipes_stay_in_budget p (s : State) i p' s' i' r :
  is_sizing_pipe p = true -> builtin_run p s i = (p', s', i', r) -> pr_passed r = true ->
  i' = i \/ exists asset account entry stop limit,
    ctx_universe s !! i_symbol i = Some asset /\ ctx_account s = Ok account /\ sizing_entry_price s i = Ok entry /\
    stop_loss i = Some stop /\ validate_stop_for_side i entry stop = Ok () /\
    purchase_limit p s i account asset entry stop = Some limit /\ sized s asset limit i i'.
Proof.
  intros Hp Hr Hpass. assert (Hout : forall out, (let '(ctx, j, q) := out in (p, ctx, j, q)) = (p', s', i', r) ->
    sizing_outcome p s i out -> sizing_outcome p s i (s', i', r)) by (by intros [[s1 i1] r1] [= <- <- <- <-]).
  assert (Ho : sizing_outcome p s i (s', i', r)).
  { destruct p; try done; eapply Hout; try exact Hr; [apply dynamic_outcome|apply full_account_outcome|apply percentage_outcome]. }
  destruct Ho as [Hf|Ho]; [cbn in Hf; congruence|exact Ho].
Qed.
End Facts.

(** ** A pipeline that sizes an entry and submits it *)
Module PipesDemo.
Definition account : Account :=
  mkAccount "a" Live 10000%float 10000%float "USD" 100000%float 0%float true 1%Z None.
Definition view : MarketView := {|
  mv_mode := LiveMode; mv_native_bid_ask := true;
  mv_quote symbol := Ok (mkQuote symbol 99%float 101%float 0%float 0%float None None 0%Z);
  mv_history := ∅; mv_account := Ok account; mv_cached_account := Some account; mv_execution_risk := 0.02%float;
  mv_order := [7%N]; mv_clock := 5%Z; mv_fresh n := N.of_nat (100 + n)
|}.
#[local] Existing Instances ids_json RunDemo.shape OwnerDemo.receipts OwnerDemo.names OwnerDemo.layouts.
Definition market (s : StrategyState BuiltinPipe) : MarketView := view.
#[local] Instance market_of : MarketContext (StrategyState BuiltinPipe) := market_context market.
#[local] Instance leaf_of : LeafPipe BuiltinPipe (StrategyState BuiltinPipe) := leaf market.
Definition trade : Insight :=
  let i := insight_new 7%N 0%Z Buy "BTCUSD" Manual default_timeframe 90%Z None in
  set_stop_loss 1%Z (set_limit_price 1%Z i (Some 100%float)) (Some 90%float).
Definition built : InsightPipeline BuiltinPipe :=
  mkPipeline {[ New := map (fun p => build_default (Leaf p))
    [BasicStopLossPipe; PercentageRiskToQuantityPipe 5; InsightSubmitPipe] ]} ∅ no_dependencies.
Definition start : StrategyState BuiltinPipe :=
  mkState collection_new (Some demo_driver) default_queue built default_persistence []
    {["BTCUSD"%string := demo_asset]} [FOcoOrder] Running false None 0%Z 0%Z 0 2%float.
Definition watched : StrategyState BuiltinPipe :=
  start <| st_insights := default collection_new (add_insight collection_new trade) |>.
Lemma pipes_started : started start.
Proof. split; try done. intros d [= <-]. by exists demo_idle, 0%Z. Qed.
Lemma pipes_ok : owner_ok watched.
Proof.
  assert (Ht : tree_ok trade) by (apply OwnerDemo.leaf_ok; vm_compute; reflexivity).
  destruct (add_insight collection_new trade) as [c|] eqn:Ec; [|exfalso; vm_compute in Ec; discriminate Ec].
  unfold watched. rewrite Ec. exact (owner_step_ok _ _ (os_insight start trade c Ht Ec) (started_ok _ pipes_started)).
Qed.
Lemma pipes_index : index_mirrors (st_pipeline watched).
Proof. split; [apply SnapshotIndex.no_dependencies_ok|]. intros id. cbn. by rewrite !lookup_empty. Qed.

(** Five percent of ten thousand at a distance of ten are fifty units, in five orders of ten; the
    entry of the first waits for the broker. *)
Lemma builtin_pipelines_keep_strategy_witness :
  exists s' last n ring, run_insight_pipeline_budgeted watched (Selected [7%N]) (Within RunDemo.free) = Some (s', last, n, ring) /\
    owner_ok s' /\ dr_index <$> ip_deferred (st_pipeline s') !! 7%N = Some 2 /\
    ((fun row => (i_quantity row, map i_quantity (i_children row))) <$> c_insights (st_insights s') !! 7%N) =
      Some (Some 10%float, replicate 4 (Some 10%float)).
Proof.
  destruct (builtin_pipelines_keep_strategy market watched (Selected [7%N]) (Within RunDemo.free) pipes_ok pipes_index)
    as (s' & last & n & ring & E & Hok & _).
  exists s', last, n, ring. split; [exact E|]. split; [exact Hok|]. vm_compute in E.
  injection E as <- <- <- <-. split; vm_compute; reflexivity.
Defined.
Definition sized_trade : StrategyState BuiltinPipe * Insight * InsightPipeResult := run_percentage_risk 5 watched trade.
Lemma entries_come_from_submit_witness :
  enters_only None watched sized_trade.1.1 /\
  ((fun d => map (fun row => pd_owner_id row.2) (map_to_list (d_pending d))) <$>
     st_driver (run_insight_submit watched sized_trade.1.2).1.1) = Some [7%N].
Proof.
  split.
  - destruct sized_trade as [[s1 i1] r1] eqn:E.
    apply (entries_come_from_submit market (PercentageRiskToQuantityPipe 5) watched trade (PercentageRiskToQuantityPipe 5) s1 i1 r1).
    cbn [builtin_run]. change (run_percentage_risk 5 watched trade) with sized_trade. by rewrite E.
  - vm_compute. reflexivity.
Defined.
Lemma sizing_pipes_stay_in_budget_witness :
  i_quantity sized_trade.1.2 = Some 10%float /\
  exists asset limit, purchase_limit market (PercentageRiskToQuantityPipe 5) watched trade account asset 100%float 90%float = Some limit /\
    limit = 50%float /\ sized market watched asset limit trade sized_trade.1.2.
Proof.
  split; [vm_compute; reflexivity|]. destruct sized_trade as [[s1 i1] r1] eqn:E.
  destruct (sizing_pipes_stay_in_budget market (PercentageRiskToQuantityPipe 5) watched trade (PercentageRiskToQuantityPipe 5) s1 i1 r1)
    as [Hsame|(asset & acc & entry & stop & limit & Ha & Hc & He & Hs & _ & Hl & Hz)].
  - reflexivity.
  - cbn [builtin_run]. change (run_percentage_risk 5 watched trade) with sized_trade. by rewrite E.
  - assert (Hp : pr_passed sized_trade.2 = true) by (vm_compute; reflexivity). by rewrite E in Hp.
  - exfalso. assert (Hq : is_some (i_quantity sized_trade.1.2) = true) by (vm_compute; reflexivity). rewrite E in Hq. cbn in Hq.
    rewrite Hsame in Hq. vm_compute in Hq. discriminate Hq.
  - assert (acc = account) as -> by (vm_compute in Hc; by injection Hc).
    assert (entry = 100%float) as -> by (vm_compute in He; by injection He).
    assert (stop = 90%float) as -> by (vm_compute in Hs; by injection Hs).
    assert (asset = demo_asset) as -> by (vm_compute in Ha; by injection Ha).
    exists demo_asset, limit. split; [exact Hl|]. split; [|exact Hz]. vm_compute in Hl. by injection Hl.
Defined.

(** Forty units over the entry and two levels, one and two percent below it, each above ten in two orders. *)
Definition whole_trade : Insight := set_quantity 2%Z trade (Some 40%float).
Definition stacked : StrategyState BuiltinPipe * Insight * InsightPipeResult := run_percentage_dca 0.01%float 2 watched whole_trade.
Lemma dca_stack_within_limits_witness :
  stack_ok watched 2 demo_asset whole_trade stacked.1.2 /\
  map i_limit_price (others_of stacked.1.2) = [Some 99%float; Some 98%float] /\
  map (fun i => length (fragments_of i)) (stacked.1.2 :: others_of stacked.1.2) = [1; 1; 1].
Proof.
  assert (Hd : is_some (i_quantity stacked.1.2) = true /\ length (i_children stacked.1.2) = 3 /\ pr_passed stacked.2 = true) by (vm_compute; done).
  split; [|split; vm_compute; reflexivity]. destruct stacked as [[s1 i1] r1] eqn:E. destruct Hd as (_ & Hlen & Hp).
  destruct (dca_stack_within_limits 0.01%float 2 watched whole_trade s1 i1 r1 E Hp) as [Hsame|(asset & Ha & Hs)].
  - exfalso. cbn in Hlen. rewrite Hsame in Hlen. vm_compute in Hlen. discriminate Hlen.
  - assert (asset = demo_asset) as -> by (vm_compute in Ha; by injection Ha). exact Hs.
Defined.
End PipesDemo.
